(* ===== verification/_CoqProject ===== *)
-Q . S2P
Prelude.v
Bytes.v
Tables.v
Asio.v
Schedule.v
Drain.v
IoThreads.v
PQueue.v
TurboFrame.v
TurboClient.v
TurboClientRx.v
TurboParse.v
TurboClientTx.v
TurboClientTimers.v
TurboServer.v
TurboServerProps.v
TurboNet.v
TurboLife.v
TurboServerMain.v
Gateway.v
GatewayNet.v
GatewayMain.v
TcpPacket.v
TcpReader.v
TcpConnection.v
TcpConnectionProps.v
TcpServer.v
TcpServerProps.v
TcpClient.v
TcpClientProps.v
TcpNet.v
QwenSession.v
QwenSessionProps.v
QwenServer.v
QwenServerProps.v
QwenReactor.v
Smpp.v
SmppProps.v
SmppNet.v
SmppMain.v
ThreadPool.v
EpollServer.v
EpollServerProps.v
EpollPool.v
Text.v
QwenMain.v
ServerConsole.v
TcpServerMain.v
ClientConsole.v
ClientConsoleProps.v
EpollMain.v
TcpClientMain.v
