(* ===== verification/Prelude.v ===== *)
(** * Verification of turbo-net

    The repository holds several small networking programs in C++, mostly on
    Boost.Asio:

    - src/turbonet_client.{h,cpp}, src/turbonet_server.{h,cpp}: a client and a
      server for packets with a 10-byte header; src/client.cpp and
      src/server.cpp are example programs, src/gateway.cpp puts a server in
      front of a client;
    - src/claude/asio_server.cpp, src/claude/asio_client.cpp: a server and a
      client with request/response tables, timeouts and reconnection;
    - src/claude/server.cpp: an epoll server with a thread pool;
    - src/qwen/server.cpp: a server with sessions, heartbeats and statistics;
    - src/new_chatgpt/main.cpp: an SMPP session, used by a client and a server.

    ** How a program is modelled

    A class is a record of its data members; a member function is a definition
    of the same name in the monad [act] (state, effects performed, result); a
    completion handler, a posted closure or a lambda is a definition of its own,
    named after the function it is in. What the source leaves to Boost.Asio and
    the operating system is the contract of Asio.v: a step relation over the
    operations a program has outstanding, in which any of them may fail, posted
    closures of a strand run in order and timers may race with their
    cancellation. "Over every run" in a theorem means over every run of that
    relation ([reachable]), with arbitrary bytes from the peer and arbitrary
    calls of the public interface. [feed] is the run that lets the outstanding
    read complete as long as bytes are there; the theorems about byte streams
    use it with fuel of at least two steps per packet, which is what a packet
    needs (one read of its header, one of its body).

    Integers are [Z] with their wrap-around written out ([u8], [u32], [u64],
    [i32]); buffers are lists of bytes. The byte order of the host is a class
    ([Host], Bytes.v), and results about two machines quantify over both.
    Callbacks of the user are numbers; invoking one is an effect that is logged.

    ** Files

    - Prelude (this file): notations, record update, the monad, properties of
      handlers that compose ([Compositional], [keeps]), tactics. Bytes:
      representation of integers, [htonl], [memcpy]. Tables: erasing from and
      collecting the keys of maps. Asio: the I/O contract, and the timers an
      object relies on ([watched]). Schedule: an executable scheduler for it.
      Drain: the interface [Drains] of objects whose I/O context can run out of
      work ([can_drain]). IoThreads: the threads of a context, its [stop] and
      the [join]s. PQueue: the interface of [std::priority_queue], with an
      implementation.
    - TurboFrame: the packet format ([packet_roundtrip]). TurboClient:
      class [TurboNetClient]. TurboClientRx, TurboClientTx, TurboClientTimers:
      its reading ([client_receives_frames]), its writing
      ([client_io_discipline], and how packets get lost) and its response
      timeouts ([sweep_reports_due_requests]). TurboParse: a reference parser
      of byte streams and its equivalence with the client's read loop
      ([client_equals_parser]).
    - TurboServer: [TurboNetServer] and its sessions. TurboServerProps: a
      session refines its packet-level contract ([session_serves_frames]), only
      authenticated sessions reach the application
      ([requests_are_authorised]), the number of sessions is bounded.
    - TurboNet: the callbacks of the example programs, and client and server end
      to end ([echo_end_to_end]). TurboLife: client.cpp and the lifetime of its
      client, which is destroyed by whoever drops the last reference
      ([client_outlives_its_operations], [client_program_refines_client]).
      TurboServerMain: server.cpp, its threads and its shut-down
      ([server_program_ends], [server_shutdown_terminates]).
    - Gateway: the gateway's two lambdas, interleaved
      ([reply_reaches_its_producer]). GatewayNet: a request through the
      gateway's server, lambdas and client, on bytes ([gateway_relays]).
      GatewayMain: the whole of gateway.cpp, up to the order in which its locals
      are destroyed ([gateway_answers_once], [gateway_program_routes]).
    - TcpPacket: the packets of the claude programs. TcpReader: the reading
      loop that server and client share, proved once against the interface
      [PacketReader]. TcpConnection, TcpConnectionProps: one connection of the
      server ([connection_write_fifo], [connection_serves_packets]).
      TcpServer, TcpServerProps: the registry and the request table
      ([pending_request_times_out]). TcpClient, TcpClientProps: the client
      ([tcp_client_receives_packets], [client_requests_are_watched]). TcpNet:
      a request and its response end to end ([tcp_request_answered]).
    - QwenSession, QwenSessionProps, QwenServer, QwenServerProps: the sessions
      of the qwen server ([qwen_session_serves_frames]) and its tables
      ([qwen_sessions_counted]). QwenReactor: the server with its accept and
      its timers ([qwen_server_stays_responsive], [qwen_request_times_out]).
      QwenMain: its [main] ([qwen_program_refines_reactor]).
    - Smpp, SmppProps: SMPP PDUs and sessions ([smpp_session_receives_pdus],
      [smpp_session_no_undefined_behaviour], [smpp_requests_are_timed],
      [smpp_callbacks_well_typed]). SmppNet: the server over its sessions
      ([smpp_server_only_answers_binds]) and a bind end to end
      ([smpp_bind_exchange]). SmppMain: its [main]
      ([smpp_program_refines_session]).
    - ThreadPool: the worker pool of the epoll server ([pool_finishes]).
      EpollServer, EpollServerProps: its event loop and tasks, interleaved
      ([epoll_descriptors_owned], [removal_hits_own_connection],
      [stopped_loop_returns]). EpollPool: the interface between the two, which
      the pool implements ([pool_implements_fifo]) and the server uses
      ([server_uses_fifo]). EpollMain: its [main], with the heartbeat thread and
      the signal of a broken connection ([epoll_program_ends]).
    - Text: the string operations of the consoles. ServerConsole: the [main] of
      asio_server.cpp, its command loop over the operations of TcpServer
      ([console_sends], [console_left_on_quit]). TcpServerMain: the same loop
      interleaved with the heartbeat thread and the threads of the server
      ([tcp_program_can_exit], [heartbeat_counter_in_range]). ClientConsole,
      ClientConsoleProps: the [main] of asio_client.cpp, its command loop
      interleaved with the I/O thread of TcpClient ([request_line_sends],
      [console_reply_is_its_response], [disconnect_is_final]). TcpClientMain:
      the arguments of that program and its end ([tcp_client_quit_can_exit],
      [tcp_client_program_ends]).

    The files named Main model a [main] as a step relation: one statement of it,
    one move of each of its threads, the passing of time. Their theorems say that
    the runs of a program are runs of the component it uses (for the gateway,
    what its two components do together), and how the program can end
    ([Exited], [Aborted] by [std::terminate], [Undefined] when something
    destroyed is used). Sleeping and waiting for input are statements that any
    number of other steps may precede.

    Each component has its invariants and its functional behaviour first; the
    theorems after them state where the code does not do what it means to
    (packets discarded, timers not cancelled, requests left without a timer,
    stale events).

    ** Bounds

    - [feed]: fuel of two per packet, see above; the theorems give the result
      for every larger fuel too.
    - TcpServer: callbacks that call the server again take a depth; the theorem
      about the recursive callback says that no depth is enough.
    - ServerConsole: the loop takes the number of its turns; the theorem says
      for which inputs a number is enough. ClientConsole: the words of a line
      are read with as much fuel as the line has characters, which is enough
      ([requestWords_fuel]). Text: ten digits are enough for a 32-bit number.
    - Gateway: replies are matched up to 2^32 requests, the range of sequence
      numbers; [request_sequences_distinct] is the same bound for one client.

    ** Not modelled

    The lifetime of buffers (where the source hands a buffer to an operation that
    outlives it, the model takes the bytes at the time of the call) and of
    objects other than the clients of client.cpp, gateway.cpp and asio_client.cpp
    and the locals their handlers and those of server.cpp capture; how many bytes
    of a failed write went out; member functions of one object called from
    several threads outside its strand, except where critical sections are
    interleaved explicitly (TcpServer, Gateway, ThreadPool, EpollServer); a
    second thread in an object whose handlers are on one strand; rounding of
    [double]; name resolution; what callbacks print; [SmppClient::connect],
    which calls a function that does not exist (SmppMain starts the session
    there); accessors that only return a member, and functions nobody calls. *)

From stdpp Require Export base tactics list gmap strings sorting relations.
From Stdlib Require Export ZArith Lia.

#[global] Open Scope Z_scope.

(** ** Scope and notations of the development *)

Declare Scope tn_scope.
Delimit Scope tn_scope with tn.

(** A byte is a [Z]; buffers ([std::vector<uint8_t>], [std::array<uint8_t,N>],
    the contents of a [std::string]) are lists of bytes. *)
Abbreviation byte := Z (only parsing).
Abbreviation bytes := (list Z).

(** ** Machine integers *)

Definition is_u8 (z : Z) : Prop := 0 <= z < 2 ^ 8.
Definition is_u32 (z : Z) : Prop := 0 <= z < 2 ^ 32.

(** Conversion to [uint8_t], [uint32_t] and 64-bit [std::size_t]: reduction
    modulo the width. *)
Definition u8 (z : Z) : Z := z mod 2 ^ 8.
Definition u32 (z : Z) : Z := z mod 2 ^ 32.
Definition u64 (z : Z) : Z := z mod 2 ^ 64.

(** Conversion to a 32-bit [int] (two's complement wrap-around). *)
Definition i32 (z : Z) : Z := (z + 2 ^ 31) mod 2 ^ 32 - 2 ^ 31.

(** Every element of a buffer is a [uint8_t]. *)
Definition wf_bytes (bs : bytes) : Prop := Forall is_u8 bs.

(** Size of a buffer, as the [std::size_t] the source computes with. *)
Definition blen (bs : bytes) : Z := Z.of_nat (length bs).

#[export] Instance is_u8_dec z : Decision (is_u8 z).
Proof. unfold is_u8. apply _. Defined.
#[export] Instance is_u32_dec z : Decision (is_u32 z).
Proof. unfold is_u32. apply _. Defined.
#[export] Instance wf_bytes_dec bs : Decision (wf_bytes bs).
Proof. unfold wf_bytes. apply _. Defined.

(** ** String literals as byte buffers *)

Fixpoint lit (s : string) : bytes :=
  match s with
  | EmptyString => []
  | String c s' => Z.of_N (Ascii.N_of_ascii c) :: lit s'
  end.

(** ** Functional update of record fields

    [eta r] rebuilds a record from its projections; an update of one field
    replaces the corresponding projection in that term. *)

Class Eta (R : Type) := eta : R → R.
Class FieldUpd {R T : Type} (proj : R → T) := field_upd : (T → T) → R → R.

Ltac solve_field_upd :=
  lazymatch goal with
  | |- @FieldUpd ?R ?T ?proj =>
      let f := fresh "f" in
      let r := fresh "r" in
      intros f r;
      let b := eval hnf in (eta r) in
      lazymatch eval pattern (proj r) in b with
      | ?g _ => let v := eval cbv beta in (g (f (proj r))) in exact v
      end
  end.

Arguments field_upd {R T proj _} f r /.
#[export] Hint Extern 1 (FieldUpd _) => solve_field_upd : typeclass_instances.

Notation "r <| p := v |>" := (field_upd (proj:=p) (λ _, v) r)
  (at level 1, left associativity, p at level 9, v at level 200,
   format "r  <| p  :=  v |>") : tn_scope.

#[global] Open Scope tn_scope.

(** ** Handlers: state, emitted effects, result

    A member function of the source is an [act S E A]: it takes the object's
    state, returns the new one, the effects it performs in order (operations
    handed to the I/O library, callbacks it invokes) and its result. *)

Definition act (S E A : Type) : Type := S → S * list E * A.

#[export] Instance act_ret {S E} : MRet (act S E) := λ A x s, (s, [], x).
#[export] Instance act_bind {S E} : MBind (act S E) := λ A B k m s,
  let '(s1, o1, a) := m s in
  let '(s2, o2, b) := k a s1 in
  (s2, o1 ++ o2, b).

Definition gets {S E A} (f : S → A) : act S E A := λ s, (s, [], f s).
Definition modify {S E} (f : S → S) : act S E unit := λ s, (f s, [], ()).
Definition emit {S E} (e : E) : act S E unit := λ s, (s, [e], ()).
Definition skip {S E} : act S E unit := λ s, (s, [], ()).
Definition whenb {S E} (b : bool) (m : act S E unit) : act S E unit :=
  if b then m else skip.

Definition state_of {S E A} (r : S * list E * A) : S := r.1.1.
Definition effs_of {S E A} (r : S * list E * A) : list E := r.1.2.
Definition val_of {S E A} (r : S * list E * A) : A := r.2.
Arguments state_of {S E A} !r /.
Arguments effs_of {S E A} !r /.
Arguments val_of {S E A} !r /.

Lemma act_bind_assoc {S E A B C} (m : act S E A) (k : A → act S E B) (h : B → act S E C) s :
  ((m ≫= k) ≫= h) s = (m ≫= (λ a, k a ≫= h)) s.
Proof.
  unfold mbind, act_bind. destruct (m s) as [[s1 o1] a].
  destruct (k a s1) as [[s2 o2] b]. destruct (h b s2) as [[s3 o3] c].
  by rewrite app_assoc.
Qed.

Lemma act_emit {S E B} (e : E) (k : act S E B) s :
  (emit e;; k) s = (state_of (k s), e :: effs_of (k s), val_of (k s)).
Proof. cbv [mbind act_bind emit]. by destruct (k s) as [[s1 o1] b]. Qed.

Lemma act_gets {S E A B} (f : S → A) (k : A → act S E B) s : (x ← gets f; k x) s = k (f s) s.
Proof. cbv [mbind act_bind gets]. by destruct (k (f s) s) as [[s1 o1] b]. Qed.

Lemma act_modify {S E B} (f : S → S) (k : act S E B) s : (modify f;; k) s = k (f s).
Proof. cbv [mbind act_bind modify]. by destruct (k (f s)) as [[s1 o1] b]. Qed.

(** ** Runs

    What holds at the start and is kept by every step holds along a run. *)
Lemma rtc_invariant {A} (R : relation A) (Inv : A → Prop) x y :
  Inv x → (∀ a b, Inv a → R a b → Inv b) → rtc R x y → Inv y.
Proof. intros H0 Hstep Hr. induction Hr as [|a b c Hs _ IH]; eauto. Qed.

(** ** Properties of handlers that compose

    A property of handlers that a sequence has when its parts have it. [keeps R
    ok] is the usual one: the state changes within [R] and every effect
    satisfies [ok]. *)

Class Compositional {S E} (P : ∀ A, act S E A → Prop) : Prop :=
  compose A B (a : act S E A) (k : A → act S E B) :
    P A a → (∀ x, P B (k x)) → P B (x ← a; k x).

Definition keeps {S E} (R : relation S) (ok : E → Prop) A (a : act S E A) : Prop :=
  ∀ s, R s (state_of (a s)) ∧ Forall ok (effs_of (a s)).

Section Keeps.
Context {S E : Type} (R : relation S) (ok : E → Prop).

#[export] Instance keeps_compositional `{!Transitive R} : Compositional (keeps R ok).
Proof.
  intros A B a k Ha Hk s. cbv [mbind act_bind]. destruct (Ha s) as [Hr He].
  destruct (a s) as [[s1 e1] x]. simpl in *. destruct (Hk x s1) as [Hr' He'].
  destruct (k x s1) as [[s2 e2] y]. simpl in *. rewrite Forall_app. eauto.
Qed.

Lemma keeps_modify f : (∀ s, R s (f s)) → keeps R ok _ (modify f).
Proof. intros Hf s. split; [apply Hf|constructor]. Qed.

Context `{!Reflexive R}.

Lemma keeps_ret {A} (x : A) : keeps R ok _ (mret x).
Proof. intros s. split; [done|constructor]. Qed.
Lemma keeps_gets {A} (f : S → A) : keeps R ok _ (gets f).
Proof. intros s. split; [done|constructor]. Qed.
Lemma keeps_skip : keeps R ok _ skip.
Proof. intros s. split; [done|constructor]. Qed.
Lemma keeps_emit e : ok e → keeps R ok _ (emit e).
Proof. intros He s. split; [done|by repeat constructor]. Qed.
Lemma keeps_when b a : keeps R ok _ a → keeps R ok _ (whenb b a).
Proof. destruct b; [done|]. intros _. apply keeps_skip. Qed.

End Keeps.

(** Decompose [keeps R ok (...)] along the monad; [done] is tried on the side
    conditions of updates and effects. *)
Ltac keeps_tac :=
  repeat first
    [ apply compose; [|intros ?]
    | apply keeps_ret; apply _ | apply keeps_gets; apply _ | apply keeps_skip; apply _
    | apply keeps_when; [apply _|]
    | apply keeps_emit; [apply _|done] | apply keeps_modify; done ].

(** ** Hint databases and tactics

    [tn_len] computes buffer lengths, [tn_wf] proves well-formedness of
    buffers. *)

Create HintDb tn_wf.
Create Rewrite HintDb tn_len.

#[export] Hint Rewrite @length_app @length_take @length_drop @length_replicate
  @length_rev @length_insert : tn_len.

(** Length arithmetic on buffers. *)
Ltac len := autorewrite with tn_len in *; simpl length in *; lia.

(** Unfold the handler monad and reduce. *)
Ltac unact := cbv [mbind mret act_bind act_ret gets modify emit skip whenb] in *; simpl in *.

(** The innermost scrutinee of nested matches. *)
Ltac innermost x :=
  match x with
  | context [match ?y with _ => _ end] => innermost y
  | _ => x
  end.

(** One case split on a test or match of the code, innermost first. *)
Ltac split_test :=
  match goal with
  | |- context [match ?x with _ => _ end] =>
      let y := innermost x in destruct y eqn:?; simpl in *
  end.

(** Run a handler symbolically: reduce, and split on every test it makes. *)
Ltac run_cases := try done; repeat (split_test; simplify_eq; try done).
