(* ===== verification/Bytes.v ===== *)
(** * Bytes: object representation of integers, byte order, memcpy

    Models what the source uses of the C++ object model and of
    [<arpa/inet.h>]: the in-memory representation of a [uint32_t] on a host of
    either byte order, [htonl]/[ntohl], [std::memcpy] into a byte vector. The
    results that matter to the codecs are [store32_htonl] and [ntohl_load32]:
    whatever the host's byte order, what goes on the wire is big-endian. *)

From S2P Require Import Prelude.

(** ** Little- and big-endian splitting *)

Fixpoint le_bytes (n : nat) (v : Z) : bytes :=
  match n with
  | O => []
  | S n' => v mod 256 :: le_bytes n' (v / 256)
  end.

Fixpoint le_val (bs : bytes) : Z :=
  match bs with
  | [] => 0
  | b :: bs' => b + 256 * le_val bs'
  end.

Definition be_bytes (n : nat) (v : Z) : bytes := rev (le_bytes n v).
Definition be_val (bs : bytes) : Z := le_val (rev bs).

(** ** The host *)

Inductive endian := LittleEndian | BigEndian.

(** The byte order of the machine the program runs on. *)
Class Host := host : endian.

Section Memory.
Context `{Host}.

(** The bytes of a [uint32_t] object in memory, and the object read back. *)
Definition store32 (v : Z) : bytes :=
  match host with
  | LittleEndian => le_bytes 4 v
  | BigEndian => be_bytes 4 v
  end.

Definition load32 (bs : bytes) : Z :=
  match host with
  | LittleEndian => le_val bs
  | BigEndian => be_val bs
  end.

Definition bswap32 (v : Z) : Z := be_val (le_bytes 4 v).

Definition htonl (v : Z) : Z :=
  match host with
  | LittleEndian => bswap32 v
  | BigEndian => v
  end.

Definition ntohl (v : Z) : Z := htonl v.

End Memory.

(** [std::memcpy(dst.data() + off, src.data(), src.size())]; [blit_ok] is the
    condition under which the copy stays inside the destination. *)
Definition blit (off : nat) (src dst : bytes) : bytes :=
  take off dst ++ src ++ drop (off + length src) dst.

Definition blit_ok (off : nat) (src dst : bytes) : bool :=
  (off + length src <=? length dst)%nat.

(** [std::vector<uint8_t> v(n)] is value-initialised. *)
Definition vec_zero (n : nat) : bytes := replicate n 0.

(** [v[i] = x] on a vector, in range. *)
Definition vec_set (i : nat) (x : Z) (v : bytes) : bytes := <[i := x]> v.

(** [v.resize(n)]: keeps a prefix, appends zero bytes. *)
Definition vec_resize (n : nat) (v : bytes) : bytes :=
  take n v ++ replicate (n - length v) 0.

(** ** Lemmas *)

Lemma le_bytes_length n v : length (le_bytes n v) = n.
Proof. revert v. induction n; intros v; simpl; auto. Qed.

Lemma be_bytes_length n v : length (be_bytes n v) = n.
Proof. unfold be_bytes. by rewrite length_rev, le_bytes_length. Qed.

Lemma le_bytes_wf n v : wf_bytes (le_bytes n v).
Proof.
  revert v. induction n as [|n IH]; intros v; simpl; constructor; [|apply IH].
  unfold is_u8. pose proof (Z.mod_pos_bound v 256). lia.
Qed.

Lemma be_bytes_wf n v : wf_bytes (be_bytes n v).
Proof. apply Forall_rev, le_bytes_wf. Qed.

Lemma le_val_bytes n v : le_val (le_bytes n v) = v mod 256 ^ Z.of_nat n.
Proof.
  revert v. induction n as [|n IH]; intros v; cbn [le_val le_bytes].
  { by rewrite Z.mod_1_r. }
  rewrite IH, Nat2Z.inj_succ, Z.pow_succ_r by lia.
  by rewrite Z.rem_mul_r by lia.
Qed.

Lemma le_bytes_val bs : wf_bytes bs → le_bytes (length bs) (le_val bs) = bs.
Proof.
  induction 1 as [|b bs Hb _ IH]; [done|]. unfold is_u8 in Hb.
  cbn [length le_bytes le_val]. f_equal.
  - rewrite Z.mul_comm, Z_mod_plus_full. apply Z.mod_small. lia.
  - replace ((b + 256 * le_val bs) / 256) with (le_val bs); [done|].
    rewrite Z.mul_comm, Z.div_add, Z.div_small by lia. lia.
Qed.

Lemma be_val_bytes n v : be_val (be_bytes n v) = v mod 256 ^ Z.of_nat n.
Proof. unfold be_val, be_bytes. by rewrite rev_involutive, le_val_bytes. Qed.

Lemma be_bytes_val bs : wf_bytes bs → be_bytes (length bs) (be_val bs) = bs.
Proof.
  intros Hwf. unfold be_val, be_bytes. rewrite <-(length_rev bs).
  rewrite le_bytes_val by by apply Forall_rev. apply rev_involutive.
Qed.

Lemma be_val_bytes32 v : is_u32 v → be_val (be_bytes 4 v) = v.
Proof. intros Hv. rewrite be_val_bytes. apply Z.mod_small, Hv. Qed.

Lemma le_val_bound bs : wf_bytes bs → 0 <= le_val bs < 256 ^ Z.of_nat (length bs).
Proof.
  induction 1 as [|b bs Hb _ IH]; [simpl; lia|]. unfold is_u8 in Hb.
  cbn [length le_val]. rewrite Nat2Z.inj_succ, Z.pow_succ_r by lia. lia.
Qed.

Lemma be_val_u32 bs : wf_bytes bs → length bs = 4%nat → is_u32 (be_val bs).
Proof.
  intros Hwf Hlen. unfold be_val.
  pose proof (le_val_bound (rev bs) (Forall_rev Hwf)) as Hb.
  rewrite length_rev, Hlen in Hb. exact Hb.
Qed.

Lemma le_bytes_bswap v : le_bytes 4 (bswap32 v) = be_bytes 4 v.
Proof.
  unfold bswap32, be_val, be_bytes.
  rewrite <-(le_bytes_length 4 v) at 1. rewrite <-length_rev.
  apply le_bytes_val, Forall_rev, le_bytes_wf.
Qed.

(** The representation of [htonl(v)] is the big-endian one on every host. *)
Lemma store32_htonl `{Host} v : store32 (htonl v) = be_bytes 4 v.
Proof.
  unfold store32, htonl. destruct host; [apply le_bytes_bswap | done].
Qed.

(** [ntohl] of the object read from four bytes is their big-endian value. *)
Lemma ntohl_load32 `{Host} bs :
  wf_bytes bs → length bs = 4%nat → ntohl (load32 bs) = be_val bs.
Proof.
  intros Hwf Hlen. unfold ntohl, htonl, load32. destruct host; [|done].
  unfold bswap32. rewrite <-Hlen, le_bytes_val; done.
Qed.

Lemma blit_length off src dst :
  blit_ok off src dst = true → length (blit off src dst) = length dst.
Proof.
  unfold blit_ok, blit. rewrite Nat.leb_le. intros Hle.
  rewrite !length_app, length_take, length_drop. lia.
Qed.

Lemma blit_app off src dst1 dst2 dst3 :
  length dst1 = off → length dst2 = length src →
  blit off src (dst1 ++ dst2 ++ dst3) = dst1 ++ src ++ dst3.
Proof.
  intros <- Hl. unfold blit. rewrite take_app_length. do 2 f_equal.
  rewrite drop_app_ge by lia. rewrite <-Hl.
  replace (length dst1 + length dst2 - length dst1)%nat with (length dst2) by lia.
  by rewrite drop_app_length.
Qed.

Lemma blit_0 src dst2 dst3 :
  length dst2 = length src → blit 0 src (dst2 ++ dst3) = src ++ dst3.
Proof. intros Hl. exact (blit_app 0 src [] dst2 dst3 eq_refl Hl). Qed.

Lemma vec_resize_length n v : length (vec_resize n v) = n.
Proof. unfold vec_resize. rewrite length_app, length_take, length_replicate. lia. Qed.

Lemma wf_bytes_app a b : wf_bytes (a ++ b) ↔ wf_bytes a ∧ wf_bytes b.
Proof. apply Forall_app. Qed.

Lemma wf_bytes_lit s : wf_bytes (lit s).
Proof.
  induction s as [|c s IH]; simpl; constructor; [|done].
  unfold is_u8. pose proof (Ascii.N_ascii_bounded c). lia.
Qed.

#[global] Arguments le_bytes : simpl never.
#[global] Arguments be_bytes : simpl never.
#[global] Arguments le_val : simpl never.
#[global] Arguments be_val : simpl never.

#[export] Hint Rewrite le_bytes_length be_bytes_length vec_resize_length : tn_len.
#[export] Hint Resolve le_bytes_wf be_bytes_wf wf_bytes_lit : tn_wf.
