(* ===== verification/Tables.v ===== *)
(** * Tables: maps from sequence numbers to pending requests

    What the programs do with a [std::map<uint32_t, PendingRequest>] beyond
    lookup and insertion: collecting, in key order, the keys whose entry
    satisfies a test, and erasing a list of keys. *)

From S2P Require Import Prelude.

Section Tables.
Context {A : Type}.
Implicit Types (m : gmap Z A) (test : A → bool).

(** The keys of the entries that satisfy [test], in the order [std::map]
    iterates. *)
Definition keys_where test m : list Z :=
  merge_sort Z.le ((map_to_list (filter (λ e, test e.2 = true) m)).*1).

(** [erase] of every key of a list. *)
Definition erase_all (qs : list Z) m : gmap Z A := foldl (λ m q, delete q m) m qs.

Lemma erase_all_lookup qs m q :
  erase_all qs m !! q = if decide (q ∈ qs) then None else m !! q.
Proof.
  revert m. induction qs as [|q' qs IH]; intros m; [done|].
  unfold erase_all in *. simpl. rewrite IH.
  destruct (decide (q ∈ qs)) as [Hq|Hq].
  { by rewrite decide_True by (by right). }
  destruct (decide (q = q')) as [->|Hne].
  - rewrite lookup_delete_eq. by rewrite decide_True by left.
  - rewrite lookup_delete_ne by done. rewrite decide_False; [done|].
    rewrite elem_of_cons. naive_solver.
Qed.

Lemma erase_all_subseteq qs m : erase_all qs m ⊆ m.
Proof.
  apply map_subseteq_spec. intros q x. rewrite erase_all_lookup. by destruct (decide _).
Qed.

Lemma elem_keys_where test m q :
  q ∈ keys_where test m ↔ ∃ r, m !! q = Some r ∧ test r = true.
Proof.
  unfold keys_where. rewrite merge_sort_Permutation, list_elem_of_fmap.
  setoid_rewrite elem_of_map_to_list'. split.
  - intros ([q' r] & -> & Hl). simpl in Hl. apply map_lookup_filter_Some in Hl as [Hl He].
    by exists r.
  - intros (r & Hl & He). exists (q, r). split; [done|].
    by apply map_lookup_filter_Some.
Qed.

Lemma keys_where_sorted test m :
  Sorted Z.le (keys_where test m) ∧ NoDup (keys_where test m).
Proof.
  unfold keys_where. split; [apply Sorted_merge_sort; intros ??; lia|].
  rewrite merge_sort_Permutation. apply NoDup_fst_map_to_list.
Qed.

Lemma erase_keys_where test m :
  erase_all (keys_where test m) m = filter (λ e, test e.2 = false) m.
Proof.
  apply map_eq. intros q. rewrite erase_all_lookup, map_lookup_filter.
  destruct (m !! q) as [r|] eqn:Hq; simpl; [|by destruct (decide _)].
  destruct (test r) eqn:Ht.
  - rewrite decide_True by (apply elem_keys_where; eauto). by case_guard.
  - rewrite decide_False; [by case_guard|].
    intros (r' & Hr' & ?)%elem_keys_where. congruence.
Qed.

End Tables.
