(* ===== verification/Asio.v ===== *)
(** * Asio: the contract between the programs and the I/O library

    Boost.Asio and the operating system are not part of the repository. A
    program hands them operations ([eff]) and is called back; this file states
    what the programs rely on, as a nondeterministic step relation over the
    operations that are outstanding:
    - [async_read] into a buffer of [n] bytes succeeds with exactly [n] bytes,
      or fails; [async_write] succeeds after all bytes went out, or fails;
    - closures posted to one strand run one at a time, in posting order;
    - [expires_after]/[expires_at] and [cancel] abort the waits outstanding on
      a timer, but a wait that already expired still completes without error;
    - any outstanding operation may fail at any time, and time only advances.
    The completion handlers of the source are closures; here each outstanding
    operation is a value of a type [Op] from which the program's [h_io] selects
    the handler ([P] for posted closures, [T] for timers, [C] for callbacks of
    the user, [A] for calls of the public interface). *)

From S2P Require Import Prelude Bytes.

(** A [std::function] member: empty, or holding some function object. *)
Abbreviation std_function := (option nat).

(** Clock readings and durations are in nanoseconds
    ([std::chrono::steady_clock]). *)
Definition milliseconds (n : Z) : Z := n * 1000000.
Definition seconds (n : Z) : Z := milliseconds (n * 1000).
Definition hours (n : Z) : Z := seconds (n * 3600).

Inductive io_kind :=
| KConnect
| KAccept
| KRead (n : nat)
| KWrite (bs : bytes).

(** Outcome of an operation: success with the bytes read, or an error code, of
    which the programs only distinguish [operation_aborted]. *)
Inductive io_result :=
| IoOk (data : bytes)
| IoErr (aborted : bool).

Inductive eff (Op P T C : Type) :=
| EStart (o : Op)
| EPost (p : P)
| EArm (t : T) (deadline : Z)
| ECancel (t : T)
| EClose
| ECall (c : C).
Arguments EStart {Op P T C} o.
Arguments EPost {Op P T C} p.
Arguments EArm {Op P T C} t deadline.
Arguments ECancel {Op P T C} t.
Arguments EClose {Op P T C}.
Arguments ECall {Op P T C} c.

(** The program: one handler per kind of call-back, each given the clock. *)
Record handlers (St Op P T C A : Type) := Handlers {
  h_kind : Op → io_kind;
  h_io : Z → Op → io_result → act St (eff Op P T C) unit;
  h_post : Z → P → act St (eff Op P T C) unit;
  h_timer : Z → T → bool → act St (eff Op P T C) unit;
  h_api : Z → A → act St (eff Op P T C) unit }.
Arguments Handlers {St Op P T C A}.
Arguments h_kind {St Op P T C A}.
Arguments h_io {St Op P T C A}.
Arguments h_post {St Op P T C A}.
Arguments h_timer {St Op P T C A}.
Arguments h_api {St Op P T C A}.

(** The object together with everything the library holds for it. *)
Record world (St Op P T C : Type) := World {
  w_st : St;
  w_ops : list Op;               (* outstanding I/O operations *)
  w_posts : list P;             (* closures queued on the strand *)
  w_armed : list (T * Z);       (* waits outstanding, with their deadline *)
  w_fired : list (T * bool);    (* waits completed, handler not run: aborted? *)
  w_calls : list C;             (* user callbacks invoked, in order *)
  w_sent : bytes;               (* bytes written successfully *)
  w_now : Z }.
Arguments World {St Op P T C}.
Arguments w_st {St Op P T C}.
Arguments w_ops {St Op P T C}.
Arguments w_posts {St Op P T C}.
Arguments w_armed {St Op P T C}.
Arguments w_fired {St Op P T C}.
Arguments w_calls {St Op P T C}.
Arguments w_sent {St Op P T C}.
Arguments w_now {St Op P T C}.

#[export] Instance eta_world {St Op P T C} : Eta (world St Op P T C) := λ w,
  World (w_st w) (w_ops w) (w_posts w) (w_armed w) (w_fired w) (w_calls w) (w_sent w) (w_now w).

Section Machine.
Context {St Op P T C A : Type} `{EqDecision T}.
Context (H : handlers St Op P T C A).
Implicit Types w : world St Op P T C.

Definition cancel_timer (t : T) w : world St Op P T C :=
  w <| w_armed := filter (λ a, a.1 ≠ t) (w_armed w) |>
    <| w_fired := w_fired w ++ ((λ a, (a.1, true)) <$> filter (λ a, a.1 = t) (w_armed w)) |>.

Definition do_eff (e : eff Op P T C) w : world St Op P T C :=
  match e with
  | EStart o => w <| w_ops := w_ops w ++ [o] |>
  | EPost p => w <| w_posts := w_posts w ++ [p] |>
  | EArm t d => let w := cancel_timer t w in w <| w_armed := w_armed w ++ [(t, d)] |>
  | ECancel t => cancel_timer t w
  | EClose => w
  | ECall c => w <| w_calls := w_calls w ++ [c] |>
  end.

Definition do_effs (es : list (eff Op P T C)) w : world St Op P T C :=
  foldl (λ w e, do_eff e w) w es.

(** Run a handler to completion and hand its effects to the library. *)
Definition run {B} (m : act St (eff Op P T C) B) w : world St Op P T C :=
  let '(s, es, _) := m (w_st w) in do_effs es (w <| w_st := s |>).

(** What a successful completion may carry. *)
Definition io_allowed (k : io_kind) (r : io_result) : Prop :=
  match k, r with
  | _, IoErr _ => True
  | KRead n, IoOk data => length data = n ∧ wf_bytes data
  | _, IoOk data => data = []
  end.

Definition written (k : io_kind) (r : io_result) : bytes :=
  match k, r with
  | KWrite bs, IoOk _ => bs
  | _, _ => []
  end.

Definition complete (o : Op) (r : io_result) (ops : list Op) w : world St Op P T C :=
  run (h_io H (w_now w) o r)
    (w <| w_ops := ops |> <| w_sent := w_sent w ++ written (h_kind H o) r |>).

Inductive step : world St Op P T C → world St Op P T C → Prop :=
| step_post w p ps :
    w_posts w = p :: ps →
    step w (run (h_post H (w_now w) p) (w <| w_posts := ps |>))
| step_io w o l1 l2 r :
    w_ops w = l1 ++ o :: l2 → io_allowed (h_kind H o) r →
    step w (complete o r (l1 ++ l2) w)
| step_expire w t d l1 l2 :
    w_armed w = l1 ++ (t, d) :: l2 → d <= w_now w →
    step w (w <| w_armed := l1 ++ l2 |> <| w_fired := w_fired w ++ [(t, false)] |>)
| step_timer w t ab l1 l2 :
    w_fired w = l1 ++ (t, ab) :: l2 →
    step w (run (h_timer H (w_now w) t ab) (w <| w_fired := l1 ++ l2 |>))
| step_tick w now :
    w_now w <= now → step w (w <| w_now := now |>)
| step_api w a :
    step w (run (h_api H (w_now w) a) w).

(** The initial world around an object. *)
Definition init_world (s : St) (now : Z) : world St Op P T C :=
  World s [] [] [] [] [] [] now.

Definition reachable (w0 w : world St Op P T C) : Prop := rtc step w0 w.

Lemma invariant_reachable (Inv : world St Op P T C → Prop) w0 w :
  Inv w0 → (∀ w w', Inv w → step w w' → Inv w') → reachable w0 w → Inv w.
Proof. apply rtc_invariant. Qed.

(** ** Executing the reads against a byte stream

    [feed] lets the outstanding read complete as long as enough input is
    there. It is one of the runs the contract allows ([feed_reachable]). *)

Definition is_read (o : Op) : bool :=
  match h_kind H o with KRead _ => true | _ => false end.

Fixpoint pick_read (ops : list Op) : option (list Op * Op * nat * list Op) :=
  match ops with
  | [] => None
  | o :: ops' =>
      match h_kind H o with
      | KRead n => Some ([], o, n, ops')
      | _ => '(l1, o', n, l2) ← pick_read ops'; Some (o :: l1, o', n, l2)
      end
  end.

Fixpoint feed (fuel : nat) (input : bytes) w : world St Op P T C * bytes :=
  match fuel with
  | O => (w, input)
  | S fuel' =>
      match pick_read (w_ops w) with
      | Some (l1, o, n, l2) =>
          if (n <=? length input)%nat
          then feed fuel' (drop n input) (complete o (IoOk (take n input)) (l1 ++ l2) w)
          else (w, input)
      | None => (w, input)
      end
  end.

Lemma pick_read_Some ops l1 o n l2 :
  pick_read ops = Some (l1, o, n, l2) → ops = l1 ++ o :: l2 ∧ h_kind H o = KRead n.
Proof.
  revert l1. induction ops as [|x ops IH]; intros l1; simpl; [done|].
  destruct (h_kind H x) eqn:Hk; intros Hp; simplify_eq; [..|done|].
  all: destruct (pick_read ops) as [[[[? ?] ?] ?]|] eqn:E; simplify_eq/=;
    destruct (IH _ eq_refl) as [-> ?]; done.
Qed.

Lemma pick_read_app l1 o n l2 :
  Forall (λ o, is_read o = false) l1 → h_kind H o = KRead n →
  pick_read (l1 ++ o :: l2) = Some (l1, o, n, l2).
Proof.
  intros Hl Hk. induction Hl as [|x l1 Hx _ IH]; simpl.
  - by rewrite Hk.
  - unfold is_read in Hx. rewrite IH. by destruct (h_kind H x).
Qed.

(** The outstanding reads; [sole_read] is the usual situation of a read loop. *)
Definition reads (ops : list Op) : list Op := filter (λ o, is_read o = true) ops.

Lemma reads_nil ops : Forall (λ o, is_read o = false) ops → reads ops = [].
Proof.
  induction 1 as [|o ops Ho _ IH]; [done|]. unfold reads in *.
  by rewrite filter_cons_False by congruence.
Qed.

Lemma reads_app l1 l2 : reads (l1 ++ l2) = reads l1 ++ reads l2.
Proof. apply filter_app. Qed.

Lemma sole_read l1 o l2 :
  Forall (λ o, is_read o = false) (l1 ++ l2) → is_read o = true →
  reads (l1 ++ o :: l2) = [o].
Proof.
  intros [H1 H2]%Forall_app Ho.
  rewrite reads_app, (reads_nil l1 H1). unfold reads at 1.
  rewrite filter_cons_True by done. fold (reads l2). by rewrite (reads_nil l2 H2).
Qed.

Lemma reads_singleton_inv ops o :
  reads ops = [o] →
  ∃ l1 l2, ops = l1 ++ o :: l2 ∧ Forall (λ o, is_read o = false) (l1 ++ l2).
Proof.
  induction ops as [|x ops IH]; [done|]. unfold reads. simpl.
  destruct (decide (is_read x = true)) as [Hx|Hx].
  - rewrite filter_cons_True by done. intros [= -> Hn]. exists [], ops. split; [done|].
    apply Forall_forall. intros y Hy. apply not_true_is_false. intros Hr.
    exact (filter_nil_not_elem_of _ _ _ Hn Hr Hy).
  - rewrite filter_cons_False by done. intros (l1 & l2 & -> & Hf)%IH.
    exists (x :: l1), l2. split; [done|]. constructor; [by apply not_true_is_false|done].
Qed.

Lemma feed_reachable fuel input w :
  wf_bytes input → reachable w (feed fuel input w).1.
Proof.
  revert input w. induction fuel as [|fuel IH]; intros input w Hwf; simpl; [apply rtc_refl|].
  destruct (pick_read (w_ops w)) as [[[[l1 o] n] l2]|] eqn:Hp; [|apply rtc_refl].
  destruct (Nat.leb_spec n (length input)); [|apply rtc_refl].
  apply pick_read_Some in Hp as [Hops Hk].
  eapply rtc_l; [apply (step_io _ o l1 l2 (IoOk (take n input)) Hops)|].
  - rewrite Hk. split; [rewrite length_take; lia | by apply Forall_take].
  - apply IH. by apply Forall_drop.
Qed.

(** One turn of [feed]: the only read gets its bytes, or starves. *)
Lemma feed_read l1 o n l2 data rest w fuel :
  w_ops w = l1 ++ o :: l2 → Forall (λ o, is_read o = false) (l1 ++ l2) →
  h_kind H o = KRead n → length data = n →
  feed (S fuel) (data ++ rest) w = feed fuel rest (complete o (IoOk data) (l1 ++ l2) w).
Proof.
  intros Hops [Hl _]%Forall_app Hk <-. cbn [feed].
  rewrite Hops, (pick_read_app l1 o (length data) l2 Hl Hk).
  rewrite (proj2 (Nat.leb_le _ _)) by (rewrite length_app; lia).
  by rewrite take_app_length, drop_app_length.
Qed.

Lemma feed_starved l1 o n l2 rest w fuel :
  w_ops w = l1 ++ o :: l2 → Forall (λ o, is_read o = false) (l1 ++ l2) →
  h_kind H o = KRead n → (length rest < n)%nat → feed fuel rest w = (w, rest).
Proof.
  intros Hops [Hl _]%Forall_app Hk Hn. destruct fuel as [|fuel]; [done|]. cbn [feed].
  rewrite Hops, (pick_read_app l1 o n l2 Hl Hk).
  by rewrite (proj2 (Nat.leb_gt _ _)) by lia.
Qed.

(** ** Effects of a handler on the world, field by field *)

Definition started (es : list (eff Op P T C)) : list Op :=
  omap (λ e, match e with EStart o => Some o | _ => None end) es.
Definition posted (es : list (eff Op P T C)) : list P :=
  omap (λ e, match e with EPost p => Some p | _ => None end) es.
Definition called (es : list (eff Op P T C)) : list C :=
  omap (λ e, match e with ECall c => Some c | _ => None end) es.

Lemma do_effs_fields es w :
  w_st (do_effs es w) = w_st w ∧
  w_ops (do_effs es w) = w_ops w ++ started es ∧
  w_posts (do_effs es w) = w_posts w ++ posted es ∧
  w_calls (do_effs es w) = w_calls w ++ called es ∧
  w_sent (do_effs es w) = w_sent w ∧
  w_now (do_effs es w) = w_now w.
Proof.
  revert w. induction es as [|e es IH]; intros w; simpl; [by rewrite !app_nil_r|].
  destruct (IH (do_eff e w)) as (-> & -> & -> & -> & -> & ->).
  destruct e; simpl; by rewrite <-?app_assoc.
Qed.

Lemma run_fields {B} (m : act St (eff Op P T C) B) w :
  w_st (run m w) = state_of (m (w_st w)) ∧
  w_ops (run m w) = w_ops w ++ started (effs_of (m (w_st w))) ∧
  w_posts (run m w) = w_posts w ++ posted (effs_of (m (w_st w))) ∧
  w_calls (run m w) = w_calls w ++ called (effs_of (m (w_st w))) ∧
  w_sent (run m w) = w_sent w ∧
  w_now (run m w) = w_now w.
Proof.
  unfold run. destruct (m (w_st w)) as [[s es] b]; simpl.
  exact (do_effs_fields es (w <| w_st := s |>)).
Qed.

Lemma complete_fields o r ops w :
  w_st (complete o r ops w) = state_of (h_io H (w_now w) o r (w_st w)) ∧
  w_ops (complete o r ops w) = ops ++ started (effs_of (h_io H (w_now w) o r (w_st w))) ∧
  w_posts (complete o r ops w) =
    w_posts w ++ posted (effs_of (h_io H (w_now w) o r (w_st w))) ∧
  w_calls (complete o r ops w) =
    w_calls w ++ called (effs_of (h_io H (w_now w) o r (w_st w))) ∧
  w_sent (complete o r ops w) = w_sent w ++ written (h_kind H o) r ∧
  w_now (complete o r ops w) = w_now w.
Proof.
  unfold complete.
  exact (run_fields (h_io H (w_now w) o r)
    (w <| w_ops := ops |> <| w_sent := w_sent w ++ written (h_kind H o) r |>)).
Qed.

(** ** Timers: handlers that arm nothing, handlers that end by arming one *)

Lemma do_effs_app es1 es2 w : do_effs (es1 ++ es2) w = do_effs es2 (do_effs es1 w).
Proof. apply foldl_app. Qed.

Definition timer_free (e : eff Op P T C) : Prop :=
  match e with EArm _ _ | ECancel _ => False | _ => True end.

Lemma do_effs_timer_free es w :
  Forall timer_free es →
  w_armed (do_effs es w) = w_armed w ∧ w_fired (do_effs es w) = w_fired w.
Proof.
  intros Hes. revert w. induction Hes as [|e es He _ IH]; intros w; [done|]. simpl.
  destruct (IH (do_eff e w)) as [-> ->]. by destruct e.
Qed.

Lemma run_timer_free {B} (m : act St (eff Op P T C) B) w :
  Forall timer_free (effs_of (m (w_st w))) →
  w_armed (run m w) = w_armed w ∧ w_fired (run m w) = w_fired w.
Proof.
  unfold run. destruct (m (w_st w)) as [[s es] b]; simpl. intros Hes.
  by destruct (do_effs_timer_free es (w <| w_st := s |>) Hes).
Qed.

Lemma run_arm {B} (m : act St (eff Op P T C) B) es t d w :
  effs_of (m (w_st w)) = es ++ [EArm t d] → Forall timer_free es → w_armed w = [] →
  w_armed (run m w) = [(t, d)] ∧ w_fired (run m w) = w_fired w.
Proof.
  unfold run. destruct (m (w_st w)) as [[s es'] b]; simpl. intros -> Hes Ha.
  rewrite do_effs_app.
  destruct (do_effs_timer_free es (w <| w_st := s |>) Hes) as [Ha' Hf']. simpl in *.
  rewrite Ha', Hf', Ha. simpl. by rewrite app_nil_r.
Qed.

(** Running a handler that is a sequence is running its parts in turn. *)
Lemma do_effs_state es w s : do_effs es (w <| w_st := s |>) = (do_effs es w) <| w_st := s |>.
Proof.
  revert w. induction es as [|e es IH]; intros w; [done|].
  change (do_effs (e :: es) ?v) with (do_effs es (do_eff e v)). rewrite <-IH. by destruct e.
Qed.

Lemma run_bind {B D} (m : act St (eff Op P T C) B) (k : B → act St (eff Op P T C) D) w :
  run (x ← m; k x) w = run (k (val_of (m (w_st w)))) (run m w).
Proof.
  unfold run, mbind, act_bind. destruct (m (w_st w)) as [[s1 e1] x].
  cbn [val_of snd]. rewrite (do_effs_state e1 w s1).
  change (w_st ((do_effs e1 w) <| w_st := s1 |>)) with s1.
  destruct (k x s1) as [[s2 e2] y]. by rewrite do_effs_app, !do_effs_state.
Qed.

(** A wait that is outstanding, or expired with its handler still to run. *)
Definition timer_coming (t : T) w : Prop :=
  t ∈ (w_armed w).*1 ∨ (t, false) ∈ w_fired w.

Lemma timer_coming_cancel t t' w :
  t ≠ t' → timer_coming t w → timer_coming t (cancel_timer t' w).
Proof.
  intros Hne [Ha|Hf]; [left|right]; simpl.
  - apply list_elem_of_fmap in Ha as ([t1 d] & -> & Ha). apply list_elem_of_fmap.
    exists (t1, d). split; [done|]. by apply list_elem_of_filter.
  - apply elem_of_app. by left.
Qed.

Lemma timer_coming_eff t e w :
  e ≠ ECancel t → timer_coming t w → timer_coming t (do_eff e w).
Proof.
  intros He Ht. destruct e as [o|q|t' d|t'| |c]; try done.
  - simpl. destruct (decide (t = t')) as [<-|Hne].
    + left. simpl. rewrite fmap_app. apply elem_of_app. right. by left.
    + destruct (timer_coming_cancel t t' w Hne Ht) as [Ha|Hf]; [left|by right].
      simpl in *. rewrite fmap_app. apply elem_of_app. by left.
  - apply timer_coming_cancel; [congruence|done].
Qed.

(** A wait that expires, and the rest once the handler of one is run. *)
Lemma timer_coming_expire t t' d l1 l2 w :
  w_armed w = l1 ++ (t', d) :: l2 → timer_coming t w →
  timer_coming t (w <| w_armed := l1 ++ l2 |> <| w_fired := w_fired w ++ [(t', false)] |>).
Proof.
  intros Ha [Hi|Hi]; [|right; simpl; apply elem_of_app; by left].
  rewrite Ha, fmap_app, fmap_cons, elem_of_app, elem_of_cons in Hi.
  destruct Hi as [Hi|[->|Hi]]; [left|right|left]; simpl; rewrite ?fmap_app, elem_of_app; [by left| |by right].
  right. left.
Qed.

Lemma timer_coming_rest t t' ab l1 l2 w :
  w_fired w = l1 ++ (t', ab) :: l2 → (t, false) ≠ (t', ab) → timer_coming t w →
  timer_coming t (w <| w_fired := l1 ++ l2 |>).
Proof.
  intros Hf Hne [Hi|Hi]; [by left|right]. simpl. rewrite Hf in Hi.
  rewrite elem_of_app, elem_of_cons in Hi. rewrite elem_of_app. naive_solver.
Qed.

(** ** Timers an object relies on

    [wanted s t]: in state [s] the object needs the handler of [t] to run. A
    handler keeps the promise when every timer wanted after it was armed by it
    last, or was wanted before and left alone. *)

Fixpoint timer_fate (t : T) (es : list (eff Op P T C)) : option bool :=
  match es with
  | [] => None
  | e :: es' =>
      match timer_fate t es' with
      | Some armed => Some armed
      | None =>
          match e with
          | EArm t' _ => if decide (t = t') then Some true else None
          | ECancel t' => if decide (t = t') then Some false else None
          | _ => None
          end
      end
  end.

Lemma timer_fate_free t es : Forall timer_free es → timer_fate t es = None.
Proof. induction 1 as [|e es He _ IH]; [done|]. simpl. rewrite IH. by destruct e. Qed.

Lemma timer_fate_coming t es w :
  match timer_fate t es with
  | Some armed => armed = true
  | None => timer_coming t w
  end → timer_coming t (do_effs es w).
Proof.
  revert w. induction es as [|e es IH]; intros w; [done|]. simpl. intros Hf. apply IH.
  destruct (timer_fate t es) as [b|]; [done|].
  destruct e as [| |t' d|t'| |]; try done; destruct (decide (t = t')) as [<-|Hne]; try done.
  - left. simpl. rewrite fmap_app. apply elem_of_app. right. left.
  - apply (timer_coming_eff t (EArm t' d)); done.
  - apply (timer_coming_eff t (ECancel t')); [congruence|done].
Qed.

Lemma timer_fate_app t es1 es2 :
  timer_fate t (es1 ++ es2) =
    match timer_fate t es2 with Some armed => Some armed | None => timer_fate t es1 end.
Proof.
  induction es1 as [|e es1 IH]; simpl; [by destruct (timer_fate t es2)|].
  rewrite IH. by destruct (timer_fate t es2).
Qed.

Section Watch.
Context (wanted : St → T → Prop).

Definition watched w : Prop := ∀ t, wanted (w_st w) t → timer_coming t w.

(** [but]: the wait whose handler this is, when it was not aborted. *)
Definition keeps_watch {B} (but : option T) (a : act St (eff Op P T C) B) : Prop :=
  ∀ s t, wanted (state_of (a s)) t →
    match timer_fate t (effs_of (a s)) with
    | Some armed => armed = true
    | None => wanted s t ∧ but ≠ Some t
    end.

Lemma keeps_watch_bind {B D} but (a : act St (eff Op P T C) B) (k : B → act St (eff Op P T C) D) :
  keeps_watch but a → (∀ x, keeps_watch None (k x)) → keeps_watch but (x ← a; k x).
Proof.
  intros Ha Hk s t. specialize (Ha s t). cbv [mbind act_bind].
  destruct (a s) as [[s1 e1] x]. specialize (Hk x s1 t).
  destruct (k x s1) as [[s2 e2] y]. simpl in *. rewrite timer_fate_app. intros Ht. specialize (Hk Ht).
  destruct (timer_fate t e2); [done|]. by apply Ha, Hk.
Qed.

Lemma watched_run {B} but (a : act St (eff Op P T C) B) w :
  keeps_watch but a → (∀ t, wanted (w_st w) t → but ≠ Some t → timer_coming t w) → watched (run a w).
Proof.
  intros Ha Hw t. destruct (run_fields a w) as (-> & _). intros Ht. specialize (Ha (w_st w) t Ht).
  unfold run. destruct (a (w_st w)) as [[s es] x]. simpl in Ha. apply timer_fate_coming.
  destruct (timer_fate t es); [done|]. destruct Ha as [Hs Hb].
  destruct (Hw t Hs Hb) as [?|?]; [by left|by right].
Qed.

Lemma watched_invariant :
  (∀ now p, keeps_watch None (h_post H now p)) →
  (∀ now o r, keeps_watch None (h_io H now o r)) →
  (∀ now t ab, keeps_watch (if ab : bool then None else Some t) (h_timer H now t ab)) →
  (∀ now a, keeps_watch None (h_api H now a)) →
  ∀ w0 w, watched w0 → reachable w0 w → watched w.
Proof.
  intros Hpost Hio Htimer Hapi w0 w H0. apply (invariant_reachable watched); [done|].
  intros v v' Hv Hs.
  destruct Hs as [v p ps Hp|v o l1 l2 r Ho Ha|v t d l1 l2 Hl Hd|v t ab l1 l2 Hl|v now Hn|v a].
  - apply (watched_run None); [done|]. intros t Ht _. exact (Hv t Ht).
  - apply (watched_run None); [done|]. intros t Ht _. exact (Hv t Ht).
  - intros t' Ht. eapply timer_coming_expire; [done|]. exact (Hv t' Ht).
  - eapply watched_run; [apply Htimer|]. intros t' Ht Hne.
    apply (timer_coming_rest t' t ab l1 l2 v Hl); [|exact (Hv t' Ht)].
    intros [= -> <-]. by apply Hne.
  - exact Hv.
  - apply (watched_run None); [done|]. intros t Ht _. exact (Hv t Ht).
Qed.

End Watch.

(** An invariant over the object and the log of callbacks is preserved by
    every step if it is preserved by every handler. *)
Lemma step_calls_invariant (Inv : St → list C → Prop) :
  (∀ s log now p, Inv s log → let r := h_post H now p s in
     Inv (state_of r) (log ++ called (effs_of r))) →
  (∀ s log now o res, Inv s log → io_allowed (h_kind H o) res → let r := h_io H now o res s in
     Inv (state_of r) (log ++ called (effs_of r))) →
  (∀ s log now t ab, Inv s log → let r := h_timer H now t ab s in
     Inv (state_of r) (log ++ called (effs_of r))) →
  (∀ s log now a, Inv s log → let r := h_api H now a s in
     Inv (state_of r) (log ++ called (effs_of r))) →
  ∀ w0 w, Inv (w_st w0) (w_calls w0) → reachable w0 w → Inv (w_st w) (w_calls w).
Proof.
  intros Hpost Hio Htimer Hapi w0 w H0 Hr.
  apply (invariant_reachable (λ w, Inv (w_st w) (w_calls w)) w0); [done| |done].
  clear w0 w H0 Hr. intros w w' HI Hs.
  destruct Hs as [w p ps Hp|w o l1 l2 r Ho Ha|w t d l1 l2|w t ab l1 l2|w now|w a]; try done.
  - destruct (run_fields (h_post H (w_now w) p) (w <| w_posts := ps |>))
      as (-> & _ & _ & -> & _); simpl. by apply Hpost.
  - destruct (complete_fields o r (l1 ++ l2) w) as (-> & _ & _ & -> & _). by apply Hio.
  - destruct (run_fields (h_timer H (w_now w) t ab) (w <| w_fired := l1 ++ l2 |>))
      as (-> & _ & _ & -> & _); simpl. by apply Htimer.
  - destruct (run_fields (h_api H (w_now w) a) w) as (-> & _ & _ & -> & _). by apply Hapi.
Qed.

(** An invariant over the object and the outstanding operations and posts is
    preserved by every step if it is preserved by every handler. *)
Lemma step_ops_invariant (Inv : St → list Op → list P → bytes → Prop) :
  (∀ s ops ps sent now p,
     Inv s ops (p :: ps) sent → let r := h_post H now p s in
     Inv (state_of r) (ops ++ started (effs_of r)) (ps ++ posted (effs_of r)) sent) →
  (∀ s l1 l2 ps sent now o res,
     Inv s (l1 ++ o :: l2) ps sent → io_allowed (h_kind H o) res →
     let r := h_io H now o res s in
     Inv (state_of r) ((l1 ++ l2) ++ started (effs_of r)) (ps ++ posted (effs_of r))
       (sent ++ written (h_kind H o) res)) →
  (∀ s ops ps sent now t ab,
     Inv s ops ps sent → let r := h_timer H now t ab s in
     Inv (state_of r) (ops ++ started (effs_of r)) (ps ++ posted (effs_of r)) sent) →
  (∀ s ops ps sent now a,
     Inv s ops ps sent → let r := h_api H now a s in
     Inv (state_of r) (ops ++ started (effs_of r)) (ps ++ posted (effs_of r)) sent) →
  ∀ w0 w, Inv (w_st w0) (w_ops w0) (w_posts w0) (w_sent w0) → reachable w0 w →
    Inv (w_st w) (w_ops w) (w_posts w) (w_sent w).
Proof.
  intros Hpost Hio Htimer Hapi w0 w H0 Hr.
  apply (invariant_reachable (λ w, Inv (w_st w) (w_ops w) (w_posts w) (w_sent w)) w0);
    [done| |done].
  clear w0 w H0 Hr. intros w w' HI Hs.
  destruct Hs as [w p ps Hp|w o l1 l2 r Ho Ha|w t d l1 l2|w t ab l1 l2|w now|w a].
  - destruct (run_fields (h_post H (w_now w) p) (w <| w_posts := ps |>))
      as (-> & -> & -> & _ & -> & _); simpl.
    apply Hpost. by rewrite <-Hp.
  - destruct (complete_fields o r (l1 ++ l2) w) as (-> & -> & -> & _ & -> & _).
    apply Hio; [by rewrite <-Ho|done].
  - done.
  - destruct (run_fields (h_timer H (w_now w) t ab) (w <| w_fired := l1 ++ l2 |>))
      as (-> & -> & -> & _ & -> & _); simpl. by apply Htimer.
  - done.
  - destruct (run_fields (h_api H (w_now w) a) w) as (-> & -> & -> & _ & -> & _).
    by apply Hapi.
Qed.

End Machine.

Lemma started_app {Op P T C} (es1 es2 : list (eff Op P T C)) :
  started (es1 ++ es2) = started es1 ++ started es2.
Proof. apply omap_app. Qed.
Lemma posted_app {Op P T C} (es1 es2 : list (eff Op P T C)) :
  posted (es1 ++ es2) = posted es1 ++ posted es2.
Proof. apply omap_app. Qed.
Lemma called_app {Op P T C} (es1 es2 : list (eff Op P T C)) :
  called (es1 ++ es2) = called es1 ++ called es2.
Proof. apply omap_app. Qed.

Arguments step {St Op P T C A _} H.
Arguments reachable {St Op P T C A _} H.
Arguments feed {St Op P T C A _} H.
Arguments complete {St Op P T C A _} H.
