(* ===== verification/Schedule.v ===== *)
(** * Schedule: running the I/O contract by hand

    [step] of Asio leaves the choice of what happens next open. A [choice]
    names it, [exec] carries it out, and every choice that can be carried out is
    a step ([exec_step]): concrete runs are computed instead of being put
    together rule by rule. *)

From S2P Require Import Prelude Bytes Asio.

Inductive choice :=
| DoPost                              (* the closure at the front of the strand *)
| DoIo (i : nat) (r : io_result)      (* the [i]-th operation completes *)
| DoExpire (i : nat)                  (* the [i]-th wait expires *)
| DoTimer (i : nat)                   (* the handler of the [i]-th completed wait *)
| DoTick (now : Z).

#[export] Instance io_allowed_dec k r : Decision (io_allowed k r).
Proof. destruct k, r; simpl; apply _. Defined.

Section Schedule.
Context {St Op P T C A : Type} `{EqDecision T}.
Context (H : handlers St Op P T C A).
Implicit Types w : world St Op P T C.

Definition exec (c : choice) w : option (world St Op P T C) :=
  match c with
  | DoPost =>
      match w_posts w with
      | p :: ps => Some (run (h_post H (w_now w) p) (w <| w_posts := ps |>))
      | [] => None
      end
  | DoIo i r =>
      o ← w_ops w !! i;
      if bool_decide (io_allowed (h_kind H o) r)
      then Some (complete H o r (take i (w_ops w) ++ drop (S i) (w_ops w)) w) else None
  | DoExpire i =>
      a ← w_armed w !! i;
      if bool_decide (a.2 <= w_now w)
      then Some (w <| w_armed := take i (w_armed w) ++ drop (S i) (w_armed w) |>
                   <| w_fired := w_fired w ++ [(a.1, false)] |>) else None
  | DoTimer i =>
      f ← w_fired w !! i;
      Some (run (h_timer H (w_now w) f.1 f.2)
              (w <| w_fired := take i (w_fired w) ++ drop (S i) (w_fired w) |>))
  | DoTick now => if bool_decide (w_now w <= now) then Some (w <| w_now := now |>) else None
  end.

Fixpoint execs (cs : list choice) w : option (world St Op P T C) :=
  match cs with
  | [] => Some w
  | c :: cs' => exec c w ≫= execs cs'
  end.

Lemma exec_step c w w' : exec c w = Some w' → step H w w'.
Proof.
  destruct c as [|i r|i|i|now]; simpl.
  - destruct (w_posts w) as [|p ps] eqn:Hp; [done|]. intros [= <-]. by apply step_post.
  - destruct (w_ops w !! i) as [o|] eqn:Ho; simpl; [|done].
    case_bool_decide as Ha; [|done]. intros [= <-].
    apply step_io; [by rewrite take_drop_middle|done].
  - destruct (w_armed w !! i) as [[t d]|] eqn:Ha; simpl; [|done].
    case_bool_decide as Hd; [|done]. intros [= <-].
    eapply step_expire; [by rewrite take_drop_middle|done].
  - destruct (w_fired w !! i) as [[t ab]|] eqn:Hf; simpl; [|done]. intros [= <-].
    apply step_timer. by rewrite take_drop_middle.
  - case_bool_decide; [|done]. intros [= <-]. by apply step_tick.
Qed.

Lemma execs_reachable cs w w' : execs cs w = Some w' → reachable H w w'.
Proof.
  revert w. induction cs as [|c cs IH]; intros w; simpl; [by intros [= <-]; apply rtc_refl|].
  destruct (exec c w) as [v|] eqn:E; simpl; [|done]. intros Hv.
  eapply rtc_l; [by eapply exec_step|by apply IH].
Qed.

Lemma reachable_trans w1 w2 w3 : reachable H w1 w2 → reachable H w2 w3 → reachable H w1 w3.
Proof. unfold reachable. intros. by etrans. Qed.

End Schedule.
