(* ===== verification/Drain.v ===== *)
(** * Drain: when an I/O context can run out of work

    [io_context::run] returns when nothing is outstanding any more. A program
    that stops by closing its socket and joining the threads of the context
    relies on three things: failed operations start nothing, posted closures
    post nothing, and from some time on the timers are not armed again.
    [Drains] states them for the states [I] such a program is in; [can_drain] is
    what follows. *)

From S2P Require Import Prelude Asio Schedule.

Section Drain.
Context {St Op P T C A : Type} `{EqDecision T}.
Context (H : handlers St Op P T C A).
Implicit Types (w : world St Op P T C) (s : St).

(** A handler that only calls the application. *)
Definition says_only (e : eff Op P T C) : Prop :=
  match e with ECall _ => True | _ => False end.

Lemma says_only_fields es w :
  Forall says_only es →
  w_ops (do_effs es w) = w_ops w ∧ w_posts (do_effs es w) = w_posts w ∧
  w_armed (do_effs es w) = w_armed w ∧ w_fired (do_effs es w) = w_fired w.
Proof.
  intros Hes. revert w. induction Hes as [|e es He _ IH]; intros w; [done|]. simpl.
  destruct (IH (do_eff e w)) as (-> & -> & -> & ->). by destruct e.
Qed.

Class Drains (I : St → Prop) (quiet : Z → St → Prop) : Prop := {
  drain_op now o s : I s → h_io H now o (IoErr true) s = (s, [], ());
  drain_post now p s :
    I s → I (state_of (h_post H now p s)) ∧ posted (effs_of (h_post H now p s)) = [];
  drain_quiet s t : I s → ∃ t', t <= t' ∧ ∀ t'', t' <= t'' → quiet t'' s;
  drain_timer now t ab s :
    quiet now s →
    quiet now (state_of (h_timer H now t ab s)) ∧ Forall says_only (effs_of (h_timer H now t ab s)) }.

(** All outstanding operations fail, one after the other. *)
Lemma ops_fail w :
  (∀ o, h_io H (w_now w) o (IoErr true) (w_st w) = (w_st w, [], ())) →
  reachable H w (w <| w_ops := [] |>).
Proof.
  remember (w_ops w) as ops eqn:Eo. revert w Eo. induction ops as [|o ops IH]; intros w Eo Hf.
  - destruct w. simpl in Eo. subst. apply rtc_refl.
  - eapply rtc_l; [apply (step_io H w o [] ops (IoErr true)); [done|by destruct (h_kind H o)]|].
    assert (E : complete H o (IoErr true) ([] ++ ops) w = w <| w_ops := ops |>).
    { unfold complete, run. simpl. rewrite Hf. simpl. destruct w. simpl.
      by destruct (h_kind H o); simpl; rewrite app_nil_r. }
    rewrite E. exact (IH (w <| w_ops := ops |>) eq_refl Hf).
Qed.

(** All waits that are due expire. *)
Lemma waits_expire w :
  Forall (λ a, a.2 <= w_now w) (w_armed w) →
  ∃ fired, reachable H w (w <| w_armed := [] |> <| w_fired := fired |>).
Proof.
  remember (w_armed w) as l eqn:El. revert w El. induction l as [|[t d] l IH]; intros w El Hd.
  - exists (w_fired w). destruct w. simpl in El. subst. apply rtc_refl.
  - apply Forall_cons in Hd as [Hd Hl].
    destruct (IH (w <| w_armed := l |> <| w_fired := w_fired w ++ [(t, false)] |>)) as (fired & Hr); [done..|].
    exists fired. eapply rtc_l; [|exact Hr]. by apply (step_expire H w t d [] l).
Qed.

(** The closures that are posted run. *)
Lemma posts_run (I : St → Prop) w :
  (∀ p s, I s → I (state_of (h_post H (w_now w) p s)) ∧ posted (effs_of (h_post H (w_now w) p s)) = []) →
  I (w_st w) →
  ∃ w', reachable H w w' ∧ I (w_st w') ∧ w_posts w' = [] ∧ w_now w' = w_now w.
Proof.
  remember (w_posts w) as ps eqn:Ep. revert w Ep. induction ps as [|p ps IH]; intros w Ep Hp Hi.
  - exists w. split_and!; try done. apply rtc_refl.
  - destruct (run_fields (h_post H (w_now w) p) (w <| w_posts := ps |>)) as (E1 & _ & E3 & _ & _ & E6).
    set (v := run (h_post H (w_now w) p) (w <| w_posts := ps |>)) in *.
    destruct (Hp p (w_st w) Hi) as [Hi' Hn].
    change (w_st (w <| w_posts := ps |>)) with (w_st w) in E1, E3.
    destruct (IH v) as (w' & Hr & Hw & Hps & Hnow).
    + rewrite E3, Hn. simpl. by rewrite app_nil_r.
    + by rewrite E6.
    + by rewrite E1.
    + exists w'. split_and!; [|done|done|by rewrite Hnow, E6]. eapply rtc_l; [by apply step_post|exact Hr].
Qed.

(** The handlers of the waits that ended run. *)
Lemma waits_run (I : St → Prop) w :
  (∀ t ab s, I s → I (state_of (h_timer H (w_now w) t ab s)) ∧
     Forall says_only (effs_of (h_timer H (w_now w) t ab s))) →
  I (w_st w) →
  ∃ w', reachable H w w' ∧ w_ops w' = w_ops w ∧ w_posts w' = w_posts w ∧ w_armed w' = w_armed w ∧
    w_fired w' = [].
Proof.
  remember (w_fired w) as l eqn:El. revert w El. induction l as [|[t ab] l IH]; intros w El Ht Hi.
  - exists w. split_and!; try done. apply rtc_refl.
  - set (w1 := w <| w_fired := l |>). set (v := run (h_timer H (w_now w) t ab) w1).
    destruct (Ht t ab (w_st w) Hi) as [Hi' Hs].
    assert (Hv : w_st v = state_of (h_timer H (w_now w) t ab (w_st w)) ∧ w_ops v = w_ops w ∧
      w_posts v = w_posts w ∧ w_armed v = w_armed w ∧ w_fired v = l ∧ w_now v = w_now w).
    { destruct (run_fields (h_timer H (w_now w) t ab) w1) as (E1 & _ & _ & _ & _ & E6).
      fold v in E1, E6. split; [exact E1|]. unfold v, run in *. change (w_st w1) with (w_st w) in *.
      destruct (h_timer H (w_now w) t ab (w_st w)) as [[s es] []].
      by destruct (says_only_fields es (w1 <| w_st := s |>) Hs) as (-> & -> & -> & ->). }
    destruct Hv as (E1 & E2 & E3 & E4 & E5 & E6).
    destruct (IH v) as (w' & Hr & Ho & Hp & Ha & Hf); [done|by rewrite E6|by rewrite E1|].
    exists w'. split_and!; try congruence. eapply rtc_l; [|exact Hr]. by apply (step_timer H w t ab [] l).
Qed.

(** The latest of some deadlines. *)
Lemma all_due (l : list (T * Z)) (t : Z) : ∃ t', t <= t' ∧ Forall (λ a, a.2 <= t') l.
Proof.
  induction l as [|[x d] l (t' & Hle & Hl)]; [by exists t|].
  exists (Z.max t' d). split; [lia|]. constructor; [simpl; lia|].
  apply (Forall_impl _ _ _ Hl). intros a ?. lia.
Qed.

(** In such a state there is a run in which the context runs out of work. *)
Lemma can_drain I quiet `{!Drains I quiet} w :
  I (w_st w) →
  ∃ w', reachable H w w' ∧ w_ops w' = [] ∧ w_posts w' = [] ∧ w_armed w' = [] ∧ w_fired w' = [].
Proof.
  intros Hi.
  destruct (posts_run I w) as (w1 & Hr1 & Hi1 & Hp1 & _); [by intros p s; apply drain_post|done|].
  assert (Hr2 : reachable H w1 (w1 <| w_ops := [] |>)).
  { apply ops_fail. intros o. by apply drain_op. }
  destruct (drain_quiet (w_st w1) (w_now w1) Hi1) as (t1 & Ht1 & Hq).
  destruct (all_due (w_armed w1) t1) as (t2 & Ht2 & Hd).
  set (w3 := w1 <| w_ops := [] |> <| w_now := t2 |>).
  assert (Hr3 : reachable H (w1 <| w_ops := [] |>) w3) by (apply rtc_once, step_tick; simpl; lia).
  destruct (waits_expire w3 Hd) as (fired & Hr4). set (w4 := w3 <| w_armed := [] |> <| w_fired := fired |>) in *.
  destruct (waits_run (quiet t2) w4) as (w5 & Hr5 & Ho & Hp & Ha & Hf).
  { intros t ab s Hs. by apply drain_timer. }
  { by apply Hq. }
  exists w5. split; [|by rewrite Ho, Hp, Ha].
  repeat (eapply reachable_trans; [eassumption|]). apply rtc_refl.
Qed.

End Drain.
