(* ===== verification/IoThreads.v ===== *)
(** * IoThreads: the threads that run an I/O context

    A class of the repository starts its threads with
    [ioThreads_.emplace_back([this] { ioCtx_.run(); })] and ends them with
    [ioCtx_.stop(); for (auto& t : ioThreads_) if (t.joinable()) t.join();].
    Here are the threads of one context, by where they are: polling for a
    handler, or committed to one. [stop] lets a polling thread return from
    [run]; a handler that a thread has taken still runs. *)

From S2P Require Import Prelude.

Record io_threads := IoThreads {
  polling : nat;
  busy : nat;
  io_stopped : bool }.

#[export] Instance eta_io_threads : Eta io_threads := λ t,
  IoThreads (polling t) (busy t) (io_stopped t).

(** The loop of the constructor. *)
Definition spawn (n : nat) : io_threads := IoThreads n 0 false.

Definition stop_io (t : io_threads) : io_threads := t <| io_stopped := true |>.

(** All of them have returned from [run]: the loop of [join]s ends. *)
Definition joined (t : io_threads) : Prop := polling t = 0%nat ∧ busy t = 0%nat.

(** What a thread does between two handlers. *)
Inductive thread_step : io_threads → io_threads → Prop :=
| thread_take n b :
    thread_step (IoThreads (S n) b false) (IoThreads n (S b) false)
| thread_leave n b :
    thread_step (IoThreads (S n) b true) (IoThreads n b true).

(** A thread that has taken a handler runs it and polls again. *)
Inductive handler_step : io_threads → io_threads → Prop :=
| handler_done n b st :
    handler_step (IoThreads n (S b) st) (IoThreads (S n) b st).

(** ** Stopping *)

(** How many moves the threads of a stopped context have left. *)
Definition moves (t : io_threads) : nat := polling t + 2 * busy t.

Lemma thread_step_moves t t' :
  io_stopped t = true → thread_step t t' → io_stopped t' = true ∧ (moves t' < moves t)%nat.
Proof. intros Hs Ht. destruct Ht; simpl in *; [done|]. unfold moves. simpl. split; [done|lia]. Qed.

Lemma handler_step_moves t t' :
  handler_step t t' → io_stopped t' = io_stopped t ∧ (moves t' < moves t)%nat.
Proof. intros []. unfold moves. simpl. split; [done|lia]. Qed.

(** A stopped context whose threads are not joined has a thread that can move. *)
Lemma stopped_progress t :
  io_stopped t = true → joined t ∨ (∃ t', thread_step t t') ∨ ∃ t', handler_step t t'.
Proof.
  destruct t as [[|n] [|b] st]; simpl; intros ->.
  - by left.
  - right; right. eexists. constructor.
  - right; left. eexists. constructor.
  - right; left. eexists. constructor.
Qed.

Lemma joined_no_handler t t' : joined t → ¬ handler_step t t'.
Proof. intros [_ Hb] Hs. destruct Hs. simpl in *. lia. Qed.

Lemma joined_stays t t' : joined t → ¬ thread_step t t'.
Proof. intros [Hp _] Hs. destruct Hs; simpl in *; lia. Qed.
