(* ===== verification/PQueue.v ===== *)
(** * PQueue: what the programs rely on of [std::priority_queue]

    The C++ standard leaves the order of equivalent elements open, so the
    clients of the container are verified against the interface: the contents
    are a multiset, [top] is some minimal element, [pop] removes that element.
    [list_pqueue] is an implementation that shows the interface can be met
    and lets models run. *)

From S2P Require Import Prelude.

Class PQueue (Q A : Type) := {
  pq_empty : Q;
  pq_push : A → Q → Q;
  pq_top : Q → option A;
  pq_pop : Q → Q;
  pq_elems : Q → list A }.

(** Laws for the order given by [key], smallest first ([std::greater]). *)
Class PQueueLaws (Q A : Type) `{PQueue Q A} (key : A → Z) : Prop := {
  pq_elems_empty : pq_elems pq_empty = [];
  pq_elems_push a q : pq_elems (pq_push a q) ≡ₚ a :: pq_elems q;
  pq_top_None q : pq_top q = None → pq_elems q = [];
  pq_top_Some q a : pq_top q = Some a →
    pq_elems q ≡ₚ a :: pq_elems (pq_pop q) ∧
    Forall (λ b, key a <= key b) (pq_elems q) }.

(** ** A list searched for its minimum meets the interface *)

Section ListQueue.
Context {A : Type} (key : A → Z).

Fixpoint extract_min (l : list A) : option (A * list A) :=
  match l with
  | [] => None
  | a :: l' =>
      match extract_min l' with
      | None => Some (a, [])
      | Some (b, r) => if key a <=? key b then Some (a, l') else Some (b, a :: r)
      end
  end.

Lemma extract_min_None l : extract_min l = None → l = [].
Proof. destruct l as [|a l]; simpl; [done|]. by repeat case_match. Qed.

Lemma extract_min_Some l a r :
  extract_min l = Some (a, r) → l ≡ₚ a :: r ∧ Forall (λ b, key a <= key b) l.
Proof.
  revert a r. induction l as [|x l IH]; intros a r; simpl; [done|].
  destruct (extract_min l) as [[b r']|] eqn:E.
  - destruct (IH _ _ eq_refl) as [Hp Hf].
    destruct (Z.leb_spec (key x) (key b)); intros [= <- <-].
    + split; [done|]. constructor; [lia|].
      eapply Forall_impl; [exact Hf|]. simpl. lia.
    + split; [rewrite Hp; apply Permutation_swap|]. constructor; [lia|done].
  - apply extract_min_None in E as ->. intros [= <- <-]. split; [done|].
    repeat constructor. lia.
Qed.

Definition list_pqueue : PQueue (list A) A := {|
  pq_empty := [];
  pq_push a q := a :: q;
  pq_top q := fst <$> extract_min q;
  pq_pop q := match extract_min q with Some (_, r) => r | None => q end;
  pq_elems q := q |}.

Lemma list_pqueue_laws : @PQueueLaws (list A) A list_pqueue key.
Proof.
  split; simpl.
  - done.
  - done.
  - intros q. destruct (extract_min q) as [[]|] eqn:E; [done|].
    intros _. by apply extract_min_None.
  - intros q a. destruct (extract_min q) as [[b r]|] eqn:E; [|done].
    intros [= <-]. by apply extract_min_Some.
Qed.

End ListQueue.

(** ** Consequences of the laws *)

Section Laws.
Context `{PQueueLaws Q A key}.

Lemma pq_pop_length (q : Q) a :
  pq_top q = Some a → length (pq_elems q) = S (length (pq_elems (pq_pop q))).
Proof. intros Ht. destruct (pq_top_Some q a Ht) as [Hp _]. by rewrite Hp. Qed.

Lemma pq_top_min (q : Q) a b : pq_top q = Some a → b ∈ pq_elems q → key a <= key b.
Proof.
  intros Ht Hb. destruct (pq_top_Some q a Ht) as [_ Hf].
  rewrite Forall_forall in Hf. by apply Hf.
Qed.

Lemma pq_top_elem (q : Q) a : pq_top q = Some a → a ∈ pq_elems q.
Proof. intros Ht. destruct (pq_top_Some q a Ht) as [-> _]. by left. Qed.

End Laws.
