(* ===== verification/TurboFrame.v ===== *)
(** * TurboFrame: the 10-byte-header packet format of turbonet

    [frame] is the wire format the client and the server of
    turbonet_client.cpp / turbonet_server.cpp agree on: total length (4 bytes,
    big-endian, header included), packet id, status, sequence number (4 bytes,
    big-endian), body. The operations that build or take apart such packets
    ([TurboNetClient::sendPacket], the header accesses of the two
    [onReadHeader]) are here; they are related to [frame] once, and the
    components use those lemmas. *)

From S2P Require Import Prelude Bytes.

Record packet := Packet {
  pk_id : Z;
  pk_status : Z;
  pk_seq : Z;
  pk_body : bytes }.

(** What the C++ types of the fields guarantee, and a length that fits. *)
Definition wf_packet (p : packet) : Prop :=
  is_u8 (pk_id p) ∧ is_u8 (pk_status p) ∧ is_u32 (pk_seq p) ∧
  wf_bytes (pk_body p) ∧ 10 + blen (pk_body p) < 2 ^ 32.

#[export] Instance wf_packet_dec p : Decision (wf_packet p).
Proof. unfold wf_packet. apply _. Defined.

(** The specification of the format. *)
Definition frame (p : packet) : bytes :=
  be_bytes 4 (10 + blen (pk_body p)) ++ [pk_id p; pk_status p] ++
  be_bytes 4 (pk_seq p) ++ pk_body p.

Section Codec.
Context `{Host}.

Definition toBigEndian (v : Z) : Z := htonl v.

Definition fromBigEndian (b : bytes) : Z :=
  let v := load32 (take 4 b) in ntohl v.

(** The packet assembly of [sendPacket]. *)
Definition build_packet (packetId status sequence : Z) (data : bytes) : bytes :=
  let pkt := vec_zero (10 + length data) in
  let totalLen := u32 (10 + u32 (blen data)) in
  let beLen := toBigEndian totalLen in
  let pkt := blit 0 (store32 beLen) pkt in
  let pkt := vec_set 4 packetId pkt in
  let pkt := vec_set 5 status pkt in
  let beSeq := toBigEndian sequence in
  let pkt := blit 6 (store32 beSeq) pkt in
  blit 10 data pkt.

(** Header fields, as [onReadHeader] reads them from [headerBuf_]. *)
Definition hdr_len (hb : bytes) : Z := fromBigEndian hb.
Definition hdr_id (hb : bytes) : Z := hb !!! 4%nat.
Definition hdr_status (hb : bytes) : Z := hb !!! 5%nat.
Definition hdr_seq (hb : bytes) : Z := fromBigEndian (drop 6 hb).

End Codec.

(** ** Lemmas *)

Lemma le_bytes_mod n v : le_bytes n (v mod 256 ^ Z.of_nat n) = le_bytes n v.
Proof.
  rewrite <-le_val_bytes. rewrite <-(le_bytes_length n v) at 1.
  apply le_bytes_val, le_bytes_wf.
Qed.

Lemma be_bytes_u32 v : be_bytes 4 (u32 v) = be_bytes 4 v.
Proof. unfold be_bytes, u32. f_equal. apply (le_bytes_mod 4 v). Qed.

(** Filling a zeroed vector the way all packet builders of the repository do:
    a word, two bytes, a word, the body. *)
Lemma fill_packet (w1 w2 data : bytes) (a b : Z) :
  length w1 = 4%nat → length w2 = 4%nat →
  blit 10 data (blit 6 w2 (vec_set 5 b (vec_set 4 a
    (blit 0 w1 (vec_zero (10 + length data)))))) = w1 ++ [a; b] ++ w2 ++ data.
Proof.
  intros H1 H2.
  destruct w1 as [|x0 [|x1 [|x2 [|x3 [|]]]]]; simplify_eq/=.
  destruct w2 as [|y0 [|y1 [|y2 [|y3 [|]]]]]; simplify_eq/=.
  unfold vec_zero, blit, vec_set; simpl.
  do 10 f_equal. rewrite drop_ge by len. by rewrite app_nil_r.
Qed.

Lemma be_bytes_len_u32 n v : be_bytes 4 (u32 (n + u32 v)) = be_bytes 4 (n + v).
Proof.
  rewrite <-be_bytes_u32, <-(be_bytes_u32 (n + v)). unfold u32.
  by rewrite Zplus_mod_idemp_r, Zmod_mod.
Qed.

(** [sendPacket] produces the format, whatever the host's byte order. *)
Lemma build_packet_frame `{Host} pid st seq data :
  build_packet pid st seq data = frame (Packet pid st seq data).
Proof.
  unfold build_packet, frame, toBigEndian; simpl.
  rewrite !store32_htonl, be_bytes_len_u32.
  rewrite fill_packet; [done | apply be_bytes_length..].
Qed.

Lemma frame_length p : length (frame p) = (10 + length (pk_body p))%nat.
Proof. unfold frame. rewrite !length_app, !be_bytes_length. simpl. lia. Qed.

Lemma frame_wf p : wf_packet p → wf_bytes (frame p).
Proof.
  intros (? & ? & ? & ? & ?). unfold frame.
  rewrite !wf_bytes_app. repeat split; auto with tn_wf.
  apply Forall_cons; split; [done|]. apply Forall_singleton. done.
Qed.

Lemma frames_wf ps : Forall wf_packet ps → wf_bytes (mjoin (frame <$> ps)).
Proof.
  induction 1 as [|p ps Hp _ IH]; [constructor|]. rewrite fmap_cons.
  apply wf_bytes_app. split; [by apply frame_wf|done].
Qed.

(** The header of a frame, and what its fields read as. *)
Definition frame_header (p : packet) : bytes := take 10 (frame p).

Lemma frame_split p rest :
  take 10 (frame p ++ rest) = frame_header p ∧
  drop 10 (frame p ++ rest) = pk_body p ++ rest.
Proof.
  unfold frame_header. rewrite take_app_le by (rewrite frame_length; lia).
  split; [done|]. rewrite drop_app_le by (rewrite frame_length; lia).
  done.
Qed.

Lemma frame_header_eq p :
  frame_header p = be_bytes 4 (10 + blen (pk_body p)) ++ [pk_id p; pk_status p] ++
    be_bytes 4 (pk_seq p).
Proof.
  done.
Qed.

Lemma frame_header_length p : length (frame_header p) = 10%nat.
Proof. rewrite frame_header_eq. len. Qed.

Lemma fromBigEndian_app `{Host} v rest :
  is_u32 v → fromBigEndian (be_bytes 4 v ++ rest) = v.
Proof.
  intros Hv. unfold fromBigEndian. rewrite take_app_le by len. rewrite take_ge by len.
  rewrite ntohl_load32 by (auto with tn_wf; len). by apply be_val_bytes32.
Qed.

Lemma frame_header_fields `{Host} p :
  wf_packet p →
  hdr_len (frame_header p) = 10 + blen (pk_body p) ∧
  hdr_id (frame_header p) = pk_id p ∧
  hdr_status (frame_header p) = pk_status p ∧
  hdr_seq (frame_header p) = pk_seq p.
Proof.
  intros (? & ? & Hs & ? & Hl). rewrite frame_header_eq.
  unfold hdr_len, hdr_id, hdr_status, hdr_seq.
  rewrite fromBigEndian_app by (unfold is_u32, blen in *; lia).
  assert (length (be_bytes 4 (10 + blen (pk_body p))) = 4%nat) as Hlen by len.
  destruct (be_bytes 4 (10 + blen (pk_body p))) as [|? [|? [|? [|? [|]]]]]; simplify_eq/=.
  repeat split. change (fromBigEndian (be_bytes 4 (pk_seq p) ++ []) = pk_seq p).
  by apply fromBigEndian_app.
Qed.

#[export] Hint Rewrite frame_length frame_header_length : tn_len.
#[export] Hint Resolve frame_wf : tn_wf.

(** ** The codec round trip *)

(** C1: What one host packs with [sendPacket], another host (of either byte order)
    takes apart into the same fields and body: ten header bytes whose length
    field is the size of the whole packet, then the body. *)
Theorem packet_roundtrip (sender receiver : Host) pid st seq data :
  wf_packet (Packet pid st seq data) →
  let pkt := @build_packet sender pid st seq data in
  let hb := take 10 pkt in
  @hdr_len receiver hb = blen pkt ∧ hdr_id hb = pid ∧ hdr_status hb = st ∧
  @hdr_seq receiver hb = seq ∧ drop 10 pkt = data.
Proof.
  intros Hp. cbv zeta. rewrite build_packet_frame.
  destruct (@frame_header_fields receiver _ Hp) as (Hl & Hi & Hs & Hq).
  unfold frame_header in *. rewrite Hl, Hi, Hs, Hq. simpl.
  split; [|done]. unfold blen. rewrite frame_length. simpl. lia.
Qed.

Lemma packet_roundtrip_witness :
  let pkt := @build_packet LittleEndian 2 0 305419896 (lit "hello") in
  let hb := take 10 pkt in
  @hdr_len BigEndian hb = blen pkt ∧ hdr_id hb = 2 ∧ hdr_status hb = 0 ∧
  @hdr_seq BigEndian hb = 305419896 ∧ drop 10 pkt = lit "hello".
Proof.
  apply (packet_roundtrip LittleEndian BigEndian 2 0 305419896 (lit "hello")).
  apply (bool_decide_unpack _). vm_compute. exact I.
Defined.

(** A body of 2^32 - 10 bytes or more does not fit the length field: the
    packet announces fewer bytes than it has (the receiver then takes the rest
    for further packets). *)
Theorem oversized_packet_length (e : Host) pid st seq data :
  2 ^ 32 - 10 <= blen data →
  let pkt := @build_packet e pid st seq data in
  @hdr_len e (take 10 pkt) = u32 (blen pkt) ∧ @hdr_len e (take 10 pkt) < blen pkt.
Proof.
  intros Hb. cbv zeta. rewrite build_packet_frame.
  change (take 10 _) with (frame_header (Packet pid st seq data)).
  assert (blen (frame (Packet pid st seq data)) = 10 + blen data) as ->.
  { unfold blen. rewrite frame_length. simpl. lia. }
  assert (hdr_len (frame_header (Packet pid st seq data)) = u32 (10 + blen data)) as ->.
  { rewrite frame_header_eq. unfold hdr_len. rewrite <-be_bytes_u32. simpl.
    apply fromBigEndian_app. apply Z.mod_pos_bound. lia. }
  split; [done|]. unfold u32. pose proof (Z.mod_pos_bound (10 + blen data) (2 ^ 32)). lia.
Qed.

Lemma oversized_packet_length_witness :
  let data := replicate (Z.to_nat (2 ^ 32 - 10)) 0 in
  let pkt := @build_packet LittleEndian 2 0 1 data in
  @hdr_len LittleEndian (take 10 pkt) = u32 (blen pkt) ∧
  @hdr_len LittleEndian (take 10 pkt) < blen pkt.
Proof.
  apply (oversized_packet_length LittleEndian 2 0 1).
  unfold blen. rewrite length_replicate, Z2Nat.id by lia. lia.
Defined.
