(* ===== verification/TurboClient.v ===== *)
(** * TurboClient: the class [TurboNetClient] (turbonet_client.h / .cpp)

    State, public interface and completion handlers of the client. Every
    member function is a definition of the same name; completion handlers bound
    to an asynchronous operation are selected from the operation by
    [client_io], posted closures by [client_post], timer waits by
    [client_timer]. [std::function] members are [std_function]; invoking one
    emits a [c_call]. The response-timeout bookkeeping is kept against the
    priority-queue interface of PQueue. *)

From S2P Require Import Prelude Bytes Asio PQueue TurboFrame.

(** [struct ResponseEntry]. *)
Record ResponseEntry := mkEntry {
  e_sequence : Z;
  e_expiry : Z }.

(** Data members of [TurboNetClient]; [Q] is the representation of
    [std::priority_queue<ResponseEntry, ..., std::greater<>>]. *)
Record client (Q : Type) := Client {
  readTimeoutMs_ : Z;
  writeTimeoutMs_ : Z;
  responseTimeoutMs_ : Z;
  running_ : bool;
  headerBuf_ : bytes;
  bodyBuf_ : bytes;
  txBuffer_ : bytes;
  onPacket_ : std_function;
  onTimeout_ : std_function;
  onBind_ : std_function;
  onClose_ : std_function;
  connectHandler_ : std_function;
  sequenceCounter_ : Z;
  responseQueue_ : Q;
  responseMap_ : gmap Z Z;
  clientId_ : bytes;
  lastPacketId_ : Z;
  lastStatus_ : Z;
  lastSequence_ : Z }.
Arguments Client {Q}.
Arguments readTimeoutMs_ {Q}.
Arguments writeTimeoutMs_ {Q}.
Arguments responseTimeoutMs_ {Q}.
Arguments running_ {Q}.
Arguments headerBuf_ {Q}.
Arguments bodyBuf_ {Q}.
Arguments txBuffer_ {Q}.
Arguments onPacket_ {Q}.
Arguments onTimeout_ {Q}.
Arguments onBind_ {Q}.
Arguments onClose_ {Q}.
Arguments connectHandler_ {Q}.
Arguments sequenceCounter_ {Q}.
Arguments responseQueue_ {Q}.
Arguments responseMap_ {Q}.
Arguments clientId_ {Q}.
Arguments lastPacketId_ {Q}.
Arguments lastStatus_ {Q}.
Arguments lastSequence_ {Q}.

#[export] Instance eta_client {Q} : Eta (client Q) := λ c,
  Client (readTimeoutMs_ c) (writeTimeoutMs_ c) (responseTimeoutMs_ c) (running_ c)
    (headerBuf_ c) (bodyBuf_ c) (txBuffer_ c) (onPacket_ c) (onTimeout_ c) (onBind_ c)
    (onClose_ c) (connectHandler_ c) (sequenceCounter_ c) (responseQueue_ c)
    (responseMap_ c) (clientId_ c) (lastPacketId_ c) (lastStatus_ c) (lastSequence_ c).

(** Outstanding operations, posted closures, timers, callbacks, interface. *)
Inductive c_op :=
| OpConnect
| OpReadHeader
| OpReadBody (bodyLen : Z)
| OpWrite (bs : bytes).

Inductive c_post := PostSend (pkt : bytes).

Inductive c_timer := TConnect | TRead | TWrite | TSweep.
#[export] Instance c_timer_eq_dec : EqDecision c_timer.
Proof. solve_decision. Defined.

Inductive c_call :=
| CallConnect (f : nat) (failed : bool)
| CallBind (f : nat) (serverId : bytes)
| CallPacket (f : nat) (packetId status sequence : Z) (payload : bytes)
| CallTimeout (f : nat) (sequence : Z)
| CallClose (f : nat).

Abbreviation c_eff := (eff c_op c_post c_timer c_call).

Section Client.
Context `{Host} {Q : Type} `{!PQueue Q ResponseEntry}.
Abbreviation M := (act (client Q) c_eff).

(** [if (f) f(args)]. *)
Definition invoke (f : std_function) (k : nat → c_call) : M unit :=
  match f with Some i => emit (ECall (k i)) | None => skip end.

(** ** Construction and configuration *)

Definition new_client (readTimeoutMs writeTimeoutMs responseTimeoutMs : Z) : client Q :=
  {| readTimeoutMs_ := readTimeoutMs; writeTimeoutMs_ := writeTimeoutMs;
     responseTimeoutMs_ := responseTimeoutMs; running_ := true;
     headerBuf_ := vec_zero 10; bodyBuf_ := []; txBuffer_ := [];
     onPacket_ := None; onTimeout_ := None; onBind_ := None; onClose_ := None;
     connectHandler_ := None; sequenceCounter_ := 1;
     responseQueue_ := pq_empty; responseMap_ := ∅; clientId_ := [];
     lastPacketId_ := 0; lastStatus_ := 0; lastSequence_ := 0 |}.

Definition setClientId (clientId : bytes) : M unit :=
  modify (λ c, c <| clientId_ := clientId |>).
Definition setBindHandler (handler : std_function) : M unit :=
  modify (λ c, c <| onBind_ := handler |>).
Definition setPacketHandler (handler : std_function) : M unit :=
  modify (λ c, c <| onPacket_ := handler |>).
Definition setTimeoutHandler (handler : std_function) : M unit :=
  modify (λ c, c <| onTimeout_ := handler |>).
Definition setCloseHandler (handler : std_function) : M unit :=
  modify (λ c, c <| onClose_ := handler |>).

(** [sequenceCounter_++] on a [std::atomic<uint32_t>]. *)
Definition next_sequence : M Z :=
  seq ← gets sequenceCounter_;
  modify (λ c, c <| sequenceCounter_ := u32 (seq + 1) |>);;
  mret seq.

(** ** Timers *)

Definition startConnectTimer (now timeoutMs : Z) : M unit :=
  if timeoutMs <=? 0 then skip
  else emit (EArm TConnect (now + milliseconds timeoutMs)).
Definition cancelConnectTimer : M unit := emit (ECancel TConnect).
Definition onConnectTimeout (ec : bool) : M unit := whenb (negb ec) (emit EClose).

Definition startReadTimer (now : Z) : M unit :=
  ms ← gets readTimeoutMs_;
  if ms <=? 0 then skip else emit (EArm TRead (now + milliseconds ms)).
Definition cancelReadTimer : M unit := emit (ECancel TRead).
Definition onReadTimeout (ec : bool) : M unit := whenb (negb ec) (emit EClose).

Definition startWriteTimer (now : Z) : M unit :=
  ms ← gets writeTimeoutMs_;
  if ms <=? 0 then skip else emit (EArm TWrite (now + milliseconds ms)).
Definition cancelWriteTimer : M unit := emit (ECancel TWrite).
Definition onWriteTimeout (ec : bool) : M unit := whenb (negb ec) (emit EClose).

(** ** Response timeouts *)

Definition startResponseTimer (now sequence : Z) : M unit :=
  ms ← gets responseTimeoutMs_;
  if ms <=? 0 then skip else
  let expiry := now + milliseconds ms in
  modify (λ c, c <| responseMap_ := <[sequence := expiry]> (responseMap_ c) |>
                 <| responseQueue_ := pq_push (mkEntry sequence expiry) (responseQueue_ c) |>);;
  emit (EArm TSweep (now + milliseconds ms)).

Definition cancelResponseTimer (sequence : Z) : M unit :=
  modify (λ c, c <| responseMap_ := delete sequence (responseMap_ c) |>).

(** The [while] loop of [checkAndFireResponseTimers]. *)
Fixpoint pop_expired (fuel : nat) (now : Z) (q : Q) (m : gmap Z Z) (expired : list Z)
  : Q * gmap Z Z * list Z :=
  match fuel with
  | O => (q, m, expired)
  | S fuel' =>
      match pq_top q with
      | Some e =>
          if e_expiry e <=? now then
            let seq := e_sequence e in
            match m !! seq with
            | Some _ => pop_expired fuel' now (pq_pop q) (delete seq m) (expired ++ [seq])
            | None => pop_expired fuel' now (pq_pop q) m expired
            end
          else (q, m, expired)
      | None => (q, m, expired)
      end
  end.

(** [for (auto seq : expired) if (onTimeout_) onTimeout_(seq);] *)
Fixpoint fire_timeouts (expired : list Z) : M unit :=
  match expired with
  | [] => skip
  | seq :: expired' =>
      f ← gets onTimeout_;
      invoke f (λ i, CallTimeout i seq);;
      fire_timeouts expired'
  end.

Definition checkAndFireResponseTimers (now : Z) (ec : bool) : M unit :=
  if ec then skip else
  c ← gets id;
  let '(q, m, expired) :=
    pop_expired (length (pq_elems (responseQueue_ c))) now
      (responseQueue_ c) (responseMap_ c) [] in
  modify (λ c, c <| responseQueue_ := q |> <| responseMap_ := m |>);;
  fire_timeouts expired;;
  top ← gets (λ c, pq_top (responseQueue_ c));
  let next := match top with Some e => e_expiry e | None => now + hours 24 end in
  emit (EArm TSweep next).

(** ** Writing *)

Definition doWrite (now : Z) : M unit :=
  startWriteTimer now;;
  tx ← gets txBuffer_;
  emit (EStart (OpWrite tx)).

Definition onWrite (ec : bool) : M unit :=
  cancelWriteTimer;;
  whenb (negb ec) (modify (λ c, c <| txBuffer_ := [] |>)).

(** The closure [sendPacket] posts to the strand. *)
Definition send_posted (now : Z) (pkt : bytes) : M unit :=
  tx ← gets txBuffer_;
  let writing := negb (bool_decide (tx = [])) in
  modify (λ c, c <| txBuffer_ := txBuffer_ c ++ pkt |>);;
  whenb (negb writing) (doWrite now).

Definition sendPacket (packetId status sequence : Z) (data : bytes) : M unit :=
  let pkt := build_packet packetId status sequence data in
  emit (EPost (PostSend pkt)).

Definition sendRequest (now : Z) (data : bytes) : M Z :=
  seq ← next_sequence;
  sendPacket 0x02 0x00 seq data;;
  startResponseTimer now seq;;
  mret seq.

(** ** Reading *)

Definition doReadHeader (now : Z) : M unit :=
  startReadTimer now;;
  emit (EStart OpReadHeader).

Definition doReadBody (bodyLen : Z) : M unit :=
  modify (λ c, c <| bodyBuf_ := vec_resize (Z.to_nat bodyLen) (bodyBuf_ c) |>);;
  emit (EStart (OpReadBody bodyLen)).

Definition onReadHeader (now : Z) (ec : bool) : M unit :=
  if ec then cancelReadTimer else
  hb ← gets headerBuf_;
  let packetLen := fromBigEndian hb in
  modify (λ c, c <| lastPacketId_ := hdr_id hb |>
                 <| lastStatus_ := hdr_status hb |>
                 <| lastSequence_ := hdr_seq hb |>);;
  if 10 <=? packetLen then doReadBody (u32 (packetLen - 10))
  else doReadHeader now.

Definition onReadBody (now : Z) (ec : bool) : M unit :=
  cancelReadTimer;;
  c ← gets id;
  whenb (negb ec)
    (whenb (lastPacketId_ c =? 0x81) (invoke (onBind_ c) (λ i, CallBind i (bodyBuf_ c)));;
     invoke (onPacket_ c)
       (λ i, CallPacket i (lastPacketId_ c) (lastStatus_ c) (lastSequence_ c) (bodyBuf_ c)));;
  running ← gets running_;
  whenb running (doReadHeader now).

(** ** Connecting and closing *)

(** The completion handler of [async_connect]. *)
Definition on_connect (now : Z) (ec : bool) : M unit :=
  cancelConnectTimer;;
  c ← gets id;
  whenb (negb ec)
    (whenb (negb (bool_decide (clientId_ c = [])))
       (seq ← next_sequence; sendPacket 0x01 0x00 seq (clientId_ c));;
     doReadHeader now);;
  f ← gets connectHandler_;
  invoke f (λ i, CallConnect i ec).

(** [connect]; [resolved] is whether the synchronous [resolver.resolve]
    returned (it throws otherwise, after the handler was stored). The result
    is whether the call returned normally. *)
Definition connect (now : Z) (resolved : bool) (timeoutMs : Z) (onConnect : std_function)
  : M bool :=
  modify (λ c, c <| connectHandler_ := onConnect |>);;
  if resolved then
    startConnectTimer now timeoutMs;;
    emit (EStart OpConnect);;
    mret true
  else mret false.

Definition close : M unit :=
  modify (λ c, c <| running_ := false |>);;
  emit EClose;;
  cancelConnectTimer;;
  cancelReadTimer;;
  cancelWriteTimer;;
  emit (ECancel TSweep);;
  f ← gets onClose_;
  invoke f CallClose.

(** ** The client as seen by the I/O library *)

Definition c_kind (o : c_op) : io_kind :=
  match o with
  | OpConnect => KConnect
  | OpReadHeader => KRead 10
  | OpReadBody n => KRead (Z.to_nat n)
  | OpWrite bs => KWrite bs
  end.

Definition is_err (r : io_result) : bool :=
  match r with IoOk _ => false | IoErr _ => true end.

(** A read fills its buffer before the handler runs. *)
Definition client_io (now : Z) (o : c_op) (r : io_result) : M unit :=
  match o with
  | OpConnect => on_connect now (is_err r)
  | OpReadHeader =>
      match r with
      | IoOk data => modify (λ c, c <| headerBuf_ := data |>);; onReadHeader now false
      | IoErr _ => onReadHeader now true
      end
  | OpReadBody _ =>
      match r with
      | IoOk data => modify (λ c, c <| bodyBuf_ := data |>);; onReadBody now false
      | IoErr _ => onReadBody now true
      end
  | OpWrite _ => onWrite (is_err r)
  end.

Definition client_post (now : Z) (p : c_post) : M unit :=
  match p with PostSend pkt => send_posted now pkt end.

Definition client_timer (now : Z) (t : c_timer) (aborted : bool) : M unit :=
  match t with
  | TConnect => onConnectTimeout aborted
  | TRead => onReadTimeout aborted
  | TWrite => onWriteTimeout aborted
  | TSweep => checkAndFireResponseTimers now aborted
  end.

(** Calls of the public interface that may come at any time. *)
Inductive c_api :=
| ApiSendPacket (packetId status sequence : Z) (data : bytes)
| ApiSendRequest (data : bytes)
| ApiClose.

Definition client_api (now : Z) (a : c_api) : M unit :=
  match a with
  | ApiSendPacket i s n d => sendPacket i s n d
  | ApiSendRequest d => sendRequest now d;; skip
  | ApiClose => close
  end.

Definition client_handlers : handlers (client Q) c_op c_post c_timer c_call c_api :=
  Handlers c_kind client_io client_post client_timer client_api.

End Client.

(** An executable instance of the response queue, for concrete runs. *)
#[export] Instance response_queue : PQueue (list ResponseEntry) ResponseEntry :=
  list_pqueue e_expiry.
#[export] Instance response_queue_laws :
  PQueueLaws (list ResponseEntry) ResponseEntry e_expiry := list_pqueue_laws e_expiry.

(** A configured client, and worlds in which it is connecting and waiting for
    a header. *)
Definition sample_client : client (list ResponseEntry) :=
  (new_client 5000 5000 10000) <| onBind_ := Some 1%nat |> <| onPacket_ := Some 2%nat |>
    <| onTimeout_ := Some 3%nat |>.

Definition connecting_world : world (client (list ResponseEntry)) c_op c_post c_timer c_call :=
  (init_world sample_client 0) <| w_ops := [OpConnect] |>.

Definition sample_world : world (client (list ResponseEntry)) c_op c_post c_timer c_call :=
  (init_world sample_client 0) <| w_ops := [OpReadHeader] |>.
