(* ===== verification/TurboClientRx.v ===== *)
(** * TurboClientRx: what the receiving half of the client does

    Functional behaviour of [onReadHeader]/[onReadBody] on every branch, and
    the main result: the read loop turns any concatenation of frames into the
    corresponding sequence of callbacks. *)

From S2P Require Import Prelude Bytes Asio PQueue TurboFrame TurboClient.

Section Rx.
Context `{Host} {Q : Type} `{!PQueue Q ResponseEntry}.
Implicit Types (c : client Q) (p : packet).
Abbreviation CH := (client_handlers (Q:=Q)).

(** The callbacks a packet must cause: [onBind_] for a bind response, then
    [onPacket_], each if set. *)
Definition deliveries c p : list c_call :=
  (if pk_id p =? 0x81
   then match onBind_ c with Some i => [CallBind i (pk_body p)] | None => [] end
   else []) ++
  match onPacket_ c with
  | Some i => [CallPacket i (pk_id p) (pk_status p) (pk_seq p) (pk_body p)]
  | None => []
  end.

(** What a frame's header and body leave unchanged. *)
Definition same_config c c' : Prop :=
  running_ c' = running_ c ∧ onPacket_ c' = onPacket_ c ∧ onBind_ c' = onBind_ c.

(** A well-formed header leads to the read of exactly its body. *)
Lemma client_header_ok now c p :
  wf_packet p →
  let r := client_io now OpReadHeader (IoOk (frame_header p)) c in
  started (effs_of r) = [OpReadBody (blen (pk_body p))] ∧
  called (effs_of r) = [] ∧ posted (effs_of r) = [] ∧
  lastPacketId_ (state_of r) = pk_id p ∧ lastStatus_ (state_of r) = pk_status p ∧
  lastSequence_ (state_of r) = pk_seq p ∧ same_config c (state_of r).
Proof.
  intros Hp. destruct (frame_header_fields p Hp) as (Hl & Hi & Hs & Hq).
  unfold client_io, onReadHeader. unact. unfold hdr_len in Hl. rewrite Hl, Hi, Hs, Hq.
  destruct Hp as (_ & _ & _ & _ & Hlen). unfold blen in *.
  rewrite (proj2 (Z.leb_le _ _)) by lia. simpl.
  replace (u32 _) with (Z.of_nat (length (pk_body p))); [done|].
  unfold u32. rewrite Z.mod_small; lia.
Qed.

(** The body completes the packet: the callbacks run, the loop goes on. *)
Lemma client_body_ok now c n p :
  lastPacketId_ c = pk_id p → lastStatus_ c = pk_status p → lastSequence_ c = pk_seq p →
  running_ c = true →
  let r := client_io now (OpReadBody n) (IoOk (pk_body p)) c in
  started (effs_of r) = [OpReadHeader] ∧ called (effs_of r) = deliveries c p ∧
  posted (effs_of r) = [] ∧ same_config c (state_of r).
Proof.
  intros Hi Hs Hq Hr. destruct c; simpl in *; subst.
  unfold client_io, onReadBody, doReadHeader, startReadTimer, invoke, deliveries. unact.
  run_cases.
Qed.

(** Both halves of one frame against a world whose only outstanding read is
    the header read. *)
Lemma client_feed_frame p rest w l1 l2 fuel :
  wf_packet p → w_ops w = l1 ++ OpReadHeader :: l2 →
  Forall (λ o, is_read CH o = false) (l1 ++ l2) → running_ (w_st w) = true →
  ∃ w', feed CH (S (S fuel)) (frame p ++ rest) w = feed CH fuel rest w' ∧
    w_ops w' = (l1 ++ l2) ++ [OpReadHeader] ∧
    w_calls w' = w_calls w ++ deliveries (w_st w) p ∧
    w_posts w' = w_posts w ∧ w_sent w' = w_sent w ∧
    same_config (w_st w) (w_st w').
Proof.
  intros Hp Hops Hnr Hrun. destruct (frame_split p rest) as [Ht Hd].
  assert (Hnr' := Hnr). apply Forall_app in Hnr' as [Hnr1 _].
  cbn [feed]. rewrite Hops, (pick_read_app CH l1 OpReadHeader 10 l2 Hnr1 eq_refl).
  rewrite (proj2 (Nat.leb_le _ _)) by len. rewrite Ht, Hd.
  set (w1 := complete CH _ _ _ w).
  destruct (complete_fields CH OpReadHeader (IoOk (frame_header p)) (l1 ++ l2) w)
    as (Hst & Hops1 & Hpo1 & Hca1 & Hse1 & _); fold w1 in Hst, Hops1, Hpo1, Hca1, Hse1.
  destruct (client_header_ok (w_now w) (w_st w) p Hp)
    as (Es & Ec & Ep & Hi & Hs & Hq & (Hr & HP & HB)).
  simpl in *. rewrite Es in Hops1. rewrite Ec in Hca1. rewrite Ep in Hpo1. rewrite <-Hst in *.
  rewrite Hops1.
  rewrite (pick_read_app CH (l1 ++ l2) (OpReadBody (blen (pk_body p)))
             (length (pk_body p)) [] Hnr) by (simpl; unfold blen; by rewrite Nat2Z.id).
  rewrite (proj2 (Nat.leb_le _ _)) by len.
  rewrite take_app_length, drop_app_length, app_nil_r.
  set (w2 := complete CH _ _ _ w1).
  destruct (complete_fields CH (OpReadBody (blen (pk_body p))) (IoOk (pk_body p)) (l1 ++ l2) w1)
    as (Hst2 & Hops2 & Hpo2 & Hca2 & Hse2 & _); fold w2 in Hst2, Hops2, Hpo2, Hca2, Hse2.
  destruct (client_body_ok (w_now w1) (w_st w1) (blen (pk_body p)) p Hi Hs Hq)
    as (Es2 & Ec2 & Ep2 & (Hr2 & HP2 & HB2)); [congruence|].
  simpl in *. rewrite Es2 in Hops2. rewrite Ec2 in Hca2. rewrite Ep2 in Hpo2.
  rewrite <-Hst2 in *. exists w2. split; [done|]. split; [done|].
  split; [|split; [|split; [|repeat split]]]; rewrite ?Hca2, ?Hpo2, ?Hse2; try congruence.
  - rewrite Hca1, app_nil_r. unfold deliveries. by rewrite HP, HB.
  - by rewrite Hpo1, !app_nil_r.
  - by rewrite Hse1, !app_nil_r.
Qed.

Lemma deliveries_same c c' ps :
  same_config c c' → (ps ≫= deliveries c') = (ps ≫= deliveries c).
Proof.
  intros (_ & HP & HB). apply list_bind_ext; [|done]. intros p.
  unfold deliveries. by rewrite HP, HB.
Qed.

(** The read loop on a stream of frames, by induction on the packets. *)
Lemma client_feed_frames ps rest w l1 l2 fuel :
  Forall wf_packet ps → w_ops w = l1 ++ OpReadHeader :: l2 →
  Forall (λ o, is_read CH o = false) (l1 ++ l2) → running_ (w_st w) = true →
  (length rest < 10)%nat → (2 * length ps < fuel)%nat →
  ∃ w', feed CH fuel (mjoin (frame <$> ps) ++ rest) w = (w', rest) ∧
    w_calls w' = w_calls w ++ (ps ≫= deliveries (w_st w)) ∧
    reads CH (w_ops w') = [OpReadHeader] ∧
    w_posts w' = w_posts w ∧ w_sent w' = w_sent w.
Proof.
  intros Hps. revert w l1 l2 fuel.
  induction Hps as [|p ps Hp _ IH]; intros w l1 l2 fuel Hops Hnr Hrun Hrest Hfuel.
  - exists w. destruct fuel as [|fuel]; [simpl in Hfuel; lia|].
    assert (Hnr' := Hnr). apply Forall_app in Hnr' as [Hnr1 _].
    simpl. rewrite Hops, (pick_read_app CH l1 OpReadHeader 10 l2 Hnr1 eq_refl).
    rewrite (proj2 (Nat.leb_gt _ _)) by lia.
    rewrite app_nil_r, (sole_read CH l1 OpReadHeader l2 Hnr eq_refl). done.
  - destruct fuel as [|[|fuel]]; [simpl in Hfuel; lia..|].
    destruct (client_feed_frame p (mjoin (frame <$> ps) ++ rest) w l1 l2 fuel Hp Hops Hnr Hrun)
      as (w' & Hf & Hops' & Hca & Hpo & Hse & Hcfg).
    destruct (IH w' (l1 ++ l2) [] fuel) as (w'' & Hf' & Hca' & Hr' & Hpo' & Hse');
      rewrite ?app_nil_r; try done.
    + destruct Hcfg as [-> _]; done.
    + simpl in Hfuel. lia.
    + exists w''. rewrite fmap_cons, <-Hf'. split; [simpl; by rewrite <-app_assoc|].
      rewrite Hca', Hca, (deliveries_same (w_st w) (w_st w') ps Hcfg), Hpo', Hse'.
      rewrite bind_cons, <-app_assoc. done.
Qed.

(** C2: The receiving half of the client: whatever the byte order of the host,
    when the sole outstanding read is a header read and the stream holds the
    frames of [ps] followed by less than a header, the callbacks invoked are
    exactly those of [ps], in order, the incomplete rest is left unread, and
    the client is again waiting for a header. The run is one the I/O library's
    contract allows. *)
Theorem client_receives_frames ps rest w fuel :
  Forall wf_packet ps → wf_bytes rest → (length rest < 10)%nat →
  reads CH (w_ops w) = [OpReadHeader] → running_ (w_st w) = true →
  (2 * length ps < fuel)%nat →
  ∃ w', feed CH fuel (mjoin (frame <$> ps) ++ rest) w = (w', rest) ∧
    reachable CH w w' ∧
    w_calls w' = w_calls w ++ (ps ≫= deliveries (w_st w)) ∧
    reads CH (w_ops w') = [OpReadHeader].
Proof.
  intros Hps Hrest Hlen (l1 & l2 & Hops & Hnr)%reads_singleton_inv Hrun Hfuel.
  destruct (client_feed_frames ps rest w l1 l2 fuel) as (w' & Hf & Hca & Hr & _); try done.
  exists w'. split; [done|]. split; [|done].
  replace w' with (feed CH fuel (mjoin (frame <$> ps) ++ rest) w).1 by by rewrite Hf.
  apply feed_reachable, wf_bytes_app. split; [by apply frames_wf|done].
Qed.

(** A header announcing less than ten bytes is skipped: no body is read, no
    callback runs, the client waits for the next header. *)
Theorem client_skips_short_header now c hb :
  hdr_len hb < 10 →
  let r := client_io now OpReadHeader (IoOk hb) c in
  started (effs_of r) = [OpReadHeader] ∧ called (effs_of r) = [] ∧
  bodyBuf_ (state_of r) = bodyBuf_ c.
Proof.
  intros Hl. unfold hdr_len in Hl.
  unfold client_io, onReadHeader, doReadHeader, startReadTimer. unact.
  rewrite (proj2 (Z.leb_gt _ _)) by lia. run_cases.
Qed.

(** Any other header starts a body read of exactly the announced length less
    the header, a value that fits 32 bits without wrap-around. *)
Theorem client_body_length now c hb :
  10 <= hdr_len hb < 2 ^ 32 →
  let r := client_io now OpReadHeader (IoOk hb) c in
  started (effs_of r) = [OpReadBody (hdr_len hb - 10)] ∧
  length (bodyBuf_ (state_of r)) = Z.to_nat (hdr_len hb - 10).
Proof.
  intros Hl. unfold hdr_len in *. unfold client_io, onReadHeader. unact.
  rewrite (proj2 (Z.leb_le _ _)) by lia. unfold u32. simpl.
  rewrite Z.mod_small by lia. split; [done|]. apply vec_resize_length.
Qed.

End Rx.

(** ** Concrete runs *)

Definition sample_packets : list packet :=
  [Packet 0x81 0 1 (lit "test_server"); Packet 0x82 0 2 (lit "Echo: hi")].

#[local] Instance sample_host : Host := LittleEndian.

Lemma client_receives_frames_witness :
  ∃ w', feed client_handlers 5 (mjoin (frame <$> sample_packets) ++ [0; 0]) sample_world
          = (w', [0; 0]) ∧
    reachable client_handlers sample_world w' ∧
    w_calls w' = [] ++ (sample_packets ≫= deliveries sample_client) ∧
    reads client_handlers (w_ops w') = [OpReadHeader].
Proof.
  apply (client_receives_frames sample_packets [0; 0] sample_world 5).
  - apply (bool_decide_unpack _). vm_compute. exact I.
  - apply (bool_decide_unpack _). vm_compute. exact I.
  - simpl. lia.
  - reflexivity.
  - reflexivity.
  - simpl. lia.
Defined.

Lemma client_skips_short_header_witness :
  let r := client_io 7 OpReadHeader (IoOk [0; 0; 0; 9; 2; 0; 0; 0; 0; 1]) sample_client in
  started (effs_of r) = [OpReadHeader] ∧ called (effs_of r) = [] ∧
  bodyBuf_ (state_of r) = bodyBuf_ sample_client.
Proof. apply client_skips_short_header. vm_compute. reflexivity. Defined.

Definition sample_header : bytes := [0; 0; 0; 14; 2; 0; 0; 0; 0; 1].

Lemma client_body_length_witness :
  let r := client_io 7 OpReadHeader (IoOk sample_header) sample_client in
  started (effs_of r) = [OpReadBody (hdr_len sample_header - 10)] ∧
  length (bodyBuf_ (state_of r)) = Z.to_nat (hdr_len sample_header - 10).
Proof.
  apply client_body_length. vm_compute. split; [discriminate | reflexivity].
Defined.
