(* ===== verification/TurboParse.v ===== *)
(** * TurboParse: the client's read loop against a reference parser

    [parse] is a parser for the 10-byte-header format written over the whole
    input at once, on arbitrary bytes: announced lengths below ten are skipped,
    an incomplete packet is left. The client's read loop, which sees the input
    one asynchronous read at a time, delivers exactly what [parse] finds and
    stops where [parse] stops. *)

From S2P Require Import Prelude Bytes Asio PQueue TurboFrame TurboClient TurboClientRx.

(** What the reader is left waiting for. *)
Inductive awaiting := AwaitHeader | AwaitBody (len : Z).

Record parsed := Parsed {
  found : list packet;
  waits : awaiting;
  left_over : bytes }.

(** The packet of a header and a body. *)
Definition packet_of (hb body : bytes) : packet :=
  Packet (hb !!! 4%nat) (hb !!! 5%nat) (be_val (take 4 (drop 6 hb))) body.

Definition prepend (p : packet) (r : parsed) : parsed :=
  Parsed (p :: found r) (waits r) (left_over r).

(** [fuel]: one per packet or skipped header; the length of the input is
    enough. *)
Fixpoint parse (fuel : nat) (bs : bytes) : parsed :=
  match fuel with
  | O => Parsed [] AwaitHeader bs
  | S fuel' =>
      if (length bs <? 10)%nat then Parsed [] AwaitHeader bs
      else
        let hb := take 10 bs in
        let rest := drop 10 bs in
        let total := be_val (take 4 hb) in
        if total <? 10 then parse fuel' rest
        else
          let n := Z.to_nat (total - 10) in
          if (length rest <? n)%nat then Parsed [] (AwaitBody (total - 10)) rest
          else prepend (packet_of hb (take n rest)) (parse fuel' (drop n rest))
  end.

(** A header that announces a body of the right size, with that body, is the
    frame of their packet. *)
Lemma take_6_2 (hb : bytes) :
  length hb = 10%nat → hb = take 4 hb ++ [hb !!! 4%nat; hb !!! 5%nat] ++ take 4 (drop 6 hb).
Proof. intros Hl. do 10 (destruct hb as [|? hb]; [done|]). by destruct hb. Qed.

Lemma frame_packet_of hb body :
  wf_bytes hb → length hb = 10%nat → be_val (take 4 hb) = 10 + blen body →
  hb ++ body = frame (packet_of hb body).
Proof.
  intros Hwf Hl Ht. unfold frame. cbn [packet_of pk_body pk_id pk_status pk_seq].
  rewrite <-Ht.
  assert (H4 : ∀ bs : bytes, wf_bytes bs → length bs = 4%nat → be_bytes 4 (be_val bs) = bs).
  { intros bs Hb Hb4. rewrite <-Hb4 at 1. by apply be_bytes_val. }
  rewrite !H4; [|by apply Forall_take, Forall_drop|len|by apply Forall_take|len].
  rewrite (take_6_2 hb Hl) at 1. by rewrite <-!app_assoc.
Qed.

Lemma packet_of_wf hb body :
  wf_bytes hb → wf_bytes body → length hb = 10%nat → be_val (take 4 hb) = 10 + blen body →
  wf_packet (packet_of hb body).
Proof.
  intros Hh Hb Hl Ht. unfold wf_packet. cbn [packet_of pk_body pk_id pk_status pk_seq].
  assert (Hu8 : ∀ i, (i < 10)%nat → is_u8 (hb !!! i)).
  { intros i Hi. eapply Forall_lookup_1; [exact Hh|]. apply list_lookup_lookup_total_lt. lia. }
  pose proof (be_val_u32 (take 4 hb) (Forall_take _ _ _ Hh) ltac:(len)) as Hu.
  split_and!; try done; try (apply Hu8; lia).
  - apply be_val_u32; [by apply Forall_take, Forall_drop|len].
  - rewrite <-Ht. apply Hu.
Qed.

(** [parse] inverts the encoding. *)
Lemma parse_frames ps rest fuel :
  Forall wf_packet ps → (length rest < 10)%nat → (length ps < fuel)%nat →
  parse fuel (mjoin (frame <$> ps) ++ rest) = Parsed ps AwaitHeader rest.
Proof.
  intros Hps Hrest. revert fuel.
  induction Hps as [|p ps Hp _ IH]; intros fuel Hf; (destruct fuel as [|fuel]; [simpl in Hf; lia|]).
  - cbn [parse]. by rewrite (proj2 (Nat.ltb_lt _ _)).
  - rewrite fmap_cons. change (mjoin (frame p :: ?l)) with (frame p ++ mjoin l).
    rewrite <-app_assoc. set (more := mjoin (frame <$> ps) ++ rest).
    destruct (frame_split p more) as [Ht Hd]. cbn [parse]. rewrite Ht, Hd.
    rewrite (proj2 (Nat.ltb_ge _ 10)) by len.
    pose proof (be_val_bytes32 (10 + blen (pk_body p))
      ltac:(unfold is_u32, blen; destruct Hp as (_ & _ & _ & _ & ?); unfold blen in *; lia)) as Hv.
    assert (Hlen : be_val (take 4 (frame_header p)) = 10 + blen (pk_body p)).
    { rewrite frame_header_eq, take_app_le, take_ge by len. exact Hv. }
    rewrite Hlen. unfold blen in *. rewrite (proj2 (Z.ltb_ge _ _)) by lia.
    replace (Z.to_nat _) with (length (pk_body p)) by lia.
    rewrite (proj2 (Nat.ltb_ge _ _)) by len. rewrite take_app_length, drop_app_length.
    unfold more. rewrite IH by (simpl in Hf; lia). unfold prepend. simpl.
    f_equal. f_equal. unfold packet_of.
    destruct (@frame_header_fields BigEndian p Hp) as (_ & Hi & Hs & Hq).
    unfold hdr_id, hdr_status, hdr_seq, fromBigEndian in *. rewrite Hi, Hs.
    change (ntohl (load32 ?x)) with (be_val x) in Hq. rewrite Hq. by destruct p.
Qed.

Section Client.
Context `{Host} {Q : Type} `{!PQueue Q ResponseEntry}.
Abbreviation CH := (client_handlers (Q:=Q)).

Definition awaited (a : awaiting) : c_op :=
  match a with AwaitHeader => OpReadHeader | AwaitBody n => OpReadBody n end.

Lemma hdr_len_be hb : wf_bytes hb → (4 <= length hb)%nat → hdr_len hb = be_val (take 4 hb).
Proof.
  intros Hw Hl. unfold hdr_len, fromBigEndian. apply ntohl_load32; [by apply Forall_take|len].
Qed.

(** A header, on both branches. *)
Lemma client_header_any now (c : client Q) hb :
  wf_bytes hb → length hb = 10%nat →
  let total := be_val (take 4 hb) in
  let r := client_io now OpReadHeader (IoOk hb) c in
  started (effs_of r) = [if total <? 10 then OpReadHeader else OpReadBody (total - 10)] ∧
  called (effs_of r) = [] ∧ same_config c (state_of r).
Proof.
  intros Hw Hl total. pose proof (hdr_len_be hb Hw ltac:(lia)) as Ht. fold total in Ht.
  pose proof (be_val_u32 (take 4 hb) (Forall_take _ _ _ Hw) ltac:(len)) as Hu. fold total in Hu.
  unfold hdr_len in Ht. unfold client_io, onReadHeader, doReadHeader, startReadTimer. unact.
  rewrite Ht. unfold is_u32 in Hu. destruct (Z.ltb_spec total 10).
  - rewrite (proj2 (Z.leb_gt _ _)) by lia. run_cases.
  - rewrite (proj2 (Z.leb_le _ _)) by lia. unfold u32. simpl. by rewrite Z.mod_small by lia.
Qed.

Lemma client_feed_header hb rest w l1 l2 fuel :
  wf_bytes hb → length hb = 10%nat → w_ops w = l1 ++ OpReadHeader :: l2 →
  Forall (λ o, is_read CH o = false) (l1 ++ l2) →
  let total := be_val (take 4 hb) in
  ∃ w', feed CH (S fuel) (hb ++ rest) w = feed CH fuel rest w' ∧
    w_ops w' = (l1 ++ l2) ++ [if total <? 10 then OpReadHeader else OpReadBody (total - 10)] ∧
    w_calls w' = w_calls w ∧ same_config (w_st w) (w_st w').
Proof.
  intros Hw Hl Hops Hnr total.
  rewrite (feed_read CH l1 OpReadHeader 10 l2 hb rest w fuel Hops Hnr eq_refl Hl).
  destruct (complete_fields CH OpReadHeader (IoOk hb) (l1 ++ l2) w) as (Hs & Ho & _ & Hc & _).
  destruct (client_header_any (w_now w) (w_st w) hb Hw Hl) as (Es & Ec & Hcfg).
  eexists. split; [done|]. cbn [h_io CH] in *. rewrite Ho, Hc, Hs, Es, Ec, app_nil_r. done.
Qed.

Lemma client_feed_parse k bs w l1 l2 fuel :
  wf_bytes bs → (length bs <= k)%nat → (2 * k <= fuel)%nat →
  w_ops w = l1 ++ OpReadHeader :: l2 → Forall (λ o, is_read CH o = false) (l1 ++ l2) →
  running_ (w_st w) = true →
  let r := parse k bs in
  ∃ w', feed CH fuel bs w = (w', left_over r) ∧
    w_calls w' = w_calls w ++ (found r ≫= deliveries (w_st w)) ∧
    reads CH (w_ops w') = [awaited (waits r)].
Proof.
  revert bs w l1 l2 fuel. induction k as [|k IH]; intros bs w l1 l2 fuel Hwf Hk Hf Hops Hnr Hrun; cbn [parse].
  { destruct bs; [|simpl in Hk; lia]. exists w.
    rewrite (feed_starved CH l1 OpReadHeader 10 l2 _ w fuel Hops Hnr eq_refl) by (simpl; lia).
    rewrite Hops, (sole_read CH l1 OpReadHeader l2 Hnr eq_refl). simpl. by rewrite app_nil_r. }
  destruct (Nat.ltb_spec (length bs) 10) as [Hs|Hs].
  { exists w. rewrite (feed_starved CH l1 OpReadHeader 10 l2 _ w fuel Hops Hnr eq_refl) by lia.
    rewrite Hops, (sole_read CH l1 OpReadHeader l2 Hnr eq_refl). simpl. by rewrite app_nil_r. }
  set (hb := take 10 bs). set (rest := drop 10 bs). set (total := be_val (take 4 hb)).
  assert (Hbs : bs = hb ++ rest) by (symmetry; apply take_drop).
  assert (Hhb : wf_bytes hb) by by apply Forall_take.
  assert (Hre : wf_bytes rest) by by apply Forall_drop.
  assert (Lh : length hb = 10%nat) by (unfold hb; len).
  assert (Lr : (length rest <= k)%nat) by (unfold rest; len).
  destruct fuel as [|[|fuel]]; [lia..|].
  destruct (Z.ltb_spec total 10) as [Ht|Ht]; cycle 1.
  destruct (Nat.ltb_spec (length rest) (Z.to_nat (total - 10))) as [Hn|Hn].
  - destruct (client_feed_header hb rest w l1 l2 (S fuel) Hhb Lh Hops Hnr) as (w1 & Hfe & Ho & Hc & _).
    fold total in Ho. rewrite (proj2 (Z.ltb_ge _ _)) in Ho by lia.
    exists w1. rewrite Hbs, Hfe.
    rewrite (feed_starved CH (l1 ++ l2) (OpReadBody (total - 10)) (Z.to_nat (total - 10)) [] rest w1 _ Ho);
      [|by rewrite app_nil_r|done|done].
    rewrite Ho, (sole_read CH (l1 ++ l2) _ []), Hc by (by rewrite ?app_nil_r).
    simpl. by rewrite app_nil_r.
  - set (body := take (Z.to_nat (total - 10)) rest). set (more := drop (Z.to_nat (total - 10)) rest).
    assert (Hb : total = 10 + blen body) by (unfold blen, body; len).
    assert (Hwb : wf_bytes body) by by apply Forall_take.
    assert (Hfr : bs = frame (packet_of hb body) ++ more).
    { rewrite <-(frame_packet_of hb body Hhb Lh Hb), <-app_assoc, Hbs. f_equal.
      symmetry. apply take_drop. }
    destruct (client_feed_frame (packet_of hb body) more w l1 l2 fuel)
      as (w1 & Hfe & Ho & Hc & _ & _ & Hcfg); [by apply packet_of_wf|done..|].
    destruct (IH more w1 (l1 ++ l2) [] fuel) as (w2 & Hfe2 & Hc2 & Hr2);
      [by apply Forall_drop|unfold more; len|lia|done|by rewrite app_nil_r| |].
    { destruct Hcfg as [-> _]. done. }
    exists w2. rewrite Hfr, Hfe, Hfe2. split; [done|]. split; [|done].
    rewrite Hc2, Hc, (deliveries_same (w_st w) (w_st w1) _ Hcfg), <-app_assoc. done.
  - destruct (client_feed_header hb rest w l1 l2 (S fuel) Hhb Lh Hops Hnr) as (w1 & Hfe & Ho & Hc & Hcfg).
    fold total in Ho. rewrite (proj2 (Z.ltb_lt _ _)) in Ho by lia.
    destruct (IH rest w1 (l1 ++ l2) [] (S fuel)) as (w2 & Hfe2 & Hc2 & Hr2);
      [done|done|lia|done|by rewrite app_nil_r| |].
    { destruct Hcfg as [-> _]. done. }
    exists w2. rewrite Hbs, Hfe, Hfe2. split; [done|]. split; [|done].
    by rewrite Hc2, Hc, (deliveries_same (w_st w) (w_st w1) _ Hcfg).
Qed.

(** C18: The client's read loop is equivalent to the reference parser on every input:
    whatever bytes arrive, the callbacks invoked are those of the packets [parse]
    finds, in order, what [parse] leaves is left unread, and the client waits for
    what [parse] stopped at. *)
Theorem client_equals_parser bs w fuel :
  wf_bytes bs → reads CH (w_ops w) = [OpReadHeader] → running_ (w_st w) = true →
  (2 * length bs <= fuel)%nat →
  let r := parse (length bs) bs in
  ∃ w', feed CH fuel bs w = (w', left_over r) ∧
    w_calls w' = w_calls w ++ (found r ≫= deliveries (w_st w)) ∧
    reads CH (w_ops w') = [awaited (waits r)].
Proof.
  intros Hwf (l1 & l2 & Hops & Hnr)%reads_singleton_inv Hrun Hf.
  exact (client_feed_parse (length bs) bs w l1 l2 fuel Hwf (Nat.le_refl _) Hf Hops Hnr Hrun).
Qed.
End Client.

(** ** A concrete run

    A header that announces nine bytes, a packet, and a header whose body has
    not arrived. *)

Definition sample_stream : bytes :=
  [0; 0; 0; 9; 2; 0; 0; 0; 0; 1] ++ frame (Packet 0x82 0 2 (lit "hi")) ++
  [0; 0; 0; 14; 2; 0; 0; 0; 0; 3; 65].

#[local] Instance parse_host : Host := LittleEndian.

Lemma client_equals_parser_witness :
  ∃ w', feed client_handlers 66 sample_stream sample_world = (w', [65]) ∧
    w_calls w' = [] ++ ([Packet 0x82 0 2 (lit "hi")] ≫= deliveries sample_client) ∧
    reads client_handlers (w_ops w') = [OpReadBody 4].
Proof.
  apply (client_equals_parser sample_stream sample_world 66).
  - apply (bool_decide_unpack _). vm_compute. exact I.
  - reflexivity.
  - reflexivity.
  - vm_compute. lia.
Defined.
