(* ===== verification/TurboClientTx.v ===== *)
(** * TurboClientTx: the sending half of the client

    Which operations the client keeps outstanding (an invariant of all
    reachable worlds), what a packet handed to [sendPacket] becomes on the
    wire, and the two ways the single [txBuffer_] loses packets: data appended
    while a write is in flight is dropped by [onWrite], and after one failed
    write nothing is ever written again. *)

From S2P Require Import Prelude Bytes Asio PQueue TurboFrame TurboClient.

Section Tx.
Context `{Host} {Q : Type} `{!PQueue Q ResponseEntry}.
Implicit Types (c : client Q).
Abbreviation CH := (client_handlers (Q:=Q)).
Abbreviation cworld := (world (client Q) c_op c_post c_timer c_call).

(** Outstanding connect or read operations, and the bytes of the outstanding
    writes. *)
Definition is_input (o : c_op) : bool := match o with OpWrite _ => false | _ => true end.
Definition inputs (ops : list c_op) : list c_op := filter (λ o, is_input o = true) ops.
Definition writes (ops : list c_op) : list bytes :=
  omap (λ o, match o with OpWrite bs => Some bs | _ => None end) ops.

Lemma inputs_app l1 l2 : inputs (l1 ++ l2) = inputs l1 ++ inputs l2.
Proof. apply filter_app. Qed.
Lemma writes_app l1 l2 : writes (l1 ++ l2) = writes l1 ++ writes l2.
Proof. apply omap_app. Qed.

(** ** What the handlers start and post *)

(** Outside the write path the buffer is untouched and nothing is written. *)
Definition quiet c (r : client Q * list c_eff * unit) : Prop :=
  txBuffer_ (state_of r) = txBuffer_ c ∧ writes (started (effs_of r)) = [].

Lemma fire_timeouts_run l c :
  fire_timeouts l c =
    (c, match onTimeout_ c with
        | Some i => (λ seq, ECall (CallTimeout i seq)) <$> l
        | None => []
        end, ()).
Proof.
  induction l as [|seq l IH]; simpl; [by destruct (onTimeout_ c)|].
  unact. unfold invoke. destruct (onTimeout_ c) eqn:E; simpl; rewrite IH; done.
Qed.

Lemma started_calls {A} (f : A → c_call) (l : list A) :
  started (Op:=c_op) (P:=c_post) (T:=c_timer) ((λ a, ECall (f a)) <$> l) = [].
Proof. induction l; done. Qed.
Lemma posted_calls {A} (f : A → c_call) (l : list A) :
  posted (Op:=c_op) (P:=c_post) (T:=c_timer) ((λ a, ECall (f a)) <$> l) = [].
Proof. induction l; done. Qed.
Lemma called_calls {A} (f : A → c_call) (l : list A) :
  called (Op:=c_op) (P:=c_post) (T:=c_timer) ((λ a, ECall (f a)) <$> l) = f <$> l.
Proof. induction l as [|a l IH]; [done|]. simpl. by f_equal. Qed.

(** The sweep: what it does to the bookkeeping and which callbacks it runs. *)
Lemma sweep_run now c :
  ∃ q m expired next,
    pop_expired (length (pq_elems (responseQueue_ c))) now
      (responseQueue_ c) (responseMap_ c) [] = (q, m, expired) ∧
    checkAndFireResponseTimers now false c =
      (c <| responseQueue_ := q |> <| responseMap_ := m |>,
       (match onTimeout_ c with
        | Some i => (λ seq, ECall (CallTimeout i seq)) <$> expired
        | None => []
        end) ++ [EArm TSweep next], ()).
Proof.
  unfold checkAndFireResponseTimers. unact.
  destruct (pop_expired _ _ _ _ _) as [[q m] expired] eqn:E.
  eexists q, m, expired, _. split; [done|].
  rewrite fire_timeouts_run. simpl. done.
Qed.

Lemma timer_quiet now t ab c :
  let r := client_timer now t ab c in
  quiet c r ∧ started (effs_of r) = [] ∧ posted (effs_of r) = [].
Proof.
  destruct t, ab; try done. cbn [client_timer].
  destruct (sweep_run now c) as (q & m & ex & next & _ & ->); simpl.
  rewrite started_app, posted_app. simpl. unfold quiet; simpl. rewrite started_app.
  destruct (onTimeout_ c); by rewrite ?started_calls, ?posted_calls.
Qed.

Lemma api_quiet now a c :
  let r := client_api now a c in
  quiet c r ∧ started (effs_of r) = [] ∧
  Forall (λ p, match p with PostSend pkt => pkt ≠ [] end) (posted (effs_of r)).
Proof.
  destruct a as [i s n d|d|]; unfold client_api.
  - simpl. repeat split. constructor; [|constructor]. rewrite build_packet_frame.
    intros E%(f_equal length). rewrite frame_length in E. done.
  - unfold sendRequest, sendPacket, next_sequence, startResponseTimer. unact.
    assert (build_packet 2 0 (sequenceCounter_ c) d ≠ []).
    { rewrite build_packet_frame. intros E%(f_equal length). by rewrite frame_length in E. }
    destruct (responseTimeoutMs_ c <=? 0); simpl; repeat split; by repeat constructor.
  - unfold close, cancelConnectTimer, cancelReadTimer, cancelWriteTimer, invoke. unact.
    destruct (onClose_ c); simpl; repeat split; constructor.
Qed.

(** ** The invariant *)

Definition io_inv c (ops : list c_op) (ps : list c_post) (sent : bytes) : Prop :=
  (length (inputs ops) ≤ 1)%nat ∧
  match writes ops with
  | [] => True
  | [bs] => bs ≠ [] ∧ bs `prefix_of` txBuffer_ c
  | _ => False
  end ∧
  Forall (λ p, match p with PostSend pkt => pkt ≠ [] end) ps.

Lemma io_inv_quiet c c' ops ps ps' sent :
  txBuffer_ c' = txBuffer_ c →
  Forall (λ p, match p with PostSend pkt => pkt ≠ [] end) ps' →
  io_inv c ops ps sent → io_inv c' (ops ++ []) (ps ++ ps') sent.
Proof.
  intros Htx Hps' (Hin & Hw & Hps). unfold io_inv. rewrite app_nil_r, Htx.
  split; [done|]. split; [done|]. by apply Forall_app.
Qed.

(** Completing a connect or a read starts at most one read, writes nothing,
    and posts only packets. *)
Lemma input_completion now o r c :
  is_input o = true →
  let x := client_io now o r c in
  quiet c x ∧ (length (inputs (started (effs_of x))) ≤ 1)%nat ∧
  Forall (λ p, match p with PostSend pkt => pkt ≠ [] end) (posted (effs_of x)).
Proof.
  destruct o as [| |n|bs]; [..|done]; intros _; cbn [client_io].
  - assert (∀ s, build_packet 1 0 s (clientId_ c) ≠ []).
    { intros s. rewrite build_packet_frame. intros E%(f_equal length).
      by rewrite frame_length in E. }
    unfold on_connect, next_sequence, sendPacket, doReadHeader, startReadTimer,
      cancelConnectTimer, invoke. unact.
    destruct (is_err r); simpl; run_cases; repeat split; simpl; try lia; by repeat constructor.
  - destruct r as [data|ab]; unfold onReadHeader, cancelReadTimer, doReadHeader, doReadBody,
      startReadTimer; unact; run_cases; repeat split; simpl; try lia; by repeat constructor.
  - destruct r as [data|ab]; unfold onReadBody, cancelReadTimer, doReadHeader,
      startReadTimer, invoke; unact; run_cases; repeat split; simpl; try lia;
      by repeat constructor.
Qed.

Lemma io_inv_input now o r c l1 l2 ps sent sent' :
  is_input o = true → io_inv c (l1 ++ o :: l2) ps sent →
  let x := client_io now o r c in
  io_inv (state_of x) ((l1 ++ l2) ++ started (effs_of x)) (ps ++ posted (effs_of x)) sent'.
Proof.
  intros Ho (Hin & Hw & Hps) x.
  destruct (input_completion now o r c Ho) as ((Htx & Hnw) & Hone & Hpost); fold x in Htx, Hnw, Hone, Hpost.
  unfold io_inv in *. rewrite !inputs_app, !writes_app in *.
  rewrite Hnw, Htx, app_nil_r.
  assert (inputs (o :: l2) = o :: inputs l2) as Hc by by apply filter_cons_True.
  assert (writes (o :: l2) = writes l2) as Hw' by by destruct o.
  rewrite Hc in Hin. rewrite Hw' in Hw. autorewrite with tn_len in *. simpl in Hin.
  split; [lia|]. split; [done|]. by apply Forall_app.
Qed.

Lemma io_inv_write now r c bs l1 l2 ps sent sent' :
  io_inv c (l1 ++ OpWrite bs :: l2) ps sent →
  let x := client_io now (OpWrite bs) r c in
  io_inv (state_of x) ((l1 ++ l2) ++ started (effs_of x)) (ps ++ posted (effs_of x)) sent'.
Proof.
  intros (Hin & Hw & Hps). unfold io_inv in *. rewrite !inputs_app, !writes_app in *.
  assert (inputs (OpWrite bs :: l2) = inputs l2) as Hc by by apply filter_cons_False.
  rewrite Hc in Hin. change (writes (OpWrite bs :: l2)) with (bs :: writes l2) in Hw.
  assert (writes l1 = [] ∧ writes l2 = []) as [-> ->].
  { destruct (writes l1) as [|? [|]], (writes l2); done. }
  unfold client_io, onWrite. destruct r; unact; rewrite !app_nil_r; repeat split; done.
Qed.

Lemma io_inv_post now pkt c ops ps sent :
  io_inv c ops (PostSend pkt :: ps) sent →
  let x := client_post now (PostSend pkt) c in
  io_inv (state_of x) (ops ++ started (effs_of x)) (ps ++ posted (effs_of x)) sent.
Proof.
  intros (Hin & Hw & Hps). apply Forall_cons in Hps as [Hpkt Hps].
  unfold client_post, send_posted, doWrite, startWriteTimer. unact.
  case_bool_decide as Htx; simpl.
  - assert (writes ops = []) as Hnil.
    { destruct (writes ops) as [|b [|]]; [done| |done]. destruct Hw as [Hb [k Hk]].
      rewrite Htx in Hk. destruct b; done. }
    split_test; simpl; unfold io_inv; rewrite inputs_app, writes_app, Hnil, !app_nil_r; simpl;
      rewrite Htx; repeat split; auto; by rewrite app_nil_r.
  - unfold io_inv; simpl. rewrite !app_nil_r. repeat split; auto.
    destruct (writes ops) as [|b [|]]; auto. destruct Hw as [Hb Hp].
    split; [done|]. by apply prefix_app_r.
Qed.

Lemma io_inv_reachable (w0 w : cworld) :
  w_ops w0 = [OpConnect] → w_posts w0 = [] → reachable CH w0 w →
  io_inv (w_st w) (w_ops w) (w_posts w) (w_sent w).
Proof.
  intros Ho Hp. apply (step_ops_invariant CH io_inv).
  - intros c ops ps sent now [pkt] HI. by apply io_inv_post.
  - intros c l1 l2 ps sent now o res HI _. destruct o as [| |n|bs].
    1-3: by eapply io_inv_input.
    by eapply io_inv_write.
  - intros c ops ps sent now t ab HI. destruct (timer_quiet now t ab c) as ((Htx & _) & Es & Ep).
    simpl in *. rewrite Es, Ep. by apply (io_inv_quiet c).
  - intros c ops ps sent now a HI. destruct (api_quiet now a c) as ((Htx & _) & Es & Ep).
    simpl in *. rewrite Es. by apply (io_inv_quiet c).
  - rewrite Ho, Hp. repeat split; [simpl; lia | constructor].
Qed.

Lemma io_inv_writes c ops ps sent :
  io_inv c ops ps sent →
  (length (writes ops) ≤ 1)%nat ∧
  (∀ bs, bs ∈ writes ops → bs ≠ [] ∧ bs `prefix_of` txBuffer_ c).
Proof.
  intros (_ & Hw & _). destruct (writes ops) as [|b [|]]; [..|done].
  - split; [simpl; lia|]. intros bs Hbs. inversion Hbs.
  - split; [simpl; lia|]. intros bs Hbs. by apply list_elem_of_singleton in Hbs as ->.
Qed.

(** C15: The operations the client keeps outstanding: in every world reachable
    from one where only the connect is outstanding, at most one connect or read
    and at most one write are outstanding, and the bytes being written are a
    prefix of [txBuffer_], so that the buffer is not touched while the library
    reads it other than by appending. *)
Theorem client_io_discipline (w0 w : cworld) :
  w_ops w0 = [OpConnect] → w_posts w0 = [] → reachable CH w0 w →
  (length (inputs (w_ops w)) ≤ 1)%nat ∧
  (length (writes (w_ops w)) ≤ 1)%nat ∧
  (∀ bs, bs ∈ writes (w_ops w) → bs ≠ [] ∧ bs `prefix_of` txBuffer_ (w_st w)).
Proof.
  intros Ho Hp Hr. pose proof (io_inv_reachable w0 w Ho Hp Hr) as HI.
  split; [apply HI|]. by eapply io_inv_writes.
Qed.

(** ** Packets on the wire *)

(** Nothing queued, nothing posted. *)
Definition idle (w : cworld) : Prop := txBuffer_ (w_st w) = [] ∧ w_posts w = [].

(** The posted closure on an idle client starts the write of the packet. *)
Lemma post_idle now pkt c :
  txBuffer_ c = [] →
  let x := client_post now (PostSend pkt) c in
  state_of x = c <| txBuffer_ := pkt |> ∧ started (effs_of x) = [OpWrite pkt] ∧
  posted (effs_of x) = [] ∧ called (effs_of x) = [].
Proof.
  intros Htx. unfold client_post, send_posted, doWrite, startWriteTimer. unact.
  rewrite Htx. simpl. run_cases.
Qed.

(** On a busy client it only appends to the buffer. *)
Lemma post_busy now pkt c :
  txBuffer_ c ≠ [] →
  client_post now (PostSend pkt) c = (c <| txBuffer_ := txBuffer_ c ++ pkt |>, [], ()).
Proof.
  intros Htx. unfold client_post, send_posted. unact. by rewrite bool_decide_false by done.
Qed.

Lemma write_done now c bs ab :
  client_io now (OpWrite bs) (IoOk []) c = (c <| txBuffer_ := [] |>, [ECancel TWrite], ()) ∧
  client_io now (OpWrite bs) (IoErr ab) c = (c, [ECancel TWrite], ()).
Proof. done. Qed.

(** [sendPacket] and the posted closure, on an idle client. *)
Lemma send_from_idle w pid st seq data :
  idle w →
  let pkt := frame (Packet pid st seq data) in
  ∃ w', reachable CH w w' ∧ txBuffer_ (w_st w') = pkt ∧ w_posts w' = [] ∧
    w_ops w' = w_ops w ++ [OpWrite pkt] ∧ w_sent w' = w_sent w ∧ w_calls w' = w_calls w.
Proof.
  intros [Htx Hp] pkt.
  pose proof (step_api CH w (ApiSendPacket pid st seq data)) as St1.
  pose proof (run_fields (h_api CH (w_now w) (ApiSendPacket pid st seq data)) w)
    as (S1 & O1 & P1 & C1 & T1 & _).
  remember (run _ w) as w1 eqn:Ew1. clear Ew1. simpl in *.
  rewrite Hp, build_packet_frame in P1. fold pkt in P1. simpl in P1.
  pose proof (step_post CH w1 (PostSend pkt) [] P1) as St2.
  pose proof (run_fields (h_post CH (w_now w1) (PostSend pkt)) (w1 <| w_posts := [] |>))
    as (S2 & O2 & P2 & C2 & T2 & _).
  remember (run _ (w1 <| w_posts := [] |>)) as w2 eqn:Ew2. clear Ew2.
  destruct (post_idle (w_now w1) pkt (w_st w1)) as (E1 & E2 & E3 & E4); [by rewrite S1|].
  cbn [h_post client_handlers w_st w_ops w_posts w_calls w_sent field_upd] in S2, O2, P2, C2, T2.
  rewrite E1 in S2. rewrite E2 in O2. rewrite E3 in P2. rewrite E4 in C2.
  exists w2. rewrite S2, O2, P2, C2, T2, O1, C1, T1, !app_nil_r.
  repeat split; try done. eapply rtc_l; [exact St1|]. by apply rtc_once.
Qed.

(** A packet sent on an idle client is written whole, as its frame, and the
    client is idle again when the write completes. *)
Theorem client_idle_send w pid st seq data :
  idle w →
  ∃ w', reachable CH w w' ∧ idle w' ∧ w_ops w' = w_ops w ∧
    w_sent w' = w_sent w ++ frame (Packet pid st seq data).
Proof.
  intros (w1 & R1 & Htx & Hpo & Hop & Hse & _)%(send_from_idle w pid st seq data).
  set (pkt := frame _) in *.
  pose proof (step_io CH w1 (OpWrite pkt) (w_ops w) [] (IoOk []) Hop eq_refl) as St2.
  destruct (complete_fields CH (OpWrite pkt) (IoOk []) (w_ops w ++ []) w1)
    as (S2 & O2 & P2 & _ & T2 & _).
  remember (complete CH _ _ _ w1) as w2 eqn:Ew2. clear Ew2. simpl in *.
  exists w2. split; [by eapply rtc_r|].
  unfold idle. rewrite S2, O2, P2, T2, Hpo, Hse, !app_nil_r. done.
Qed.

(** Two packets sent back to back: when the second closure runs while the
    first write is in flight, the completion of that write clears both from
    [txBuffer_] and only the first was written. The second packet is lost: the
    client is idle and holds no trace of it. *)
Theorem client_drops_queued_packet w pid1 st1 seq1 data1 pid2 st2 seq2 data2 :
  idle w →
  ∃ w1 w', reachable CH w w1 ∧
    w_posts w1 = [PostSend (frame (Packet pid2 st2 seq2 data2))] ∧
    reachable CH w1 w' ∧ idle w' ∧ w_ops w' = w_ops w ∧
    w_sent w' = w_sent w ++ frame (Packet pid1 st1 seq1 data1).
Proof.
  intros (w0 & R0 & Htx & Hpo & Hop & Hse & _)%(send_from_idle w pid1 st1 seq1 data1).
  set (pkt1 := frame (Packet pid1 _ _ _)) in *.
  set (pkt2 := frame (Packet pid2 st2 seq2 data2)).
  pose proof (step_api CH w0 (ApiSendPacket pid2 st2 seq2 data2)) as St1.
  pose proof (run_fields (h_api CH (w_now w0) (ApiSendPacket pid2 st2 seq2 data2)) w0)
    as (S1 & O1 & P1 & _ & T1 & _).
  remember (run _ w0) as w1 eqn:Ew1. clear Ew1. simpl in *.
  rewrite Hpo, build_packet_frame in P1. fold pkt2 in P1. simpl in P1.
  assert (txBuffer_ (w_st w1) ≠ []) as Hbusy.
  { rewrite S1, Htx. intros E%(f_equal length). unfold pkt1 in E. by rewrite frame_length in E. }
  pose proof (step_post CH w1 (PostSend pkt2) [] P1) as St2.
  pose proof (run_fields (h_post CH (w_now w1) (PostSend pkt2)) (w1 <| w_posts := [] |>))
    as (S2 & O2 & P2 & _ & T2 & _).
  remember (run _ (w1 <| w_posts := [] |>)) as w2 eqn:Ew2. clear Ew2.
  cbn [h_post client_handlers w_st w_ops w_posts w_sent field_upd] in S2, O2, P2, T2.
  rewrite post_busy in S2, O2, P2 by done. simpl in S2, O2, P2.
  rewrite O1, Hop, !app_nil_r in O2.
  pose proof (step_io CH w2 (OpWrite pkt1) (w_ops w) [] (IoOk []) O2 eq_refl) as St3.
  destruct (complete_fields CH (OpWrite pkt1) (IoOk []) (w_ops w ++ []) w2)
    as (S3 & O3 & P3 & _ & T3 & _).
  remember (complete CH _ _ _ w2) as w3 eqn:Ew3. clear Ew3. simpl in *.
  exists w1, w3. split; [by eapply rtc_r|]. split; [done|].
  split; [eapply rtc_l; [exact St2|by apply rtc_once]|].
  unfold idle. rewrite S3, O3, P3, T3, P2, T2, T1, Hse, !app_nil_r. done.
Qed.

(** ** After a failed write *)

(** Data in the buffer and no write outstanding: no handler starts one. *)
Definition stalled (sent0 : bytes) c (ops : list c_op) (ps : list c_post) (sent : bytes) : Prop :=
  txBuffer_ c ≠ [] ∧ writes ops = [] ∧ sent = sent0.

Lemma stalled_reachable sent0 (w w' : cworld) :
  stalled sent0 (w_st w) (w_ops w) (w_posts w) (w_sent w) → reachable CH w w' →
  stalled sent0 (w_st w') (w_ops w') (w_posts w') (w_sent w').
Proof.
  apply (step_ops_invariant CH (stalled sent0)); unfold stalled.
  - intros c ops ps sent now [pkt] (Htx & Hw & Hs). cbn [h_post client_handlers].
    rewrite post_busy by done. simpl. rewrite app_nil_r. split; [|done].
    by intros [? _]%app_nil.
  - intros c l1 l2 ps sent now o res (Htx & Hw & Hs) _.
    rewrite !writes_app in *. destruct (is_input o) eqn:Ho; [|by destruct o, (writes l1)].
    destruct (input_completion now o res c Ho) as ((Htx' & Hnw) & _ & _).
    cbn [h_io h_kind client_handlers]. cbv zeta. rewrite Htx', Hnw.
    assert (written (c_kind o) res = []) as -> by by destruct o, res.
    rewrite !app_nil_r. split; [done|]. split; [by destruct o|done].
  - intros c ops ps sent now t ab (Htx & Hw & Hs).
    destruct (timer_quiet now t ab c) as ((Htx' & _) & Es & _).
    cbn [h_timer h_api client_handlers]. cbv zeta. by rewrite Es, Htx', app_nil_r.
  - intros c ops ps sent now a (Htx & Hw & Hs).
    destruct (api_quiet now a c) as ((Htx' & _) & Es & _).
    cbn [h_timer h_api client_handlers]. cbv zeta. by rewrite Es, Htx', app_nil_r.
Qed.

(** A write error is final: in every world reachable after the failed
    completion of a write, not one more byte has been written, whatever is
    sent and whatever the network does. ([onWrite] leaves the buffer non-empty,
    which the posted closures take for a write in progress.) *)
Theorem client_write_error_stalls (w0 w w' : cworld) bs l1 l2 ab :
  w_ops w0 = [OpConnect] → w_posts w0 = [] → reachable CH w0 w →
  w_ops w = l1 ++ OpWrite bs :: l2 →
  reachable CH (complete CH (OpWrite bs) (IoErr ab) (l1 ++ l2) w) w' →
  w_sent w' = w_sent w ∧ writes (w_ops w') = [].
Proof.
  intros Ho Hp Hr Hops Hr'.
  destruct (io_inv_writes _ _ _ _ (io_inv_reachable w0 w Ho Hp Hr)) as (Hone & Hbs).
  rewrite Hops, writes_app in Hone, Hbs.
  change (writes (OpWrite bs :: l2)) with (bs :: writes l2) in Hone, Hbs.
  rewrite length_app in Hone. simpl in Hone.
  destruct (Hbs bs) as [Hne [k Hk]]; [set_solver|].
  destruct (complete_fields CH (OpWrite bs) (IoErr ab) (l1 ++ l2) w) as (S1 & O1 & _ & _ & T1 & _).
  enough (stalled (w_sent w) (w_st w') (w_ops w') (w_posts w') (w_sent w')) as (_ & ? & ?) by done.
  eapply stalled_reachable; [|exact Hr'].
  unfold stalled. rewrite S1, O1, T1. simpl. rewrite !app_nil_r, writes_app, Hk.
  split; [by destruct bs|]. split; [|done].
  destruct (writes l1), (writes l2); simpl in Hone; (done || lia).
Qed.

End Tx.

(** ** Concrete runs *)

#[local] Instance sample_host : Host := LittleEndian.

(** The connecting client after a [sendPacket], before and after the posted
    closure ran. *)
Definition sample_send : c_api := ApiSendPacket 2 0 7 (lit "hi").
Definition sample_posted := run (client_api 0 sample_send) connecting_world.
Definition sample_writing :=
  run (client_post 0 (PostSend (build_packet 2 0 7 (lit "hi")))) (sample_posted <| w_posts := [] |>).

Lemma sample_writing_reachable : reachable client_handlers connecting_world sample_writing.
Proof.
  eapply rtc_l; [apply (step_api client_handlers connecting_world sample_send)|].
  eapply rtc_l; [|apply rtc_refl].
  apply (step_post client_handlers sample_posted (PostSend (build_packet 2 0 7 (lit "hi"))) []).
  vm_compute. reflexivity.
Qed.

Lemma client_io_discipline_witness :
  (length (inputs (w_ops sample_writing)) ≤ 1)%nat ∧
  (length (writes (w_ops sample_writing)) ≤ 1)%nat ∧
  (∀ bs, bs ∈ writes (w_ops sample_writing) →
     bs ≠ [] ∧ bs `prefix_of` txBuffer_ (w_st sample_writing)).
Proof.
  apply (client_io_discipline connecting_world sample_writing).
  - reflexivity.
  - reflexivity.
  - apply sample_writing_reachable.
Defined.

Lemma client_idle_send_witness :
  ∃ w', reachable client_handlers sample_world w' ∧ idle w' ∧ w_ops w' = w_ops sample_world ∧
    w_sent w' = w_sent sample_world ++ frame (Packet 2 0 7 (lit "hi")).
Proof. apply client_idle_send. split; reflexivity. Defined.

Lemma client_drops_queued_packet_witness :
  ∃ w1 w', reachable client_handlers sample_world w1 ∧
    w_posts w1 = [PostSend (frame (Packet 2 0 8 (lit "second")))] ∧
    reachable client_handlers w1 w' ∧ idle w' ∧ w_ops w' = w_ops sample_world ∧
    w_sent w' = w_sent sample_world ++ frame (Packet 2 0 7 (lit "first")).
Proof. apply client_drops_queued_packet. split; reflexivity. Defined.

Lemma client_write_error_stalls_witness :
  let w := sample_writing in
  let w' := complete client_handlers (OpWrite (build_packet 2 0 7 (lit "hi"))) (IoErr false)
              [OpConnect] w in
  w_sent w' = w_sent w ∧ writes (w_ops w') = [].
Proof.
  apply (client_write_error_stalls connecting_world sample_writing _
           (build_packet 2 0 7 (lit "hi")) [OpConnect] [] false).
  - reflexivity.
  - reflexivity.
  - apply sample_writing_reachable.
  - vm_compute. reflexivity.
  - apply rtc_refl.
Defined.
