(* ===== verification/TurboClientTimers.v ===== *)
(** * TurboClientTimers: request sequence numbers and response timeouts

    [startResponseTimer], [checkAndFireResponseTimers] and the counter behind
    [sendRequest], verified against the priority-queue interface: which
    requests a sweep reports, in which order, what it leaves behind, and when
    the next one runs. *)

From S2P Require Import Prelude Bytes Asio PQueue TurboFrame TurboClient TurboClientTx.

Section Timers.
Context `{Host} {Q : Type} `{!PQueue Q ResponseEntry} `{!PQueueLaws Q ResponseEntry e_expiry}.
Implicit Types (c : client Q) (q : Q) (m : gmap Z Z).

Definition expiry_le (a b : ResponseEntry) : Prop := e_expiry a <= e_expiry b.

(** ** The sweep loop *)

(** What the loop of [checkAndFireResponseTimers] computes: it pops exactly
    the entries that are due, earliest first, and reports each sequence number
    that is still in the map, once. *)
Definition sweep_spec (now : Z) q m q' m' (fired : list Z) : Prop :=
  ∃ popped,
    pq_elems q ≡ₚ popped ++ pq_elems q' ∧
    Forall (λ e, e_expiry e <= now) popped ∧
    Forall (λ e, now < e_expiry e) (pq_elems q') ∧
    StronglySorted expiry_le popped ∧
    fired `sublist_of` (e_sequence <$> popped) ∧
    NoDup fired ∧
    (∀ s, s ∈ fired ↔ is_Some (m !! s) ∧ s ∈ e_sequence <$> popped) ∧
    (∀ s, m' !! s = if decide (s ∈ fired) then None else m !! s).

Lemma sweep_spec_stop now q m :
  Forall (λ e, now < e_expiry e) (pq_elems q) → sweep_spec now q m q m [].
Proof.
  intros Hall. exists []. simpl. repeat split; try done; try constructor; set_solver.
Qed.

Lemma sweep_spec_pop now q e m m1 q' m' (fired : list Z) :
  pq_top q = Some e → e_expiry e <= now →
  (m1 = delete (e_sequence e) m) →
  sweep_spec now (pq_pop q) m1 q' m' fired →
  sweep_spec now q m q' m'
    (match m !! e_sequence e with Some _ => e_sequence e :: fired | None => fired end).
Proof.
  intros Ht He -> (popped & Hp & Hle & Hgt & Hs & Hsub & Hnd & Hin & Hm').
  destruct (pq_top_Some q e Ht) as [Hq Hmin].
  assert (Hnot : e_sequence e ∉ fired).
  { rewrite Hin, lookup_delete_eq. intros [[? [=]] _]. }
  exists (e :: popped). split; [rewrite Hq, Hp; done|].
  split; [by constructor|]. split; [done|]. split.
  { constructor; [done|]. rewrite Hq, Hp in Hmin. apply Forall_cons in Hmin as [_ Hmin].
    by apply Forall_app in Hmin as [Hmin _]. }
  rewrite fmap_cons.
  destruct (m !! e_sequence e) as [x|] eqn:Em; split; [by constructor| |by constructor 3|].
  - split; [by constructor|]. split.
    + intros s. rewrite !elem_of_cons, Hin. destruct (decide (s = e_sequence e)) as [->|Hne].
      * rewrite Em. naive_solver.
      * rewrite lookup_delete_ne by done. naive_solver.
    + intros s. rewrite Hm'. destruct (decide (s = e_sequence e)) as [->|Hne].
      * rewrite lookup_delete_eq. rewrite (decide_True (P:=e_sequence e ∈ _ :: _)) by (by left).
        by case_decide.
      * rewrite lookup_delete_ne by done. repeat case_decide; set_solver.
  - split; [done|]. split.
    + intros s. rewrite elem_of_cons, Hin. destruct (decide (s = e_sequence e)) as [->|Hne].
      * rewrite lookup_delete_eq, Em. naive_solver.
      * rewrite lookup_delete_ne by done. naive_solver.
    + intros s. rewrite Hm'. destruct (decide (s = e_sequence e)) as [->|Hne].
      * rewrite lookup_delete_eq, Em. by case_decide.
      * by rewrite lookup_delete_ne by done.
Qed.

(** With as many iterations as the queue has entries, the loop stops by its
    own condition, in the state the specification describes. *)
Lemma pop_expired_spec fuel now q m ex :
  (length (pq_elems q) ≤ fuel)%nat →
  ∃ q' m' fired, pop_expired fuel now q m ex = (q', m', ex ++ fired) ∧
    sweep_spec now q m q' m' fired.
Proof.
  revert q m ex. induction fuel as [|fuel IH]; intros q m ex Hf.
  - exists q, m, []. rewrite app_nil_r. split; [done|]. apply sweep_spec_stop.
    destruct (pq_elems q); [constructor|simpl in Hf; lia].
  - cbn [pop_expired]. destruct (pq_top q) as [e|] eqn:Ht.
    2:{ exists q, m, []. rewrite app_nil_r. split; [done|]. apply sweep_spec_stop.
        by rewrite (pq_top_None q Ht). }
    destruct (Z.leb_spec (e_expiry e) now) as [Hle|Hgt].
    2:{ exists q, m, []. rewrite app_nil_r. split; [done|]. apply sweep_spec_stop.
        apply Forall_forall. intros b Hb. pose proof (pq_top_min q e b Ht Hb). lia. }
    pose proof (pq_pop_length q e Ht) as Hlen.
    destruct (m !! e_sequence e) as [x|] eqn:Em.
    + destruct (IH (pq_pop q) (delete (e_sequence e) m) (ex ++ [e_sequence e]))
        as (q' & m' & fired & Hrun & Hspec); [lia|].
      exists q', m', (e_sequence e :: fired). rewrite Hrun, <-app_assoc. split; [done|].
      pose proof (sweep_spec_pop now q e m _ q' m' fired Ht Hle eq_refl Hspec) as Hs.
      by rewrite Em in Hs.
    + destruct (IH (pq_pop q) m ex) as (q' & m' & fired & Hrun & Hspec); [lia|].
      exists q', m', fired. split; [done|].
      pose proof (sweep_spec_pop now q e m m q' m' fired Ht Hle) as Hs.
      rewrite Em in Hs. apply Hs; [|done]. by rewrite delete_id.
Qed.

(** C38: A sweep at time [now] reports a request iff it is still registered and
    has an entry that is due; it reports each once, in order of expiry; what is
    left in the queue expires later; what was reported is forgotten; the next
    sweep is scheduled strictly later, at the earliest remaining expiry if any. *)
Theorem sweep_reports_due_requests now c i :
  onTimeout_ c = Some i →
  let r := checkAndFireResponseTimers now false c in
  ∃ fired next popped,
    called (effs_of r) = CallTimeout i <$> fired ∧
    NoDup fired ∧
    (∀ s, s ∈ fired ↔ is_Some (responseMap_ c !! s) ∧
       ∃ e, e ∈ pq_elems (responseQueue_ c) ∧ e_sequence e = s ∧ e_expiry e <= now) ∧
    fired `sublist_of` (e_sequence <$> popped) ∧ StronglySorted expiry_le popped ∧
    Forall (λ e, now < e_expiry e) (pq_elems (responseQueue_ (state_of r))) ∧
    (∀ s, responseMap_ (state_of r) !! s =
       if decide (s ∈ fired) then None else responseMap_ c !! s) ∧
    last (effs_of r) = Some (EArm TSweep next) ∧ now < next ∧
    Forall (λ e, next <= e_expiry e) (pq_elems (responseQueue_ (state_of r))).
Proof.
  intros Hi. unfold checkAndFireResponseTimers. unact.
  destruct (pop_expired_spec (length (pq_elems (responseQueue_ c))) now (responseQueue_ c)
    (responseMap_ c) []) as (q' & m' & fired & Hrun & Hspec); [done|].
  simpl in Hrun. rewrite Hrun, fire_timeouts_run. simpl. rewrite Hi.
  destruct Hspec as (popped & Hp & Hle & Hgt & Hs & Hsub & Hnd & Hin & Hm').
  eexists fired, _, popped. rewrite called_app, called_calls, app_nil_r, last_app. simpl.
  split; [done|]. split; [done|]. split; [|split; [done|]; split; [done|]; split; [done|]; split; [done|]].
  - intros s. rewrite Hin, list_elem_of_fmap. setoid_rewrite Hp. setoid_rewrite elem_of_app.
    rewrite Forall_forall in Hle, Hgt. split.
    + intros [? (e & -> & He)]. split; [done|]. exists e. auto.
    + intros [? (e & [He|He] & <- & Hexp)]; [eauto|]. specialize (Hgt e He). lia.
  - split; [done|]. destruct (pq_top q') as [e|] eqn:Ht.
    + split; [|apply (pq_top_Some q' e Ht)]. rewrite Forall_forall in Hgt.
      by apply Hgt, pq_top_elem.
    + rewrite (pq_top_None q' Ht). split; [unfold hours, seconds, milliseconds; lia|constructor].
Qed.

(** ** Responses and timeouts *)

(** No completion of an I/O operation, in particular no received packet,
    touches the bookkeeping of pending requests. *)
Lemma io_keeps_pending now o r c :
  let c' := state_of (client_io now o r c) in
  responseMap_ c' = responseMap_ c ∧ responseQueue_ c' = responseQueue_ c ∧
  onTimeout_ c' = onTimeout_ c.
Proof.
  destruct o as [| |n|bs]; cbn [client_io].
  - unfold on_connect, next_sequence, sendPacket, doReadHeader, startReadTimer,
      cancelConnectTimer, invoke. destruct (is_err r); unact; run_cases.
  - destruct r; unfold onReadHeader, cancelReadTimer, doReadHeader, doReadBody,
      startReadTimer; unact; run_cases.
  - destruct r; unfold onReadBody, cancelReadTimer, doReadHeader, startReadTimer, invoke;
      unact; run_cases.
  - unfold onWrite. destruct (is_err r); done.
Qed.

(** The object after a sequence of I/O completions. *)
Definition after_io (evs : list (Z * c_op * io_result)) c : client Q :=
  foldl (λ c ev, let '(now, o, r) := ev in state_of (client_io now o r c)) c evs.

Lemma after_io_pending evs c :
  responseMap_ (after_io evs c) = responseMap_ c ∧
  responseQueue_ (after_io evs c) = responseQueue_ c ∧
  onTimeout_ (after_io evs c) = onTimeout_ c.
Proof.
  revert c. induction evs as [|[[now o] r] evs IH]; intros c; [done|]. simpl.
  destruct (IH (state_of (client_io now o r c))) as (-> & -> & ->). apply io_keeps_pending.
Qed.

Lemma sendRequest_pending now data c :
  0 < responseTimeoutMs_ c →
  let r := sendRequest now data c in
  val_of r = sequenceCounter_ c ∧
  responseMap_ (state_of r) =
    <[sequenceCounter_ c := now + milliseconds (responseTimeoutMs_ c)]> (responseMap_ c) ∧
  mkEntry (sequenceCounter_ c) (now + milliseconds (responseTimeoutMs_ c))
    ∈ pq_elems (responseQueue_ (state_of r)) ∧
  onTimeout_ (state_of r) = onTimeout_ c.
Proof.
  intros Hms. unfold sendRequest, next_sequence, sendPacket, startResponseTimer. unact.
  rewrite (proj2 (Z.leb_gt _ _)) by lia. simpl. repeat split; try done.
  rewrite pq_elems_push. by left.
Qed.

(** Once a request is sent, the first sweep at or after its expiry reports a
    timeout for it, whatever was received in between: a response does not
    cancel the timeout, because nothing calls [cancelResponseTimer]. *)
Theorem answered_request_still_times_out now data c i evs now' :
  0 < responseTimeoutMs_ c → onTimeout_ c = Some i →
  now + milliseconds (responseTimeoutMs_ c) <= now' →
  let r := sendRequest now data c in
  let c' := after_io evs (state_of r) in
  CallTimeout i (val_of r) ∈ called (effs_of (checkAndFireResponseTimers now' false c')).
Proof.
  intros Hms Hi Hnow r c'.
  destruct (sendRequest_pending now data c Hms) as (Hv & Hm & Hq & Ht); fold r in Hv, Hm, Hq, Ht.
  destruct (after_io_pending evs (state_of r)) as (Hm' & Hq' & Ht'); fold c' in Hm', Hq', Ht'.
  destruct (pop_expired_spec (length (pq_elems (responseQueue_ c'))) now' (responseQueue_ c')
    (responseMap_ c') []) as (q' & m' & fired & Hrun & Hspec); [done|].
  destruct (sweep_run now' c') as (q & m & ex & next & Hrun' & ->).
  rewrite Hrun in Hrun'. simplify_eq/=. rewrite Ht', Ht, Hi.
  rewrite called_app, called_calls, app_nil_r. apply list_elem_of_fmap_2. rewrite Hv.
  destruct Hspec as (popped & Hp & _ & Hgt & _ & _ & _ & Hin & _). apply Hin.
  rewrite Hm', Hm, lookup_insert_eq. split; [done|].
  rewrite <-Hq', Hp, elem_of_app in Hq. apply list_elem_of_fmap. destruct Hq as [Hq|Hq].
  - by eexists; split; [|exact Hq].
  - rewrite Forall_forall in Hgt. specialize (Hgt _ Hq). simpl in Hgt. lia.
Qed.

(** [cancelResponseTimer] would do it: a cancelled sequence number is never
    reported. *)
Theorem cancelled_request_not_reported now s c i :
  onTimeout_ c = Some i →
  let c' := state_of (cancelResponseTimer s c) in
  CallTimeout i s ∉ called (effs_of (checkAndFireResponseTimers now false c')).
Proof.
  intros Hi c'.
  destruct (pop_expired_spec (length (pq_elems (responseQueue_ c'))) now (responseQueue_ c')
    (responseMap_ c') []) as (q' & m' & fired & Hrun & Hspec); [done|].
  destruct (sweep_run now c') as (q & m & ex & next & Hrun' & ->).
  rewrite Hrun in Hrun'. simplify_eq/=. rewrite Hi, called_app, called_calls, app_nil_r.
  intros (s' & [= <-] & Hs)%list_elem_of_fmap.
  destruct Hspec as (popped & _ & _ & _ & _ & _ & _ & Hin & _).
  apply Hin in Hs as [[x Hx] _]. by rewrite lookup_delete_eq in Hx.
Qed.

(** Every request moves the one sweep timer: the waits armed earlier for
    other requests are aborted and the next sweep is due a full timeout after
    the latest request, however long the earlier ones have been waiting. *)
Theorem request_rearms_sweep (w : world (client Q) c_op c_post c_timer c_call) data :
  0 < responseTimeoutMs_ (w_st w) →
  let w' := run (sendRequest (w_now w) data) w in
  filter (λ a, a.1 = TSweep) (w_armed w') =
    [(TSweep, w_now w + milliseconds (responseTimeoutMs_ (w_st w)))] ∧
  (∀ d, (TSweep, d) ∈ w_armed w → (TSweep, true) ∈ w_fired w').
Proof.
  intros Hms. unfold run, sendRequest, next_sequence, sendPacket, startResponseTimer. unact.
  rewrite (proj2 (Z.leb_gt _ _)) by lia. simpl. split.
  - rewrite filter_app, filter_cons_True by done. rewrite list_filter_filter.
    replace (filter _ (w_armed w)) with (@nil (c_timer * Z)); [done|].
    induction (w_armed w) as [|a l IH]; [done|]. rewrite filter_cons_False; [done|].
    naive_solver.
  - intros d Hd. rewrite elem_of_app. right. apply list_elem_of_fmap.
    exists (TSweep, d). split; [done|]. by apply list_elem_of_filter.
Qed.

(** ** Sequence numbers *)

(** The numbers [n] consecutive requests get. *)
Fixpoint request_numbers (now : Z) (datas : list bytes) : act (client Q) c_eff (list Z) :=
  match datas with
  | [] => mret []
  | d :: datas' => s ← sendRequest now d; l ← request_numbers now datas'; mret (s :: l)
  end.

Lemma sendRequest_counter now data c :
  let r := sendRequest now data c in
  val_of r = sequenceCounter_ c ∧ sequenceCounter_ (state_of r) = u32 (sequenceCounter_ c + 1).
Proof.
  unfold sendRequest, next_sequence, sendPacket, startResponseTimer. unact.
  destruct (responseTimeoutMs_ c <=? 0); done.
Qed.

Lemma request_numbers_run now datas c :
  is_u32 (sequenceCounter_ c) →
  val_of (request_numbers now datas c) =
    (λ k, u32 (sequenceCounter_ c + Z.of_nat k)) <$> seq 0 (length datas).
Proof.
  revert c. induction datas as [|d datas IH]; intros c Hc; [done|]. cbn [request_numbers].
  cbv [mbind act_bind mret act_ret].
  destruct (sendRequest_counter now d c) as [Hv Hs].
  destruct (sendRequest now d c) as [[c1 o1] s]. simpl in Hv, Hs.
  assert (is_u32 (sequenceCounter_ c1)) as Hc1.
  { rewrite Hs. apply Z.mod_pos_bound. lia. }
  specialize (IH c1 Hc1). destruct (request_numbers now datas c1) as [[c2 o2] l].
  simpl in IH |- *. rewrite IH, Hv, Hs. f_equal.
  - unfold u32. rewrite Z.add_0_r, Z.mod_small; [done|exact Hc].
  - rewrite <-seq_shift, <-list_fmap_compose. apply list_fmap_ext. intros _ k _. simpl.
    unfold u32. rewrite Zplus_mod_idemp_l. f_equal. lia.
Qed.

(** The sequence numbers of up to 2^32 consecutive requests are distinct:
    they run through the 32-bit numbers from the counter on, wrapping around. *)
Theorem request_sequences_distinct now datas c :
  is_u32 (sequenceCounter_ c) → Z.of_nat (length datas) <= 2 ^ 32 →
  NoDup (val_of (request_numbers now datas c)) ∧
  Forall is_u32 (val_of (request_numbers now datas c)) ∧
  length (val_of (request_numbers now datas c)) = length datas.
Proof.
  intros Hc Hn. rewrite request_numbers_run by done. split; [|split].
  - apply NoDup_fmap_2_strong; [|apply NoDup_seq].
    intros i j Hi Hj. rewrite elem_of_seq in Hi, Hj. unfold u32. intros E.
    assert (Z.of_nat i = Z.of_nat j); [|lia].
    Z.to_euclidean_division_equations. lia.
  - apply Forall_fmap, Forall_forall. intros k _. apply Z.mod_pos_bound. lia.
  - by rewrite length_fmap, length_seq.
Qed.

End Timers.

(** ** Concrete runs *)

#[local] Instance sample_host : Host := LittleEndian.

(** The sample client (10 s response timeout) with two requests, sent at 0 and
    at 1 s. *)
Definition pending_client : client (list ResponseEntry) :=
  state_of (sendRequest (seconds 1) (lit "b") (state_of (sendRequest 0 (lit "a") sample_client))).

Lemma sweep_reports_due_requests_witness :
  let r := checkAndFireResponseTimers (seconds 10) false pending_client in
  ∃ fired next popped,
    called (effs_of r) = CallTimeout 3 <$> fired ∧
    NoDup fired ∧
    (∀ s, s ∈ fired ↔ is_Some (responseMap_ pending_client !! s) ∧
       ∃ e, e ∈ pq_elems (responseQueue_ pending_client) ∧ e_sequence e = s ∧
         e_expiry e <= seconds 10) ∧
    fired `sublist_of` (e_sequence <$> popped) ∧ StronglySorted expiry_le popped ∧
    Forall (λ e, seconds 10 < e_expiry e) (pq_elems (responseQueue_ (state_of r))) ∧
    (∀ s, responseMap_ (state_of r) !! s =
       if decide (s ∈ fired) then None else responseMap_ pending_client !! s) ∧
    last (effs_of r) = Some (EArm TSweep next) ∧ seconds 10 < next ∧
    Forall (λ e, next <= e_expiry e) (pq_elems (responseQueue_ (state_of r))).
Proof. apply (sweep_reports_due_requests (seconds 10) pending_client 3). reflexivity. Defined.

Lemma answered_request_still_times_out_witness :
  let r := sendRequest 0 (lit "a") sample_client in
  let evs := [(1, OpReadHeader, IoOk [0; 0; 0; 12; 130; 0; 0; 0; 0; 1]);
              (1, OpReadBody 2, IoOk (lit "ok"))] in
  CallTimeout 3 (val_of r) ∈ called (effs_of
    (checkAndFireResponseTimers (seconds 10) false (after_io evs (state_of r)))).
Proof.
  apply (answered_request_still_times_out 0 (lit "a") sample_client 3).
  - reflexivity.
  - reflexivity.
  - vm_compute. discriminate.
Defined.

Lemma cancelled_request_not_reported_witness :
  CallTimeout 3 1 ∉ called (effs_of (checkAndFireResponseTimers (seconds 10) false
    (state_of (cancelResponseTimer 1 pending_client)))).
Proof. apply (cancelled_request_not_reported (seconds 10) 1 pending_client 3). reflexivity. Defined.

Lemma request_rearms_sweep_witness :
  let w := run (sendRequest 0 (lit "a")) sample_world in
  let w' := run (sendRequest (w_now w) (lit "b")) w in
  filter (λ a, a.1 = TSweep) (w_armed w') =
    [(TSweep, w_now w + milliseconds (responseTimeoutMs_ (w_st w)))] ∧
  (∀ d, (TSweep, d) ∈ w_armed w → (TSweep, true) ∈ w_fired w').
Proof.
  apply (request_rearms_sweep (run (sendRequest 0 (lit "a")) sample_world) (lit "b")).
  reflexivity.
Defined.

Lemma request_sequences_distinct_witness :
  let l := val_of (request_numbers 0 [lit "a"; lit "b"; lit "c"]
                     (sample_client <| sequenceCounter_ := 2 ^ 32 - 2 |>)) in
  NoDup l ∧ Forall is_u32 l ∧ length l = 3%nat.
Proof.
  apply (request_sequences_distinct 0 [lit "a"; lit "b"; lit "c"]).
  - split; vm_compute; [discriminate | reflexivity].
  - vm_compute. discriminate.
Defined.
