(* ===== verification/TurboServer.v ===== *)
(** * TurboServer: the classes [TurboNetServer] and [Session]
      (turbonet_server.h / .cpp)

    One state for the server: the members of [TurboNetServer] and the [Session]
    objects that are alive, by identity. A session stays alive as long as a
    handler refers to it, also after [removeSession] took it out of
    [sessions_], so [heap_] and [sessions_] are separate. Handlers are the
    member functions, with the session they belong to as an argument. The
    application's [AuthHandler] is a function of the client id; the
    [PacketHandler] is an opaque callback to which [respond] calls come back
    through [respond] at any time. *)

From S2P Require Import Prelude Bytes Asio TurboFrame.

(** [struct Session]: its buffers and authentication flag. *)
Record session := Session {
  headerBuf : bytes;
  bodyBuf : bytes;
  authenticated : bool }.

#[export] Instance eta_session : Eta session := λ s,
  Session (headerBuf s) (bodyBuf s) (authenticated s).

Definition new_session : session :=
  {| headerBuf := vec_zero 10; bodyBuf := []; authenticated := false |}.

(** Data members of [TurboNetServer]; [fresh_] names the next [Session]
    object. *)
Record server := Server {
  onRequest_ : std_function;
  onAuth_ : option (bytes → bool);
  sessions_ : gset nat;
  maxConnections_ : Z;
  acceptor_open_ : bool;
  heap_ : gmap nat session;
  fresh_ : nat }.

#[export] Instance eta_server : Eta server := λ s,
  Server (onRequest_ s) (onAuth_ s) (sessions_ s) (maxConnections_ s) (acceptor_open_ s)
    (heap_ s) (fresh_ s).

Inductive s_op :=
| OpAccept
| OpSessHeader (sid : nat)
| OpSessBody (sid : nat) (len : Z)
| OpSessWrite (sid : nat) (message : bytes).

(** Callbacks: the authentication handler with its verdict, and the request
    handler. *)
Inductive s_call :=
| CallAuth (sid : nat) (clientId : bytes) (verdict : bool)
| CallRequest (f : nat) (sid : nat) (packetId status sequence : Z) (payload : bytes).

Inductive s_post :=.
Inductive s_timer :=.
#[export] Instance s_timer_eq_dec : EqDecision s_timer.
Proof. solve_decision. Defined.

Abbreviation s_eff := (eff s_op s_post s_timer s_call).

Section Server.
Context `{Host}.
Abbreviation M := (act server s_eff).

Definition new_server (maxConn : Z) : server :=
  {| onRequest_ := None; onAuth_ := None; sessions_ := ∅; maxConnections_ := maxConn;
     acceptor_open_ := true; heap_ := ∅; fresh_ := 0 |}.

Definition setAuthHandler (auth : option (bytes → bool)) : M unit :=
  modify (λ s, s <| onAuth_ := auth |>).
Definition setMaxConnections (maxConn : Z) : M unit :=
  modify (λ s, s <| maxConnections_ := maxConn |>).

(** Access to the fields of a session object. *)
Definition sess (sid : nat) (s : server) : session := default new_session (heap_ s !! sid).
Definition upd_sess (sid : nat) (f : session → session) : M unit :=
  modify (λ s, s <| heap_ := <[sid := f (sess sid s)]> (heap_ s) |>).

Definition removeSession (sid : nat) : M unit :=
  modify (λ s, s <| sessions_ := sessions_ s ∖ {[sid]} |>).

(** ** Session *)

Definition sess_doReadHeader (sid : nat) : M unit := emit (EStart (OpSessHeader sid)).

Definition sess_start (sid : nat) : M unit := sess_doReadHeader sid.

Definition sess_doReadBody (sid : nat) (len : Z) : M unit :=
  upd_sess sid (λ x, x <| bodyBuf := vec_resize (Z.to_nat len) (bodyBuf x) |>);;
  emit (EStart (OpSessBody sid len)).

Definition sess_onReadHeader (sid : nat) (ec : bool) : M unit :=
  if ec then removeSession sid else
  x ← gets (sess sid);
  let total := ntohl (load32 (take 4 (headerBuf x))) in
  let bodyLen := u32 (total - 10) in
  sess_doReadBody sid bodyLen.

Definition send (sid : nat) (message : bytes) : M unit :=
  emit (EStart (OpSessWrite sid message)).

(** The sequence number in a header buffer. *)
Definition header_seq (hb : bytes) : Z := ntohl (load32 (take 4 (drop 6 hb))).

(** The bind response [onReadBody] assembles. *)
Definition bind_response (hb : bytes) : bytes :=
  let id := lit "test_server" in
  let resp := vec_zero (10 + length id) in
  let be := htonl (u32 (10 + blen id)) in
  let resp := blit 0 (store32 be) resp in
  let resp := vec_set 4 0x81 resp in
  let resp := vec_set 5 0x00 resp in
  let seq := header_seq hb in
  let beSeq := htonl seq in
  let resp := blit 6 (store32 beSeq) resp in
  blit 10 id resp.

(** The message the [respond] closure assembles. *)
Definition respond_message (rpId rpStatus rpSeq : Z) (rpBody : bytes) : bytes :=
  let tot := u32 (10 + blen rpBody) in
  let msg := vec_zero (10 + length rpBody) in
  let be := htonl tot in
  let msg := blit 0 (store32 be) msg in
  let msg := vec_set 4 rpId msg in
  let msg := vec_set 5 rpStatus msg in
  let seqbe := htonl rpSeq in
  let msg := blit 6 (store32 seqbe) msg in
  blit 10 rpBody msg.

Definition respond (sid : nat) (rpId rpStatus rpSeq : Z) (rpBody : bytes) : M unit :=
  send sid (respond_message rpId rpStatus rpSeq rpBody).

Definition sess_onReadBody (sid : nat) (ec : bool) : M unit :=
  if ec then removeSession sid else
  x ← gets (sess sid);
  s ← gets id;
  (if negb (authenticated x) && (headerBuf x !!! 4%nat =? 0x01) then
     let cid := bodyBuf x in
     let ok := match onAuth_ s with Some auth => auth cid | None => false end in
     (match onAuth_ s with Some auth => emit (ECall (CallAuth sid cid (auth cid))) | None => skip end);;
     if ok then
       upd_sess sid (λ x, x <| authenticated := true |>);;
       send sid (bind_response (headerBuf x))
     else removeSession sid
   else if authenticated x then
     match onRequest_ s with
     | Some f => emit (ECall (CallRequest f sid (headerBuf x !!! 4%nat) (headerBuf x !!! 5%nat)
                               (header_seq (headerBuf x)) (bodyBuf x)))
     | None => skip
     end
   else skip);;
  sess_doReadHeader sid.

(** ** Accepting *)

Definition doAccept : M unit := emit (EStart OpAccept).

Definition on_accept (ec : bool) : M unit :=
  s ← gets id;
  whenb (negb ec)
    (whenb (Z.of_nat (size (sessions_ s)) <? maxConnections_ s)
       (let sid := fresh_ s in
        modify (λ s, s <| heap_ := <[sid := new_session]> (heap_ s) |>
                       <| fresh_ := S sid |>
                       <| sessions_ := {[sid]} ∪ sessions_ s |>);;
        sess_start sid));;
  doAccept.

Definition start (handler : std_function) : M unit :=
  modify (λ s, s <| onRequest_ := handler |>);;
  doAccept.

(** Closing a socket makes its outstanding operations fail, which the library
    may do at any time. *)
Definition stop : M unit :=
  modify (λ s, s <| acceptor_open_ := false |>);;
  ss ← gets (λ s, elements (sessions_ s));
  (λ s, (s, (λ _, EClose) <$> ss, ()));;
  modify (λ s, s <| sessions_ := ∅ |>).

(** ** The server as seen by the I/O library *)

Definition s_kind (o : s_op) : io_kind :=
  match o with
  | OpAccept => KAccept
  | OpSessHeader _ => KRead 10
  | OpSessBody _ n => KRead (Z.to_nat n)
  | OpSessWrite _ bs => KWrite bs
  end.

Definition server_io (now : Z) (o : s_op) (r : io_result) : M unit :=
  match o with
  | OpAccept => on_accept (match r with IoOk _ => false | IoErr _ => true end)
  | OpSessHeader sid =>
      match r with
      | IoOk data => upd_sess sid (λ x, x <| headerBuf := data |>);; sess_onReadHeader sid false
      | IoErr _ => sess_onReadHeader sid true
      end
  | OpSessBody sid _ =>
      match r with
      | IoOk data => upd_sess sid (λ x, x <| bodyBuf := data |>);; sess_onReadBody sid false
      | IoErr _ => sess_onReadBody sid true
      end
  | OpSessWrite _ _ => skip
  end.

(** Calls from outside: the application answering a request (through the
    [respond] it was given), and [stop]. *)
Inductive s_api :=
| ApiRespond (sid : nat) (rpId rpStatus rpSeq : Z) (rpBody : bytes)
| ApiStop.

Definition server_api (now : Z) (a : s_api) : M unit :=
  match a with
  | ApiRespond sid i st sq b => respond sid i st sq b
  | ApiStop => stop
  end.

Definition server_handlers : handlers server s_op s_post s_timer s_call s_api :=
  Handlers s_kind server_io (λ _ p, match p with end) (λ _ t _, match t with end) server_api.

End Server.
