(* ===== verification/TurboServerProps.v ===== *)
(** * TurboServerProps: correctness of the server

    [session_react] is the contract of a session at the level of packets; the
    read loop of [Session] implements it on byte streams
    ([session_serves_frames]). Over all reachable worlds: requests reach the
    application only from sessions it authenticated, and the number of
    registered sessions respects [maxConnections_]. *)

From S2P Require Import Prelude Bytes Asio TurboFrame TurboServer.

Section ServerProps.
Context `{Host}.
Abbreviation SH := server_handlers.
Abbreviation sworld := (world server s_op s_post s_timer s_call).
Implicit Types (s : server) (p : packet) (w : sworld).

(** ** The messages the server builds are frames *)

Lemma bind_response_frame hb :
  bind_response hb = frame (Packet 0x81 0x00 (header_seq hb) (lit "test_server")).
Proof.
  unfold bind_response. rewrite !store32_htonl, be_bytes_u32.
  rewrite fill_packet; [done|apply be_bytes_length..].
Qed.

Lemma respond_message_frame i st sq body :
  respond_message i st sq body = frame (Packet i st sq body).
Proof.
  unfold respond_message. rewrite !store32_htonl, be_bytes_u32.
  rewrite fill_packet; [done|apply be_bytes_length..].
Qed.

(** ** The contract of a session, packet by packet *)

Record reaction := Reaction {
  ra_auth : bool;               (* authenticated afterwards *)
  ra_removed : bool;            (* taken out of [sessions_] *)
  ra_calls : list s_call;       (* application callbacks *)
  ra_msgs : list bytes }.       (* messages sent *)

Definition session_react s (sid : nat) (authed : bool) p : reaction :=
  if authed then
    Reaction true false
      (match onRequest_ s with
       | Some f => [CallRequest f sid (pk_id p) (pk_status p) (pk_seq p) (pk_body p)]
       | None => []
       end) []
  else if pk_id p =? 0x01 then
    match onAuth_ s with
    | Some auth =>
        if auth (pk_body p)
        then Reaction true false [CallAuth sid (pk_body p) true]
               [frame (Packet 0x81 0x00 (pk_seq p) (lit "test_server"))]
        else Reaction false true [CallAuth sid (pk_body p) false] []
    | None => Reaction false true [] []
    end
  else Reaction false false [] [].

(** A sequence of packets: reactions accumulate. *)
Fixpoint session_run s (sid : nat) (authed : bool) (ps : list packet) : reaction :=
  match ps with
  | [] => Reaction authed false [] []
  | p :: ps' =>
      let r := session_react s sid authed p in
      let r' := session_run s sid (ra_auth r) ps' in
      Reaction (ra_auth r') (ra_removed r || ra_removed r')
        (ra_calls r ++ ra_calls r') (ra_msgs r ++ ra_msgs r')
  end.

(** ** The handlers on one frame *)

(** Configuration a session does not change. *)
Definition same_setup s s' : Prop :=
  onRequest_ s' = onRequest_ s ∧ onAuth_ s' = onAuth_ s.

Lemma sess_upd sid x h a b c d e f : sess sid (Server a b c d e (<[sid := x]> h) f) = x.
Proof. unfold sess. simpl. by rewrite lookup_insert_eq. Qed.

Lemma server_header_ok now s sid p :
  wf_packet p →
  let r := server_io now (OpSessHeader sid) (IoOk (frame_header p)) s in
  started (effs_of r) = [OpSessBody sid (blen (pk_body p))] ∧ called (effs_of r) = [] ∧
  headerBuf (sess sid (state_of r)) = frame_header p ∧
  authenticated (sess sid (state_of r)) = authenticated (sess sid s) ∧
  sessions_ (state_of r) = sessions_ s ∧ same_setup s (state_of r).
Proof.
  intros Hp. destruct (frame_header_fields p Hp) as (Hl & _ & _ & _).
  unfold server_io, sess_onReadHeader, sess_doReadBody, upd_sess. unact.
  rewrite !sess_upd. cbn [headerBuf]. unfold hdr_len, fromBigEndian in Hl. rewrite Hl.
  destruct Hp as (_ & _ & _ & _ & Hlen). unfold blen in *.
  replace (u32 _) with (Z.of_nat (length (pk_body p))).
  2:{ unfold u32. rewrite Z.mod_small; lia. }
  repeat split; try done; by rewrite !sess_upd.
Qed.

(** After the body: the effects and the new state are those of the contract. *)
Lemma server_body_ok now s sid n p :
  wf_packet p → headerBuf (sess sid s) = frame_header p →
  let r := server_io now (OpSessBody sid n) (IoOk (pk_body p)) s in
  let ra := session_react s sid (authenticated (sess sid s)) p in
  started (effs_of r) = (OpSessWrite sid <$> ra_msgs ra) ++ [OpSessHeader sid] ∧
  called (effs_of r) = ra_calls ra ∧
  authenticated (sess sid (state_of r)) = ra_auth ra ∧
  sessions_ (state_of r) = (if ra_removed ra then sessions_ s ∖ {[sid]} else sessions_ s) ∧
  same_setup s (state_of r).
Proof.
  intros Hp Hh.
  unfold server_io, sess_onReadBody, session_react, upd_sess, removeSession, send,
    sess_doReadHeader. unact.
  rewrite !sess_upd. cbn [headerBuf bodyBuf authenticated]. rewrite Hh, bind_response_frame.
  destruct (frame_header_fields p Hp) as (_ & Hi & Hs & Hq).
  unfold hdr_id, hdr_status in Hi, Hs. rewrite Hi, Hs.
  change (header_seq (frame_header p)) with (hdr_seq (frame_header p)). rewrite Hq.
  destruct (authenticated (sess sid s)) eqn:Ha; simpl.
  - destruct (onRequest_ s) eqn:E; simpl; rewrite ?sess_upd; by repeat split.
  - destruct (pk_id p =? 1); simpl; [destruct (onAuth_ s) as [auth|] eqn:E; simpl;
      [destruct (auth (pk_body p)) eqn:Hv|]|]; simpl; rewrite ?Hv, ?sess_upd;
      by repeat split.
Qed.

(** Messages handed to [async_write] for a session. *)
Definition messages (sid : nat) (ops : list s_op) : list bytes :=
  omap (λ o, match o with
             | OpSessWrite i m => if decide (i = sid) then Some m else None
             | _ => None
             end) ops.

Lemma messages_app sid l1 l2 : messages sid (l1 ++ l2) = messages sid l1 ++ messages sid l2.
Proof. apply omap_app. Qed.
Lemma messages_writes sid l : messages sid (OpSessWrite sid <$> l) = l.
Proof.
  induction l as [|m l IH]; [done|]. simpl. rewrite decide_True by done. by f_equal.
Qed.
Lemma writes_no_read sid l :
  Forall (λ o, is_read SH o = false) (OpSessWrite sid <$> l).
Proof. induction l; constructor; done. Qed.

(** One frame against a world whose only outstanding read is the header read
    of session [sid]. *)
Lemma server_feed_frame p rest w l1 l2 sid fuel :
  wf_packet p → w_ops w = l1 ++ OpSessHeader sid :: l2 →
  Forall (λ o, is_read SH o = false) (l1 ++ l2) →
  let ra := session_react (w_st w) sid (authenticated (sess sid (w_st w))) p in
  ∃ w' l', feed SH (S (S fuel)) (frame p ++ rest) w = feed SH fuel rest w' ∧
    w_ops w' = l' ++ [OpSessHeader sid] ∧ Forall (λ o, is_read SH o = false) l' ∧
    messages sid (w_ops w') = messages sid (w_ops w) ++ ra_msgs ra ∧
    w_calls w' = w_calls w ++ ra_calls ra ∧
    authenticated (sess sid (w_st w')) = ra_auth ra ∧
    sessions_ (w_st w') =
      (if ra_removed ra then sessions_ (w_st w) ∖ {[sid]} else sessions_ (w_st w)) ∧
    same_setup (w_st w) (w_st w').
Proof.
  intros Hp Hops Hnr ra. destruct (frame_split p rest) as [Ht Hd].
  assert (Hnr' := Hnr). apply Forall_app in Hnr' as [Hnr1 _].
  cbn [feed]. rewrite Hops, (pick_read_app SH l1 (OpSessHeader sid) 10 l2 Hnr1 eq_refl).
  rewrite (proj2 (Nat.leb_le _ _)) by len. rewrite Ht, Hd.
  destruct (complete_fields SH (OpSessHeader sid) (IoOk (frame_header p)) (l1 ++ l2) w)
    as (S1 & O1 & _ & C1 & _).
  destruct (server_header_ok (w_now w) (w_st w) sid p Hp) as (Es & Ec & Hh & Ha & Hse & (HR & HA)).
  remember (complete SH _ _ _ w) as w1 eqn:Ew1. clear Ew1.
  cbn [h_io server_handlers] in S1, O1, C1. rewrite Es in O1. rewrite Ec, app_nil_r in C1.
  rewrite <-S1 in *. rewrite O1.
  rewrite (pick_read_app SH (l1 ++ l2) (OpSessBody sid (blen (pk_body p)))
             (length (pk_body p)) [] Hnr) by (simpl; unfold blen; by rewrite Nat2Z.id).
  rewrite (proj2 (Nat.leb_le _ _)) by len.
  rewrite take_app_length, drop_app_length, app_nil_r.
  destruct (complete_fields SH (OpSessBody sid (blen (pk_body p))) (IoOk (pk_body p)) (l1 ++ l2) w1)
    as (S2 & O2 & _ & C2 & _).
  destruct (server_body_ok (w_now w1) (w_st w1) sid (blen (pk_body p)) p Hp Hh)
    as (Es2 & Ec2 & Ha2 & Hse2 & (HR2 & HA2)).
  remember (complete SH _ _ _ w1) as w2 eqn:Ew2. clear Ew2.
  cbn [h_io server_handlers] in S2, O2, C2.
  assert (session_react (w_st w1) sid (authenticated (sess sid (w_st w1))) p = ra) as Hra.
  { unfold ra, session_react. by rewrite Ha, HR, HA. }
  rewrite Hra in *. rewrite <-S2 in *.
  exists w2, ((l1 ++ l2) ++ (OpSessWrite sid <$> ra_msgs ra)).
  split; [done|]. split; [by rewrite O2, Es2, app_assoc|].
  split; [apply Forall_app; split; [done|apply writes_no_read]|].
  split. { rewrite O2, Es2, !messages_app, messages_writes. simpl. by rewrite app_nil_r, <-app_assoc. }
  rewrite C2, Ec2, C1, Ha2, Hse2, Hse. split; [done|]. split; [done|].
  split; [done|]. split; congruence.
Qed.

Lemma session_react_setup s s' sid b p :
  same_setup s s' → session_react s' sid b p = session_react s sid b p.
Proof. intros [HR HA]. unfold session_react. by rewrite HR, HA. Qed.

Lemma session_run_setup s s' sid b ps :
  same_setup s s' → session_run s' sid b ps = session_run s sid b ps.
Proof.
  intros Hs. revert b. induction ps as [|p ps IH]; intros b; [done|]. simpl.
  by rewrite (session_react_setup s s' sid b p Hs), IH.
Qed.

Lemma server_feed_frames ps rest w l1 l2 sid fuel :
  Forall wf_packet ps → w_ops w = l1 ++ OpSessHeader sid :: l2 →
  Forall (λ o, is_read SH o = false) (l1 ++ l2) →
  (length rest < 10)%nat → (2 * length ps < fuel)%nat →
  let ra := session_run (w_st w) sid (authenticated (sess sid (w_st w))) ps in
  ∃ w', feed SH fuel (mjoin (frame <$> ps) ++ rest) w = (w', rest) ∧
    reads SH (w_ops w') = [OpSessHeader sid] ∧
    messages sid (w_ops w') = messages sid (w_ops w) ++ ra_msgs ra ∧
    w_calls w' = w_calls w ++ ra_calls ra ∧
    authenticated (sess sid (w_st w')) = ra_auth ra ∧
    sessions_ (w_st w') =
      (if ra_removed ra then sessions_ (w_st w) ∖ {[sid]} else sessions_ (w_st w)).
Proof.
  intros Hps. revert w l1 l2 fuel.
  induction Hps as [|p ps Hp _ IH]; intros w l1 l2 fuel Hops Hnr Hrest Hfuel ra.
  - exists w. destruct fuel as [|fuel]; [simpl in Hfuel; lia|].
    assert (Hnr' := Hnr). apply Forall_app in Hnr' as [Hnr1 _].
    cbn [feed fmap list_fmap mjoin]. simpl (_ ++ rest).
    rewrite Hops, (pick_read_app SH l1 (OpSessHeader sid) 10 l2 Hnr1 eq_refl).
    rewrite (proj2 (Nat.leb_gt _ _)) by lia.
    rewrite (sole_read SH l1 (OpSessHeader sid) l2 Hnr eq_refl). simpl. by rewrite !app_nil_r.
  - destruct fuel as [|[|fuel]]; [simpl in Hfuel; lia..|].
    destruct (server_feed_frame p (mjoin (frame <$> ps) ++ rest) w l1 l2 sid fuel Hp Hops Hnr)
      as (w' & l' & Hf & Hops' & Hnr' & Hm & Hca & Ha & Hse & Hset).
    destruct (IH w' l' [] fuel) as (w'' & Hf' & Hr' & Hm' & Hca' & Ha' & Hse');
      rewrite ?app_nil_r; try done; [simpl in Hfuel; lia|].
    rewrite (session_run_setup _ _ _ _ _ Hset), Ha in Hm', Hca', Ha', Hse'.
    exists w''. rewrite fmap_cons, <-Hf'. split; [cbn [mjoin list_join]; by rewrite <-app_assoc|].
    split; [done|]. subst ra. cbn [session_run ra_msgs ra_calls ra_auth ra_removed].
    rewrite Hm', Hm, Hca', Hca, <-!app_assoc, Ha', Hse', Hse.
    repeat split; try done. repeat case_match; simpl in *; try congruence; set_solver.
Qed.

(** C3: The session implements its contract: on any stream of frames it performs
    exactly the reactions of [session_run], in order: which packets reach the
    application, which messages go out, whether it ends up authenticated and
    registered. *)
Theorem session_serves_frames ps rest w sid fuel :
  Forall wf_packet ps → wf_bytes rest → (length rest < 10)%nat →
  reads SH (w_ops w) = [OpSessHeader sid] → (2 * length ps < fuel)%nat →
  let ra := session_run (w_st w) sid (authenticated (sess sid (w_st w))) ps in
  ∃ w', feed SH fuel (mjoin (frame <$> ps) ++ rest) w = (w', rest) ∧
    reachable SH w w' ∧
    messages sid (w_ops w') = messages sid (w_ops w) ++ ra_msgs ra ∧
    w_calls w' = w_calls w ++ ra_calls ra ∧
    authenticated (sess sid (w_st w')) = ra_auth ra ∧
    sessions_ (w_st w') =
      (if ra_removed ra then sessions_ (w_st w) ∖ {[sid]} else sessions_ (w_st w)).
Proof.
  intros Hps Hrest Hlen (l1 & l2 & Hops & Hnr)%reads_singleton_inv Hfuel ra.
  destruct (server_feed_frames ps rest w l1 l2 sid fuel) as (w' & Hf & _ & Hrest'); try done.
  exists w'. split; [done|]. split; [|done].
  replace w' with (feed SH fuel (mjoin (frame <$> ps) ++ rest) w).1 by by rewrite Hf.
  apply feed_reachable, wf_bytes_app. split; [by apply frames_wf|done].
Qed.

(** ** Authentication *)

(** Every request that reached the application came from a session it had
    accepted before. *)
Definition authorised (log : list s_call) : Prop :=
  ∀ l1 f sid i st sq b l2, log = l1 ++ CallRequest f sid i st sq b :: l2 →
    ∃ cid, CallAuth sid cid true ∈ l1.

Lemma authorised_snoc log c :
  authorised log →
  (∀ f sid i st sq b, c = CallRequest f sid i st sq b → ∃ cid, CallAuth sid cid true ∈ log) →
  authorised (log ++ [c]).
Proof.
  intros Hl Hc l1 f sid i st sq b l2 E.
  destruct l2 as [|x l2 _] using rev_ind.
  - apply app_inj_tail in E as [<- ->]. by eapply Hc.
  - rewrite app_comm_cons, app_assoc in E. apply app_inj_tail in E as [-> _].
    by eapply Hl.
Qed.

Definition auth_inv s (log : list s_call) : Prop :=
  authorised log ∧
  ∀ sid, authenticated (sess sid s) = true → ∃ cid, CallAuth sid cid true ∈ log.

(** Writing a session object: what the others, and the flag, look like. *)
Lemma sess_write sid sid' x h a b c d e f :
  sess sid' (Server a b c d e (<[sid := x]> h) f) =
    if decide (sid = sid') then x else sess sid' (Server a b c d e h f).
Proof.
  unfold sess. simpl. rewrite lookup_insert. by case_decide.
Qed.

Lemma sess_heap sid s s' : heap_ s' = heap_ s → sess sid s' = sess sid s.
Proof. unfold sess. by intros ->. Qed.

(** The invariant only depends on the flags, which may be cleared freely. *)
Lemma auth_inv_flags s s' log :
  (∀ sid, authenticated (sess sid s') = true → authenticated (sess sid s) = true) →
  auth_inv s log → auth_inv s' (log ++ []).
Proof. rewrite app_nil_r. intros Hf [Hl Ha]. split; [done|]. eauto. Qed.

Lemma auth_inv_body s log sid x :
  auth_inv s log → authenticated x = authenticated (sess sid s) →
  auth_inv (s <| heap_ := <[sid := x]> (heap_ s) |>) log.
Proof.
  intros [Hl Ha] Hx. split; [done|]. intros sid'. simpl. rewrite sess_write.
  case_decide as E; [subst; rewrite Hx|]; apply Ha.
Qed.

Lemma auth_inv_onReadBody s log sid :
  auth_inv s log →
  let r := sess_onReadBody sid false s in
  auth_inv (state_of r) (log ++ called (effs_of r)).
Proof.
  intros HI. assert (HI' := HI). destruct HI' as [Hl Ha].
  unfold sess_onReadBody, upd_sess, removeSession, send, sess_doReadHeader. unact.
  destruct (authenticated (sess sid s)) eqn:Hau; simpl.
  - destruct (onRequest_ s) as [f|]; simpl; [|by rewrite app_nil_r].
    split; [|intros sid' Hs; destruct (Ha sid' Hs) as [cid Hc]; exists cid; set_solver].
    apply authorised_snoc; [done|]. intros f' sid' ? ? ? ? E. simplify_eq. by apply Ha.
  - destruct (_ =? 1); simpl; [|by rewrite app_nil_r].
    destruct (onAuth_ s) as [auth|] eqn:Eo; simpl.
    2:{ by apply (auth_inv_flags s). }
    destruct (auth (bodyBuf (sess sid s))) eqn:Hv; simpl.
    + split; [by apply authorised_snoc|]. intros sid'. rewrite sess_write.
      case_decide as E; [subst; intros _; exists (bodyBuf (sess sid' s)); set_solver|].
      intros Hs. destruct (Ha sid' Hs) as [cid Hc]. exists cid. set_solver.
    + split; [by apply authorised_snoc|]. intros sid' Hs.
      destruct (Ha sid' Hs) as [cid Hc]. exists cid. set_solver.
Qed.

Lemma auth_inv_io s log now o res :
  auth_inv s log → let r := server_io now o res s in
  auth_inv (state_of r) (log ++ called (effs_of r)).
Proof.
  intros HI. destruct o as [|sid|sid n|sid m]; cbn [server_io].
  - unfold on_accept, sess_start, sess_doReadHeader, doAccept. unact.
    destruct res; simpl; [destruct (_ <? _); simpl|]; try by rewrite app_nil_r.
    apply (auth_inv_flags s); [|done]. intros sid. rewrite sess_write.
    destruct (decide (fresh_ s = sid)); [discriminate|done].
  - destruct res; unfold sess_onReadHeader, removeSession, sess_doReadBody, upd_sess; unact.
    + apply (auth_inv_flags s); [|done]. intros sid'. rewrite !sess_write.
      rewrite (decide_True (P:=sid = sid)) by done. case_decide as E; [by subst|done].
    + by apply (auth_inv_flags s).
  - destruct res.
    + pose proof (auth_inv_onReadBody
        (s <| heap_ := <[sid := (sess sid s) <| bodyBuf := data |>]> (heap_ s) |>) log sid) as Hb.
      cbv zeta in Hb. unfold upd_sess. cbv [mbind act_bind modify].
      destruct (sess_onReadBody sid false _) as [[s2 o2] []]. simpl in *.
      apply Hb. by apply auth_inv_body.
    + by apply (auth_inv_flags s).
  - simpl. by rewrite app_nil_r.
Qed.

(** C4: Over every run of the server from its construction, whatever the network
    sends and the application answers: a packet is handed to the request
    handler only for a session whose bind the authentication handler accepted
    earlier. *)
Theorem requests_are_authorised w0 w :
  heap_ (w_st w0) = ∅ → w_calls w0 = [] → reachable SH w0 w → authorised (w_calls w).
Proof.
  intros Hh Hc Hr. enough (auth_inv (w_st w) (w_calls w)) as [? _] by done. revert Hr.
  apply (step_calls_invariant SH auth_inv).
  - intros ? ? ? [].
  - intros s log now o res HI _. by apply auth_inv_io.
  - intros ? ? ? [].
  - intros s log now a HI. destruct a as [sid i st sq b|]; unfold server_api, respond, send, stop;
      unact; [by rewrite app_nil_r|].
    replace (called _) with (@nil s_call); [by apply (auth_inv_flags s)|].
    induction (elements (sessions_ s)); done.
  - rewrite Hc. split; [intros []; discriminate|]. intros sid. unfold sess. by rewrite Hh.
Qed.

(** ** Connection limit *)

Definition limit_inv (n : Z) s (log : list s_call) : Prop :=
  maxConnections_ s = n ∧ (∀ sid, sid ∈ sessions_ s → (sid < fresh_ s)%nat) ∧
  Z.of_nat (size (sessions_ s)) <= Z.max 0 n.

(** Members can only leave, other than by [on_accept]. *)
Lemma limit_inv_subset n s s' log log' :
  maxConnections_ s' = maxConnections_ s → fresh_ s' = fresh_ s → sessions_ s' ⊆ sessions_ s →
  limit_inv n s log → limit_inv n s' log'.
Proof.
  intros Hm Hf Hsub (Hn & Hlt & Hsz). repeat split; [congruence| |].
  - intros sid Hs. rewrite Hf. apply Hlt, Hsub, Hs.
  - pose proof (subseteq_size _ _ Hsub). lia.
Qed.

(** The number of registered sessions never exceeds [maxConnections_] (zero
    if that is negative), over every run in which the limit is not changed. *)
Theorem registered_sessions_bounded w0 w n :
  maxConnections_ (w_st w0) = n → sessions_ (w_st w0) = ∅ → reachable SH w0 w →
  Z.of_nat (size (sessions_ (w_st w))) <= Z.max 0 n.
Proof.
  intros Hn Hs0 Hr. enough (limit_inv n (w_st w) (w_calls w)) as (_ & _ & ?) by done. revert Hr.
  apply (step_calls_invariant SH (limit_inv n)).
  - intros ? ? ? [].
  - intros s log now o res HI _. destruct o as [|sid|sid m|sid m]; cbn [h_io server_handlers server_io].
    + unfold on_accept, sess_start, sess_doReadHeader, doAccept. unact.
      destruct HI as (Hm & Hlt & Hsz). rewrite Hm.
      destruct res; simpl; [|done]. destruct (Z.ltb_spec (Z.of_nat (size (sessions_ s))) n); simpl; [|done].
      assert (fresh_ s ∉ sessions_ s) by (intros ?%Hlt; lia).
      repeat split; simpl; [done|set_solver by lia|].
      rewrite size_union, size_singleton by set_solver. lia.
    + apply (limit_inv_subset n s _ log); [..|done]; destruct res;
        unfold sess_onReadHeader, removeSession, sess_doReadBody, upd_sess; unact; set_solver.
    + apply (limit_inv_subset n s _ log); [..|done]; destruct res;
        unfold sess_onReadBody, removeSession, send, sess_doReadHeader, upd_sess; unact;
        run_cases; set_solver.
    + by apply (limit_inv_subset n s _ log).
  - intros ? ? ? [].
  - intros s log now a HI. destruct a as [sid i st sq b|]; unfold server_api, respond, send, stop;
      apply (limit_inv_subset n s _ log); done.
  - repeat split; [done|rewrite Hs0; set_solver|]. rewrite Hs0, size_empty. lia.
Qed.

(** ** Where the code departs from its intent *)

(** A header announcing fewer than ten bytes makes the session prepare for,
    and wait for, a body of almost 4 GiB: the subtraction wraps around. The
    client refuses such headers ([client_skips_short_header]). *)
Theorem server_short_header_underflow now s sid hb :
  0 <= hdr_len hb < 10 →
  let r := server_io now (OpSessHeader sid) (IoOk hb) s in
  started (effs_of r) = [OpSessBody sid (hdr_len hb - 10 + 2 ^ 32)] ∧
  2 ^ 32 - 10 <= hdr_len hb - 10 + 2 ^ 32.
Proof.
  intros Hl. unfold server_io, sess_onReadHeader, sess_doReadBody, upd_sess. unact.
  rewrite !sess_upd. cbn [headerBuf]. unfold hdr_len, fromBigEndian in *.
  split; [|lia]. repeat f_equal. unfold u32.
  rewrite <-(Z_mod_plus_full _ 1). rewrite Z.mod_small; lia.
Qed.

(** A session whose bind was refused keeps being read: a later bind with an
    accepted id authenticates it, while it is no longer registered and so not
    counted against [maxConnections_] nor closed by [stop]. *)
Theorem refused_session_can_bind_later w sid auth cid1 cid2 seq1 seq2 :
  reads SH (w_ops w) = [OpSessHeader sid] → authenticated (sess sid (w_st w)) = false →
  onAuth_ (w_st w) = Some auth → auth cid1 = false → auth cid2 = true →
  let p1 := Packet 0x01 0 seq1 cid1 in
  let p2 := Packet 0x01 0 seq2 cid2 in
  wf_packet p1 → wf_packet p2 →
  ∃ w', feed SH 5 (frame p1 ++ frame p2) w = (w', []) ∧ reachable SH w w' ∧
    authenticated (sess sid (w_st w')) = true ∧ sid ∉ sessions_ (w_st w').
Proof.
  intros Hr Ha Ho H1 H2 p1 p2 Hp1 Hp2. apply reads_singleton_inv in Hr as (l1 & l2 & Hops & Hnr).
  assert (mjoin (frame <$> [p1; p2]) ++ [] = frame p1 ++ frame p2) as Happ.
  { rewrite app_nil_r. change (frame p1 ++ frame p2 ++ [] = frame p1 ++ frame p2). by rewrite app_nil_r. }
  destruct (server_feed_frames [p1; p2] [] w l1 l2 sid 5) as (w' & Hf & _ & _ & _ & Hau & Hse);
    try done; [by apply Forall_cons; split; [|apply Forall_singleton]|simpl; lia|simpl; lia|].
  exists w'. rewrite Happ in Hf. split; [done|]. split.
  - replace w' with (feed SH 5 (frame p1 ++ frame p2) w).1 by by rewrite Hf.
    apply feed_reachable, wf_bytes_app. auto with tn_wf.
  - rewrite Ha in Hau, Hse. cbn [session_run] in Hau, Hse. unfold session_react in Hau, Hse.
    simpl in Hau, Hse. rewrite Ho in Hau, Hse. simpl in Hau, Hse.
    rewrite H1 in Hau, Hse. simpl in Hau, Hse. rewrite H2 in Hau. simpl in Hau.
    rewrite Hau, Hse. split; [done|]. set_solver.
Qed.

(** The accept loop has no end: every completion, the failure that [stop]
    causes by closing the acceptor included, starts the next accept. *)
Theorem accept_always_rearmed now s r :
  OpAccept ∈ started (effs_of (server_io now OpAccept r s)).
Proof.
  unfold server_io, on_accept, sess_start, sess_doReadHeader, doAccept. unact.
  destruct r; simpl; [destruct (_ <? _)|]; simpl; set_solver.
Qed.

End ServerProps.

(** ** Concrete runs *)

#[local] Instance sample_host : Host := LittleEndian.

Definition sample_auth (cid : bytes) : bool :=
  bool_decide (cid = lit "client_123") || bool_decide (cid = lit "client_abc").

(** A server with room for ten sessions, accepting; and after one accept. *)
Definition listening_world : world server s_op s_post s_timer s_call :=
  run (start (Some 1%nat))
    (init_world ((new_server 10) <| onAuth_ := Some sample_auth |>) 0).
Definition accepted_world : world server s_op s_post s_timer s_call :=
  complete server_handlers OpAccept (IoOk []) [] listening_world.

Lemma accepted_reachable : reachable server_handlers listening_world accepted_world.
Proof.
  apply rtc_once. apply (step_io server_handlers listening_world OpAccept [] [] (IoOk [])); done.
Qed.

Definition bind_packet : packet := Packet 0x01 0 1 (lit "client_123").
Definition hello_packet : packet := Packet 0x02 0 2 (lit "hello_server").

Lemma session_serves_frames_witness :
  let w := accepted_world in
  let ps := [bind_packet; hello_packet] in
  let ra := session_run (w_st w) 0 (authenticated (sess 0 (w_st w))) ps in
  ∃ w', feed server_handlers 5 (mjoin (frame <$> ps) ++ [0; 0; 0]) w = (w', [0; 0; 0]) ∧
    reachable server_handlers w w' ∧
    messages 0 (w_ops w') = messages 0 (w_ops w) ++ ra_msgs ra ∧
    w_calls w' = w_calls w ++ ra_calls ra ∧
    authenticated (sess 0 (w_st w')) = ra_auth ra ∧
    sessions_ (w_st w') =
      (if ra_removed ra then sessions_ (w_st w) ∖ {[0%nat]} else sessions_ (w_st w)).
Proof.
  apply (session_serves_frames [bind_packet; hello_packet] [0; 0; 0] accepted_world 0 5).
  - apply (bool_decide_unpack _). vm_compute. exact I.
  - apply (bool_decide_unpack _). vm_compute. exact I.
  - simpl. lia.
  - vm_compute. reflexivity.
  - simpl. lia.
Defined.

(** What the contract says of that run: the client is accepted, answered, and
    its request delivered. *)
Example sample_session_run :
  session_run (w_st accepted_world) 0 false [bind_packet; hello_packet] =
  Reaction true false
    [CallAuth 0 (lit "client_123") true; CallRequest 1 0 2 0 2 (lit "hello_server")]
    [frame (Packet 0x81 0 1 (lit "test_server"))].
Proof. vm_compute. reflexivity. Qed.

Lemma requests_are_authorised_witness : authorised (w_calls accepted_world).
Proof.
  apply (requests_are_authorised listening_world accepted_world).
  - reflexivity.
  - reflexivity.
  - apply accepted_reachable.
Defined.

Lemma registered_sessions_bounded_witness :
  Z.of_nat (size (sessions_ (w_st accepted_world))) <= Z.max 0 10.
Proof.
  apply (registered_sessions_bounded listening_world accepted_world 10).
  - reflexivity.
  - reflexivity.
  - apply accepted_reachable.
Defined.

Lemma server_short_header_underflow_witness :
  let hb := [0; 0; 0; 4; 2; 0; 0; 0; 0; 1] in
  let r := server_io 0 (OpSessHeader 0) (IoOk hb) (w_st accepted_world) in
  started (effs_of r) = [OpSessBody 0 (hdr_len hb - 10 + 2 ^ 32)] ∧
  2 ^ 32 - 10 <= hdr_len hb - 10 + 2 ^ 32.
Proof.
  apply server_short_header_underflow. vm_compute. split; [discriminate | reflexivity].
Defined.

Lemma refused_session_can_bind_later_witness :
  ∃ w', feed server_handlers 5 (frame (Packet 0x01 0 1 (lit "intruder")) ++
                                frame (Packet 0x01 0 2 (lit "client_abc"))) accepted_world
          = (w', []) ∧
    reachable server_handlers accepted_world w' ∧
    authenticated (sess 0 (w_st w')) = true ∧ (0%nat) ∉ sessions_ (w_st w').
Proof.
  apply (refused_session_can_bind_later accepted_world 0 sample_auth).
  - vm_compute. reflexivity.
  - reflexivity.
  - reflexivity.
  - vm_compute. reflexivity.
  - vm_compute. reflexivity.
  - apply (bool_decide_unpack _). vm_compute. exact I.
  - apply (bool_decide_unpack _). vm_compute. exact I.
Defined.
