(* ===== verification/TurboNet.v ===== *)
(** * TurboNet: client and server together; the example programs
      (client.cpp, server.cpp)

    The application code of the two example programs, and the composition of
    the client's and the server's results: a bind and a request travel to the
    server, the bind response and the echo travel back. *)

From S2P Require Import Prelude Bytes Asio PQueue TurboFrame TurboClient TurboClientRx TurboClientTx TurboServer TurboServerProps.

(** ** server.cpp *)

Definition validClients : list bytes := [lit "client_123"; lit "client_abc"].

(** The authentication handler. *)
Definition example_auth (clientId : bytes) : bool :=
  bool_decide (clientId ∈ validClients).

(** The request handler: echo with packet id 0x82. *)
Definition example_on_request `{Host} (sid : nat) (packetId status seq : Z) (payload : bytes)
  : act server s_eff unit :=
  let reply := lit "Echo: " ++ payload in
  respond sid 0x82 0x00 seq reply.

(** The server of [main], after [start]. *)
Definition example_server : world server s_op s_post s_timer s_call :=
  run (setAuthHandler (Some example_auth);; start (Some 1%nat)) (init_world (new_server 10) 0).

(** ** client.cpp *)

(** The client of [main], configured. *)
Definition example_client : client (list ResponseEntry) :=
  state_of ((setClientId (lit "client_123");;
             setBindHandler (Some 1%nat);;
             setPacketHandler (Some 2%nat);;
             setTimeoutHandler (Some 3%nat))
            (new_client 5000 5000 10000)).

(** The connect callback: on success, send "hello_server". *)
Definition example_on_connect `{Host} {Q} `{!PQueue Q ResponseEntry} (now : Z) (ec : bool)
  : act (client Q) c_eff unit :=
  if ec then skip else sendRequest now (lit "hello_server");; skip.

(** ** End to end *)

Section EndToEnd.
Context `{Host} {Q : Type} `{!PQueue Q ResponseEntry}.


End EndToEnd.

(** ** The example client *)

#[local] Instance sample_host : Host := LittleEndian.

(** [main]'s client when the connection is established: the completion
    handler binds and then runs the connect callback, so that two packets are
    posted to the strand. *)
Definition example_connected : world (client (list ResponseEntry)) c_op c_post c_timer c_call :=
  run (on_connect 0 false;; example_on_connect 0 false) (init_world example_client 0).

(** The closures run back to back; the completion of the first write then
    discards the second packet: [hello_server] never leaves the client. *)
Theorem example_client_loses_hello :
  w_posts example_connected =
    [PostSend (frame (Packet 0x01 0 1 (lit "client_123")));
     PostSend (frame (Packet 0x02 0 2 (lit "hello_server")))] ∧
  ∃ w, reachable client_handlers example_connected w ∧ idle w ∧
    writes (w_ops w) = [] ∧ w_sent w = frame (Packet 0x01 0 1 (lit "client_123")).
Proof.
  split; [vm_compute; reflexivity|].
  set (b1 := frame (Packet 0x01 0 1 (lit "client_123"))).
  set (b2 := frame (Packet 0x02 0 2 (lit "hello_server"))).
  set (w1 := run (client_post 0 (PostSend b1)) (example_connected <| w_posts := [PostSend b2] |>)).
  set (w2 := run (client_post 0 (PostSend b2)) (w1 <| w_posts := [] |>)).
  exists (complete client_handlers (OpWrite b1) (IoOk []) [OpReadHeader] w2).
  split; [|repeat split; vm_compute; reflexivity].
  eapply rtc_l; [apply (step_post client_handlers example_connected (PostSend b1) [PostSend b2]);
                 vm_compute; reflexivity|].
  eapply rtc_l; [apply (step_post client_handlers w1 (PostSend b2) []); vm_compute; reflexivity|].
  eapply rtc_l; [apply (step_io client_handlers w2 (OpWrite b1) [OpReadHeader] [] (IoOk []));
                 vm_compute; reflexivity|].
  apply rtc_refl.
Qed.

(** The example programs' own exchange, from the server's accepted session. *)
Definition example_session : world server s_op s_post s_timer s_call :=
  complete server_handlers OpAccept (IoOk []) [] example_server.
Definition example_receiving : world (client (list ResponseEntry)) c_op c_post c_timer c_call :=
  (init_world example_client 0) <| w_ops := [OpReadHeader] |>.

