(* ===== verification/TurboLife.v ===== *)
(** * TurboLife: the program of client.cpp, and the lifetime of its client

    [TurboNetClient] is held by [std::shared_ptr]: one reference is the local
    variable of [main], and every completion handler, posted closure and timer
    wait of the object holds another ([self = shared_from_this()]). The object
    is destroyed by whoever drops the last one: [main] when it returns, or an
    I/O thread when a handler ends. [life_step] interleaves [main] with the
    handlers; the destructor runs where the last reference is dropped. *)

From S2P Require Import Prelude Bytes Asio Schedule PQueue TurboFrame TurboClient TurboNet.

(** Everything that holds the object: each element of these lists contains a
    [self]. *)
Definition holders {St Op P T C} (w : world St Op P T C) : nat :=
  length (w_ops w) + length (w_posts w) + length (w_armed w) + length (w_fired w).

(** How a process ends: [exit], [std::terminate], or not as the language says. *)
Inductive ending :=
| Exited (code : Z)
| Aborted
| Undefined.

(** [for (auto& t : ioThreads_) if (t.joinable()) t.join();] executed by the
    thread [self] ([None]: not one of [ioThreads_]). A thread that joins itself
    gets an exception, which ends the loop. The result is whether it ended
    normally. *)
Fixpoint join_all (self : option nat) (threads : list nat) : bool :=
  match threads with
  | [] => true
  | t :: threads' => if decide (self = Some t) then false else join_all self threads'
  end.

Lemma join_all_spec self threads :
  join_all self threads = true ↔ ∀ t, self = Some t → t ∉ threads.
Proof.
  induction threads as [|x threads IH]; simpl; [set_solver|].
  destruct (decide (self = Some x)) as [->|Hne]; [set_solver|]. rewrite IH. set_solver.
Qed.

(** The positions of [main]. *)
Inductive client_pc := PcConfigure | PcConnect | PcWaitKey | PcClose | PcReturn | PcDone.
#[export] Instance client_pc_eq_dec : EqDecision client_pc.
Proof. solve_decision. Defined.

Record life (Q : Type) := Life {
  l_world : world (client Q) c_op c_post c_timer c_call;
  l_main : client_pc;
  l_local : bool;              (* the local variable [client] of [main] exists *)
  l_alive : bool;              (* the object has not been destroyed *)
  l_end : option ending }.
Arguments Life {Q}.
Arguments l_world {Q}.
Arguments l_main {Q}.
Arguments l_local {Q}.
Arguments l_alive {Q}.
Arguments l_end {Q}.

#[export] Instance eta_life {Q} : Eta (life Q) := λ l,
  Life (l_world l) (l_main l) (l_local l) (l_alive l) (l_end l).

Ltac life_simpl := cbn [field_upd l_local l_main l_alive l_world l_end] in *.

Section Life.
Context `{Host} {Q : Type} `{!PQueue Q ResponseEntry}.
Context (threads : nat).       (* [ioThreads]: [std::thread::hardware_concurrency()] *)
Abbreviation M := (act (client Q) c_eff).
Abbreviation cworld := (world (client Q) c_op c_post c_timer c_call).
Implicit Types (l : life Q) (w : cworld).

(** [~TurboNetClient], up to the destruction of the members; [ioCtx_.stop()]
    lets the other threads return from [run]. A destructor does not let an
    exception out: when the result is [false], [std::terminate] is called. *)
Definition destructor (self : option nat) : M bool :=
  close;;
  mret (join_all self (seq 0 threads)).

(** ** [main] *)

Definition configure : M unit :=
  setClientId (lit "client_123");;
  setBindHandler (Some 1%nat);;
  setPacketHandler (Some 2%nat);;
  setTimeoutHandler (Some 3%nat).

(** What the callbacks do to the client, and which of them go through the local
    variable, which they hold by reference. *)
Definition client_callback (now : Z) (c : c_call) : M unit :=
  match c with CallConnect _ ec => example_on_connect now ec | _ => skip end.
Definition uses_local (c : c_call) : bool :=
  match c with CallConnect _ ec => negb ec | _ => false end.

(** The object when only the program calls its interface. *)
Definition client_alone : handlers (client Q) c_op c_post c_timer c_call Empty_set :=
  Handlers c_kind client_io client_post client_timer
    (λ _ (a : Empty_set), match a return M unit with end).

Definition new_calls w w' : list c_call := drop (length (w_calls w)) (w_calls w').

Definition run_callbacks (cs : list c_call) w : cworld :=
  foldl (λ w c, run (client_callback (w_now w) c) w) w cs.

Definition referred l : bool := l_local l || negb (holders (l_world l) =? 0)%nat.

(** A reference was dropped by the thread [self]. *)
Definition release (self : option nat) l : life Q :=
  if l_alive l && negb (referred l) then
    let m := destructor self in
    l <| l_world := run m (l_world l) |> <| l_alive := false |>
      <| l_end := if val_of (m (w_st (l_world l))) then l_end l else Some Aborted |>
  else l.

(** A handler ran on an I/O thread, with the callbacks it invoked. *)
Definition io_turn (thread : nat) w' l : life Q :=
  let cs := new_calls (l_world l) w' in
  if existsb uses_local cs && negb (l_local l)
  then l <| l_world := w' |> <| l_end := Some Undefined |>
  else release (Some thread) (l <| l_world := run_callbacks cs w' |>).

(** One statement of [main]; [resolved] as for [connect], whose exception
    nobody catches. *)
Definition main_turn (resolved : bool) l : life Q :=
  let w := l_world l in
  match l_main l with
  | PcConfigure => l <| l_world := run configure w |> <| l_main := PcConnect |>
  | PcConnect =>
      let m := connect (w_now w) resolved 5000 (Some 0%nat) in
      if val_of (m (w_st w))
      then l <| l_world := run m w |> <| l_main := PcWaitKey |>
      else l <| l_world := run m w |> <| l_end := Some Aborted |>
  | PcWaitKey => l <| l_main := PcClose |>
  | PcClose => l <| l_world := run close w |> <| l_main := PcReturn |>
  | PcReturn => release None (l <| l_local := false |> <| l_main := PcDone |>)
  | PcDone => l <| l_end := Some (Exited 0) |>
  end.

Inductive life_step : life Q → life Q → Prop :=
| life_io l thread w' :
    l_end l = None → (thread < threads)%nat → step client_alone (l_world l) w' →
    life_step l (io_turn thread w' l)
| life_main l resolved :
    l_end l = None → life_step l (main_turn resolved l).

Definition life_start (now : Z) : life Q :=
  Life (init_world (new_client 5000 5000 10000) now) PcConfigure true true None.

Definition life_reachable (now : Z) l : Prop := rtc life_step (life_start now) l.

(** ** Who holds the object *)

Lemma holders_cancel t w : holders (cancel_timer t w) = holders w.
Proof.
  unfold holders, cancel_timer. simpl. rewrite length_app, length_fmap.
  assert (length (filter (λ a, a.1 ≠ t) (w_armed w)) +
          length (filter (λ a, a.1 = t) (w_armed w)) = length (w_armed w))%nat; [|lia].
  induction (w_armed w) as [|a l IH]; [done|]. rewrite !filter_cons.
  destruct (decide (a.1 = t)), (decide (a.1 ≠ t)); simpl; try done; lia.
Qed.

(** Closing and destroying start nothing: they only abort. *)
Definition starts_nothing (e : c_eff) : Prop :=
  match e with EStart _ | EPost _ | EArm _ _ => False | _ => True end.

Lemma holders_do_effs es w : Forall starts_nothing es → holders (do_effs es w) = holders w.
Proof.
  intros Hes. revert w. induction Hes as [|e es He _ IH]; intros w; [done|]. simpl.
  rewrite IH. destruct e; try done. apply holders_cancel.
Qed.

Lemma holders_run {B} (m : M B) w :
  Forall starts_nothing (effs_of (m (w_st w))) → holders (run m w) = holders w.
Proof.
  unfold run. destruct (m (w_st w)) as [[s es] b]; simpl. intros Hes.
  by rewrite holders_do_effs.
Qed.

Lemma destructor_effs self (c : client Q) :
  effs_of (destructor self c) = effs_of (close c) ∧ Forall starts_nothing (effs_of (close c)).
Proof.
  unfold destructor. generalize (join_all self (seq 0 threads)). intros b.
  unfold close, invoke. unact. destruct (onClose_ c); simpl; (split; [done|]);
    by repeat (apply Forall_cons; split).
Qed.

Lemma holders_destructor self w : holders (run (destructor self) w) = holders w.
Proof. destruct (destructor_effs self (w_st w)) as [He Hs]. apply holders_run. by rewrite He. Qed.

Lemma destructor_val self (c : client Q) : val_of (destructor self c) = join_all self (seq 0 threads).
Proof. 
  unfold destructor. generalize (join_all self (seq 0 threads)). intros b.
  unfold close, invoke. unact. by destruct (onClose_ c).
Qed.

(** Without holders, nothing of the object can run: only time passes. *)
Lemma nothing_left w w' :
  holders w = 0%nat → step client_alone w w' → ∃ now, w' = w <| w_now := now |>.
Proof.
  unfold holders. intros H0 Hs.
  destruct Hs as [w p ps Hp|w o l1 l2 r Ho _|w t d l1 l2 Ha _|w t ab l1 l2 Hf|w now _|w []];
    [rewrite Hp in H0|rewrite Ho in H0|rewrite Ha in H0|rewrite Hf in H0|by exists now];
    rewrite ?length_app in H0; simpl in H0; lia.
Qed.

(** ** The invariant of the program *)

Record life_inv l : Prop := {
  li_local : l_local l = negb (bool_decide (l_main l = PcDone));
  li_dead : l_alive l = false → l_local l = false ∧ holders (l_world l) = 0%nat;
  li_ref : l_alive l = true → l_end l ≠ Some Undefined → referred l = true;
  li_end : match l_end l with
           | None => True
           | Some (Exited c) => c = 0 ∧ l_main l = PcDone
           | Some Aborted => l_main l = PcConnect ∨ l_main l = PcDone ∧ l_alive l = false
           | Some Undefined => l_main l = PcDone
           end }.

Lemma release_inv self l :
  l_local l = negb (bool_decide (l_main l = PcDone)) → l_end l = None →
  (l_alive l = false → l_local l = false ∧ holders (l_world l) = 0%nat) →
  life_inv (release self l).
Proof.
  intros Hl He Hd. unfold release. destruct (l_alive l) eqn:Ha; simpl.
  - destruct (referred l) eqn:Hr; simpl.
    + split; [done|by rewrite Ha|done|by rewrite He].
    + unfold referred in Hr. apply orb_false_iff in Hr as [Hr Hh].
      apply negb_false_iff, Nat.eqb_eq in Hh.
      assert (Hm : l_main l = PcDone) by (rewrite Hr in Hl; by destruct (l_main l)).
      split; life_simpl; try done.
      * intros _. by rewrite holders_destructor.
      * rewrite He. destruct (val_of (destructor self _)); [done|]. by right.
  - split; [done|auto|by rewrite Ha|by rewrite He].
Qed.

Lemma client_alone_calls w w' :
  step client_alone w w' → ∃ cs, w_calls w' = w_calls w ++ cs ∧ new_calls w w' = cs.
Proof.
  intros Hs. assert (∃ cs, w_calls w' = w_calls w ++ cs) as (cs & Hcs).
  { destruct Hs as [w p ps Hp|w o l1 l2 r Ho _|w t d l1 l2 Ha _|w t ab l1 l2 Hf|w now _|w []].
    - destruct (run_fields (client_post (w_now w) p) (w <| w_posts := ps |>)) as (_ & _ & _ & Hc & _).
      by eexists.
    - destruct (complete_fields client_alone o r (l1 ++ l2) w) as (_ & _ & _ & Hc & _). by eexists.
    - exists []. by rewrite app_nil_r.
    - destruct (run_fields (client_timer (w_now w) t ab) (w <| w_fired := l1 ++ l2 |>)) as (_ & _ & _ & Hc & _).
      by eexists.
    - exists []. by rewrite app_nil_r. }
  exists cs. split; [done|]. unfold new_calls. by rewrite Hcs, drop_app_length.
Qed.

Lemma io_turn_inv l thread w' :
  life_inv l → l_end l = None → step client_alone (l_world l) w' → life_inv (io_turn thread w' l).
Proof.
  intros [Hl Hd Hr Hend] He Hs. unfold io_turn.
  destruct (l_alive l) eqn:Ha.
  - destruct (existsb _ _ && _) eqn:Hu.
    + apply andb_true_iff in Hu as [_ Hu]. apply negb_true_iff in Hu.
      split; life_simpl; try done; try (by rewrite Ha).
      rewrite Hu in Hl. by destruct (l_main l).
    + apply release_inv; life_simpl; first [done|by rewrite Ha].
  - destruct (Hd eq_refl) as [Hloc Hh].
    destruct (nothing_left (l_world l) w' Hh Hs) as [now ->].
    unfold new_calls. simpl. rewrite drop_all. simpl.
    apply release_inv; life_simpl; try done; by intros _.
Qed.

Lemma main_turn_inv l resolved :
  life_inv l → l_end l = None → life_inv (main_turn resolved l).
Proof.
  intros [Hl Hd Hr Hend] He. unfold main_turn.
  assert (Hlive : l_main l ≠ PcDone → l_local l = true ∧ l_alive l = true).
  { intros Hne. assert (l_local l = true) by (rewrite Hl; by destruct (l_main l)).
    split; [done|]. destruct (l_alive l); [done|]. destruct (Hd eq_refl); congruence. }
  unfold referred in *.
  destruct (l_main l) eqn:Hm; try (destruct Hlive as [Hlo Hal]; [done|]).
  - split; life_simpl; rewrite ?He, ?Hlo, ?Hal; done.
  - destruct (val_of _); split; life_simpl; rewrite ?He, ?Hlo, ?Hal, ?Hm; try done. by left.
  - split; life_simpl; rewrite ?He, ?Hlo, ?Hal; done.
  - split; life_simpl; rewrite ?He, ?Hlo, ?Hal; done.
  - apply release_inv; life_simpl; [done..|by rewrite Hal].
  - split; life_simpl; rewrite ?Hm; try done. intros Ha _. apply Hr; [done|by rewrite He].
Qed.

Lemma life_reachable_inv now l : life_reachable now l → life_inv l.
Proof.
  intros Hr. refine (rtc_invariant life_step life_inv _ l _ _ Hr).
  - by split.
  - intros a b Ha Hs. destruct Hs; [by apply io_turn_inv|by apply main_turn_inv].
Qed.


(** How the program can end: normally when [main] is done; by
    [std::terminate] when the address does not resolve, or, after [main] is
    done, because an I/O thread was left to destroy the client; with undefined
    behaviour only after [main] is done. *)
Theorem client_program_ends now l e :
  life_reachable now l → l_end l = Some e →
  (e = Exited 0 ∧ l_main l = PcDone) ∨
  (e = Aborted ∧ (l_main l = PcConnect ∨ l_main l = PcDone ∧ l_alive l = false)) ∨
  (e = Undefined ∧ l_main l = PcDone).
Proof.
  intros [_ _ _ Hend]%life_reachable_inv He. rewrite He in Hend.
  destruct e as [c| |]; [left|right; left|right; right]; naive_solver.
Qed.

(** From [main]'s [return] on, with nothing outstanding. *)
Definition quiet l : Prop :=
  l_end l = None ∧ holders (l_world l) = 0%nat ∧
    (l_main l = PcReturn ∧ l_local l = true ∧ l_alive l = true ∨ l_main l = PcDone ∧ l_alive l = false) ∨
  l_end l = Some (Exited 0).

Lemma quiet_step l l' : quiet l → life_step l l' → quiet l'.
Proof.
  intros [(He & Hh & Hm)|Hx] Hs; [|by destruct Hs; simplify_eq].
  destruct Hs as [l thread w' _ _ Hs|l resolved _].
  - destruct (nothing_left _ _ Hh Hs) as [now ->]. left. unfold io_turn, new_calls. simpl.
    rewrite drop_all. simpl. unfold release, referred. simpl.
    destruct Hm as [(Hm & Hlo & Ha)|[Hm Ha]]; [rewrite Hlo|rewrite Ha]; simpl; [rewrite andb_false_r|];
      simpl; naive_solver.
  - unfold main_turn. destruct Hm as [(Hm & Hlo & Ha)|[Hm Ha]]; rewrite Hm; [left|by right].
    unfold release, referred. simpl. rewrite Ha, Hh. simpl. rewrite destructor_val.
    rewrite (proj2 (join_all_spec None _)) by done.
    repeat split; [done| |by right]. by rewrite holders_destructor.
Qed.

(** When nothing of the client is outstanding as [main] returns, [main]
    destroys it and the program ends normally, whatever happens meanwhile. *)
Theorem quiet_client_exits now l l' e :
  life_reachable now l → l_main l = PcReturn → l_end l = None → holders (l_world l) = 0%nat →
  rtc life_step l l' → l_end l' = Some e → e = Exited 0.
Proof.
  intros Hl Hm He Hh Hr.
  assert (Hq : quiet l).
  { destruct (life_reachable_inv now l Hl) as [Hlo Hd _ _]. left. repeat split; [done..|left].
    rewrite Hm in Hlo. change (l_local l = true) in Hlo. split; [done|]. split; [done|]. destruct (l_alive l); [done|].
    destruct (Hd eq_refl); congruence. }
  clear Hl Hm He Hh. intros He.
  assert (quiet l') as [(Hn & _)|Hx] by exact (rtc_invariant life_step quiet l l' Hq quiet_step Hr); congruence.
Qed.

(** ** The program uses the client within its interface *)

(** The object once [main] has called [connect]. *)
Definition connecting (now : Z) : cworld :=
  run (connect now true 5000 (Some 0%nat)) (run configure (init_world (new_client 5000 5000 10000) now)).

Lemma client_alone_step w w' : step client_alone w w' → step client_handlers w w'.
Proof.
  intros Hs. destruct Hs as [w p ps Hp|w o l1 l2 r Ho Ha|w t d l1 l2 Ha Hd|w t ab l1 l2 Hf|w now Hn|w []].
  - by apply (step_post client_handlers).
  - by apply (step_io client_handlers w o l1 l2 r).
  - by eapply (step_expire client_handlers).
  - by apply (step_timer client_handlers).
  - by apply step_tick.
Qed.

Lemma run_skip w : run (skip : M unit) w = w.
Proof. by destruct w. Qed.

Lemma callbacks_reachable cs w : reachable client_handlers w (run_callbacks cs w).
Proof.
  revert w. induction cs as [|c cs IH]; intros w; [apply rtc_refl|]. simpl.
  apply (reachable_trans _ _ (run (client_callback (w_now w) c) w)); [|apply IH].
  unfold client_callback. destruct c as [f [] | | | |]; simpl; rewrite ?run_skip; try apply rtc_refl.
  apply rtc_once, (step_api client_handlers w (ApiSendRequest (lit "hello_server"))).
Qed.

Lemma close_reachable w : reachable client_handlers w (run close w).
Proof. apply rtc_once, (step_api client_handlers w ApiClose). Qed.

Lemma destructor_run self w : run (destructor self) w = run close w.
Proof.
  unfold destructor. generalize (join_all self (seq 0 threads)). intros b. rewrite run_bind.
  generalize (run close w). intros v. by destruct v.
Qed.

Lemma release_world self l :
  l_main (release self l) = l_main l ∧ reachable client_handlers (l_world l) (l_world (release self l)).
Proof.
  unfold release. destruct (_ && _); simpl; (split; [done|]); [|apply rtc_refl].
  rewrite destructor_run. apply close_reachable.
Qed.

(** Before [connect] only the clock moves. *)
Lemma idle_turn thread w' l :
  l_local l = true → holders (l_world l) = 0%nat → step client_alone (l_world l) w' →
  ∃ now, w_now (l_world l) <= now ∧ io_turn thread w' l = l <| l_world := (l_world l) <| w_now := now |> |>.
Proof.
  intros Hl Hh Hs. assert (∃ now, w_now (l_world l) <= now ∧ w' = (l_world l) <| w_now := now |>) as (now & Hle & ->).
  { unfold holders in Hh.
    destruct Hs as [w p ps Hp|w o l1 l2 r Ho _|w t d l1 l2 Ha _|w t ab l1 l2 Hf|w now Hn|w []];
      [rewrite Hp in Hh|rewrite Ho in Hh|rewrite Ha in Hh|rewrite Hf in Hh|by exists now];
      rewrite ?length_app in Hh; simpl in Hh; lia. }
  exists now. split; [done|]. unfold io_turn, new_calls. simpl. rewrite drop_all. simpl.
  unfold release, referred. simpl. rewrite Hl. simpl. by rewrite andb_false_r.
Qed.

Lemma io_turn_world thread w' l :
  step client_alone (l_world l) w' →
  l_main (io_turn thread w' l) = l_main l ∧
  reachable client_handlers (l_world l) (l_world (io_turn thread w' l)).
Proof.
  intros Hs%client_alone_step. unfold io_turn. destruct (existsb _ _ && _).
  - split; [done|]. by apply rtc_once.
  - destruct (release_world (Some thread)
      (l <| l_world := run_callbacks (new_calls (l_world l) w') w' |>)) as [Hm Hw].
    split; [done|]. eapply rtc_l; [done|]. exact (reachable_trans _ _ _ _ (callbacks_reachable _ _) Hw).
Qed.

(** Where the object is, by the position of [main]. *)
Definition traced (now : Z) l : Prop :=
  match l_main l with
  | PcConfigure => ∃ t, now <= t ∧ l_world l = init_world (new_client 5000 5000 10000) t
  | PcConnect => l_end l = None → ∃ t, now <= t ∧
      l_world l = run configure (init_world (new_client 5000 5000 10000) t)
  | _ => ∃ t, now <= t ∧ reachable client_handlers (connecting t) (l_world l)
  end.

Lemma traced_io now l thread w' :
  traced now l → life_inv l → l_end l = None → step client_alone (l_world l) w' →
  traced now (io_turn thread w' l).
Proof.
  intros Ht Hi He Hs. destruct (io_turn_world thread w' l Hs) as [Hm Hw].
  assert (Hidle : ∀ t, l_main l ≠ PcDone → now <= t → w_now (l_world l) = t → holders (l_world l) = 0%nat →
    ∃ t', now <= t' ∧ io_turn thread w' l = l <| l_world := (l_world l) <| w_now := t' |> |>).
  { intros t Hne Hle Hnow Hh. destruct (idle_turn thread w' l) as (t' & Hle' & ->); try done.
    - rewrite (li_local l Hi). by destruct (l_main l).
    - exists t'. split; [lia|done]. }
  unfold traced in *. rewrite Hm. destruct (l_main l); try (destruct Ht as (t & Hle & Ht); exists t;
    split; [done|]; by eapply reachable_trans).
  - destruct Ht as (t & Hle & Ht). destruct (Hidle t) as (t' & Hle' & ->); try done; [by rewrite Ht..|].
    exists t'. split; [done|]. simpl. by rewrite Ht.
  - destruct (Ht He) as (t & Hle & Hw'). intros _.
    destruct (Hidle t) as (t' & Hle' & ->); try done; [by rewrite Hw'..|].
    exists t'. split; [done|]. simpl. by rewrite Hw'.
Qed.

Lemma traced_main now l resolved :
  traced now l → l_end l = None → traced now (main_turn resolved l).
Proof.
  intros Ht He. unfold main_turn, traced in *. destruct (l_main l) eqn:Hm.
  - destruct Ht as (t & Hle & Ht). simpl. intros _. exists t. by rewrite Ht.
  - destruct (Ht He) as (t & Hle & Hw). destruct resolved; simpl; [|by rewrite Hm].
    exists t. split; [done|]. rewrite Hw. apply rtc_refl.
  - done.
  - destruct Ht as (t & Hle & Ht). simpl. exists t. split; [done|].
    by eapply reachable_trans; [|apply close_reachable].
  - destruct Ht as (t & Hle & Ht).
    destruct (release_world None (l <| l_local := false |> <| l_main := PcDone |>)) as [-> Hw].
    simpl. exists t. split; [done|]. by eapply reachable_trans.
  - destruct Ht as (t & Hle & Ht). simpl. rewrite Hm. by exists t.
Qed.


(** ** Running the program by hand *)

Inductive life_choice :=
| TurnMain (resolved : bool)
| TurnIo (thread : nat) (c : choice).

Definition life_exec (c : life_choice) l : option (life Q) :=
  match l_end l with
  | Some _ => None
  | None =>
      match c with
      | TurnMain resolved => Some (main_turn resolved l)
      | TurnIo thread c =>
          if (thread <? threads)%nat
          then w' ← exec client_alone c (l_world l); Some (io_turn thread w' l) else None
      end
  end.

Fixpoint life_execs (cs : list life_choice) l : option (life Q) :=
  match cs with
  | [] => Some l
  | c :: cs' => life_exec c l ≫= life_execs cs'
  end.

Lemma life_execs_run cs l l' : life_execs cs l = Some l' → rtc life_step l l'.
Proof.
  revert l. induction cs as [|c cs IH]; intros l; simpl; [by intros [= <-]|].
  destruct (life_exec c l) as [v|] eqn:E; simpl; [|done]. intros Hv.
  eapply rtc_l; [|by apply IH]. unfold life_exec in E. destruct (l_end l) eqn:He; [done|].
  destruct c as [resolved|thread c]; [injection E as <-; by apply life_main|].
  destruct (Nat.ltb_spec thread threads); [|done].
  destruct (exec client_alone c (l_world l)) as [w'|] eqn:Hx; [|done].
  injection E as <-. apply life_io; [done..|by eapply exec_step].
Qed.

End Life.

(** ** What can go wrong at the end

    Concrete runs, with two I/O threads. [main_through n] is [main] up to its
    [n]-th statement while nothing else happens. *)

#[local] Instance life_host : Host := LittleEndian.
Abbreviation life_run cs := (life_execs 2 cs (life_start (Q:=list ResponseEntry) 0)).

Definition main_through (n : nat) : list life_choice := replicate n (TurnMain true).

(** The connection fails; [main] returns before the handler of the cancelled
    connect timer has run, so that an I/O thread drops the last reference: it
    runs the destructor, joins itself, and the program is terminated. *)
Definition destroyed_by_io : list life_choice :=
  main_through 5 ++ [TurnIo 0 (DoIo 0 (IoErr true)); TurnIo 1 (DoTimer 0)].

Theorem client_destroyed_on_io_thread :
  ∃ l, life_run destroyed_by_io = Some l ∧ l_end l = Some Aborted ∧ l_main l = PcDone ∧
    holders (l_world l) = 0%nat.
Proof. eexists. split; [vm_compute; reflexivity|]. repeat split. Qed.

(** The connection is established as [main] returns: the connect callback goes
    through the local variable [client], which it captured by reference. *)
Definition connected_too_late : list life_choice :=
  main_through 5 ++ [TurnIo 0 (DoIo 0 (IoOk []))].

Theorem late_connect_uses_dead_local :
  ∃ l, life_run connected_too_late = Some l ∧ l_end l = Some Undefined ∧ l_alive l = true.
Proof. eexists. split; [vm_compute; reflexivity|]. by split. Qed.

(** The server never answers: the read times out and the read loop ends; the
    sweep expires, and before its handler runs [main] closes the client and
    returns. The handler arms the sweep again, for a day: it alone keeps the
    closed client alive. *)
Definition swept_after_close : list life_choice :=
  main_through 3 ++
  [TurnIo 0 (DoIo 0 (IoOk [])); TurnIo 0 DoPost; TurnIo 0 DoPost; TurnIo 0 (DoIo 1 (IoOk []));
   TurnIo 0 (DoTimer 0); TurnIo 0 (DoTimer 0); TurnIo 0 (DoTick (seconds 5));
   TurnIo 0 (DoExpire 0); TurnIo 0 (DoTimer 0); TurnIo 0 (DoIo 0 (IoErr true));
   TurnIo 0 (DoTick (seconds 10)); TurnIo 0 (DoExpire 0)] ++
  main_through 2 ++ [TurnIo 0 (DoTimer 0)].

Theorem closed_client_lives_on :
  ∃ l, life_run swept_after_close = Some l ∧ l_main l = PcDone ∧ l_alive l = true ∧
    running_ (w_st (l_world l)) = false ∧ holders (l_world l) = 1%nat ∧
    w_armed (l_world l) = [(TSweep, seconds 10 + hours 24)].
Proof. eexists. split; [vm_compute; reflexivity|]. by repeat split. Qed.

(** The destructor closes again what [main] has closed: a close handler is
    called twice. *)
Theorem close_handler_called_twice {Q : Type} (threads f : nat)
    (w : world (client Q) c_op c_post c_timer c_call) :
  onClose_ (w_st w) = Some f →
  w_calls (run (destructor threads None) (run close w)) = w_calls w ++ [CallClose f; CallClose f].
Proof.
  intros Hf. rewrite destructor_run.
  assert (Hc : ∀ v : world (client Q) c_op c_post c_timer c_call, onClose_ (w_st v) = Some f →
    w_calls (run close v) = w_calls v ++ [CallClose f] ∧ onClose_ (w_st (run close v)) = Some f).
  { intros v Hv. destruct (run_fields close v) as (Hs & _ & _ & -> & _). rewrite Hs.
    unfold close, invoke. unact. by rewrite Hv. }
  destruct (Hc w Hf) as [Hw1 Hf1]. destruct (Hc _ Hf1) as [-> _]. by rewrite Hw1, <-app_assoc.
Qed.

(** ** The theorems at concrete runs *)


Lemma client_program_ends_witness :
  ∃ l, life_run destroyed_by_io = Some l ∧
    ((Aborted = Exited 0 ∧ l_main l = PcDone) ∨
     (Aborted = Aborted ∧ (l_main l = PcConnect ∨ l_main l = PcDone ∧ l_alive l = false)) ∨
     (Aborted = Undefined ∧ l_main l = PcDone)).
Proof.
  eexists. split; [vm_compute; reflexivity|].
  apply (client_program_ends 2 0); [|reflexivity].
  apply (life_execs_run 2 destroyed_by_io). vm_compute. reflexivity.
Defined.

(** The connection fails while [main] waits; then [main] closes the client. *)
Definition failed_connection : list life_choice :=
  main_through 2 ++ [TurnIo 0 (DoIo 0 (IoErr false)); TurnIo 0 (DoTimer 0)] ++ main_through 2.

Lemma quiet_client_exits_witness :
  ∃ l l', life_run failed_connection = Some l ∧ l_main l = PcReturn ∧ holders (l_world l) = 0%nat ∧
    life_execs 2 (main_through 2) l = Some l' ∧ l_end l' = Some (Exited 0) ∧ Exited 0 = Exited 0.
Proof.
  eexists. eexists. split; [vm_compute; reflexivity|]. split; [reflexivity|]. split; [reflexivity|].
  split; [vm_compute; reflexivity|]. split; [reflexivity|].
  eapply (quiet_client_exits 2 0).
  - apply (life_execs_run 2 failed_connection). vm_compute. reflexivity.
  - reflexivity.
  - reflexivity.
  - reflexivity.
  - apply (life_execs_run 2 (main_through 2)). vm_compute. reflexivity.
  - reflexivity.
Defined.

