(* ===== verification/TurboServerMain.v ===== *)
(** * TurboServerMain: the program of server.cpp

    [main] with its locals, the I/O threads of its server and
    [~TurboNetServer]. The authentication handler holds the local
    [validClients] by reference; the server is declared after it and so is
    destroyed, and its threads joined, before it. *)

From S2P Require Import Prelude Bytes Asio Schedule IoThreads PQueue TurboFrame TurboClient TurboServer TurboNet TurboLife.

(** The positions of [main]; the last four are its [return]: the destructor of
    the server, that of [validClients], and the end of the process. *)
Inductive server_pc :=
| SpConstruct | SpConfigure | SpStart | SpWaitKey | SpStop
| SpDestroy | SpStopIo | SpJoin | SpClients | SpExit.
#[export] Instance server_pc_eq_dec : EqDecision server_pc.
Proof. solve_decision. Defined.

Record sprog := SProg {
  sp_world : world server s_op s_post s_timer s_call;
  sp_threads : io_threads;
  sp_main : server_pc;
  sp_clients : bool;                   (* [validClients] exists *)
  sp_end : option ending }.

#[export] Instance eta_sprog : Eta sprog := λ p,
  SProg (sp_world p) (sp_threads p) (sp_main p) (sp_clients p) (sp_end p).

Ltac sprog_simpl := cbn [field_upd sp_world sp_threads sp_main sp_clients sp_end] in *.

Section ServerMain.
Context `{Host}.
Context (threads : nat).
Abbreviation M := (act server s_eff).
Abbreviation sworld := (world server s_op s_post s_timer s_call).
Implicit Types (p : sprog) (w : sworld).

(** The server when only the program calls its interface. *)
Definition server_alone : handlers server s_op s_post s_timer s_call Empty_set :=
  Handlers s_kind server_io (λ _ (q : s_post), match q return M unit with end)
    (λ _ (t : s_timer) _, match t return M unit with end)
    (λ _ (a : Empty_set), match a return M unit with end).

(** The handlers [main] installs; the one of authentication reads
    [validClients]. *)
Definition server_callback (c : s_call) : M unit :=
  match c with
  | CallAuth _ _ _ => skip
  | CallRequest _ sid i st sq payload => example_on_request sid i st sq payload
  end.
Definition uses_clients (c : s_call) : bool :=
  match c with CallAuth _ _ _ => true | _ => false end.

Definition server_calls w w' : list s_call := drop (length (w_calls w)) (w_calls w').

Definition serve_callbacks (cs : list s_call) w : sworld :=
  foldl (λ w c, run (server_callback c) w) w cs.

(** A thread ran the handler it had taken. *)
Definition serve_turn w' (t' : io_threads) p : sprog :=
  let cs := server_calls (sp_world p) w' in
  p <| sp_world := serve_callbacks cs w' |> <| sp_threads := t' |>
    <| sp_end := if existsb uses_clients cs && negb (sp_clients p) then Some Undefined else sp_end p |>.

(** One statement of [main]; [bound]: the acceptor of the constructor got the
    port. It throws otherwise, and nobody catches. *)
Definition server_main (bound : bool) p : sprog :=
  let w := sp_world p in
  match sp_main p with
  | SpConstruct =>
      if bound then p <| sp_threads := spawn threads |> <| sp_main := SpConfigure |>
      else p <| sp_end := Some Aborted |>
  | SpConfigure => p <| sp_world := run (setAuthHandler (Some example_auth)) w |> <| sp_main := SpStart |>
  | SpStart => p <| sp_world := run (start (Some 1%nat)) w |> <| sp_main := SpWaitKey |>
  | SpWaitKey => p <| sp_main := SpStop |>
  | SpStop => p <| sp_world := run stop w |> <| sp_main := SpDestroy |>
  | SpDestroy => p <| sp_world := run stop w |> <| sp_main := SpStopIo |>
  | SpStopIo => p <| sp_threads := stop_io (sp_threads p) |> <| sp_main := SpJoin |>
  | SpJoin => p <| sp_main := SpClients |>
  | SpClients => p <| sp_clients := false |> <| sp_main := SpExit |>
  | SpExit => p <| sp_end := Some (Exited 0) |>
  end.

Inductive sprog_step : sprog → sprog → Prop :=
| sprog_thread p t' :
    sp_end p = None → thread_step (sp_threads p) t' → sprog_step p (p <| sp_threads := t' |>)
| sprog_handler p w' t' :
    sp_end p = None → handler_step (sp_threads p) t' → step server_alone (sp_world p) w' →
    sprog_step p (serve_turn w' t' p)
| sprog_main p bound :
    sp_end p = None → (sp_main p = SpJoin → joined (sp_threads p)) → sprog_step p (server_main bound p).

Definition sprog_start (now : Z) : sprog :=
  SProg (init_world (new_server 10) now) (spawn 0) SpConstruct true None.

Definition sprog_reachable (now : Z) p : Prop := rtc sprog_step (sprog_start now) p.

(** ** The locals outlive the handlers *)

(** From [ioCtx_.stop()] on, and from the end of the [join]s on. *)
Definition stopping (pc : server_pc) : bool :=
  match pc with SpJoin | SpClients | SpExit => true | _ => false end.
Definition past_join (pc : server_pc) : bool :=
  match pc with SpClients | SpExit => true | _ => false end.

Record sprog_inv p : Prop := {
  si_clients : sp_clients p = negb (bool_decide (sp_main p = SpExit));
  si_stopped : stopping (sp_main p) = true → io_stopped (sp_threads p) = true;
  si_joined : past_join (sp_main p) = true → joined (sp_threads p);
  si_end : match sp_end p with
           | None => True
           | Some e => e = Exited 0 ∧ sp_main p = SpExit ∨ e = Aborted ∧ sp_main p = SpConstruct
           end }.

Lemma past_join_stopping pc : past_join pc = true → stopping pc = true.
Proof. by destruct pc. Qed.

Lemma sprog_inv_step p p' : sprog_inv p → sprog_step p p' → sprog_inv p'.
Proof.
  intros [Hc Hs Hj He] Hst. destruct Hst as [p t' Hn Ht|p w' t' Hn Ht Hw|p bound Hn Hjn].
  - split; sprog_simpl; [done| | |by rewrite Hn].
    + intros Hp. by destruct (thread_step_moves _ _ (Hs Hp) Ht).
    + intros Hp. by destruct (joined_stays _ _ (Hj Hp) Ht).
  - assert (Hpj : past_join (sp_main p) = false).
    { destruct (past_join _) eqn:E; [|done]. by destruct (joined_no_handler _ _ (Hj eq_refl) Ht). }
    assert (Hlive : sp_clients p = true) by (rewrite Hc; by destruct (sp_main p)).
    unfold serve_turn. rewrite Hlive, andb_false_r. split; sprog_simpl.
    + by rewrite Hlive, <-Hc.
    + intros Hp. destruct (handler_step_moves _ _ Ht) as [-> _]. by apply Hs.
    + by rewrite Hpj.
    + by rewrite Hn.
  - unfold server_main. destruct (sp_main p) eqn:Hm.
    1: destruct bound.
    all: split; sprog_simpl; rewrite ?Hn, ?Hm; try done; auto.
Qed.

Lemma sprog_reachable_inv now p : sprog_reachable now p → sprog_inv p.
Proof. apply (rtc_invariant sprog_step sprog_inv); [by split|apply sprog_inv_step]. Qed.

(** C37: The program ends normally, or because its port is taken: in no run does a
    handler use [validClients] after its destruction, although the I/O threads
    keep running handlers until the destructor of the server has joined them. *)
Theorem server_program_ends now p e :
  sprog_reachable now p → sp_end p = Some e →
  e = Exited 0 ∧ sp_main p = SpExit ∨ e = Aborted ∧ sp_main p = SpConstruct.
Proof. intros [_ _ _ He]%sprog_reachable_inv Hend. by rewrite Hend in He. Qed.

(** ** The destructor returns *)

Definition left_to_do p : nat :=
  moves (sp_threads p) +
  match sp_end p with
  | Some _ => 0
  | None => match sp_main p with SpJoin => 3 | SpClients => 2 | _ => 1 end
  end.

Lemma stopping_step p p' :
  sprog_inv p → stopping (sp_main p) = true → sprog_step p p' →
  stopping (sp_main p') = true ∧ (left_to_do p' < left_to_do p)%nat.
Proof.
  intros [Hc Hs Hj He] Hp Hst. specialize (Hs Hp).
  destruct Hst as [p t' Hn Ht|p w' t' Hn Ht Hw|p bound Hn Hjn]; unfold left_to_do; rewrite Hn.
  - sprog_simpl. rewrite Hn. split; [done|]. destruct (thread_step_moves _ _ Hs Ht). lia.
  - unfold serve_turn. sprog_simpl. split; [done|]. destruct (handler_step_moves _ _ Ht).
    destruct (existsb _ _ && _); [|rewrite Hn]; destruct (sp_main p); lia.
  - unfold server_main. destruct (sp_main p) eqn:Hm; try done; sprog_simpl; rewrite ?Hn, ?Hm; (split; [done|lia]).
Qed.

(** C12: Once the I/O context is stopped the program ends: every run has a bounded
    number of steps, two for each thread and three of [main], and as long as the
    process exists one of its threads can move. *)
Theorem server_shutdown_terminates now p p' n :
  sprog_reachable now p → stopping (sp_main p) = true → nsteps sprog_step n p p' →
  (n <= moves (sp_threads p) + 3)%nat ∧
  (sp_end p' = None → ∃ p'', sprog_step p' p'').
Proof.
  intros Hr Hp Hn. apply sprog_reachable_inv in Hr.
  assert (Hall : sprog_inv p' ∧ stopping (sp_main p') = true ∧ (n + left_to_do p' <= left_to_do p)%nat).
  { clear now. induction Hn as [p|n p q p' Hs _ IH]; [by split_and!|].
    destruct (stopping_step p q Hr Hp Hs) as [Hq Hlt].
    destruct IH as (Hi & Hq' & Hle); [by eapply sprog_inv_step|done|]. split_and!; [done..|lia]. }
  destruct Hall as (Hi & Hp' & Hle). split.
  - unfold left_to_do in Hle. destruct (sp_end p), (sp_main p); simpl in *; lia.
  - intros He. destruct (stopped_progress (sp_threads p')) as [Hj|[[t' Ht]|[t' Ht]]].
    + by apply (si_stopped _ Hi).
    + exists (server_main true p'). by apply sprog_main.
    + eexists. by apply (sprog_thread p' t').
    + eexists. eapply (sprog_handler p' _ t'); [done..|].
      apply (step_tick server_alone (sp_world p') (w_now (sp_world p'))). done.
Qed.

(** ** The program uses the server within its interface *)

(** The server once [main] has called [start]. *)
Definition configured_at (now : Z) : sworld :=
  run (setAuthHandler (Some example_auth)) (init_world (new_server 10) now).
Definition serving (now : Z) : sworld := run (start (Some 1%nat)) (configured_at now).

Lemma server_alone_step w w' : step server_alone w w' → step server_handlers w w'.
Proof.
  intros Hs. destruct Hs as [w p ps Hp|w o l1 l2 r Ho Ha|w t d l1 l2 Ha Hd|w t ab l1 l2 Hf|w now Hn|w []].
  - destruct p.
  - by apply (step_io server_handlers w o l1 l2 r).
  - destruct t.
  - destruct t.
  - by apply step_tick.
Qed.

Lemma serve_callbacks_reachable cs w : reachable server_handlers w (serve_callbacks cs w).
Proof.
  revert w. induction cs as [|c cs IH]; intros w; [apply rtc_refl|]. simpl.
  apply (reachable_trans _ _ (run (server_callback c) w)); [|apply IH].
  destruct c as [sid cid v|f sid i st sq payload]; simpl; [destruct w; apply rtc_refl|].
  apply rtc_once, (step_api server_handlers w (ApiRespond sid 0x82 0x00 sq (lit "Echo: " ++ payload))).
Qed.

Lemma serve_turn_reachable w' t' p :
  step server_alone (sp_world p) w' →
  reachable server_handlers (sp_world p) (sp_world (serve_turn w' t' p)).
Proof. intros Hs%server_alone_step. eapply rtc_l; [done|]. apply serve_callbacks_reachable. Qed.

(** Before [start] nothing is outstanding: only the clock moves. *)
Lemma unstarted_turn now w w' s t' p :
  sp_world p = w → w = (init_world s now : sworld) → step server_alone w w' →
  ∃ t, now <= t ∧ sp_world (serve_turn w' t' p) = init_world s t.
Proof.
  intros Hw Hi Hs. assert (Hh : holders w = 0%nat) by by rewrite Hi.
  unfold holders in Hh. unfold serve_turn, server_calls. sprog_simpl. rewrite Hw.
  destruct Hs as [w q ps Hp|w o l1 l2 r Ho _|w t d l1 l2 Ha _|w t ab l1 l2 Hf|w t Hn|w []];
    [rewrite Hp in Hh|rewrite Ho in Hh|rewrite Ha in Hh|rewrite Hf in Hh|];
    rewrite ?length_app in Hh; simpl in Hh; try lia.
  exists t. rewrite Hi in Hn |- *. by split.
Qed.

Definition sprog_traced (now : Z) p : Prop :=
  match sp_main p with
  | SpConstruct | SpConfigure => ∃ t, now <= t ∧ sp_world p = init_world (new_server 10) t
  | SpStart => ∃ t, now <= t ∧ sp_world p = configured_at t
  | _ => ∃ t, now <= t ∧ reachable server_handlers (serving t) (sp_world p)
  end.

Lemma sprog_traced_step now p p' :
  sprog_traced now p → sprog_step p p' → sprog_traced now p'.
Proof.
  intros Ht Hst. destruct Hst as [p t' Hn Hth|p w' t' Hn Hth Hs|p bound Hn Hjn].
  - exact Ht.
  - assert (Hw := serve_turn_reachable w' t' p Hs). unfold sprog_traced in *.
    change (sp_main (serve_turn w' t' p)) with (sp_main p).
    destruct (sp_main p); destruct Ht as (t & Hle & Ht);
      try (exists t; split; [done|]; by eapply reachable_trans).
    all: destruct (unstarted_turn t _ _ _ t' p eq_refl Ht Hs) as (t2 & Hle' & ->);
      exists t2; split; [lia|done].
  - unfold server_main, sprog_traced in *. destruct (sp_main p) eqn:Hm.
    1: destruct bound.
    all: destruct Ht as (t & Hle & Ht); sprog_simpl; rewrite ?Hm; exists t; split; try done; rewrite ?Ht; try done.
    + apply rtc_refl.
    + eapply rtc_r; [done|]. apply (step_api server_handlers (sp_world p) ApiStop).
    + eapply rtc_r; [done|]. apply (step_api server_handlers (sp_world p) ApiStop).
Qed.

(** Every run of the program is a run of the server's machine from the call of
    [start]: what is proved of that machine holds of the program. *)
Theorem server_program_refines_server now p :
  sprog_reachable now p → sp_main p ∉ [SpConstruct; SpConfigure; SpStart] →
  ∃ t, now <= t ∧ reachable server_handlers (serving t) (sp_world p).
Proof.
  intros Hr Hm. assert (Ht : sprog_traced now p).
  { refine (rtc_invariant sprog_step (sprog_traced now) _ p _ (sprog_traced_step now) Hr). by exists now. }
  unfold sprog_traced in Ht. destruct (sp_main p); try done; set_solver.
Qed.

(** ** Running the program by hand *)

Inductive sprog_choice :=
| TurnServer (bound : bool)
| TurnTake
| TurnLeave
| TurnHandler (c : choice).

Definition sprog_exec (c : sprog_choice) p : option sprog :=
  match sp_end p with
  | Some _ => None
  | None =>
      match c, sp_threads p with
      | TurnServer bound, IoThreads n b _ =>
          if bool_decide (sp_main p = SpJoin) && negb (n + b =? 0)%nat then None
          else Some (server_main bound p)
      | TurnTake, IoThreads (S n) b false => Some (p <| sp_threads := IoThreads n (S b) false |>)
      | TurnLeave, IoThreads (S n) b true => Some (p <| sp_threads := IoThreads n b true |>)
      | TurnHandler c, IoThreads n (S b) st =>
          w' ← exec server_alone c (sp_world p); Some (serve_turn w' (IoThreads (S n) b st) p)
      | _, _ => None
      end
  end.

Fixpoint sprog_execs (cs : list sprog_choice) p : option sprog :=
  match cs with
  | [] => Some p
  | c :: cs' => sprog_exec c p ≫= sprog_execs cs'
  end.

Lemma sprog_exec_step c p p' : sprog_exec c p = Some p' → sprog_step p p'.
Proof.
  unfold sprog_exec. destruct (sp_end p) eqn:He; [done|].
  destruct c as [bound| | |c], (sp_threads p) as [[|n] [|b] []] eqn:Ht; try done; simpl.
  all: try (intros [= <-]; apply sprog_thread; [done|rewrite Ht; constructor]).
  all: try (destruct (exec server_alone c _) as [w'|] eqn:Hx; [|done]; intros [= <-];
    apply sprog_handler; [done|rewrite Ht; constructor|by eapply exec_step]).
  all: case_bool_decide as Hj; simpl; try done; intros [= <-]; apply sprog_main; try done;
    intros _; rewrite Ht; by split.
Qed.

Lemma sprog_execs_run cs p p' : sprog_execs cs p = Some p' → rtc sprog_step p p'.
Proof.
  revert p. induction cs as [|c cs IH]; intros p; simpl; [by intros [= <-]|].
  destruct (sprog_exec c p) as [q|] eqn:E; simpl; [|done]. intros Hq.
  eapply rtc_l; [by eapply sprog_exec_step|by apply IH].
Qed.

End ServerMain.

(** ** The theorems at a concrete run

    One client connects and binds as the key is pressed: a thread has taken the
    handler of its bind when the context is stopped, and runs it before the
    [join]s end. *)

#[local] Instance server_main_host : Host := LittleEndian.
Abbreviation server_run cs := (sprog_execs 2 cs (sprog_start 0)).

Definition server_through (n : nat) : list sprog_choice := replicate n (TurnServer true).

Definition bind_at_shutdown : list sprog_choice :=
  server_through 3 ++
  [TurnTake; TurnHandler (DoIo 0 (IoOk []));
   TurnTake; TurnHandler (DoIo 0 (IoOk (take 10 (build_packet 0x01 0x00 1 (lit "client_123")))));
   TurnTake] ++
  server_through 4 ++ [TurnHandler (DoIo 1 (IoOk (lit "client_123")))].
Definition server_exits : list sprog_choice :=
  bind_at_shutdown ++ [TurnLeave; TurnLeave] ++ server_through 3.

Lemma server_program_ends_witness :
  ∃ p, server_run server_exits = Some p ∧ sp_end p = Some (Exited 0) ∧
    w_calls (sp_world p) = [CallAuth 0 (lit "client_123") true] ∧
    (Exited 0 = Exited 0 ∧ sp_main p = SpExit ∨ Exited 0 = Aborted ∧ sp_main p = SpConstruct).
Proof.
  eexists. split; [vm_compute; reflexivity|]. split; [reflexivity|]. split; [vm_compute; reflexivity|].
  apply (server_program_ends 2 0); [|reflexivity].
  apply (sprog_execs_run 2 server_exits). vm_compute. reflexivity.
Defined.

Lemma server_shutdown_terminates_witness :
  ∃ p, server_run bind_at_shutdown = Some p ∧
    ((0 <= moves (sp_threads p) + 3)%nat ∧ (sp_end p = None → ∃ p'', sprog_step 2 p p'')).
Proof.
  eexists. split; [vm_compute; reflexivity|].
  eapply (server_shutdown_terminates 2 0 _ _ 0).
  - apply (sprog_execs_run 2 bind_at_shutdown). vm_compute. reflexivity.
  - reflexivity.
  - apply nsteps_O.
Defined.

Lemma server_program_refines_server_witness :
  ∃ p, server_run server_exits = Some p ∧
    ∃ t, 0 <= t ∧ reachable server_handlers (serving t) (sp_world p).
Proof.
  eexists. split; [vm_compute; reflexivity|].
  apply (server_program_refines_server 2 0).
  - apply (sprog_execs_run 2 server_exits). vm_compute. reflexivity.
  - by apply (bool_decide_unpack _); vm_compute.
Defined.
