(* ===== verification/Gateway.v ===== *)
(** * Gateway: gateway.cpp, a server in front of a client

    The two lambdas of [main] share [pendingMap] (original sequence number to
    downstream number and [respond] callback). They run on threads of different
    I/O contexts; each is a sequence of atomic actions, the request lambda two:
    [sendRequest], then the [emplace] under the lock. [gw_step] interleaves them.
    The iteration order of [std::unordered_map] is unspecified: it is any
    enumeration of the map. *)

From S2P Require Import Prelude Bytes Asio PQueue TurboFrame TurboClient TurboClientTx TurboServer TurboServerProps.

(** [struct Pending]: [respond] is the closure of a producer session. *)
Record Pending := mkPending {
  downstreamSeq : Z;
  respond_to : nat }.

(** Enumeration order of [pendingMap]. *)
Class IterOrder := {
  iter : gmap Z Pending → list (Z * Pending);
  iter_perm m : iter m ≡ₚ map_to_list m }.

(** What the lambdas do outside: on the client's I/O context, to a producer,
    on the error stream. *)
Inductive g_eff :=
| GClient (e : c_eff)
| GRespond (sid : nat) (pid status seq : Z) (body : bytes)
| GUnexpected (dseq : Z).

(** The captured variables; [inflight_] holds the request lambdas that are
    between [sendRequest] and [emplace]: (seq, dseq, session). *)
Record gateway (Q : Type) := mkGateway {
  client_ : client Q;
  pendingMap : gmap Z Pending;
  inflight_ : list (Z * Z * nat) }.
Arguments mkGateway {Q}.
Arguments client_ {Q}.
Arguments pendingMap {Q}.
Arguments inflight_ {Q}.

#[export] Instance eta_gateway {Q} : Eta (gateway Q) := λ g,
  mkGateway (client_ g) (pendingMap g) (inflight_ g).

Section Gateway.
Context `{Host} {Q : Type} `{!PQueue Q ResponseEntry} `{!IterOrder}.
Abbreviation M := (act (gateway Q) g_eff).
Implicit Types (g : gateway Q) (m : gmap Z Pending).

(** The [for] loop over [pendingMap]. *)
Fixpoint find_downstream (dseq : Z) (l : list (Z * Pending)) : option (Z * Pending) :=
  match l with
  | [] => None
  | (k, v) :: l' => if downstreamSeq v =? dseq then Some (k, v) else find_downstream dseq l'
  end.

(** The packet handler given to the client. *)
Definition on_downstream (pid status dseq : Z) (body : bytes) : M unit :=
  g ← gets id;
  match find_downstream dseq (iter (pendingMap g)) with
  | Some (origSeq, v) =>
      modify (λ g, g <| pendingMap := delete origSeq (pendingMap g) |>);;
      emit (GRespond (respond_to v) pid status origSeq body)
  | None => emit (GUnexpected dseq)
  end.

(** The request lambda, first action: [client->sendRequest(...)]. *)
Definition request_send (now seq : Z) (body : bytes) (sid : nat) : M unit :=
  λ g, let '(c', es, dseq) := sendRequest now body (client_ g) in
       (g <| client_ := c' |> <| inflight_ := inflight_ g ++ [(seq, dseq, sid)] |>,
        GClient <$> es, ()).

(** Second action: [pendingMap.emplace(seq, Pending{dseq, respond})], which
    does nothing if the key is present. *)
Definition request_emplace (seq dseq : Z) (sid : nat) : M unit :=
  modify (λ g, g <| pendingMap :=
    match pendingMap g !! seq with
    | Some _ => pendingMap g
    | None => <[seq := mkPending dseq sid]> (pendingMap g)
    end |>).

(** The request lambda on packets other than requests. *)
Definition request_echo (pid status seq : Z) (body : bytes) (sid : nat) : M unit :=
  emit (GRespond sid pid status seq body).

(** The handler given to [server.start], up to the point where it may be
    interrupted. *)
Definition on_upstream (now : Z) (pid status seq : Z) (body : bytes) (sid : nat) : M unit :=
  if pid =? 0x02 then request_send now seq body sid
  else request_echo pid status seq body sid.

Inductive gw_step : gateway Q → gateway Q → Prop :=
| gw_upstream g now pid status seq body sid :
    gw_step g (state_of (on_upstream now pid status seq body sid g))
| gw_emplace g seq dseq sid l1 l2 :
    inflight_ g = l1 ++ (seq, dseq, sid) :: l2 →
    gw_step g (state_of (request_emplace seq dseq sid (g <| inflight_ := l1 ++ l2 |>)))
| gw_downstream g pid status dseq body :
    gw_step g (state_of (on_downstream pid status dseq body g)).

(** ** Looking up a downstream number *)

Lemma find_downstream_Some dseq l k v :
  find_downstream dseq l = Some (k, v) → (k, v) ∈ l ∧ downstreamSeq v = dseq.
Proof.
  induction l as [|[k' v'] l IH]; simpl; [done|].
  destruct (Z.eqb_spec (downstreamSeq v') dseq).
  - intros [= -> ->]. split; [by left|done].
  - intros [? ?]%IH. split; [by right|done].
Qed.

Lemma find_downstream_None dseq l :
  find_downstream dseq l = None → ∀ k v, (k, v) ∈ l → downstreamSeq v ≠ dseq.
Proof.
  induction l as [|[k' v'] l IH]; simpl; [set_solver|].
  destruct (Z.eqb_spec (downstreamSeq v') dseq); [done|]. intros Hn k v.
  rewrite elem_of_cons. intros [[= -> ->]|Hin]; [done|]. by eapply IH.
Qed.

Lemma elem_of_iter m k v : (k, v) ∈ iter m ↔ m !! k = Some v.
Proof. rewrite iter_perm. by rewrite elem_of_map_to_list. Qed.

(** Downstream numbers identify entries. *)
Definition unique_down m : Prop :=
  ∀ k1 k2 v1 v2, m !! k1 = Some v1 → m !! k2 = Some v2 →
    downstreamSeq v1 = downstreamSeq v2 → k1 = k2.

Lemma find_downstream_unique m k v :
  unique_down m → m !! k = Some v →
  find_downstream (downstreamSeq v) (iter m) = Some (k, v).
Proof.
  intros Hu Hk. destruct (find_downstream _ _) as [[k' v']|] eqn:E.
  - apply find_downstream_Some in E as [Hin Hd]. rewrite elem_of_iter in Hin.
    assert (k' = k) as -> by (by eapply (Hu k' k v' v)). rewrite Hk in Hin. by injection Hin as ->.
  - exfalso. eapply find_downstream_None; [exact E| |done]. by apply elem_of_iter.
Qed.

Lemma find_downstream_absent m dseq :
  (∀ k v, m !! k = Some v → downstreamSeq v ≠ dseq) → find_downstream dseq (iter m) = None.
Proof.
  intros Hn. destruct (find_downstream _ _) as [[k v]|] eqn:E; [|done].
  apply find_downstream_Some in E as [Hin Hd]. rewrite elem_of_iter in Hin.
  by destruct (Hn k v Hin).
Qed.

(** ** Downstream numbers stay unique *)

(** The numbers in use (registered, or about to be) are distinct values of
    the client's counter: the [n] numbers issued from [s0] on. *)
Definition in_use g : list Z :=
  ((λ kv, downstreamSeq kv.2) <$> map_to_list (pendingMap g)) ++
  ((λ x, x.1.2) <$> inflight_ g).

Definition gw_inv (s0 : Z) (n : nat) g : Prop :=
  sequenceCounter_ (client_ g) = u32 (s0 + Z.of_nat n) ∧
  NoDup (in_use g) ∧
  ∀ d, d ∈ in_use g → ∃ k, (k < n)%nat ∧ d = u32 (s0 + Z.of_nat k).

Lemma u32_inj s0 (i j : nat) :
  Z.of_nat i < 2 ^ 32 → Z.of_nat j < 2 ^ 32 →
  u32 (s0 + Z.of_nat i) = u32 (s0 + Z.of_nat j) → i = j.
Proof. unfold u32. intros Hi Hj E. Z.to_euclidean_division_equations. lia. Qed.

Lemma in_use_unique g : NoDup (in_use g) → unique_down (pendingMap g).
Proof.
  intros [Hnd _]%NoDup_app k1 k2 v1 v2 H1 H2 Hd.
  apply elem_of_map_to_list in H1, H2.
  apply list_elem_of_lookup in H1 as [i1 Hi1]. apply list_elem_of_lookup in H2 as [i2 Hi2].
  assert (i1 = i2) as ->; [|by simplify_eq].
  eapply (NoDup_lookup _ _ _ (downstreamSeq v1) Hnd).
  - by rewrite list_lookup_fmap, Hi1.
  - by rewrite list_lookup_fmap, Hi2, Hd.
Qed.

(** Steps other than a forwarded request do not add numbers. *)
Lemma gw_inv_shrink s0 n g g' :
  sequenceCounter_ (client_ g') = sequenceCounter_ (client_ g) →
  (∃ l, in_use g ≡ₚ in_use g' ++ l) → gw_inv s0 n g → gw_inv s0 n g'.
Proof.
  intros Hc [l Hp] (Hs & Hnd & Hin). split; [congruence|]. rewrite Hp in Hnd. split.
  - by apply NoDup_app in Hnd as [? _].
  - intros d Hd. apply Hin. rewrite Hp. by apply elem_of_app; left.
Qed.

(** A forwarded request takes the next number of the counter. *)
Lemma gw_inv_send s0 n g now seq body sid :
  Z.of_nat n < 2 ^ 32 → gw_inv s0 n g →
  gw_inv s0 (S n) (state_of (request_send now seq body sid g)).
Proof.
  intros Hn (Hs & Hnd & Hin). unfold request_send.
  assert (val_of (sendRequest now body (client_ g)) = sequenceCounter_ (client_ g) ∧
    sequenceCounter_ (state_of (sendRequest now body (client_ g))) =
      u32 (sequenceCounter_ (client_ g) + 1)) as [Hv Hc].
  { unfold sendRequest, next_sequence, sendPacket, startResponseTimer. unact.
    by destruct (_ <=? 0). }
  destruct (sendRequest now body (client_ g)) as [[c' es] dseq]. simpl in *.
  assert (in_use (mkGateway c' (pendingMap g) (inflight_ g ++ [(seq, dseq, sid)]))
    = in_use g ++ [dseq]) as Hu.
  { unfold in_use. simpl. by rewrite fmap_app, app_assoc. }
  split; [|rewrite Hu; split].
  - simpl. rewrite Hc, Hs. unfold u32. rewrite Zplus_mod_idemp_l. f_equal. lia.
  - apply NoDup_app. split; [done|]. split; [|apply NoDup_singleton].
    intros d Hd ->%list_elem_of_singleton. destruct (Hin dseq Hd) as (k & Hk & E).
    rewrite Hv, Hs in E. apply u32_inj in E; lia.
  - intros d [Hd| ->%list_elem_of_singleton]%elem_of_app.
    + destruct (Hin d Hd) as (k & Hk & ->). exists k. split; [lia|done].
    + exists n. split; [lia|congruence].
Qed.

Lemma gw_inv_emplace s0 n g seq dseq sid l1 l2 :
  inflight_ g = l1 ++ (seq, dseq, sid) :: l2 → gw_inv s0 n g →
  gw_inv s0 n (state_of (request_emplace seq dseq sid (g <| inflight_ := l1 ++ l2 |>))).
Proof.
  intros Hl. apply gw_inv_shrink; [done|].
  unfold request_emplace, in_use. simpl. rewrite Hl, !fmap_app, fmap_cons. simpl.
  destruct (pendingMap g !! seq) eqn:Em; simpl.
  - exists [dseq]. solve_Permutation.
  - exists []. rewrite app_nil_r, map_to_list_insert by done. simpl. solve_Permutation.
Qed.

Lemma gw_inv_downstream s0 n g pid st dseq body :
  gw_inv s0 n g → gw_inv s0 n (state_of (on_downstream pid st dseq body g)).
Proof.
  apply gw_inv_shrink; unfold on_downstream; unact;
    destruct (find_downstream _ _) as [[k v]|] eqn:E; simpl; try done; [|by exists []; rewrite app_nil_r].
  apply find_downstream_Some in E as [Hk Hd]. rewrite elem_of_iter in Hk.
  exists [dseq]. unfold in_use. simpl.
  rewrite <-(map_to_list_delete (pendingMap g) k v Hk). simpl. rewrite Hd. solve_Permutation.
Qed.

Lemma gw_inv_step s0 n g g' :
  Z.of_nat n < 2 ^ 32 → gw_inv s0 n g → gw_step g g' →
  gw_inv s0 n g' ∨ gw_inv s0 (S n) g'.
Proof.
  intros Hn HI Hs. destruct Hs as [g now pid st seq body sid|g seq dseq sid l1 l2 Hl|g pid st dseq body].
  - unfold on_upstream. destruct (pid =? 2); [right; by apply gw_inv_send|left; done].
  - left. by apply gw_inv_emplace.
  - left. by apply gw_inv_downstream.
Qed.

Lemma gw_inv_nsteps s0 k g0 g :
  gw_inv s0 0 g0 → Z.of_nat k <= 2 ^ 32 → nsteps gw_step k g0 g →
  ∃ n, (n ≤ k)%nat ∧ gw_inv s0 n g.
Proof.
  intros Hinit. revert g. induction k as [|k IH]; intros g Hk Hs.
  - inversion Hs; subst. by exists 0%nat.
  - apply nsteps_inv_r in Hs as (g' & Hs & Hstep).
    destruct (IH g') as (n & Hn & HI); [lia|done|].
    destruct (gw_inv_step s0 n g' g) as [?|?]; [lia|done..| |].
    + exists n. split; [lia|done].
    + exists (S n). split; [lia|done].
Qed.

Lemma gw_inv_init g :
  is_u32 (sequenceCounter_ (client_ g)) → pendingMap g = ∅ → inflight_ g = [] →
  gw_inv (sequenceCounter_ (client_ g)) 0 g.
Proof.
  intros Hc Hp Hi. split; [|unfold in_use; rewrite Hp, Hi, map_to_list_empty; simpl].
  - unfold u32. rewrite Z.add_0_r, Z.mod_small; done.
  - split; [constructor|set_solver].
Qed.

(** ** Routing *)

(** In any interleaving of up to 2^32 actions from an empty gateway, a reply
    whose downstream number is registered goes to the producer that sent the
    request, under the producer's own sequence number, with status and body
    unchanged; exactly that entry is consumed. *)
Theorem reply_reaches_its_producer k g0 g seq dseq sid pid status body :
  is_u32 (sequenceCounter_ (client_ g0)) → pendingMap g0 = ∅ → inflight_ g0 = [] →
  Z.of_nat k <= 2 ^ 32 → nsteps gw_step k g0 g →
  pendingMap g !! seq = Some (mkPending dseq sid) →
  on_downstream pid status dseq body g =
    (g <| pendingMap := delete seq (pendingMap g) |>, [GRespond sid pid status seq body], ()).
Proof.
  intros Hc Hp Hi Hk Hs Hm.
  destruct (gw_inv_nsteps _ k g0 g (gw_inv_init g0 Hc Hp Hi) Hk Hs) as (n & _ & (_ & Hnd & _)).
  apply in_use_unique in Hnd. unfold on_downstream. unact.
  pose proof (find_downstream_unique _ seq (mkPending dseq sid) Hnd Hm) as Hf.
  simpl in Hf. by rewrite Hf.
Qed.

(** A request whose sequence number is already pending is forwarded but not
    registered: [emplace] keeps the old entry. Its reply is then reported as
    unexpected and no producer gets it. Two producers that number their
    requests alike are enough. *)
Theorem colliding_request_loses_reply k g0 g l1 l2 seq dseq sid v pid status body :
  is_u32 (sequenceCounter_ (client_ g0)) → pendingMap g0 = ∅ → inflight_ g0 = [] →
  Z.of_nat k <= 2 ^ 32 → nsteps gw_step k g0 g →
  inflight_ g = l1 ++ (seq, dseq, sid) :: l2 → pendingMap g !! seq = Some v →
  let g' := state_of (request_emplace seq dseq sid (g <| inflight_ := l1 ++ l2 |>)) in
  pendingMap g' = pendingMap g ∧
  on_downstream pid status dseq body g' = (g', [GUnexpected dseq], ()).
Proof.
  intros Hc Hp Hi Hk Hs Hl Hm g'.
  destruct (gw_inv_nsteps _ k g0 g (gw_inv_init g0 Hc Hp Hi) Hk Hs) as (n & _ & (_ & Hnd & _)).
  assert (pendingMap g' = pendingMap g) as Hg'.
  { subst g'. unfold request_emplace. simpl. by rewrite Hm. }
  split; [done|]. unfold on_downstream. unact. rewrite Hg', find_downstream_absent; [done|].
  intros k' v' Hk' E. apply NoDup_app in Hnd as (_ & Hd & _). apply (Hd dseq).
  - apply list_elem_of_fmap. exists (k', v'). split; [done|]. by apply elem_of_map_to_list.
  - rewrite Hl, fmap_app, fmap_cons. set_solver.
Qed.

(** A reply that arrives between [sendRequest] and [emplace] is lost too: it
    is unexpected, and the entry registered afterwards is never consumed by it. *)
Theorem early_reply_is_lost k g0 g l1 l2 seq dseq sid pid status body :
  is_u32 (sequenceCounter_ (client_ g0)) → pendingMap g0 = ∅ → inflight_ g0 = [] →
  Z.of_nat k <= 2 ^ 32 → nsteps gw_step k g0 g →
  inflight_ g = l1 ++ (seq, dseq, sid) :: l2 → pendingMap g !! seq = None →
  on_downstream pid status dseq body g = (g, [GUnexpected dseq], ()) ∧
  let g' := state_of (request_emplace seq dseq sid (g <| inflight_ := l1 ++ l2 |>)) in
  pendingMap g' !! seq = Some (mkPending dseq sid).
Proof.
  intros Hc Hp Hi Hk Hs Hl Hm.
  destruct (gw_inv_nsteps _ k g0 g (gw_inv_init g0 Hc Hp Hi) Hk Hs) as (n & _ & (_ & Hnd & _)).
  split.
  - unfold on_downstream. unact. rewrite find_downstream_absent; [done|].
    intros k' v' Hk' E. apply NoDup_app in Hnd as (_ & Hd & _). apply (Hd dseq).
    + apply list_elem_of_fmap. exists (k', v'). split; [done|]. by apply elem_of_map_to_list.
    + rewrite Hl, fmap_app, fmap_cons. set_solver.
  - unfold request_emplace. simpl. rewrite Hm. by rewrite lookup_insert_eq.
Qed.

(** Packets other than requests are answered at once with their own content,
    without touching the client or the map. *)
Theorem non_requests_are_echoed now pid status seq body sid g :
  pid ≠ 0x02 →
  on_upstream now pid status seq body sid g = (g, [GRespond sid pid status seq body], ()).
Proof. intros Hp. unfold on_upstream. by rewrite (proj2 (Z.eqb_neq _ _) Hp). Qed.

(** ** Downstream of the gateway *)

(** Packets that are not binds leave an unauthenticated session as it is. *)
Lemma unbound_session_ignores s sid ps :
  Forall (λ p, pk_id p ≠ 0x01) ps → session_run s sid false ps = Reaction false false [] [].
Proof.
  induction 1 as [|p ps Hp _ IH]; [done|]. simpl. unfold session_react.
  rewrite (proj2 (Z.eqb_neq _ _) Hp). simpl. by rewrite IH.
Qed.

(** [main] never calls [setClientId], so the gateway's client does not bind
    when it connects, and a [TurboNetServer] downstream, whatever its handlers,
    ignores every request the gateway forwards: no callback, no message. *)
Theorem gateway_does_not_bind now rt wt st datas (seqs : list Z) s sid :
  let c := new_client (Q:=Q) rt wt st in
  posted (effs_of (on_connect now false c)) = [] ∧
  session_run s sid false (zip_with (λ d n, Packet 0x02 0x00 n d) datas seqs) =
    Reaction false false [] [].
Proof.
  split.
  - unfold on_connect, doReadHeader, startReadTimer, invoke. unact. run_cases.
  - apply unbound_session_ignores. revert seqs.
    induction datas as [|d datas IH]; intros [|n seqs]; simpl; constructor; [done|apply IH].
Qed.

End Gateway.

(** ** Concrete runs *)

#[local] Instance sample_host : Host := LittleEndian.
#[local] Instance sample_order : IterOrder := {| iter m := map_to_list m; iter_perm m := reflexivity _ |}.

(** The gateway of [main], and after a request number 5 from session 0 was
    forwarded and registered, and then one with the same number from session 1
    was forwarded. *)
Definition gw0 : gateway (list ResponseEntry) := mkGateway (new_client 5000 5000 10000) ∅ [].
Definition gw1 := state_of (on_upstream 0 2 0 5 (lit "a") 0 gw0).
Definition gw2 := state_of (request_emplace 5 1 0 (gw1 <| inflight_ := [] |>)).
Definition gw3 := state_of (on_upstream 0 2 0 5 (lit "b") 1 gw2).

Lemma gw_run2 : nsteps gw_step 2 gw0 gw2.
Proof.
  eapply nsteps_l; [apply (gw_upstream gw0 0 2 0 5 (lit "a") 0)|].
  eapply nsteps_l; [apply (gw_emplace gw1 5 1 0 [] []); vm_compute; reflexivity|]. apply nsteps_O.
Qed.

Lemma gw_run3 : nsteps gw_step 3 gw0 gw3.
Proof. apply (nsteps_r 2 gw0 gw2 gw3 gw_run2). unfold gw3. apply gw_upstream. Qed.

Lemma reply_reaches_its_producer_witness :
  on_downstream 0x82 0 1 (lit "ok") gw2 =
    (gw2 <| pendingMap := delete 5 (pendingMap gw2) |>, [GRespond 0 0x82 0 5 (lit "ok")], ()).
Proof.
  apply (reply_reaches_its_producer 2 gw0 gw2 5 1 0 0x82 0 (lit "ok")).
  - apply (bool_decide_unpack _). vm_compute. exact I.
  - vm_compute. reflexivity.
  - vm_compute. reflexivity.
  - vm_compute. discriminate.
  - apply gw_run2.
  - vm_compute. reflexivity.
Defined.

Lemma colliding_request_loses_reply_witness :
  let g' := state_of (request_emplace 5 2 1 (gw3 <| inflight_ := [] |>)) in
  pendingMap g' = pendingMap gw3 ∧
  on_downstream 0x82 0 2 (lit "ok") g' = (g', [GUnexpected 2], ()).
Proof.
  apply (colliding_request_loses_reply 3 gw0 gw3 [] [] 5 2 1 (mkPending 1 0) 0x82 0 (lit "ok")).
  - apply (bool_decide_unpack _). vm_compute. exact I.
  - vm_compute. reflexivity.
  - vm_compute. reflexivity.
  - vm_compute. discriminate.
  - apply gw_run3.
  - vm_compute. reflexivity.
  - vm_compute. reflexivity.
Defined.

Lemma early_reply_is_lost_witness :
  on_downstream 0x82 0 1 (lit "ok") gw1 = (gw1, [GUnexpected 1], ()) ∧
  let g' := state_of (request_emplace 5 1 0 (gw1 <| inflight_ := [] |>)) in
  pendingMap g' !! 5 = Some (mkPending 1 0).
Proof.
  apply (early_reply_is_lost 1 gw0 gw1 [] [] 5 1 0 0x82 0 (lit "ok")).
  - apply (bool_decide_unpack _). vm_compute. exact I.
  - vm_compute. reflexivity.
  - vm_compute. reflexivity.
  - vm_compute. discriminate.
  - apply nsteps_once. apply (gw_upstream gw0 0 2 0 5 (lit "a") 0).
  - vm_compute. reflexivity.
  - vm_compute. reflexivity.
Defined.

Lemma non_requests_are_echoed_witness :
  on_upstream 0 0x03 0 9 (lit "ping") 4 gw0 = (gw0, [GRespond 4 0x03 0 9 (lit "ping")], ()).
Proof. apply non_requests_are_echoed. lia. Defined.
