(* ===== verification/GatewayNet.v ===== *)
(** * GatewayNet: a request through the gateway, byte for byte

    The composition of the gateway's server (TurboServer.v), its two lambdas
    (Gateway.v) and its client (TurboClient.v): what a producer sends, what goes
    downstream, and what comes back to the producer. *)

From S2P Require Import Prelude Bytes Asio PQueue TurboFrame TurboClient TurboClientRx TurboServer TurboServerProps Gateway.

Section Relay.
Context {Q : Type} `{!PQueue Q ResponseEntry} `{!IterOrder}.

Abbreviation sworld := (world server s_op s_post s_timer s_call).
Abbreviation cworld := (world (client Q) c_op c_post c_timer c_call).

(** The effects of the lambdas on the client's I/O context. *)
Definition on_client (es : list g_eff) : list c_eff :=
  omap (λ e, match e with GClient e => Some e | _ => None end) es.

Lemma on_client_all (es : list c_eff) : on_client (GClient <$> es) = es.
Proof. unfold on_client. induction es as [|e es IH]; [done|]. csimpl. by rewrite IH. Qed.

(** Sending a request: the packet is posted, nothing else is started, and the
    reading side of the client is as before. *)
Lemma sendRequest_reading {ho : Host} now body (c : client Q) :
  let r := sendRequest now body c in
  val_of r = sequenceCounter_ c ∧
  posted (effs_of r) = [PostSend (build_packet 0x02 0x00 (sequenceCounter_ c) body)] ∧
  started (effs_of r) = [] ∧ called (effs_of r) = [] ∧
  running_ (state_of r) = running_ c ∧ onPacket_ (state_of r) = onPacket_ c ∧
  onBind_ (state_of r) = onBind_ c.
Proof.
  unfold sendRequest, next_sequence, sendPacket, startResponseTimer. unact.
  destruct (responseTimeoutMs_ c <=? 0); done.
Qed.

(** Up to 2^32 actions after an empty gateway, the numbers in the table are
    distinct and the client's next number is not among them. *)
Lemma next_number_fresh {ho : Host} n (g0 g : gateway Q) :
  is_u32 (sequenceCounter_ (client_ g0)) → pendingMap g0 = ∅ → inflight_ g0 = [] →
  Z.of_nat n < 2 ^ 32 → nsteps gw_step n g0 g →
  unique_down (pendingMap g) ∧
  ∀ i v, pendingMap g !! i = Some v → downstreamSeq v ≠ sequenceCounter_ (client_ g).
Proof.
  intros Hc Hp Hi Hn Hs.
  destruct (gw_inv_nsteps _ n g0 g (gw_inv_init g0 Hc Hp Hi) ltac:(lia) Hs) as (j & Hj & Hcnt & Hnd & Hin).
  split; [by apply in_use_unique|]. intros i v Hv Hd.
  destruct (Hin (downstreamSeq v)) as (k & Hk & E).
  { apply elem_of_app. left. apply list_elem_of_fmap. exists (i, v). split; [done|].
    by apply elem_of_map_to_list. }
  rewrite Hd, Hcnt in E. apply u32_inj in E; lia.
Qed.

End Relay.

(** ** Witness: the gateway of [main], a producer that has bound *)

#[local] Instance relay_order : IterOrder := {| iter m := map_to_list m; iter_perm m := reflexivity _ |}.

Definition relay_server : world server s_op s_post s_timer s_call :=
  complete (@server_handlers LittleEndian) OpAccept (IoOk []) []
    (run (setAuthHandler (Some (λ _, true));; start (Some 4%nat)) (init_world (new_server 50) 0)).

Definition relay_bound : world server s_op s_post s_timer s_call :=
  (feed (@server_handlers LittleEndian) 3 (@build_packet BigEndian 0x01 0 1 (lit "producer")) relay_server).1.

Definition relay_client : world (client (list ResponseEntry)) c_op c_post c_timer c_call :=
  (init_world (state_of (setPacketHandler (Some 7%nat) (new_client 5000 5000 10000))) 0)
    <| w_ops := [OpReadHeader] |>.

Definition relay_gateway : gateway (list ResponseEntry) := mkGateway (w_st relay_client) ∅ [].

