(* ===== verification/GatewayMain.v ===== *)
(** * GatewayMain: the program of gateway.cpp

    [main] with its locals, the server and its I/O threads, the client and its
    I/O threads, and the two lambdas of Gateway.v that connect them. The lambdas
    hold the locals by reference. When [main] returns, the locals are destroyed
    in the reverse order of their declarations: first [pendingMap] and [mapMtx],
    then [client], and only then [server], whose destructor joins its threads. *)

From S2P Require Import Prelude Bytes Asio Schedule IoThreads PQueue TurboFrame TurboClient TurboServer TurboServerProps TurboNet TurboLife TurboServerMain Gateway GatewayNet.

(** The positions of [main]; its [return] is from [GpTable] on. *)
Inductive gateway_pc :=
| GpServer | GpClient | GpConnect | GpSetHandler | GpAuth | GpStart | GpWaitKey | GpStop | GpClose
| GpTable | GpClientRef | GpDestroy | GpStopIo | GpJoin | GpExit.
#[export] Instance gateway_pc_eq_dec : EqDecision gateway_pc.
Proof. solve_decision. Defined.

Record gprog (Q : Type) := GProg {
  gp_server : world server s_op s_post s_timer s_call;
  gp_threads : io_threads;                     (* of the server *)
  gp_client : world (client Q) c_op c_post c_timer c_call;
  gp_local : bool;                             (* the local [client] is not destroyed *)
  gp_alive : bool;                             (* the client object exists *)
  gp_map : gmap Z Pending;
  gp_inflight : list (Z * Z * nat);            (* lambdas between their two actions *)
  gp_dead : bool;                              (* [pendingMap] and [mapMtx] are destroyed *)
  gp_relayed : list (nat * Z);                 (* replies relayed: session and number *)
  gp_main : gateway_pc;
  gp_end : option ending }.
Arguments GProg {Q}.
Arguments gp_server {Q}.
Arguments gp_threads {Q}.
Arguments gp_client {Q}.
Arguments gp_local {Q}.
Arguments gp_alive {Q}.
Arguments gp_map {Q}.
Arguments gp_inflight {Q}.
Arguments gp_dead {Q}.
Arguments gp_relayed {Q}.
Arguments gp_main {Q}.
Arguments gp_end {Q}.

#[export] Instance eta_gprog {Q} : Eta (gprog Q) := λ p,
  GProg (gp_server p) (gp_threads p) (gp_client p) (gp_local p) (gp_alive p) (gp_map p)
    (gp_inflight p) (gp_dead p) (gp_relayed p) (gp_main p) (gp_end p).

Ltac gprog_simpl :=
  cbn [field_upd gp_server gp_threads gp_client gp_local gp_alive gp_map gp_inflight gp_dead
    gp_relayed gp_main gp_end] in *.

Section GatewayMain.
Context `{Host} {Q : Type} `{!PQueue Q ResponseEntry} `{!IterOrder}.
Context (sthreads cthreads : nat).
Abbreviation M := (act (gateway Q) g_eff).
Abbreviation sworld := (world server s_op s_post s_timer s_call).
Abbreviation cworld := (world (client Q) c_op c_post c_timer c_call).
Implicit Types (p : gprog Q).

(** ** The lambdas over the two objects *)

Definition gateway_of p : gateway Q := mkGateway (w_st (gp_client p)) (gp_map p) (gp_inflight p).

(** The replies of a lambda, through the [respond] closures. *)
Definition replies (es : list g_eff) (w : sworld) : sworld :=
  foldl (λ w e, match e with
                | GRespond sid pid status seq body => run (respond sid pid status seq body) w
                | _ => w
                end) w es.

Definition relayed_to (es : list g_eff) : list (nat * Z) :=
  omap (λ e, match e with GRespond sid _ _ seq _ => Some (sid, seq) | _ => None end) es.

(** An action of a lambda, with what it does to the client and the server. *)
Definition lambda (m : M unit) p : gprog Q :=
  let '(g, es, _) := m (gateway_of p) in
  p <| gp_client := do_effs (on_client es) ((gp_client p) <| w_st := client_ g |>) |>
    <| gp_server := replies es (gp_server p) |>
    <| gp_map := pendingMap g |> <| gp_inflight := inflight_ g |>.

Definition undefined p : gprog Q := p <| gp_end := Some Undefined |>.

(** The handlers of the server: everybody is let in; a request goes through the
    local [client]. *)
Definition on_server_call (c : s_call) p : gprog Q :=
  match c with
  | CallAuth _ _ _ => p
  | CallRequest _ sid pid status seq body =>
      if (pid =? 0x02) && negb (gp_local p) then undefined p
      else lambda (on_upstream (w_now (gp_client p)) pid status seq body sid) p
  end.

(** The packet handler of the client. *)
Definition on_client_call (c : c_call) p : gprog Q :=
  match c with
  | CallPacket _ pid status dseq body =>
      if gp_dead p then undefined p
      else
        let p' := lambda (on_downstream pid status dseq body) p in
        p' <| gp_relayed := gp_relayed p ++ relayed_to (effs_of (on_downstream pid status dseq body (gateway_of p))) |>
  | _ => p
  end.

Definition on_server_calls (cs : list s_call) p : gprog Q := foldl (λ p c, on_server_call c p) p cs.
Definition on_client_calls (cs : list c_call) p : gprog Q := foldl (λ p c, on_client_call c p) p cs.

(** A thread of the server runs a handler; when it has called the request
    lambda, it is not done before the [emplace]. *)
Definition server_turn (w' : sworld) (t' : io_threads) p : gprog Q :=
  let p' := on_server_calls (server_calls (gp_server p) w') (p <| gp_server := w' |>) in
  if (length (gp_inflight p') =? length (gp_inflight p))%nat then p' <| gp_threads := t' |> else p'.

(** The second action of the request lambda; [mapMtx] and [pendingMap] are
    used. *)
Definition emplace_turn (seq dseq : Z) (sid : nat) (rest : list (Z * Z * nat)) (t' : io_threads) p : gprog Q :=
  if gp_dead p then undefined p
  else lambda (request_emplace seq dseq sid) (p <| gp_inflight := rest |>) <| gp_threads := t' |>.

(** A reference to the client was dropped by [self]. *)
Definition drop_client (self : option nat) p : gprog Q :=
  if gp_alive p && negb (gp_local p) && (holders (gp_client p) =? 0)%nat then
    let m := destructor cthreads self in
    p <| gp_client := run m (gp_client p) |> <| gp_alive := false |>
      <| gp_end := if val_of (m (w_st (gp_client p))) then gp_end p else Some Aborted |>
  else p.

Definition client_turn (thread : nat) (w' : cworld) p : gprog Q :=
  drop_client (Some thread)
    (on_client_calls (new_calls (gp_client p) w') (p <| gp_client := w' |>)).

(** ** [main] *)

(** [ok]: the port was free, the address resolved. *)
Definition gateway_main (ok : bool) p : gprog Q :=
  let ws := gp_server p in
  let wc := gp_client p in
  match gp_main p with
  | GpServer =>
      if ok then p <| gp_threads := spawn sthreads |> <| gp_main := GpClient |>
      else p <| gp_end := Some Aborted |>
  | GpClient => p <| gp_alive := true |> <| gp_main := GpConnect |>
  | GpConnect =>
      let m := connect (w_now wc) ok 3000 (Some 0%nat) in
      if val_of (m (w_st wc))
      then p <| gp_client := run m wc |> <| gp_main := GpSetHandler |>
      else p <| gp_client := run m wc |> <| gp_end := Some Aborted |>
  | GpSetHandler =>
      p <| gp_client := run (setPacketHandler (Some 1%nat)) wc |> <| gp_main := GpAuth |>
  | GpAuth => p <| gp_server := run (setAuthHandler (Some (λ _, true))) ws |> <| gp_main := GpStart |>
  | GpStart => p <| gp_server := run (start (Some 2%nat)) ws |> <| gp_main := GpWaitKey |>
  | GpWaitKey => p <| gp_main := GpStop |>
  | GpStop => p <| gp_server := run stop ws |> <| gp_main := GpClose |>
  | GpClose => p <| gp_client := run close wc |> <| gp_main := GpTable |>
  | GpTable => p <| gp_dead := true |> <| gp_main := GpClientRef |>
  | GpClientRef => drop_client None (p <| gp_local := false |> <| gp_main := GpDestroy |>)
  | GpDestroy => p <| gp_server := run stop ws |> <| gp_main := GpStopIo |>
  | GpStopIo => p <| gp_threads := stop_io (gp_threads p) |> <| gp_main := GpJoin |>
  | GpJoin => p <| gp_main := GpExit |>
  | GpExit => p <| gp_end := Some (Exited 0) |>
  end.

Inductive gprog_step : gprog Q → gprog Q → Prop :=
| gprog_thread p t' :
    gp_end p = None → thread_step (gp_threads p) t' → gprog_step p (p <| gp_threads := t' |>)
| gprog_server p w' t' :
    gp_end p = None → handler_step (gp_threads p) t' →
    (length (gp_inflight p) < busy (gp_threads p))%nat →
    step server_alone (gp_server p) w' → gprog_step p (server_turn w' t' p)
| gprog_emplace p t' seq dseq sid l1 l2 :
    gp_end p = None → handler_step (gp_threads p) t' →
    gp_inflight p = l1 ++ (seq, dseq, sid) :: l2 →
    gprog_step p (emplace_turn seq dseq sid (l1 ++ l2) t' p)
| gprog_client p thread w' :
    gp_end p = None → gp_alive p = true → (thread < cthreads)%nat →
    step client_alone (gp_client p) w' → gprog_step p (client_turn thread w' p)
| gprog_main p ok :
    gp_end p = None → (gp_main p = GpJoin → joined (gp_threads p)) → gprog_step p (gateway_main ok p).

Definition gprog_start (now : Z) : gprog Q :=
  GProg (init_world (new_server 50) now) (spawn 0)
    (init_world (new_client 5000 5000 10000) now) true false ∅ [] false [] GpServer None.

Definition gprog_reachable (now : Z) p : Prop := rtc gprog_step (gprog_start now) p.

(** ** The client without an id

    [main] never calls [setClientId]: no handler of the client takes a number
    from its counter, only [sendRequest] does. *)

Definition same_numbers (c c' : client Q) : Prop :=
  clientId_ c' = clientId_ c ∧ sequenceCounter_ c' = sequenceCounter_ c.

#[local] Instance same_numbers_refl : Reflexive same_numbers.
Proof. by split. Qed.
#[local] Instance same_numbers_trans : Transitive same_numbers.
Proof. intros c1 c2 c3 [E1 E2] [E3 E4]. split; congruence. Qed.

Abbreviation quiet_about_numbers := (keeps same_numbers (λ _ : c_eff, True) unit).

Lemma invoke_numbers f k : quiet_about_numbers (invoke f k).
Proof. unfold invoke. destruct f; keeps_tac. Qed.
Lemma doReadHeader_numbers now : quiet_about_numbers (doReadHeader now).
Proof. unfold doReadHeader, startReadTimer. keeps_tac. case_match; keeps_tac. Qed.
Lemma fire_timeouts_numbers l : quiet_about_numbers (fire_timeouts l).
Proof. induction l as [|x l IH]; simpl; keeps_tac; [apply invoke_numbers|done]. Qed.

Lemma client_io_numbers now o r :
  o ≠ OpConnect → quiet_about_numbers (client_io now o r).
Proof.
  intros Ho. destruct o as [| |n|bs], r as [data|ab]; try done; simpl;
    unfold onReadHeader, onReadBody, onWrite, cancelReadTimer, cancelWriteTimer, doReadBody; keeps_tac;
    repeat (case_match; keeps_tac); try apply invoke_numbers; try apply doReadHeader_numbers.
Qed.

Lemma client_post_numbers now (q : c_post) : quiet_about_numbers (client_post now q).
Proof.
  destruct q as [pkt]. simpl. unfold send_posted, doWrite, startWriteTimer. keeps_tac.
  case_match; keeps_tac.
Qed.

Lemma client_timer_numbers now t ab : quiet_about_numbers (client_timer now t ab).
Proof.
  destruct t; simpl; unfold onConnectTimeout, onReadTimeout, onWriteTimeout, checkAndFireResponseTimers;
    keeps_tac. case_match; keeps_tac. case_match. case_match. keeps_tac. apply fire_timeouts_numbers.
Qed.

Lemma on_connect_numbers now ec (c : client Q) :
  clientId_ c = [] → same_numbers c (state_of (on_connect now ec c)).
Proof.
  intros Hc. unfold on_connect, doReadHeader, startReadTimer, invoke, cancelConnectTimer. unact.
  rewrite Hc. rewrite bool_decide_true by done. simpl. destruct ec; simpl.
  - by destruct (connectHandler_ c).
  - destruct (readTimeoutMs_ c <=? 0); simpl; by destruct (connectHandler_ c).
Qed.

Lemma client_step_numbers (w w' : cworld) :
  clientId_ (w_st w) = [] → step client_alone w w' → same_numbers (w_st w) (w_st w').
Proof.
  intros Hc Hs.
  destruct Hs as [w q ps Hp|w o l1 l2 r Ho Ha|w t d l1 l2 Ha Hd|w t ab l1 l2 Hf|w now Hn|w []]; try done.
  - destruct (run_fields (client_post (w_now w) q) (w <| w_posts := ps |>)) as (E & _).
    simpl in *. rewrite E. apply client_post_numbers.
  - destruct (complete_fields client_alone o r (l1 ++ l2) w) as (E & _). rewrite E. simpl.
    assert (o = OpConnect ∨ o ≠ OpConnect) as [->|Hne] by (destruct o; [by left|by right..]).
    + by apply on_connect_numbers.
    + by apply client_io_numbers.
  - destruct (run_fields (client_timer (w_now w) t ab) (w <| w_fired := l1 ++ l2 |>)) as (E & _).
    simpl in *. rewrite E. apply client_timer_numbers.
Qed.

(** ** What becomes of a request

    Requests and replies by the session and its number: received by the server,
    relayed, pending, between the two actions of the lambda. *)

Definition requests (log : list s_call) : list (nat * Z) :=
  omap (λ c, match c with
             | CallRequest _ sid pid _ seq _ => if pid =? 0x02 then Some (sid, seq) else None
             | _ => None
             end) log.

Definition pending (m : gmap Z Pending) : list (nat * Z) :=
  (λ kv, (respond_to kv.2, kv.1)) <$> map_to_list m.
Definition in_lambda (l : list (Z * Z * nat)) : list (nat * Z) := (λ x, (x.2, x.1.1)) <$> l.

Definition accounted p : list (nat * Z) :=
  gp_relayed p ++ pending (gp_map p) ++ in_lambda (gp_inflight p).

(** [log]: the calls of the server whose handlers have run. *)
Record gprog_inv (log : list s_call) p : Prop := {
  gi_once : accounted p ⊆+ requests log;
  gi_numbers : (Z.of_nat (length (requests log)) <= 2 ^ 32) →
    ∃ n, (n <= length (requests log))%nat ∧ gw_inv 1 n (gateway_of p);
  gi_id : clientId_ (w_st (gp_client p)) = [] }.

(** What the invariant depends on. *)
Lemma gprog_inv_same log p p' :
  gp_relayed p' = gp_relayed p → gp_map p' = gp_map p → gp_inflight p' = gp_inflight p →
  same_numbers (w_st (gp_client p)) (w_st (gp_client p')) →
  gprog_inv log p → gprog_inv log p'.
Proof.
  intros Er Em Ei [Ec En] [Ho Hn Hid]. split; [|intros Hb|congruence].
  - unfold accounted. by rewrite Er, Em, Ei.
  - destruct (Hn Hb) as (n & Hle & Hg). exists n. split; [done|].
    apply (gw_inv_shrink 1 n (gateway_of p)); [done| |done]. exists [].
    unfold in_use. simpl. by rewrite Em, Ei, app_nil_r.
Qed.

Lemma requests_app l1 l2 : requests (l1 ++ l2) = requests l1 ++ requests l2.
Proof. apply omap_app. Qed.

Lemma pending_insert m seq v :
  m !! seq = None → pending (<[seq := v]> m) ≡ₚ (respond_to v, seq) :: pending m.
Proof. intros Hm. unfold pending. by rewrite map_to_list_insert. Qed.
Lemma pending_delete m seq v :
  m !! seq = Some v → pending m ≡ₚ (respond_to v, seq) :: pending (delete seq m).
Proof. intros Hm. unfold pending. by rewrite <-(map_to_list_delete m seq v Hm). Qed.

(** The replies of a lambda call no handler. *)
Lemma replies_calls es (w : sworld) : w_calls (replies es w) = w_calls w.
Proof.
  revert w. induction es as [|e es IH]; intros w; [done|]. simpl. rewrite IH.
  by destruct e as [e|sid pid st seq body|].
Qed.

Lemma replies_client (es : list c_eff) (w : sworld) : replies (GClient <$> es) w = w.
Proof. revert w. induction es as [|e es IH]; intros w; [done|]. apply IH. Qed.

Lemma do_effs_st (es : list c_eff) (w : cworld) : w_st (do_effs es w) = w_st w.
Proof. by destruct (do_effs_fields es w) as (-> & _). Qed.

Lemma lambda_fields (m : M unit) p :
  let g := state_of (m (gateway_of p)) in
  gateway_of (lambda m p) = g ∧ gp_map (lambda m p) = pendingMap g ∧
  gp_inflight (lambda m p) = inflight_ g ∧ gp_relayed (lambda m p) = gp_relayed p ∧
  w_st (gp_client (lambda m p)) = client_ g ∧
  w_calls (gp_server (lambda m p)) = w_calls (gp_server p).
Proof.
  unfold lambda. destruct (m (gateway_of p)) as [[g es] u] eqn:E. unfold gateway_of. gprog_simpl.
  rewrite do_effs_st, replies_calls. simpl. by destruct g.
Qed.

Lemma gprog_inv_grow log l p : gprog_inv log p → gprog_inv (log ++ l) p.
Proof.
  intros [Ho Hn Hid]. split; [|intros Hb|done]; rewrite requests_app in *.
  - by apply submseteq_inserts_r.
  - rewrite length_app in *. destruct Hn as (n & Hle & Hg); [lia|]. exists n. split; [lia|done].
Qed.

Lemma sendRequest_id now body (c : client Q) : clientId_ (state_of (sendRequest now body c)) = clientId_ c.
Proof.
  unfold sendRequest, next_sequence, sendPacket, startResponseTimer. unact. by destruct (_ <=? 0).
Qed.

Lemma request_send_fields now seq body sid (g : gateway Q) :
  let g' := state_of (request_send now seq body sid g) in
  pendingMap g' = pendingMap g ∧ clientId_ (client_ g') = clientId_ (client_ g) ∧
  ∃ dseq, inflight_ g' = inflight_ g ++ [(seq, dseq, sid)].
Proof.
  unfold request_send. assert (Hid := sendRequest_id now body (client_ g)).
  destruct (sendRequest now body (client_ g)) as [[c es] dseq]. simpl in *. eauto.
Qed.

Lemma on_server_call_inv log c p :
  gprog_inv log p → gprog_inv (log ++ [c]) (on_server_call c p).
Proof.
  intros Hi. destruct c as [sid cid v|f sid pid st seq body]; [by apply gprog_inv_grow|]. simpl.
  destruct ((pid =? 2) && negb (gp_local p)) eqn:E.
  { apply gprog_inv_grow. by apply (gprog_inv_same log p). }
  unfold on_upstream. destruct (Z.eqb_spec pid 2) as [->|Hne].
  - set (m := request_send (w_now (gp_client p)) seq body sid).
    destruct (lambda_fields m p) as (Hg & Hm & Hf & Hr & Hc & _). revert Hg Hm Hf Hr Hc.
    destruct (request_send_fields (w_now (gp_client p)) seq body sid (gateway_of p)) as (Em & Ec & dseq & Ef).
    fold m in Em, Ec, Ef. intros Hg Hm Hf Hr Hc. destruct Hi as [Ho Hn Hid].
    assert (Hreq : requests (log ++ [CallRequest f sid 2 st seq body]) = requests log ++ [(sid, seq)])
      by by rewrite requests_app.
    split; [|intros Hb|by rewrite Hc, Ec].
    + unfold accounted in *. rewrite Hreq, Hr, Hm, Em, Hf, Ef. unfold in_lambda in *.
      rewrite fmap_app, !app_assoc in *. by apply submseteq_skips_r.
    + rewrite Hreq, length_app in *. simpl in *. destruct Hn as (n & Hle & Hgw); [lia|].
      exists (S n). split; [lia|]. rewrite Hg. apply gw_inv_send; [lia|done].
  - set (m := request_echo pid st seq body sid).
    destruct (lambda_fields m p) as (Hg & Hm & Hf & Hr & Hc & _).
    apply gprog_inv_grow. apply (gprog_inv_same log p); [done..| |done]. by rewrite Hc.
Qed.

Lemma on_server_calls_inv cs log p :
  gprog_inv log p → gprog_inv (log ++ cs) (on_server_calls cs p).
Proof.
  revert log p. induction cs as [|c cs IH]; intros log p Hi; [by rewrite app_nil_r|].
  change (c :: cs) with ([c] ++ cs). rewrite (assoc (++)). by apply IH, on_server_call_inv.
Qed.

Lemma emplace_inv log seq dseq sid l1 l2 t' p :
  gp_inflight p = l1 ++ (seq, dseq, sid) :: l2 →
  gprog_inv log p → gprog_inv log (emplace_turn seq dseq sid (l1 ++ l2) t' p).
Proof.
  intros Hl Hi. unfold emplace_turn. destruct (gp_dead p); [by apply (gprog_inv_same log p)|].
  set (m := request_emplace seq dseq sid).
  destruct (lambda_fields m (p <| gp_inflight := l1 ++ l2 |>)) as (Hg & Hm & Hf & Hr & Hc & _).
  destruct Hi as [Ho Hn Hid]. apply (gprog_inv_same log (lambda m (p <| gp_inflight := l1 ++ l2 |>))); try done.
  split; [|intros Hb|by rewrite Hc].
  - unfold accounted in *. rewrite Hr, Hm, Hf. etrans; [|exact Ho]. gprog_simpl.
    rewrite Hl. unfold in_lambda, m, request_emplace. simpl. rewrite !fmap_app, fmap_cons. simpl.
    apply submseteq_app; [done|]. destruct (gp_map p !! seq) eqn:E.
    + apply submseteq_app; [done|]. apply submseteq_app; [done|]. by apply submseteq_cons.
    + rewrite pending_insert by done. simpl. apply Permutation_submseteq. solve_Permutation.
  - destruct (Hn Hb) as (n & Hle & Hgw). exists n. split; [done|]. rewrite Hg.
    exact (gw_inv_emplace 1 n (gateway_of p) seq dseq sid l1 l2 Hl Hgw).
Qed.

Lemma downstream_fields pid st dseq body (g : gateway Q) :
  let r := on_downstream pid st dseq body g in
  client_ (state_of r) = client_ g ∧ inflight_ (state_of r) = inflight_ g ∧
  pending (pendingMap g) ≡ₚ relayed_to (effs_of r) ++ pending (pendingMap (state_of r)).
Proof.
  unfold on_downstream. unact. unfold id.
  destruct (find_downstream _ _) as [[k v]|] eqn:E; simpl; [|done].
  apply find_downstream_Some in E as [Hk _]. rewrite elem_of_iter in Hk.
  split_and!; [done..|]. by apply pending_delete.
Qed.

Lemma on_client_call_inv log c p : gprog_inv log p → gprog_inv log (on_client_call c p).
Proof.
  intros Hi. destruct c as [f ec|f sid|f pid st dseq body|f sq|f]; try exact Hi. simpl.
  destruct (gp_dead p); [by apply (gprog_inv_same log p)|].
  set (m := on_downstream pid st dseq body).
  destruct (lambda_fields m p) as (Hg & Hm & Hf & Hr & Hc & _). destruct Hi as [Ho Hn Hid].
  destruct (downstream_fields pid st dseq body (gateway_of p)) as (Ec & Ef & Ep). fold m in Ec, Ef, Ep.
  split; gprog_simpl.
  - unfold accounted in *. gprog_simpl. rewrite Hm, Hf, Ef. etrans; [|exact Ho].
    apply Permutation_submseteq. change (gp_map p) with (pendingMap (gateway_of p)). rewrite Ep.
    simpl. by rewrite <-!app_assoc.
  - intros Hb. destruct (Hn Hb) as (n & Hle & Hgw). exists n. split; [done|].
    change (gw_inv 1 n (gateway_of (lambda m p))). rewrite Hg. by apply gw_inv_downstream.
  - by rewrite Hc, Ec.
Qed.

Lemma on_client_calls_inv cs log p : gprog_inv log p → gprog_inv log (on_client_calls cs p).
Proof. revert p. induction cs as [|c cs IH]; intros p Hi; [done|]. by apply IH, on_client_call_inv. Qed.

(** ** The program *)

Lemma on_server_call_calls c p :
  w_calls (gp_server (on_server_call c p)) = w_calls (gp_server p).
Proof.
  destruct c as [sid cid v|f sid pid st seq body]; [done|]. simpl.
  destruct (_ && _); [done|]. by destruct (lambda_fields (on_upstream (w_now (gp_client p)) pid st seq body sid) p)
    as (_ & _ & _ & _ & _ & ->).
Qed.

Lemma on_server_calls_calls cs p :
  w_calls (gp_server (on_server_calls cs p)) = w_calls (gp_server p).
Proof.
  revert p. induction cs as [|c cs IH]; intros p; [done|].
  change (on_server_calls (c :: cs) p) with (on_server_calls cs (on_server_call c p)).
  by rewrite IH, on_server_call_calls.
Qed.

Lemma on_client_calls_calls cs p :
  w_calls (gp_server (on_client_calls cs p)) = w_calls (gp_server p).
Proof.
  revert p. induction cs as [|c cs IH]; intros p; [done|].
  change (on_client_calls (c :: cs) p) with (on_client_calls cs (on_client_call c p)). rewrite IH.
  destruct c as [f ec|f sid|f pid st dseq body|f sq|f]; try done. simpl. destruct (gp_dead p); [done|].
  by destruct (lambda_fields (on_downstream pid st dseq body) p) as (_ & _ & _ & _ & _ & Hc).
Qed.

Lemma server_alone_calls (w w' : sworld) :
  step server_alone w w' → w_calls w' = w_calls w ++ server_calls w w'.
Proof.
  intros Hs. assert (∃ cs, w_calls w' = w_calls w ++ cs) as (cs & Hcs).
  { destruct Hs as [w q ps Hp|w o l1 l2 r Ho _|w t d l1 l2 Ha _|w t ab l1 l2 Hf|w now _|w []]; [destruct q| |destruct t..|].
    - destruct (complete_fields server_alone o r (l1 ++ l2) w) as (_ & _ & _ & Hc & _). by eexists.
    - exists []. by rewrite app_nil_r. }
  unfold server_calls. by rewrite Hcs, drop_app_length.
Qed.

Lemma drop_client_inv log self p : gprog_inv log p → gprog_inv log (drop_client self p).
Proof.
  unfold drop_client. destruct (_ && _); [|done]. apply gprog_inv_same; try done. simpl.
  rewrite destructor_run. destruct (run_fields close (gp_client p)) as (-> & _).
  assert (Hk : quiet_about_numbers close); [|by destruct (Hk (w_st (gp_client p)))].
  unfold close, cancelConnectTimer, cancelReadTimer, cancelWriteTimer. keeps_tac. apply invoke_numbers.
Qed.

Lemma drop_client_server self p : gp_server (drop_client self p) = gp_server p.
Proof. unfold drop_client. by destruct (_ && _). Qed.

Lemma keeps_run {B} (m : act (client Q) c_eff B) (w : cworld) :
  keeps same_numbers (λ _ : c_eff, True) B m → same_numbers (w_st w) (w_st (run m w)).
Proof. intros Hk. destruct (run_fields m w) as (-> & _). apply Hk. Qed.

Lemma stop_calls (w : sworld) : w_calls (run stop w) = w_calls w.
Proof.
  destruct (run_fields stop w) as (_ & _ & _ & -> & _). unfold stop. unact.
  assert (Hc : ∀ l : list nat, called ((λ _, EClose) <$> l : list s_eff) = []) by (by induction l).
  by rewrite app_nil_r, Hc, app_nil_r.
Qed.

Lemma gateway_main_inv ok p :
  gprog_inv (w_calls (gp_server p)) p →
  gprog_inv (w_calls (gp_server (gateway_main ok p))) (gateway_main ok p).
Proof.
  intros Hi. unfold gateway_main.
  destruct (gp_main p); try (by apply (gprog_inv_same _ p));
    try (gprog_simpl; rewrite ?stop_calls; by apply (gprog_inv_same _ p)).
  - destruct ok; by apply (gprog_inv_same _ p).
  - set (m := connect _ _ _ _). assert (Hk : keeps same_numbers (λ _ : c_eff, True) bool m).
    { unfold m, connect. keeps_tac. destruct ok; unfold startConnectTimer; keeps_tac. }
    destruct (val_of _); apply (gprog_inv_same _ p); try done; by apply (keeps_run m).
  - apply (gprog_inv_same _ p); try done. apply (keeps_run close).
    unfold close, cancelConnectTimer, cancelReadTimer, cancelWriteTimer. keeps_tac. apply invoke_numbers.
  - rewrite drop_client_server. apply drop_client_inv. by apply (gprog_inv_same _ p).
Qed.

Lemma gprog_inv_step p p' :
  gprog_inv (w_calls (gp_server p)) p → gprog_step p p' → gprog_inv (w_calls (gp_server p')) p'.
Proof.
  intros Hi Hs.
  destruct Hs as [p t' Hn Ht|p w' t' Hn Ht Hb Hw|p t' seq dseq sid l1 l2 Hn Ht Hl|p thread w' Hn Ha Ht Hw|p ok Hn Hj].
  - by apply (gprog_inv_same _ p).
  - unfold server_turn. set (p1 := on_server_calls _ _).
    assert (gprog_inv (w_calls w') p1 ∧ w_calls (gp_server p1) = w_calls w') as [H1 Hc1].
    { split; [|unfold p1; by rewrite on_server_calls_calls]. rewrite (server_alone_calls _ _ Hw) at 1.
      apply on_server_calls_inv. by apply (gprog_inv_same _ p). }
    clearbody p1. destruct (_ =? _)%nat; gprog_simpl; rewrite Hc1; [|done]. by apply (gprog_inv_same _ p1).
  - assert (Hc : w_calls (gp_server (emplace_turn seq dseq sid (l1 ++ l2) t' p)) = w_calls (gp_server p)).
    { unfold emplace_turn. destruct (gp_dead p); [done|].
      by destruct (lambda_fields (request_emplace seq dseq sid) (p <| gp_inflight := l1 ++ l2 |>))
        as (_ & _ & _ & _ & _ & Hc). }
    rewrite Hc. by apply emplace_inv.
  - unfold client_turn. rewrite drop_client_server, on_client_calls_calls. gprog_simpl.
    apply drop_client_inv, on_client_calls_inv. apply (gprog_inv_same _ p); try done.
    gprog_simpl. apply client_step_numbers; [|done]. apply Hi.
  - by apply gateway_main_inv.
Qed.

Lemma gprog_reachable_inv now p : gprog_reachable now p → gprog_inv (w_calls (gp_server p)) p.
Proof.
  apply (rtc_invariant gprog_step (λ p, gprog_inv (w_calls (gp_server p)) p)); [|apply gprog_inv_step].
  split; [done| |done]. intros _. exists 0%nat. split; [done|].
  apply (gw_inv_init (mkGateway (new_client 5000 5000 10000) ∅ [])); done.
Qed.


(** C11: ... and a reply under the number of a registered request is relayed to the
    session that sent it, under its own number, as long as no more than 2^32
    requests were received. *)
Theorem gateway_program_routes now p seq dseq sid pid status body :
  gprog_reachable now p → Z.of_nat (length (requests (w_calls (gp_server p)))) <= 2 ^ 32 →
  gp_map p !! seq = Some (mkPending dseq sid) →
  (sid, seq) ∈ requests (w_calls (gp_server p)) ∧
  on_downstream pid status dseq body (gateway_of p) =
    ((gateway_of p) <| pendingMap := delete seq (gp_map p) |>, [GRespond sid pid status seq body], ()).
Proof.
  intros [Ho Hn _]%gprog_reachable_inv Hb Hm. destruct (Hn Hb) as (n & _ & (_ & Hnd & _)). split.
  - eapply elem_of_submseteq; [|exact Ho]. unfold accounted. rewrite !elem_of_app. right; left.
    apply list_elem_of_fmap. exists (seq, mkPending dseq sid). split; [done|]. by apply elem_of_map_to_list.
  - apply in_use_unique in Hnd. unfold on_downstream. unact. unfold id.
    pose proof (find_downstream_unique (gp_map p) seq (mkPending dseq sid) Hnd Hm) as Hf.
    simpl in *. by rewrite Hf.
Qed.

(** ** How the program ends *)

Definition table_destroyed (pc : gateway_pc) : bool :=
  match pc with GpClientRef | GpDestroy | GpStopIo | GpJoin | GpExit => true | _ => false end.
Definition client_released (pc : gateway_pc) : bool :=
  match pc with GpDestroy | GpStopIo | GpJoin | GpExit => true | _ => false end.

Definition ended_at (e : option ending) (pc : gateway_pc) : Prop :=
  match e with
  | None => True
  | Some (Exited c) => c = 0 ∧ pc = GpExit
  | Some Aborted => pc = GpServer ∨ pc = GpConnect ∨ client_released pc = true
  | Some Undefined => table_destroyed pc = true
  end.

Record scope_inv p : Prop := {
  sc_dead : gp_dead p = table_destroyed (gp_main p);
  sc_local : gp_local p = negb (client_released (gp_main p));
  sc_end : ended_at (gp_end p) (gp_main p) }.

(** What the lambdas leave alone. *)
Definition same_scope p p' : Prop :=
  gp_dead p' = gp_dead p ∧ gp_local p' = gp_local p ∧ gp_main p' = gp_main p ∧
  (gp_end p' = gp_end p ∨
   gp_end p' = Some Undefined ∧ (gp_dead p = true ∨ gp_local p = false)).

#[local] Instance same_scope_refl : Reflexive same_scope.
Proof. intros p. unfold same_scope. auto. Qed.
#[local] Instance same_scope_trans : Transitive same_scope.
Proof.
  intros p1 p2 p3 (D1 & L1 & M1 & E1) (D2 & L2 & M2 & E2). rewrite D1, L1 in E2.
  split_and!; [congruence..|]. destruct E2 as [->|?]; [|by right]. done.
Qed.

Lemma lambda_scope (m : M unit) p : same_scope p (lambda m p).
Proof. unfold lambda. destruct (m (gateway_of p)) as [[g es] u]. by split_and!; [..|left]. Qed.

Lemma on_server_calls_scope cs p : same_scope p (on_server_calls cs p).
Proof.
  revert p. induction cs as [|c cs IH]; intros p; [done|]. transitivity (on_server_call c p); [|apply IH].
  destruct c as [sid cid v|f sid pid st seq body]; [done|]. simpl.
  destruct (_ && negb _) eqn:E; [|apply lambda_scope].
  apply andb_true_iff in E as [_ E%negb_true_iff]. split_and!; [done..|]. right. auto.
Qed.

Lemma on_client_calls_scope cs p : same_scope p (on_client_calls cs p).
Proof.
  revert p. induction cs as [|c cs IH]; intros p; [done|]. transitivity (on_client_call c p); [|apply IH].
  destruct c as [f ec|f sid|f pid st dseq body|f sq|f]; try done. simpl. destruct (gp_dead p) eqn:E.
  - split_and!; [done..|]. right. auto.
  - exact (lambda_scope _ p).
Qed.

Lemma same_scope_inv p p' : gp_end p = None → same_scope p p' → scope_inv p → scope_inv p'.
Proof.
  intros Hn (D & L & Hm & E) [Hd Hl He]. split; rewrite ?D, ?L, ?Hm; [done..|].
  destruct E as [->|[-> E]]; [by rewrite Hn|]. simpl. rewrite <-Hd.
  destruct E as [?|E]; [done|]. rewrite Hl in E. rewrite Hd. by destruct (gp_main p).
Qed.

Lemma drop_client_scope self p : scope_inv p → scope_inv (drop_client self p).
Proof.
  intros Hi. unfold drop_client. destruct (gp_alive p && negb (gp_local p) && _) eqn:E; [|done].
  rewrite !andb_true_iff in E. destruct E as [[_ E%negb_true_iff] _]. destruct Hi as [Hd Hl He].
  split; gprog_simpl; [done..|]. destruct (val_of _); [done|]. simpl. rewrite Hl in E.
  right; right. by destruct (gp_main p).
Qed.

Lemma scope_inv_step p p' : scope_inv p → gprog_step p p' → scope_inv p'.
Proof.
  intros Hi Hs.
  destruct Hs as [p t' Hn Ht|p w' t' Hn Ht Hb Hw|p t' seq dseq sid l1 l2 Hn Ht Hl|p thread w' Hn Ha Ht Hw|p ok Hn Hj].
  - apply (same_scope_inv p); [done| |done]. by split_and!; [..|left].
  - apply (same_scope_inv p); [done| |done]. unfold server_turn.
    set (p1 := on_server_calls _ _). assert (Hp1 : same_scope p p1).
    { transitivity (p <| gp_server := w' |>); [by split_and!; [..|left]|apply on_server_calls_scope]. }
    clearbody p1. by destruct (_ =? _)%nat.
  - apply (same_scope_inv p); [done| |done]. unfold emplace_turn. destruct (gp_dead p) eqn:E.
    + split_and!; [done..|]. right. auto.
    + destruct (lambda_scope (request_emplace seq dseq sid) (p <| gp_inflight := l1 ++ l2 |>)) as (? & ? & ? & ?).
      by split_and!.
  - apply drop_client_scope. apply (same_scope_inv p); [done| |done].
    transitivity (p <| gp_client := w' |>); [by split_and!; [..|left]|apply on_client_calls_scope].
  - destruct Hi as [Hd Hl He]. unfold gateway_main. destruct (gp_main p) eqn:Hm;
      try (split; gprog_simpl; rewrite ?Hm, ?Hn; done).
    + destruct ok; split; gprog_simpl; rewrite ?Hm, ?Hn; try done. by left.
    + destruct (val_of _); split; gprog_simpl; rewrite ?Hm, ?Hn; try done. by right; left.
    + apply drop_client_scope. split; gprog_simpl; by rewrite ?Hn.
Qed.

(** How the gateway can end: normally; by [std::terminate] when the port is
    taken, the address does not resolve, or an I/O thread was left to destroy
    the client; with undefined behaviour only when [main] has begun to destroy
    its locals: up to then no callback uses a dead one. *)
Theorem gateway_program_ends now p e :
  gprog_reachable now p → gp_end p = Some e →
  match e with
  | Exited c => c = 0 ∧ gp_main p = GpExit
  | Aborted => gp_main p = GpServer ∨ gp_main p = GpConnect ∨ client_released (gp_main p) = true
  | Undefined => table_destroyed (gp_main p) = true
  end.
Proof.
  intros Hr He. assert (Hi : scope_inv p).
  { refine (rtc_invariant gprog_step scope_inv _ p _ scope_inv_step Hr). by split. }
  destruct Hi as [_ _ Hend]. by rewrite He in Hend.
Qed.

(** ** Running the program by hand *)

Inductive gprog_choice :=
| GMain (ok : bool)
| GTake
| GServe (c : choice)
| GEmplace (i : nat)
| GClient (thread : nat) (c : choice).

Definition gprog_exec (c : gprog_choice) p : option (gprog Q) :=
  match gp_end p with
  | Some _ => None
  | None =>
      match c, gp_threads p with
      | GMain ok, IoThreads n b _ =>
          if bool_decide (gp_main p = GpJoin) && negb (n + b =? 0)%nat then None
          else Some (gateway_main ok p)
      | GTake, IoThreads (S n) b false => Some (p <| gp_threads := IoThreads n (S b) false |>)
      | GServe c, IoThreads n (S b) st =>
          if (length (gp_inflight p) <=? b)%nat
          then w' ← exec server_alone c (gp_server p); Some (server_turn w' (IoThreads (S n) b st) p)
          else None
      | GEmplace i, IoThreads n (S b) st =>
          x ← gp_inflight p !! i;
          Some (emplace_turn x.1.1 x.1.2 x.2 (take i (gp_inflight p) ++ drop (S i) (gp_inflight p))
                  (IoThreads (S n) b st) p)
      | GClient thread c, _ =>
          if gp_alive p && (thread <? cthreads)%nat
          then w' ← exec client_alone c (gp_client p); Some (client_turn thread w' p) else None
      | _, _ => None
      end
  end.

Fixpoint gprog_execs (cs : list gprog_choice) p : option (gprog Q) :=
  match cs with
  | [] => Some p
  | c :: cs' => gprog_exec c p ≫= gprog_execs cs'
  end.

Lemma gprog_exec_step c p p' : gprog_exec c p = Some p' → gprog_step p p'.
Proof.
  unfold gprog_exec. destruct (gp_end p) eqn:He; [done|].
  destruct c as [ok| |c|i|thread c], (gp_threads p) as [n b st] eqn:Ht.
  - intros Hx. destruct (bool_decide _ && _) eqn:E; [done|]. injection Hx as <-. apply gprog_main; [done|].
    intros Hj. rewrite bool_decide_true in E by done. rewrite Ht.
    simpl in E. apply negb_false_iff, Nat.eqb_eq in E. split; simpl; lia.
  - destruct n as [|n], st; try done. intros [= <-]. apply gprog_thread; [done|]. rewrite Ht. constructor.
  - destruct b as [|b]; [done|]. destruct (Nat.leb_spec (length (gp_inflight p)) b) as [Hb|]; [|done].
    destruct (exec server_alone c _) as [w'|] eqn:Hx; [|done]. intros [= <-].
    apply gprog_server; [done|rewrite Ht; constructor|rewrite Ht; simpl; lia|by eapply exec_step].
  - destruct b as [|b]; [done|]. destruct (gp_inflight p !! i) as [[[seq dseq] sid]|] eqn:Hx; [|done].
    intros [= <-]. apply gprog_emplace; [done|rewrite Ht; constructor|].
    by rewrite take_drop_middle.
  - destruct (gp_alive p) eqn:Ha, (Nat.ltb_spec thread cthreads); try done. simpl.
    destruct (exec client_alone c _) as [w'|] eqn:Hx; [|done]. intros [= <-].
    apply gprog_client; [done..|by eapply exec_step].
Qed.

Lemma gprog_execs_run cs p p' : gprog_execs cs p = Some p' → rtc gprog_step p p'.
Proof.
  revert p. induction cs as [|c cs IH]; intros p; simpl; [by intros [= <-]|].
  destruct (gprog_exec c p) as [q|] eqn:E; simpl; [|done]. intros Hq.
  eapply rtc_l; [by eapply gprog_exec_step|by apply IH].
Qed.

End GatewayMain.

(** ** Concrete runs

    A producer binds and sends a request under its number 9; the request is
    forwarded under number 1 and the processor begins to answer. *)

#[local] Instance gateway_host : Host := LittleEndian.
#[local] Instance gateway_order : IterOrder := {| iter m := map_to_list m; iter_perm m := reflexivity _ |}.

Abbreviation gateway_run cs := (gprog_execs 2 2 cs (gprog_start (Q:=list ResponseEntry) 0)).

Definition gateway_through (n : nat) : list gprog_choice := replicate n (GMain true).

Definition serve_packet (i j : nat) (p : bytes) : list gprog_choice :=
  [GTake; GServe (DoIo i (IoOk (take 10 p))); GTake; GServe (DoIo j (IoOk (drop 10 p)))].

Definition producer_bind : bytes := build_packet 0x01 0x00 1 (lit "producer").
Definition producer_request : bytes := build_packet 0x02 0x00 9 (lit "order").
Definition processor_reply : bytes := build_packet 0x82 0x00 1 (lit "done").

Definition half_answered : list gprog_choice :=
  gateway_through 6 ++
  [GClient 0 (DoIo 0 (IoOk [])); GTake; GServe (DoIo 0 (IoOk []))] ++
  serve_packet 0 1 producer_bind ++
  serve_packet 2 2 producer_request ++
  [GEmplace 0; GClient 0 DoPost; GClient 0 (DoIo 1 (IoOk []));
   GClient 0 (DoIo 0 (IoOk (take 10 processor_reply)))].

Definition reply_arrives : gprog_choice := GClient 0 (DoIo 0 (IoOk (drop 10 processor_reply))).

(** While [main] waits, the rest of the reply is relayed. When it comes as [main]
    returns, the packet handler runs after [pendingMap] and [mapMtx] are
    destroyed. *)
Theorem reply_after_locals :
  (∃ p, gateway_run (half_answered ++ [reply_arrives]) = Some p ∧ gp_end p = None ∧
     gp_relayed p = [(0%nat, 9)] ∧ gp_map p = ∅ ∧
     messages 0 (w_ops (gp_server p)) =
       [frame (Packet 0x81 0 1 (lit "test_server")); frame (Packet 0x82 0 9 (lit "done"))]) ∧
  ∃ p, gateway_run (half_answered ++ gateway_through 4 ++ [reply_arrives]) = Some p ∧
     gp_end p = Some Undefined ∧ gp_main p = GpClientRef.
Proof. split; eexists; (split; [vm_compute; reflexivity|]); by repeat split. Qed.

(** ** The theorems at concrete runs *)


Lemma gateway_program_routes_witness :
  ∃ p, gateway_run half_answered = Some p ∧
    (0%nat, 9) ∈ requests (w_calls (gp_server p)) ∧
    on_downstream 0x82 0 1 (lit "done") (gateway_of p) =
      ((gateway_of p) <| pendingMap := delete 9 (gp_map p) |>, [GRespond 0 0x82 0 9 (lit "done")], ()).
Proof.
  eexists. split; [vm_compute; reflexivity|].
  apply (gateway_program_routes 2 2 0).
  - apply (gprog_execs_run 2 2 half_answered). vm_compute. reflexivity.
  - vm_compute. discriminate.
  - vm_compute. reflexivity.
Defined.

Lemma gateway_program_ends_witness :
  ∃ p, gateway_run (half_answered ++ gateway_through 4 ++ [reply_arrives]) = Some p ∧
    table_destroyed (gp_main p) = true.
Proof.
  eexists. split; [vm_compute; reflexivity|].
  eapply (gateway_program_ends 2 2 0 _ Undefined); [|reflexivity].
  apply (gprog_execs_run 2 2 (half_answered ++ gateway_through 4 ++ [reply_arrives])). vm_compute. reflexivity.
Defined.
