(* ===== verification/TcpPacket.v ===== *)
(** * TcpPacket: the packet format of the claude programs

    [struct PacketHeader] and [struct Packet] of claude/asio_server.cpp and
    claude/asio_client.cpp (the two files hold the same text). The header goes
    on the wire by [memcpy] of the object, so the format is the memory layout of
    the structure: the alignment of [sequence] puts two padding bytes after
    [status], and the header is 12 bytes long, not the 10 its comment says. *)

From S2P Require Import Prelude Bytes.

(** ** Memory layout of a structure

    Members in declaration order, each with its size and alignment; a member
    starts at the next multiple of its alignment, the whole object is padded to
    a multiple of the largest one. *)

Record member := Member { m_size : nat; m_align : nat }.

Definition align_up (a n : nat) : nat := ((n + a - 1) / a * a)%nat.

Fixpoint offsets (at_ : nat) (ms : list member) : list nat :=
  match ms with
  | [] => []
  | m :: ms' => let o := align_up (m_align m) at_ in o :: offsets (o + m_size m) ms'
  end.

Fixpoint end_of (at_ : nat) (ms : list member) : nat :=
  match ms with
  | [] => at_
  | m :: ms' => end_of (align_up (m_align m) at_ + m_size m) ms'
  end.

Definition size_of (ms : list member) : nat :=
  align_up (foldr Nat.max 1%nat (m_align <$> ms)) (end_of 0 ms).

Definition uint32_member := Member 4 4.
Definition uint8_member := Member 1 1.

(** ** The header *)

Record PacketHeader := mkPacketHeader {
  hd_length : Z;
  hd_packetId : Z;
  hd_status : Z;
  hd_sequence : Z }.

#[export] Instance eta_PacketHeader : Eta PacketHeader := λ h,
  mkPacketHeader (hd_length h) (hd_packetId h) (hd_status h) (hd_sequence h).

Definition PacketHeader_members : list member :=
  [uint32_member; uint8_member; uint8_member; uint32_member].

Definition sizeof_PacketHeader : nat := size_of PacketHeader_members.

(** [offsetof(PacketHeader, member)], members numbered from 0. *)
Definition offset (i : nat) : nat := nth i (offsets 0 PacketHeader_members) 0%nat.

Definition BIND : Z := 1.
Definition BIND_RESP : Z := 129.
Definition REQUEST : Z := 2.
Definition RESPONSE : Z := 130.

(** The values a header object can have. *)
Definition header_ok (h : PacketHeader) : Prop :=
  is_u32 (hd_length h) ∧ is_u8 (hd_packetId h) ∧ is_u8 (hd_status h) ∧ is_u32 (hd_sequence h).

#[export] Instance header_ok_dec h : Decision (header_ok h).
Proof. unfold header_ok. apply _. Defined.

(** The contents of the storage in which a header is built: padding bytes keep
    whatever was there. Nothing is known of them but their number. *)
Class Storage := {
  storage : PacketHeader → bytes;
  storage_length : ∀ h, length (storage h) = sizeof_PacketHeader;
  storage_wf : ∀ h, wf_bytes (storage h) }.

Record Packet := mkPacket { header : PacketHeader; payload : bytes }.

#[export] Instance PacketHeader_eq_dec : EqDecision PacketHeader.
Proof. solve_decision. Defined.
#[export] Instance Packet_eq_dec : EqDecision Packet.
Proof. solve_decision. Defined.

Definition packetTypeToString (packetId : Z) : string :=
  if packetId =? BIND then "BIND"
  else if packetId =? BIND_RESP then "BIND_RESP"
  else if packetId =? REQUEST then "REQUEST"
  else if packetId =? RESPONSE then "RESPONSE"
  else "UNKNOWN".

Definition createPacket (packetId status sequence : Z) (pl : bytes) : Packet :=
  mkPacket
    (mkPacketHeader (u32 (Z.of_nat sizeof_PacketHeader + blen pl)) packetId status sequence)
    pl.

Section Codec.
Context `{Host}.

Definition toNetworkByteOrder (h : PacketHeader) : PacketHeader :=
  h <| hd_length := htonl (hd_length h) |> <| hd_sequence := htonl (hd_sequence h) |>.

Definition toHostByteOrder (h : PacketHeader) : PacketHeader :=
  h <| hd_length := ntohl (hd_length h) |> <| hd_sequence := ntohl (hd_sequence h) |>.

(** The object representation of a header, and the header with a given one
    ([memcpy] out of and into a [PacketHeader]). *)
Definition object_bytes `{Storage} (h : PacketHeader) : bytes :=
  blit (offset 0) (store32 (hd_length h))
    (blit (offset 1) [hd_packetId h]
      (blit (offset 2) [hd_status h]
        (blit (offset 3) (store32 (hd_sequence h)) (storage h)))).

Definition object_of (bs : bytes) : PacketHeader :=
  mkPacketHeader
    (load32 (take 4 (drop (offset 0) bs)))
    (nth (offset 1) bs 0)
    (nth (offset 2) bs 0)
    (load32 (take 4 (drop (offset 3) bs))).

Definition serialize `{Storage} (p : Packet) : bytes :=
  let buffer := vec_zero (sizeof_PacketHeader + length (payload p)) in
  let networkHeader := toNetworkByteOrder (header p) in
  let buffer := blit 0 (object_bytes networkHeader) buffer in
  if (length (payload p) =? 0)%nat then buffer
  else blit sizeof_PacketHeader (payload p) buffer.

(** What [readHeader] does with a complete header buffer. *)
Definition parse_header (header_buffer : bytes) : PacketHeader :=
  toHostByteOrder (object_of header_buffer).

End Codec.

(** ** Lemmas *)

Section CodecLemmas.
Context `{Host}.

Lemma store32_length v : length (store32 v) = 4%nat.
Proof. unfold store32. destruct host; [apply le_bytes_length|apply be_bytes_length]. Qed.

Lemma ntohl_htonl_load (v : Z) : is_u32 v → ntohl (load32 (be_bytes 4 v)) = v.
Proof.
  intros Hv. rewrite ntohl_load32; [by apply be_val_bytes32|apply be_bytes_wf|].
  apply be_bytes_length.
Qed.

(** The bytes of a header in network byte order: the fields big-endian, with
    two bytes of the storage between [status] and [sequence]. *)
Lemma object_bytes_network `{Storage} h :
  ∃ p1 p2, is_u8 p1 ∧ is_u8 p2 ∧
    object_bytes (toNetworkByteOrder h) =
      be_bytes 4 (hd_length h) ++ [hd_packetId h; hd_status h; p1; p2] ++
      be_bytes 4 (hd_sequence h).
Proof.
  unfold object_bytes. pose proof (storage_length (toNetworkByteOrder h)) as Hl.
  pose proof (storage_wf (toNetworkByteOrder h)) as Hw.
  destruct (storage (toNetworkByteOrder h))
    as [|a0 [|a1 [|a2 [|a3 [|a4 [|a5 [|a6 [|a7 [|a8 [|a9 [|a10 [|a11 [|]]]]]]]]]]]]]
    eqn:E; try discriminate Hl.
  unfold wf_bytes in Hw. exists a6, a7. rewrite !Forall_cons in Hw. split_and!; [naive_solver..|].
  simpl hd_length. simpl hd_sequence. simpl hd_packetId. simpl hd_status.
  rewrite !store32_htonl.
  change (offset 0) with 0%nat. change (offset 1) with 4%nat.
  change (offset 2) with 5%nat. change (offset 3) with 8%nat.
  rewrite (blit_app 8 (be_bytes 4 _) [a0;a1;a2;a3;a4;a5;a6;a7] [a8;a9;a10;a11] [])
    by (rewrite ?be_bytes_length; done).
  rewrite app_nil_r.
  set (q := be_bytes 4 (hd_sequence h)).
  rewrite (blit_app 5 [_] [a0;a1;a2;a3;a4] [a5] ([a6;a7] ++ q)) by done.
  rewrite (blit_app 4 [_] [a0;a1;a2;a3] [a4] ([hd_status h] ++ [a6;a7] ++ q)) by done.
  rewrite (blit_0 _ [a0;a1;a2;a3]) by (rewrite ?be_bytes_length; done).
  done.
Qed.

Lemma object_bytes_length `{Storage} h :
  length (object_bytes (toNetworkByteOrder h)) = sizeof_PacketHeader.
Proof.
  destruct (object_bytes_network h) as (p1 & p2 & _ & _ & ->).
  rewrite !length_app, !be_bytes_length. done.
Qed.

(** [serialize] is the header's bytes followed by the payload. *)
Lemma serialize_split `{Storage} p :
  serialize p = object_bytes (toNetworkByteOrder (header p)) ++ payload p.
Proof.
  unfold serialize, vec_zero. rewrite replicate_add.
  set (hb := object_bytes _). pose proof (object_bytes_length (header p)) as Hl.
  rewrite (blit_0 hb (replicate sizeof_PacketHeader 0))
    by (rewrite ?length_replicate; done). simpl.
  destruct (Nat.eqb_spec (length (payload p)) 0) as [Hz|Hz].
  { rewrite Hz. simpl. by apply nil_length_inv in Hz as ->. }
  rewrite <-(app_nil_r (replicate (length (payload p)) 0)).
  rewrite (blit_app sizeof_PacketHeader (payload p) hb _ [])
    by (rewrite ?length_replicate; done).
  by rewrite app_nil_r.
Qed.

Lemma serialize_length `{Storage} p :
  length (serialize p) = (sizeof_PacketHeader + length (payload p))%nat.
Proof. by rewrite serialize_split, length_app, object_bytes_length. Qed.

Lemma object_bytes_wf `{Storage} h :
  header_ok h → wf_bytes (object_bytes (toNetworkByteOrder h)).
Proof.
  intros (_ & Hi & Hs & _). destruct (object_bytes_network h) as (p1 & p2 & H1 & H2 & ->).
  rewrite !wf_bytes_app. split; [apply be_bytes_wf|split; [|apply be_bytes_wf]].
  unfold wf_bytes. by rewrite !Forall_cons.
Qed.

Lemma serialize_wf `{Storage} p :
  header_ok (header p) → wf_bytes (payload p) → wf_bytes (serialize p).
Proof.
  intros Hh Hp. rewrite serialize_split, wf_bytes_app. split; [by apply object_bytes_wf|done].
Qed.

End CodecLemmas.

(** A header written on a host of either byte order is read back on a host of
    either byte order. *)
Lemma parse_object_bytes (Hw Hr : Host) `{Storage} h :
  header_ok h → @parse_header Hr (@object_bytes Hw _ (@toNetworkByteOrder Hw h)) = h.
Proof.
  intros (Hl & Hi & Hs & Hq).
  destruct (@object_bytes_network Hw _ h) as (p1 & p2 & _ & _ & ->).
  unfold parse_header, toHostByteOrder, object_of. cbn [field_upd hd_length hd_packetId hd_status hd_sequence].
  change (offset 0) with 0%nat. change (offset 1) with 4%nat.
  change (offset 2) with 5%nat. change (offset 3) with 8%nat.
  set (a := be_bytes 4 (hd_length h)). set (b := be_bytes 4 (hd_sequence h)).
  assert (Ha : length a = 4%nat) by apply be_bytes_length.
  assert (Hb : length b = 4%nat) by apply be_bytes_length.
  rewrite drop_0, (take_app_le a), (take_ge a), (drop_app_ge a) by lia.
  rewrite !(app_nth2 a), Ha by lia. cbn [Nat.sub nth app].
  replace (drop _ _) with b by done. rewrite take_ge by lia.
  unfold a, b. rewrite !ntohl_htonl_load by done. by destruct h.
Qed.

#[global] Arguments sizeof_PacketHeader : simpl never.

(** ** Frames from another machine

    The bytes a peer sends: its byte order and its padding bytes are its own. *)

Record machine := Machine { mc_host : Host; mc_storage : Storage }.

Definition header_on (mc : machine) (h : PacketHeader) : bytes :=
  @object_bytes (mc_host mc) (mc_storage mc) (@toNetworkByteOrder (mc_host mc) h).

Definition frame_on (mc : machine) (p : Packet) : bytes :=
  @serialize (mc_host mc) (mc_storage mc) p.

Lemma header_on_length mc h : length (header_on mc h) = sizeof_PacketHeader.
Proof. apply object_bytes_length. Qed.

Lemma parse_header_on `{Host} mc h : header_ok h → parse_header (header_on mc h) = h.
Proof. apply parse_object_bytes. Qed.

Lemma frame_on_split mc p : frame_on mc p = header_on mc (header p) ++ payload p.
Proof. apply serialize_split. Qed.

Lemma frame_on_wf mc p :
  header_ok (header p) → wf_bytes (payload p) → wf_bytes (frame_on mc p).
Proof. apply serialize_wf. Qed.

(** C40: ** The round trip

    A packet created and serialised on a host of either byte order is read back
    on a host of either byte order from its bytes: the first
    [sizeof(PacketHeader)] bytes give the header, the rest is the payload, and
    the header's [length] is the number of bytes, as long as it fits 32 bits. *)
Theorem tcp_packet_roundtrip (Hw Hr : Host) `{Storage} id st seq pl :
  is_u8 id → is_u8 st → is_u32 seq →
  Z.of_nat sizeof_PacketHeader + blen pl < 2 ^ 32 →
  let p := createPacket id st seq pl in
  let bs := @serialize Hw _ p in
  @parse_header Hr (take sizeof_PacketHeader bs) = header p ∧
  drop sizeof_PacketHeader bs = pl ∧
  hd_length (header p) = blen bs ∧
  hd_packetId (header p) = id ∧ hd_status (header p) = st ∧ hd_sequence (header p) = seq.
Proof.
  intros Hi Hs Hq Hl p bs. subst bs. rewrite (@serialize_split Hw).
  pose proof (@object_bytes_length Hw _ (header p)) as Ho.
  assert (Hn : hd_length (header p) = Z.of_nat sizeof_PacketHeader + blen pl).
  { simpl. apply Z.mod_small. unfold blen in *. lia. }
  split_and!; try done.
  - rewrite <-Ho, take_app_length. apply parse_object_bytes.
    split_and!; try done. rewrite Hn. unfold is_u32, blen in *. lia.
  - by rewrite <-Ho, drop_app_length.
  - rewrite Hn. unfold blen. rewrite length_app, Ho. cbn [payload p createPacket]. lia.
Qed.

(** The comment above the structure announces 10 bytes; the members add up to
    10, but the layout has 12: [sequence] is at offset 8, and every packet the
    programs create has a [length] of at least 12. *)
Theorem header_is_twelve_bytes :
  sizeof_PacketHeader = 12%nat ∧ offset 3 = 8%nat ∧
  foldr Nat.add 0%nat (m_size <$> PacketHeader_members) = 10%nat ∧
  (∀ id st seq, hd_length (header (createPacket id st seq [])) = 12).
Proof. done. Qed.

Definition zero_storage : Storage.
Proof. by exists (λ _, vec_zero 12); intros; vm_compute; repeat constructor. Defined.

Lemma tcp_packet_roundtrip_witness :
  let _ : Storage := zero_storage in
  let p := createPacket REQUEST 0 7 (lit "hi") in
  let bs := @serialize LittleEndian _ p in
  @parse_header BigEndian (take sizeof_PacketHeader bs) = header p ∧
  drop sizeof_PacketHeader bs = lit "hi" ∧
  hd_length (header p) = blen bs ∧
  hd_packetId (header p) = REQUEST ∧ hd_status (header p) = 0 ∧ hd_sequence (header p) = 7.
Proof.
  apply (@tcp_packet_roundtrip LittleEndian BigEndian zero_storage REQUEST 0 7 (lit "hi"));
    by vm_compute.
Defined.
