(* ===== verification/TcpReader.v ===== *)
(** * TcpReader: the packet reader shared by the claude server and client

    [Connection] of claude/asio_server.cpp and [TcpClient] of
    claude/asio_client.cpp hold the same reading members and the same
    [readHeader], [readPayload] and opening of [processPacket]. They are
    modelled once, against the interface [PacketReader] that names what differs
    (what is done with a packet, on an invalid length and on a read error at a
    given time). The
    stream theorem is proved for every instance that satisfies
    [PacketReaderLaws]. *)

From S2P Require Import Prelude Bytes Asio TcpPacket.

Definition MAX_BUFFER_SIZE : Z := 16384.

Inductive ReadState := HEADER | PAYLOAD.

(** The reading members. *)
Record rx := Rx {
  read_state_ : ReadState;
  header_bytes_read_ : nat;
  payload_bytes_read_ : nat;
  current_payload_size_ : nat;
  current_header_ : PacketHeader;
  current_payload_ : bytes;
  header_buffer_ : bytes }.

#[export] Instance eta_rx : Eta rx := λ r,
  Rx (read_state_ r) (header_bytes_read_ r) (payload_bytes_read_ r) (current_payload_size_ r)
     (current_header_ r) (current_payload_ r) (header_buffer_ r).

(** An [async_read] into [header_buffer_] or [current_payload_], with the offset
    and the number of bytes asked for. *)
Inductive read_op :=
| RdHeader (off n : nat)
| RdPayload (off n : nat).

Definition read_size (o : read_op) : nat :=
  match o with RdHeader _ n | RdPayload _ n => n end.

Class PacketReader (St Op P T C : Type) := {
  rx_of : St → rx;
  rx_set : rx → St → St;
  rd : read_op → Op;
  handlePacket : Packet → act St (eff Op P T C) unit;
  closeSocket : act St (eff Op P T C) unit;
  readFailed : Z → act St (eff Op P T C) unit }.

(** The initial values the constructors give ([current_header_] and
    [header_buffer_] are not initialised: arbitrary contents). *)
Definition new_rx (hdr : PacketHeader) (buf : bytes) : rx := Rx HEADER 0 0 0 hdr [] buf.

Section Reader.
Context `{Host} {St Op P T C : Type} `{PacketReader St Op P T C}.
Abbreviation M := (act St (eff Op P T C) unit).

Definition rx_upd (f : rx → rx) : M := modify (λ s, rx_set (f (rx_of s)) s).

Definition processPacket : M :=
  r ← gets rx_of;
  handlePacket (mkPacket (current_header_ r) (current_payload_ r)).

Definition readHeader : M :=
  r ← gets rx_of;
  emit (EStart (rd (RdHeader (header_bytes_read_ r)
                     (sizeof_PacketHeader - header_bytes_read_ r)))).

Definition readPayload : M :=
  r ← gets rx_of;
  emit (EStart (rd (RdPayload (payload_bytes_read_ r)
                     (current_payload_size_ r - payload_bytes_read_ r)))).

(** Ready for the next header. *)
Definition nextHeader : M :=
  rx_upd (λ r, r <| header_bytes_read_ := 0%nat |> <| read_state_ := HEADER |>);; readHeader.

Definition invalid_length (h : PacketHeader) : bool :=
  (hd_length h <? Z.of_nat sizeof_PacketHeader) || (MAX_BUFFER_SIZE <? hd_length h).

(** The completion handler of [readHeader]: the library stored [data] at the
    offset of the operation. *)
Definition onReadHeader (now : Z) (off : nat) (res : io_result) : M :=
  match res with
  | IoOk data =>
      rx_upd (λ r, r <| header_buffer_ := blit off data (header_buffer_ r) |>
                     <| header_bytes_read_ := (header_bytes_read_ r + length data)%nat |>);;
      r ← gets rx_of;
      if (header_bytes_read_ r =? sizeof_PacketHeader)%nat then
        let h := parse_header (header_buffer_ r) in
        rx_upd (λ r, r <| current_header_ := h |>);;
        if invalid_length h then closeSocket
        else
          let size := (Z.to_nat (hd_length h) - sizeof_PacketHeader)%nat in
          rx_upd (λ r, r <| current_payload_size_ := size |>);;
          if (0 <? size)%nat then
            rx_upd (λ r, r <| current_payload_ := vec_resize size (current_payload_ r) |>
                           <| payload_bytes_read_ := 0%nat |> <| read_state_ := PAYLOAD |>);;
            readPayload
          else processPacket;; nextHeader
      else readHeader
  | IoErr aborted => if aborted then skip else readFailed now
  end.

(** The completion handler of [readPayload]. *)
Definition onReadPayload (now : Z) (off : nat) (res : io_result) : M :=
  match res with
  | IoOk data =>
      rx_upd (λ r, r <| current_payload_ := blit off data (current_payload_ r) |>
                     <| payload_bytes_read_ := (payload_bytes_read_ r + length data)%nat |>);;
      r ← gets rx_of;
      if (payload_bytes_read_ r =? current_payload_size_ r)%nat
      then processPacket;; nextHeader
      else readPayload
  | IoErr aborted => if aborted then skip else readFailed now
  end.

Definition onRead (now : Z) (o : read_op) (res : io_result) : M :=
  match o with
  | RdHeader off _ => onReadHeader now off res
  | RdPayload off _ => onReadPayload now off res
  end.

(** A property of handlers that composes holds of the reader if it holds of its
    steps and of what the instance supplies. *)
Lemma onRead_compositional (Pr : ∀ A, act St (eff Op P T C) A → Prop) `{!Compositional Pr} now o res :
  Pr _ skip → Pr _ (gets rx_of) → (∀ f, Pr _ (rx_upd f)) → (∀ o, Pr _ (emit (EStart (rd o)))) →
  (∀ p, Pr _ (handlePacket p)) → Pr _ closeSocket → Pr _ (readFailed now) →
  Pr _ (onRead now o res).
Proof.
  intros Hk Hg Hu He Hp Hc Hf.
  assert (Hr : Pr _ readHeader) by (apply compose; auto).
  assert (Hl : Pr _ readPayload) by (apply compose; auto).
  assert (Hn : Pr _ (processPacket;; nextHeader)).
  { apply compose; [by apply compose|]. intros _. by apply compose. }
  destruct o as [off n|off n], res as [data|[]]; try done; simpl; cbv zeta.
  - apply compose; [done|]. intros _. apply compose; [done|]. intros r.
    destruct (_ =? _)%nat; [|done]. apply compose; [done|]. intros _.
    destruct (invalid_length _); [done|]. apply compose; [done|]. intros _.
    destruct (0 <? _)%nat; [|done]. by apply compose.
  - apply compose; [done|]. intros _. apply compose; [done|]. intros r. by destruct (_ =? _)%nat.
Qed.

End Reader.

(** ** The interface's laws *)

Class PacketReaderLaws {St Op P T C A} {ho : Host} {pr : PacketReader St Op P T C}
    (K : handlers St Op P T C A) := {
  rx_of_set r s : rx_of (rx_set r s) = r;
  rx_set_of s : rx_set (rx_of s) s = s;
  rx_set_set r r' s : rx_set r (rx_set r' s) = rx_set r s;
  handle_rx p s : rx_of (state_of (handlePacket p s)) = rx_of s;
  handle_frame p r s :
    handlePacket p (rx_set r s) =
      (rx_set r (state_of (handlePacket p s)), effs_of (handlePacket p s), ());
  handle_starts p s : started (effs_of (handlePacket p s)) = [];
  rd_kind o : h_kind K (rd o) = KRead (read_size o);
  rd_io now o res : h_io K now (rd o) res = onRead now o res }.

(** ** Specification

    Packets that pass the reader's checks, and what [handlePacket] is given for
    them: the payload vector is not cleared, so a packet without payload comes
    with the payload received before it. *)

Definition packet_ok (p : Packet) : Prop :=
  header_ok (header p) ∧ wf_bytes (payload p) ∧
  hd_length (header p) = Z.of_nat sizeof_PacketHeader + blen (payload p) ∧
  hd_length (header p) <= MAX_BUFFER_SIZE.

#[export] Instance packet_ok_dec p : Decision (packet_ok p).
Proof. unfold packet_ok. apply _. Defined.

Lemma createPacket_ok id st seq pl :
  is_u8 id → is_u8 st → is_u32 seq → wf_bytes pl →
  Z.of_nat sizeof_PacketHeader + blen pl <= MAX_BUFFER_SIZE →
  packet_ok (createPacket id st seq pl).
Proof.
  intros Hi Hs Hq Hw Hl. unfold MAX_BUFFER_SIZE in Hl.
  assert (Hu : u32 (Z.of_nat sizeof_PacketHeader + blen pl) =
                 Z.of_nat sizeof_PacketHeader + blen pl)
    by (apply Z.mod_small; unfold blen in *; lia).
  unfold packet_ok, header_ok, createPacket; cbn [header payload hd_length hd_packetId hd_status
    hd_sequence]. rewrite Hu. unfold is_u32, MAX_BUFFER_SIZE, blen in *.
  split_and!; try done; lia.
Qed.

Definition seen_payload (prev : bytes) (p : Packet) : bytes :=
  match payload p with [] => prev | pl => pl end.

Fixpoint seen (prev : bytes) (ps : list Packet) : list Packet :=
  match ps with
  | [] => []
  | p :: ps' =>
      mkPacket (header p) (seen_payload prev p) :: seen (seen_payload prev p) ps'
  end.

Definition handle_all `{PacketReader St Op P T C} (ps : list Packet) :
    act St (eff Op P T C) unit :=
  foldr (λ p k, handlePacket p;; k) skip ps.

(** The reader between two packets. *)
Definition rx_idle (r : rx) : Prop :=
  header_bytes_read_ r = 0%nat ∧ read_state_ r = HEADER ∧
  length (header_buffer_ r) = sizeof_PacketHeader.

Section Stream.
Context {ho : Host} {St Op P T C A : Type} {pr : PacketReader St Op P T C}.
Context `{EqDecision T} (K : handlers St Op P T C A) {laws : PacketReaderLaws K}.
Context (from : machine).
Implicit Types (s : St) (r : rx) (w : world St Op P T C).

Abbreviation hdr_read := (RdHeader 0 sizeof_PacketHeader).

(** The bytes of a packet's header, as the machine it comes [from] sends it. *)
Definition header_bytes (p : Packet) : bytes := header_on from (header p).

Lemma header_bytes_length p : length (header_bytes p) = sizeof_PacketHeader.
Proof. apply header_on_length. Qed.

Lemma parse_header_bytes p : packet_ok p → parse_header (header_bytes p) = header p.
Proof. intros [Hh _]. by apply parse_header_on. Qed.

Lemma blit_all (src dst : bytes) : length dst = length src → blit 0 src dst = src.
Proof.
  intros Hl. rewrite <-(app_nil_r dst), (blit_0 src dst []) by done. apply app_nil_r.
Qed.

Lemma packet_ok_header p : packet_ok p → invalid_length (header p) = false ∧
  (Z.to_nat (hd_length (header p)) - sizeof_PacketHeader)%nat = length (payload p).
Proof.
  intros (_ & _ & Hl & Hm). unfold invalid_length, blen in *. split; [|lia].
  apply orb_false_intro; apply Z.ltb_ge; lia.
Qed.

(** Equations to run a reader action on a state [rx_set r s]. *)
Lemma rx_upd_run f {B} (k : act St (eff Op P T C) B) r s :
  (rx_upd f;; k) (rx_set r s) = k (rx_set (f r) s).
Proof.
  unfold rx_upd. cbv [mbind act_bind modify]. rewrite rx_of_set, rx_set_set.
  by destruct (k _) as [[??]?].
Qed.

Lemma rx_gets_run {B} (k : rx → act St (eff Op P T C) B) r s :
  (r ← gets rx_of; k r) (rx_set r s) = k r (rx_set r s).
Proof.
  cbv [mbind act_bind gets]. rewrite rx_of_set. by destruct (k _ _) as [[??]?].
Qed.

(** The processing of a packet and the return to the header state. *)
Lemma process_next s r :
  length (header_buffer_ r) = sizeof_PacketHeader →
  let p := mkPacket (current_header_ r) (current_payload_ r) in
  ∃ r', rx_idle r' ∧ current_payload_ r' = current_payload_ r ∧
    (processPacket;; nextHeader) (rx_set r s) =
      (rx_set r' (state_of (handlePacket p s)),
       effs_of (handlePacket p s) ++ [EStart (rd hdr_read)], ()).
Proof.
  intros Hb p. exists (r <| header_bytes_read_ := 0%nat |> <| read_state_ := HEADER |>).
  split; [done|]. split; [done|].
  unfold processPacket. cbv [mbind act_bind gets]. rewrite rx_of_set. fold p.
  rewrite handle_frame. unfold nextHeader. rewrite rx_upd_run.
  unfold readHeader. rewrite rx_gets_run. done.
Qed.

(** A complete valid header: a packet without payload is handled at once,
    otherwise the payload is read next. *)
Lemma header_empty now s r p :
  rx_idle r → packet_ok p → payload p = [] →
  let p' := mkPacket (header p) (current_payload_ r) in
  ∃ r', rx_idle r' ∧ current_payload_ r' = current_payload_ r ∧
    onReadHeader now 0 (IoOk (header_bytes p)) (rx_set r s) =
      (rx_set r' (state_of (handlePacket p' s)),
       effs_of (handlePacket p' s) ++ [EStart (rd hdr_read)], ()).
Proof.
  intros (Hi & _ & Hb) Hp Hpl p'. destruct (packet_ok_header p Hp) as [Hv Hn].
  rewrite Hpl in Hn. unfold onReadHeader. cbv zeta.
  rewrite rx_upd_run, rx_gets_run. cbn [field_upd header_bytes_read_ header_buffer_].
  rewrite blit_all by (by rewrite header_bytes_length).
  rewrite Hi, header_bytes_length, Nat.eqb_refl.
  rewrite !(parse_header_bytes p Hp).
  rewrite rx_upd_run, Hv, Hn, rx_upd_run. change (0 <? length [])%nat with false. cbv iota.
  match goal with |- context [(processPacket;; nextHeader) (rx_set ?R s)] =>
    exact (process_next s R (header_bytes_length p)) end.
Qed.

Lemma header_payload now s r p :
  rx_idle r → packet_ok p → payload p ≠ [] →
  ∃ r', current_header_ r' = header p ∧ payload_bytes_read_ r' = 0%nat ∧
    current_payload_size_ r' = length (payload p) ∧
    length (current_payload_ r') = length (payload p) ∧
    length (header_buffer_ r') = sizeof_PacketHeader ∧
    onReadHeader now 0 (IoOk (header_bytes p)) (rx_set r s) =
      (rx_set r' s, [EStart (rd (RdPayload 0 (length (payload p))))], ()).
Proof.
  intros (Hi & _ & Hb) Hp Hpl. destruct (packet_ok_header p Hp) as [Hv Hn].
  unfold onReadHeader. cbv zeta.
  rewrite rx_upd_run, rx_gets_run. cbn [field_upd header_bytes_read_ header_buffer_].
  rewrite blit_all by (by rewrite header_bytes_length).
  rewrite Hi, header_bytes_length, Nat.eqb_refl.
  rewrite !(parse_header_bytes p Hp).
  rewrite rx_upd_run, Hv, Hn, rx_upd_run.
  rewrite (proj2 (Nat.ltb_lt _ _)) by (destruct (payload p); [done|simpl; lia]).
  rewrite rx_upd_run. unfold readPayload. rewrite rx_gets_run.
  eexists. split_and!; [..|cbn [emit field_upd payload_bytes_read_ current_payload_size_];
    by rewrite Nat.sub_0_r]; try done.
  - apply vec_resize_length.
  - apply header_bytes_length.
Qed.

Lemma payload_done now s r p :
  payload p ≠ [] → current_header_ r = header p → payload_bytes_read_ r = 0%nat →
  current_payload_size_ r = length (payload p) →
  length (current_payload_ r) = length (payload p) →
  length (header_buffer_ r) = sizeof_PacketHeader →
  ∃ r', rx_idle r' ∧ current_payload_ r' = payload p ∧
    onReadPayload now 0 (IoOk (payload p)) (rx_set r s) =
      (rx_set r' (state_of (handlePacket p s)),
       effs_of (handlePacket p s) ++ [EStart (rd hdr_read)], ()).
Proof.
  intros Hpl Hh Hb Hn Hc Hbuf. unfold onReadPayload.
  rewrite rx_upd_run, rx_gets_run.
  cbn [field_upd payload_bytes_read_ current_payload_size_].
  rewrite blit_all, Hb, Hn, Nat.eqb_refl by done.
  assert (Hp : mkPacket (current_header_ r) (payload p) = p) by (rewrite Hh; by destruct p).
  match goal with |- context [(processPacket;; nextHeader) (rx_set ?R s)] =>
    pose proof (process_next s R Hbuf) as Hrun end.
  cbn [field_upd current_header_ current_payload_] in Hrun. rewrite Hp in Hrun. exact Hrun.
Qed.

(** What one completed read does to the world, when its handler is known. *)
Lemma complete_run o r s res s' es l1 l2 w :
  w_st w = rx_set r s → onRead (w_now w) o res (rx_set r s) = (s', es, ()) →
  let w' := complete K (rd o) res (l1 ++ l2) w in
  w_st w' = s' ∧ w_ops w' = (l1 ++ l2) ++ started es ∧
  w_posts w' = w_posts w ++ posted es ∧ w_calls w' = w_calls w ++ called es ∧
  w_sent w' = w_sent w.
Proof.
  intros Hs Hr w'.
  destruct (complete_fields K (rd o) res (l1 ++ l2) w) as (H1 & H2 & H3 & H4 & H5 & _).
  rewrite rd_io, Hs, Hr in H1, H2, H3, H4. rewrite rd_kind in H5. simpl in *.
  split_and!; try done. unfold w'. rewrite H5. by rewrite app_nil_r.
Qed.

(** One whole packet against a world whose only read is a header read. *)
Lemma feed_packet p rest w l1 l2 fuel :
  packet_ok p → w_ops w = l1 ++ rd hdr_read :: l2 →
  Forall (λ o, is_read K o = false) (l1 ++ l2) → rx_idle (rx_of (w_st w)) →
  (2 <= fuel)%nat →
  let pl := seen_payload (current_payload_ (rx_of (w_st w))) p in
  let h := handlePacket (mkPacket (header p) pl) (w_st w) in
  ∃ w' fuel' r', (fuel - 2 <= fuel')%nat ∧
    feed K fuel (frame_on from p ++ rest) w = feed K fuel' rest w' ∧
    w_ops w' = (l1 ++ l2) ++ [rd hdr_read] ∧
    rx_idle r' ∧ current_payload_ r' = pl ∧ w_st w' = rx_set r' (state_of h) ∧
    w_calls w' = w_calls w ++ called (effs_of h) ∧
    w_posts w' = w_posts w ++ posted (effs_of h) ∧ w_sent w' = w_sent w.
Proof.
  intros Hp Hops Hnr Hi Hf pl h. destruct fuel as [|[|fuel]]; [lia..|].
  pose proof (rx_set_of (w_st w)) as Hset. symmetry in Hset.
  assert (Hst : started (effs_of h) = []) by apply handle_starts.
  rewrite frame_on_split. fold (header_bytes p). rewrite <-app_assoc.
  rewrite (feed_read K l1 (rd hdr_read) _ l2 (header_bytes p) _ w (S fuel) Hops Hnr
             (rd_kind hdr_read)) by apply header_bytes_length.
  destruct (decide (payload p = [])) as [Hpl|Hpl].
  - destruct (header_empty (w_now w) (w_st w) _ p Hi Hp Hpl) as (r' & Hr' & Hc & Hrun).
    destruct (complete_run hdr_read _ _ _ _ _ l1 l2 w Hset Hrun) as (E1 & E2 & E3 & E4 & E5).
    assert (Epl : current_payload_ (rx_of (w_st w)) = pl)
      by (unfold pl, seen_payload; by rewrite Hpl).
    rewrite Epl in *. fold h in E1, E2, E3, E4. clearbody h pl.
    rewrite started_app, Hst in E2. rewrite posted_app, app_nil_r in E3.
    rewrite called_app, app_nil_r in E4. rewrite Hpl.
    eexists _, (S fuel), r'. split; [lia|]. split; [done|]. done.
  - destruct (header_payload (w_now w) (w_st w) _ p Hi Hp Hpl)
      as (r1 & Hh & Hb & Hn & Hc & Hbuf & Hrun).
    destruct (complete_run hdr_read _ _ _ _ _ l1 l2 w Hset Hrun) as (E1 & E2 & E3 & E4 & E5).
    set (w1 := complete K _ _ _ w) in *. clearbody w1. simpl in E2.
    rewrite (feed_read K (l1 ++ l2) _ (length (payload p)) [] (payload p) rest w1 fuel E2)
      by (rewrite ?app_nil_r, ?rd_kind; done).
    destruct (payload_done (w_now w1) (w_st w) r1 p Hpl Hh Hb Hn Hc Hbuf) as (r' & Hr' & Hc' & Hrun').
    destruct (complete_run (RdPayload 0 (length (payload p))) _ _ _ _ _ (l1 ++ l2) [] w1 E1 Hrun')
      as (G1 & G2 & G3 & G4 & G5).
    assert (Ep : mkPacket (header p) pl = p)
      by (unfold pl, seen_payload; destruct p as [? [|]]; done).
    unfold h in *. rewrite Ep in *. clear h. rewrite !app_nil_r in *.
    rewrite started_app, Hst in G2. rewrite posted_app, app_nil_r in G3.
    rewrite called_app, app_nil_r in G4.
    eexists _, fuel, r'. split; [lia|]. split; [done|].
    split_and!; try done; try congruence.
    rewrite Hc', <-Ep at 1. done.
Qed.

Lemma handle_all_cons p ps s :
  let r1 := handlePacket p s in let r2 := handle_all ps (state_of r1) in
  handle_all (p :: ps) s = (state_of r2, effs_of r1 ++ effs_of r2, ()).
Proof.
  change (handle_all (p :: ps) s) with ((handlePacket p;; handle_all ps) s).
  cbv [mbind act_bind]. destruct (handlePacket p s) as [[s1 es1] []]. simpl.
  by destruct (handle_all ps s1) as [[s2 es2] []].
Qed.

Lemma handle_all_frame ps r s :
  handle_all ps (rx_set r s) =
    (rx_set r (state_of (handle_all ps s)), effs_of (handle_all ps s), ()).
Proof.
  revert s. induction ps as [|p ps IH]; intros s; [done|].
  rewrite !handle_all_cons, handle_frame. simpl. by rewrite IH.
Qed.

(** The reader on a stream of packets from any machine: every packet is handled, in
    order, with the payload the reader holds by then; the incomplete rest stays
    unread, and the reader waits for a header again. *)
Lemma feed_packets ps rest w l1 l2 fuel :
  Forall packet_ok ps → w_ops w = l1 ++ rd hdr_read :: l2 →
  Forall (λ o, is_read K o = false) (l1 ++ l2) → rx_idle (rx_of (w_st w)) →
  (length rest < sizeof_PacketHeader)%nat → (2 * length ps <= fuel)%nat →
  let h := handle_all (seen (current_payload_ (rx_of (w_st w))) ps) (w_st w) in
  ∃ w' r', feed K fuel (mjoin (frame_on from <$> ps) ++ rest) w = (w', rest) ∧
    reads K (w_ops w') = [rd hdr_read] ∧
    rx_idle r' ∧ w_st w' = rx_set r' (state_of h) ∧
    w_calls w' = w_calls w ++ called (effs_of h) ∧
    w_posts w' = w_posts w ++ posted (effs_of h) ∧ w_sent w' = w_sent w.
Proof.
  intros Hps. revert w l1 l2 fuel.
  induction Hps as [|p ps Hp _ IH]; intros w l1 l2 fuel Hops Hnr Hi Hrest Hf.
  - exists w, (rx_of (w_st w)). simpl.
    rewrite (feed_starved K l1 _ _ l2 rest w fuel Hops Hnr (rd_kind hdr_read)) by done.
    rewrite Hops, sole_read, rx_set_of, !app_nil_r; try done.
    unfold is_read. by rewrite rd_kind.
  - simpl in Hf. rewrite fmap_cons.
    change (mjoin (frame_on from p :: ?l)) with (frame_on from p ++ mjoin l). rewrite <-app_assoc.
    destruct (feed_packet p (mjoin (frame_on from <$> ps) ++ rest) w l1 l2 fuel Hp Hops Hnr Hi)
      as (w1 & fuel1 & r1 & Hf1 & -> & Hops1 & Hi1 & Hc1 & Hs1 & Hca1 & Hpo1 & Hse1); [lia|].
    destruct (IH w1 (l1 ++ l2) [] fuel1) as (w2 & r2 & -> & Hr2 & Hi2 & Hs2 & Hca2 & Hpo2 & Hse2);
      rewrite ?app_nil_r; try done; [by rewrite Hs1, rx_of_set|lia|].
    exists w2, r2. rewrite Hs1, rx_of_set, Hc1, handle_all_frame in *. cbn [seen].
    cbn [state_of effs_of fst snd] in Hs2, Hca2, Hpo2.
    rewrite handle_all_cons. simpl. rewrite called_app, posted_app, !app_assoc.
    rewrite Hs2, rx_set_set, Hca2, Hca1, Hpo2, Hpo1, Hse2, Hse1. done.
Qed.

Lemma tcp_frames_wf ps : Forall packet_ok ps → wf_bytes (mjoin (frame_on from <$> ps)).
Proof.
  induction 1 as [|p ps Hp _ IH]; [constructor|].
  apply wf_bytes_app. split; [apply frame_on_wf; apply Hp|done].
Qed.

(** A complete header whose length is out of range: the socket is closed, and
    no further read is started. *)
Lemma header_rejected now s r hdr :
  rx_idle r → header_ok hdr → invalid_length hdr = true →
  ∃ r', onReadHeader now 0 (IoOk (header_on from hdr)) (rx_set r s) =
    closeSocket (rx_set r' s).
Proof.
  intros (Hi & _ & Hb) Hh Hv. unfold onReadHeader. cbv zeta.
  rewrite rx_upd_run, rx_gets_run. cbn [field_upd header_bytes_read_ header_buffer_].
  rewrite blit_all by (by rewrite header_on_length).
  rewrite Hi, header_on_length, Nat.eqb_refl.
  rewrite !parse_header_on by done. rewrite rx_upd_run, Hv. by eexists.
Qed.

(** ** The reader's own invariant

    [rd_ok r o]: [o] is the read the reader waits for, and it stays inside its
    buffer. *)
Definition rd_ok (r : rx) (o : read_op) : Prop :=
  length (header_buffer_ r) = sizeof_PacketHeader ∧
  match o with
  | RdHeader off n => off = 0%nat ∧ n = sizeof_PacketHeader ∧ header_bytes_read_ r = 0%nat
  | RdPayload off n =>
      off = 0%nat ∧ payload_bytes_read_ r = 0%nat ∧ current_payload_size_ r = n ∧
      length (current_payload_ r) = n ∧ (0 < n)%nat ∧
      Z.of_nat (n + sizeof_PacketHeader) <= MAX_BUFFER_SIZE
  end.

Lemma rx_idle_rd_ok r : rx_idle r → rd_ok r hdr_read.
Proof. by intros (? & ? & ?). Qed.

(** Whatever bytes arrive, the read they complete is followed by closing the
    socket, or by the next read in bounds, after at most one packet. *)
Lemma reader_step now r s o data :
  rd_ok r o → length data = read_size o →
  (∃ r', onRead now o (IoOk data) (rx_set r s) = closeSocket (rx_set r' s)) ∨
  (∃ r' o', rd_ok r' o' ∧
     onRead now o (IoOk data) (rx_set r s) = (rx_set r' s, [EStart (rd o')], ())) ∨
  (∃ r' p, rd_ok r' hdr_read ∧
     onRead now o (IoOk data) (rx_set r s) =
       (rx_set r' (state_of (handlePacket p s)),
        effs_of (handlePacket p s) ++ [EStart (rd hdr_read)], ())).
Proof.
  intros [Hb Ho] Hd. destruct o as [off n|off n]; cbn [read_size onRead] in Hd |- *.
  - destruct Ho as (-> & -> & Hi). unfold onReadHeader. cbv zeta.
    rewrite rx_upd_run, rx_gets_run. cbn [field_upd header_bytes_read_ header_buffer_].
    rewrite blit_all by lia. rewrite Hi, Hd, Nat.eqb_refl. set (h := parse_header data).
    rewrite rx_upd_run. destruct (invalid_length h) eqn:Hv; [left; by eexists|].
    right. rewrite rx_upd_run. set (sz := (Z.to_nat (hd_length h) - sizeof_PacketHeader)%nat).
    destruct (0 <? sz)%nat eqn:Hpos; [apply Nat.ltb_lt in Hpos|].
    + left. rewrite rx_upd_run. unfold readPayload. rewrite rx_gets_run.
      cbn [emit field_upd payload_bytes_read_ current_payload_size_]. rewrite Nat.sub_0_r.
      eexists _, _. split; [|done]. split; [done|]. split_and!; try done.
      * apply vec_resize_length.
      * apply orb_false_elim in Hv as [Hv1%Z.ltb_ge Hv2%Z.ltb_ge]. lia.
    + right. match goal with |- context [(processPacket;; nextHeader) (rx_set ?R s)] =>
        destruct (process_next s R Hd) as (r' & Hr' & _ & Hrun) end.
      eexists r', _. split; [by apply rx_idle_rd_ok|exact Hrun].
  - destruct Ho as (-> & Hp0 & Hsz & Hl & Hpos & Hmax). unfold onReadPayload.
    rewrite rx_upd_run, rx_gets_run.
    cbn [field_upd payload_bytes_read_ current_payload_size_].
    rewrite Hp0, Hd, Hsz, Nat.eqb_refl. right. right.
    match goal with |- context [(processPacket;; nextHeader) (rx_set ?R s)] =>
      destruct (process_next s R Hb) as (r' & Hr' & _ & Hrun) end.
    eexists r', _. split; [by apply rx_idle_rd_ok|exact Hrun].
Qed.

End Stream.
