(* ===== verification/TcpConnection.v ===== *)
(** * TcpConnection: one connection of the claude server

    Class [Connection] of claude/asio_server.cpp. All its handlers run on its
    strand, so a connection is one machine of the I/O contract: its outstanding
    reads and writes, the closures posted to its strand, and its calls into the
    server and the user's packet callback. Reading is the shared reader of
    TcpReader.v; the instance is [connection_reader]. *)

From S2P Require Import Prelude Bytes Asio TcpPacket TcpReader.

#[local] Arguments lit : simpl never.

Inductive c_op := CRead (o : read_op) | CWrite (bs : bytes).

(** Closures posted to the strand: by [sendPacket] and by [close]. *)
Inductive c_post := PSend (serialized : bytes) | PClose.

(** Calls out of the connection: [packetCallback_(id_, packet)] and
    [server_.unregisterConnection(id_)]. *)
Inductive c_call :=
| CPacket (f : nat) (connectionId : Z) (packet : Packet)
| CUnregister (connectionId : Z).

(** The connection uses no timer. *)
Abbreviation c_timer := Empty_set.

Record connection := mkConnection {
  socket_open : bool;            (* socket_.is_open() *)
  server_id : bytes;             (* server_.getServerId() *)
  id_ : Z;
  client_id_ : bytes;
  write_queue_ : list bytes;
  packetCallback_ : std_function;
  closedCallback_ : std_function;
  reading : rx }.

#[export] Instance eta_connection : Eta connection := λ c,
  mkConnection (socket_open c) (server_id c) (id_ c) (client_id_ c) (write_queue_ c)
    (packetCallback_ c) (closedCallback_ c) (reading c).

Definition new_connection (serverId : bytes) (id : Z) (hdr : PacketHeader) (buf : bytes) :
    connection :=
  mkConnection true serverId id (lit "unknown") [] None None (new_rx hdr buf).

Abbreviation c_eff := (eff c_op c_post c_timer c_call).
Abbreviation M := (act connection c_eff).

Section Connection.
Context `{Host} `{Storage}.

(** [write_queue_.front()] is only evaluated on a non-empty queue
    ([connection_write_fifo]). *)
Definition doWrite : M unit :=
  q ← gets write_queue_;
  match q with
  | [] => skip
  | front :: _ => emit (EStart (CWrite front))
  end.

Definition onWrite (res : io_result) : M unit :=
  match res with
  | IoOk _ =>
      modify (λ c, c <| write_queue_ := tail (write_queue_ c) |>);;
      q ← gets write_queue_;
      match q with [] => skip | _ :: _ => doWrite end
  | IoErr aborted =>
      if aborted then skip else i ← gets id_; emit (ECall (CUnregister i))
  end.

Definition sendPacket (packet : Packet) : M unit :=
  emit (EPost (PSend (serialize packet))).

(** The closure posted by [sendPacket]. *)
Definition send_posted (serialized : bytes) : M unit :=
  q ← gets write_queue_;
  let write_in_progress := match q with [] => false | _ :: _ => true end in
  modify (λ c, c <| write_queue_ := write_queue_ c ++ [serialized] |>);;
  if write_in_progress then skip else doWrite.

Definition sendData (packetId status sequence : Z) (data : bytes) : M unit :=
  sendPacket (createPacket packetId status sequence data).

Definition close : M unit := emit (EPost PClose).

(** The closure posted by [close]. *)
Definition close_posted : M unit :=
  o ← gets socket_open;
  if o : bool then emit EClose;; modify (λ c, c <| socket_open := false |>) else skip.

(** [processPacket] after the packet is put together. *)
Definition handle_packet (packet : Packet) : M unit :=
  cb ← gets packetCallback_;
  i ← gets id_;
  match cb with Some f => emit (ECall (CPacket f i packet)) | None => skip end;;
  let pid := hd_packetId (header packet) in
  let sequence := hd_sequence (header packet) in
  if pid =? BIND then
    modify (λ c, c <| client_id_ :=
      match payload packet with [] => lit "unknown" | pl => pl end |>);;
    sid ← gets server_id;
    sendData BIND_RESP 0 sequence sid
  else if pid =? REQUEST then sendData RESPONSE 0 sequence (payload packet)
  else skip.

#[global] Instance connection_reader : PacketReader connection c_op c_post c_timer c_call := {
  rx_of := reading;
  rx_set r c := c <| reading := r |>;
  rd := CRead;
  handlePacket := handle_packet;
  closeSocket := close;
  readFailed _ := i ← gets id_; emit (ECall (CUnregister i)) }.

Definition start (packetCallback closedCallback : std_function) : M unit :=
  modify (λ c, c <| packetCallback_ := packetCallback |>
                 <| closedCallback_ := closedCallback |>);;
  readHeader.

(** Calls the server and the user make on a started connection ([start] is
    called once, when the connection was accepted). *)
Inductive c_api :=
| ASendPacket (packet : Packet)
| ASendData (packetId status sequence : Z) (data : bytes)
| AClose
| ASetServerId (serverId : bytes).

Definition connection_api (now : Z) (a : c_api) : M unit :=
  match a with
  | ASendPacket p => sendPacket p
  | ASendData i s q d => sendData i s q d
  | AClose => close
  | ASetServerId i => modify (λ c, c <| server_id := i |>)
  end.

Definition connection_kind (o : c_op) : io_kind :=
  match o with
  | CRead o => KRead (read_size o)
  | CWrite bs => KWrite bs
  end.

Definition connection_io (now : Z) (o : c_op) (res : io_result) : M unit :=
  match o with
  | CRead o => onRead now o res
  | CWrite _ => onWrite res
  end.

Definition connection_post (now : Z) (p : c_post) : M unit :=
  match p with
  | PSend bs => send_posted bs
  | PClose => close_posted
  end.

Definition connection_handlers : handlers connection c_op c_post c_timer c_call c_api :=
  Handlers connection_kind connection_io connection_post (λ _ t _, match t with end)
    connection_api.

#[global] Instance connection_reader_laws : PacketReaderLaws connection_handlers.
Proof.
  split; try done.
  - by intros [].
  - intros p s. simpl. unfold handle_packet, sendData, sendPacket. unact. run_cases.
  - intros p r []. simpl. unfold handle_packet, sendData, sendPacket. unact. run_cases.
  - intros p s. simpl. unfold handle_packet, sendData, sendPacket. unact. run_cases.
Qed.

End Connection.
Abbreviation CH := connection_handlers.
