(* ===== verification/TcpConnectionProps.v ===== *)
(** * TcpConnectionProps: what a connection of the claude server promises

    - writing: the frames handed to [sendPacket] go out whole, once and in
      order; a write is outstanding only for the front of [write_queue_], and
      as long as writes succeed everything submitted is sent;
    - reading: every outstanding read stays inside its buffer;
    - serving: a stream of packets becomes callbacks and replies, in order. *)

From S2P Require Import Prelude Bytes Asio TcpPacket TcpReader TcpConnection.

#[local] Arguments lit : simpl never.

Section Props.
Context {ho : Host} {sg : Storage}.
Implicit Types (c : connection) (w : world connection c_op c_post c_timer c_call).

(** ** Writing *)

Definition writes (ops : list c_op) : list bytes :=
  omap (λ o, match o with CWrite bs => Some bs | CRead _ => None end) ops.

Definition submitted (ps : list c_post) : list bytes :=
  omap (λ p, match p with PSend bs => Some bs | PClose => None end) ps.

(** Everything the connection was asked to send and did not lose: what went
    out, then the queue, then what is still on its way to the strand. *)
Definition out_stream c (ps : list c_post) (sent : bytes) : bytes :=
  sent ++ mjoin (write_queue_ c) ++ mjoin (submitted ps).

(** At most one write, and it is the front of the queue. *)
Definition write_discipline c (ops : list c_op) : Prop :=
  writes ops = [] ∨ ∃ b q, write_queue_ c = b :: q ∧ writes ops = [b].

Lemma conn_writes_app l1 l2 : writes (l1 ++ l2) = writes l1 ++ writes l2.
Proof. apply omap_app. Qed.

Lemma submitted_app l1 l2 : submitted (l1 ++ l2) = submitted l1 ++ submitted l2.
Proof. apply omap_app. Qed.

(** Handlers that leave the queue alone and start no write. *)
Definition quiet {B} (m : M B) : Prop :=
  ∀ c, write_queue_ (state_of (m c)) = write_queue_ c ∧
       writes (started (effs_of (m c))) = [].

#[local] Instance quiet_compositional : Compositional (@quiet).
Proof.
  intros A B m k Hm Hk c. cbv [mbind act_bind]. destruct (Hm c) as [Hq Hs].
  destruct (m c) as [[c1 e1] a]. simpl in *. destruct (Hk a c1) as [Hq' Hs'].
  destruct (k a c1) as [[c2 e2] b]. simpl in *.
  rewrite started_app, conn_writes_app, Hs, Hs'. split; [congruence|done].
Qed.

Lemma quiet_handle p : quiet (handle_packet p).
Proof. intros c. unfold handle_packet, sendData, sendPacket. unact. run_cases. Qed.

Lemma quiet_read now o res : quiet (onRead now o res).
Proof. apply (onRead_compositional (@quiet)); try done. apply quiet_handle. Qed.

(** The invariant: what was submitted stays in the stream, in order. *)
Definition fifo (base : bytes) c (ops : list c_op) (ps : list c_post) (sent : bytes) : Prop :=
  write_discipline c ops ∧ base `prefix_of` out_stream c ps sent.

Lemma fifo_quiet {B} (m : M B) base c ops ps sent :
  quiet m → fifo base c ops ps sent →
  let r := m c in
  fifo base (state_of r) (ops ++ started (effs_of r)) (ps ++ posted (effs_of r)) sent.
Proof.
  intros Hq [Hd Hp] r. destruct (Hq c) as [Eq Es]. fold r in Eq, Es. split.
  - unfold write_discipline. by rewrite conn_writes_app, Es, app_nil_r, Eq.
  - etrans; [exact Hp|]. unfold out_stream.
    rewrite Eq, submitted_app, join_app, !app_assoc. by apply prefix_app_r.
Qed.

Lemma fifo_send base c ops ps sent bs :
  fifo base c ops (PSend bs :: ps) sent →
  let r := send_posted bs c in
  fifo base (state_of r) (ops ++ started (effs_of r)) (ps ++ posted (effs_of r)) sent.
Proof.
  intros [Hd Hp]. unfold send_posted, doWrite. unact. unfold fifo, out_stream in *.
  simpl in Hp. destruct (write_queue_ c) as [|b q] eqn:Eq; simpl; rewrite ?Eq; simpl.
  - destruct Hd as [Hw|(? & ? & ? & ?)]; [|congruence].
    split; [|by rewrite !app_nil_r].
    right. exists bs, []. by rewrite conn_writes_app, Hw.
  - rewrite !app_nil_r, join_app. simpl. rewrite app_nil_r, <-!app_assoc in *.
    change (mjoin (b :: q)) with (b ++ mjoin q) in Hp. rewrite <-app_assoc in Hp.
    split; [|done]. destruct Hd as [Hw|(b' & q' & Hq & Hw)]; [by left|right].
    rewrite Eq in Hq. injection Hq as -> ->. by exists b', (q' ++ [bs]).
Qed.

Lemma fifo_written base c l1 l2 ps sent bs res :
  fifo base c (l1 ++ CWrite bs :: l2) ps sent →
  let r := onWrite res c in
  fifo base (state_of r) ((l1 ++ l2) ++ started (effs_of r)) (ps ++ posted (effs_of r))
    (sent ++ written (KWrite bs) res).
Proof.
  intros [Hd Hp]. unfold fifo, write_discipline, out_stream in *.
  rewrite conn_writes_app in Hd. destruct Hd as [Hw|(b & q & Hq & Hw)].
  { by apply app_nil in Hw as [_ ?]. }
  assert (writes l1 = [] ∧ writes l2 = [] ∧ bs = b) as (Hl1 & Hl2 & ->).
  { simpl in Hw. destruct (writes l1) as [|? [|]]; simplify_eq/=; done. }
  rewrite Hq in Hp. simpl in Hp. destruct res as [data|[]]; simpl.
  - unact. rewrite Hq. simpl. destruct q as [|b' q]; simpl.
    + rewrite !app_nil_r, !conn_writes_app, Hl1, Hl2. split; [by left|].
      by rewrite app_nil_r, <-app_assoc in *.
    + rewrite !conn_writes_app, Hl1, Hl2, app_nil_r. split; [right; by exists b', q|].
      change (mjoin (b' :: q)) with (b' ++ mjoin q) in Hp.
      by rewrite app_nil_r, <-!app_assoc in *.
  - rewrite !app_nil_r, conn_writes_app, Hl1, Hl2, Hq. split; [by left|done].
  - unact. rewrite !app_nil_r, conn_writes_app, Hl1, Hl2, Hq. split; [by left|done].
Qed.

Lemma fifo_reachable base w0 w :
  reachable CH w0 w → fifo base (w_st w0) (w_ops w0) (w_posts w0) (w_sent w0) →
  fifo base (w_st w) (w_ops w) (w_posts w) (w_sent w).
Proof.
  intros Hr H0. apply (step_ops_invariant CH (fifo base)) with w0; [..|done|done].
  - intros c ops ps sent now [bs|] HI; simpl; [by apply fifo_send|].
    apply fifo_quiet; [|done]. intros c'. unfold close_posted. unact. run_cases.
  - intros c l1 l2 ps sent now [o|bs] res HI _; simpl; [|by apply fifo_written].
    replace (sent ++ _) with sent by (by destruct res; simpl; rewrite app_nil_r).
    apply fifo_quiet; [apply quiet_read|].
    destruct HI as [Hd Hp]. split; [|done].
    unfold write_discipline in *. by rewrite conn_writes_app in *.
  - intros c ops ps sent now [].
  - intros c ops ps sent now a HI. apply fifo_quiet; [|done]. by destruct a.
Qed.


(** ** Progress of the writer *)

(** No write has failed: a write is outstanding whenever the queue is not
    empty. *)
Definition writing_ok c (ops : list c_op) : Prop :=
  writes ops = take 1 (write_queue_ c).

Lemma write_op_split ops b :
  writes ops = [b] → ∃ l1 l2, ops = l1 ++ CWrite b :: l2 ∧ writes (l1 ++ l2) = [].
Proof.
  induction ops as [|[o|bs] ops IH]; simpl; [done|..].
  - intros (l1 & l2 & -> & Hl)%IH. by exists (CRead o :: l1), l2.
  - intros [= -> Hn]. by exists [], ops.
Qed.

(** One successful write takes the front frame out. *)
Lemma flush_one w b q :
  write_queue_ (w_st w) = b :: q → writing_ok (w_st w) (w_ops w) →
  ∃ w', step CH w w' ∧ write_queue_ (w_st w') = q ∧ writing_ok (w_st w') (w_ops w') ∧
    w_posts w' = w_posts w ∧ w_sent w' = w_sent w ++ b.
Proof.
  intros Hq Hok. unfold writing_ok in *. rewrite Hq in Hok. simpl in Hok.
  destruct (write_op_split _ _ Hok) as (l1 & l2 & Hops & Hn).
  eexists. split; [apply (step_io CH w _ l1 l2 (IoOk []) Hops); done|].
  destruct (complete_fields CH (CWrite b) (IoOk []) (l1 ++ l2) w)
    as (-> & -> & -> & _ & -> & _). simpl. unact. rewrite Hq. simpl.
  destruct q as [|b' q]; simpl; rewrite ?app_nil_r; [done|]. by rewrite conn_writes_app, Hn.
Qed.

Lemma flush_queue w :
  writing_ok (w_st w) (w_ops w) →
  ∃ w', reachable CH w w' ∧ write_queue_ (w_st w') = [] ∧ writes (w_ops w') = [] ∧
    w_posts w' = w_posts w ∧ w_sent w' = w_sent w ++ mjoin (write_queue_ (w_st w)).
Proof.
  remember (write_queue_ (w_st w)) as q eqn:Hq. revert w Hq.
  induction q as [|b q IH]; intros w Hq Hok.
  { exists w. unfold writing_ok in Hok. rewrite <-Hq in *. simpl. rewrite app_nil_r.
    split; [apply rtc_refl|done]. }
  destruct (flush_one w b q) as (w1 & Hs & Hq1 & Hok1 & Hp1 & Hse1); [done..|].
  destruct (IH w1) as (w2 & Hr & Hq2 & Hw2 & Hp2 & Hse2); [done..|].
  exists w2. split; [by eapply rtc_l|]. rewrite Hse2, Hse1, Hp2, Hp1, <-app_assoc. done.
Qed.

(** Running what was posted to the strand. *)
Lemma run_posts ps w :
  w_posts w = PSend <$> ps → writing_ok (w_st w) (w_ops w) →
  ∃ w', reachable CH w w' ∧ w_posts w' = [] ∧ w_sent w' = w_sent w ∧
    write_queue_ (w_st w') = write_queue_ (w_st w) ++ ps ∧ writing_ok (w_st w') (w_ops w').
Proof.
  revert w. induction ps as [|bs ps IH]; intros w Hp Hok.
  { exists w. rewrite app_nil_r. split; [apply rtc_refl|done]. }
  rewrite fmap_cons in Hp.
  destruct (run_fields (h_post CH (w_now w) (PSend bs)) (w <| w_posts := PSend <$> ps |>))
    as (Hst & Hops & Hpo & _ & Hse & _).
  remember (run _ (w <| w_posts := PSend <$> ps |>)) as w1 eqn:E1.
  assert (write_queue_ (w_st w1) = write_queue_ (w_st w) ++ [bs] ∧
          writing_ok (w_st w1) (w_ops w1) ∧ w_posts w1 = PSend <$> ps) as (Hq1 & Hok1 & Hp1).
  { unfold writing_ok in *. rewrite Hst, Hops, Hpo, conn_writes_app. simpl.
    unfold send_posted, doWrite. unact.
    destruct (write_queue_ (w_st w)) eqn:Eq; simpl; rewrite ?Hok, ?Eq; simpl;
      by rewrite app_nil_r. }
  destruct (IH w1 Hp1 Hok1) as (w2 & Hr & Hp2 & Hse2 & Hq2 & Hok2).
  exists w2. split; [|split_and!; try done].
  - eapply rtc_l; [|exact Hr]. rewrite E1. by apply (step_post CH w).
  - by rewrite Hse2, Hse.
  - by rewrite Hq2, Hq1, <-app_assoc.
Qed.

(** As long as no write has failed, every frame submitted so far does go out:
    there is a run of the closures and writes outstanding at whose end exactly
    the queued and posted frames were sent, in order, and nothing is left. *)
Theorem connection_flushes frames w :
  w_posts w = PSend <$> frames → writing_ok (w_st w) (w_ops w) →
  ∃ w', reachable CH w w' ∧
    w_sent w' = w_sent w ++ mjoin (write_queue_ (w_st w)) ++ mjoin frames ∧
    write_queue_ (w_st w') = [] ∧ w_posts w' = [] ∧ writes (w_ops w') = [].
Proof.
  intros Hp Hok. destruct (run_posts frames w Hp Hok) as (w1 & Hr1 & Hp1 & Hs1 & Hq1 & Hok1).
  destruct (flush_queue w1 Hok1) as (w2 & Hr2 & Hq2 & Hw2 & Hp2 & Hs2).
  exists w2. split; [unfold reachable in *; by etrans|]. rewrite Hs2, Hs1, Hq1, join_app, Hp2. done.
Qed.

(** ** Reading *)

(** A read writes inside the buffer it was given. *)
Definition read_in_bounds c (o : c_op) : Prop :=
  match o with
  | CRead (RdHeader off n) => (off + n <= length (header_buffer_ (reading c)))%nat
  | CRead (RdPayload off n) => (off + n <= length (current_payload_ (reading c)))%nat
  | CWrite _ => True
  end.

(** The reader waits for at most one read, and it is the one its state says. *)
Definition reading_ok c (ops : list c_op) (_ : list c_post) (_ : bytes) : Prop :=
  reads CH ops = [] ∨ ∃ o, reads CH ops = [CRead o] ∧ rd_ok (reading c) o.

(** Handlers that do not read. *)
Lemma reading_ok_frame {B} (m : M B) c ops ps sent :
  (∀ c, reading (state_of (m c)) = reading c ∧ reads CH (started (effs_of (m c))) = []) →
  reading_ok c ops ps sent →
  let r := m c in
  reading_ok (state_of r) (ops ++ started (effs_of r)) (ps ++ posted (effs_of r)) sent.
Proof.
  intros Hm HI r. destruct (Hm c) as [Hr Hs]. fold r in Hr, Hs.
  unfold reading_ok in *. by rewrite reads_app, Hs, Hr, app_nil_r.
Qed.

Lemma reads_split l1 o l2 :
  is_read CH o = true → reads CH (l1 ++ o :: l2) = reads CH l1 ++ o :: reads CH l2.
Proof.
  intros Ho. rewrite reads_app. unfold reads at 2. by rewrite filter_cons_True.
Qed.

Lemma reading_ok_read c l1 l2 ps sent now o res :
  reading_ok c (l1 ++ CRead o :: l2) ps sent →
  io_allowed (KRead (read_size o)) res →
  let r := connection_io now (CRead o) res c in
  reading_ok (state_of r) ((l1 ++ l2) ++ started (effs_of r)) ps sent.
Proof.
  intros HI Ha. unfold reading_ok in HI. rewrite reads_split in HI by done.
  destruct HI as [HI|(o' & HI & Hok)]; [by destruct (reads CH l1)|].
  assert (reads CH (l1 ++ l2) = [] ∧ o' = o) as [Hn ->].
  { rewrite reads_app. destruct (reads CH l1) as [|? [|]]; simplify_eq/=; done. }
  assert (Hset : rx_set (reading c) c = c) by by destruct c.
  destruct res as [data|ab].
  - destruct Ha as [Hl _]. simpl.
    destruct (reader_step CH now (reading c) c o data Hok Hl)
      as [(r' & Hrun)|[(r' & o' & Hok' & Hrun)|(r' & p & Hok' & Hrun)]];
      rewrite Hset in Hrun; rewrite Hrun; simpl; unfold reading_ok.
    + left. by rewrite app_nil_r.
    + right. exists o'. by rewrite reads_app, Hn.
    + right. exists (RdHeader 0 sizeof_PacketHeader). split; [|done].
      rewrite started_app, !reads_app. simpl.
      pose proof (handle_starts (PacketReaderLaws:=connection_reader_laws) p c) as Hs.
      simpl in Hs. rewrite Hs, <-reads_app, Hn. done.
  - left. rewrite reads_app, Hn. destruct o, ab; done.
Qed.

(** C16: Over every run of a started connection, whatever bytes the peer sends, at
    most one read is outstanding and it stays inside [header_buffer_] or
    [current_payload_]. *)
Theorem connection_reads_in_bounds pcb ccb serverId id hdr buf now w :
  length buf = sizeof_PacketHeader →
  reachable CH (run (start pcb ccb) (init_world (new_connection serverId id hdr buf) now)) w →
  (length (reads CH (w_ops w)) <= 1)%nat ∧ Forall (read_in_bounds (w_st w)) (w_ops w).
Proof.
  intros Hbuf Hr.
  assert (Hok : reading_ok (w_st w) (w_ops w) (w_posts w) (w_sent w)).
  { eapply (step_ops_invariant CH reading_ok); [..|exact Hr].
    - intros c ops ps sent n [bs|] HI; simpl; apply reading_ok_frame; try done; intros c';
        unfold send_posted, doWrite, close_posted; unact; run_cases.
    - intros c l1 l2 ps sent n [o|bs] res HI Ha; simpl.
      + exact (reading_ok_read _ _ _ _ _ n _ _ HI Ha).
      + apply (reading_ok_frame (onWrite res)).
        { intros c'. unfold onWrite, doWrite. destruct res as [?|[]]; unact; run_cases. }
        unfold reading_ok in *. by rewrite reads_app in *.
    - intros ? ? ? ? ? [].
    - intros c ops ps sent n a HI. apply reading_ok_frame; [by destruct a|done].
    - right. exists (RdHeader 0 sizeof_PacketHeader). done. }
  assert (Hin : ∀ o, CRead o ∈ w_ops w → CRead o ∈ reads CH (w_ops w))
    by (intros o Ho; by apply list_elem_of_filter).
  destruct Hok as [Hn|(o & Ho & Hb & Hok)]; split; rewrite ?Hn, ?Ho; simpl; try lia;
    apply Forall_forall; intros [o'|bs] Hmem; try done; apply Hin in Hmem.
  - rewrite Hn in Hmem. by apply not_elem_of_nil in Hmem.
  - rewrite Ho in Hmem. apply list_elem_of_singleton in Hmem as [= ->].
    destruct o as [off n|off n]; simpl in *; lia.
Qed.

(** ** Serving *)

(** The packet callback for one packet, and the frame the connection answers
    with by itself. *)
Definition packet_calls c (p : Packet) : list c_call :=
  match packetCallback_ c with Some f => [CPacket f (id_ c) p] | None => [] end.

Definition auto_reply (serverId : bytes) (p : Packet) : list bytes :=
  let pid := hd_packetId (header p) in
  let seq := hd_sequence (header p) in
  if pid =? BIND then [serialize (createPacket BIND_RESP 0 seq serverId)]
  else if pid =? REQUEST then [serialize (createPacket RESPONSE 0 seq (payload p))]
  else [].

(** The client id after some packets: that of the last bind. *)
Definition bound_id (client_id : bytes) (p : Packet) : bytes :=
  if hd_packetId (header p) =? BIND
  then match payload p with [] => lit "unknown" | pl => pl end
  else client_id.

Lemma handle_packet_run p c :
  let r := handle_packet p c in
  called (effs_of r) = packet_calls c p ∧
  posted (effs_of r) = PSend <$> auto_reply (server_id c) p ∧
  state_of r = c <| client_id_ := bound_id (client_id_ c) p |>.
Proof.
  unfold handle_packet, sendData, sendPacket, auto_reply, packet_calls, bound_id.
  destruct c as [? ? ? ? ? [f|] ? ?]; unact;
    destruct (hd_packetId (header p) =? BIND), (hd_packetId (header p) =? REQUEST); done.
Qed.

Lemma handle_all_run ps c :
  let r := handle_all ps c in
  called (effs_of r) = (ps ≫= packet_calls c) ∧
  posted (effs_of r) = PSend <$> (ps ≫= auto_reply (server_id c)) ∧
  state_of r = c <| client_id_ := foldl bound_id (client_id_ c) ps |>.
Proof.
  revert c. induction ps as [|p ps IH]; intros c; [by destruct c|].
  rewrite handle_all_cons. simpl. destruct (handle_packet_run p c) as (Hc & Hp & Hs).
  rewrite called_app, posted_app, !Hc, !Hp, !Hs, fmap_app.
  destruct (IH (c <| client_id_ := bound_id (client_id_ c) p |>)) as (-> & -> & ->).
  destruct c; done.
Qed.

Lemma connection_feed (from : machine) ps rest w fuel :
  Forall packet_ok ps →
  reads CH (w_ops w) = [CRead (RdHeader 0 sizeof_PacketHeader)] → rx_idle (reading (w_st w)) →
  (length rest < sizeof_PacketHeader)%nat → (2 * length ps <= fuel)%nat →
  let c := w_st w in
  let got := seen (current_payload_ (reading c)) ps in
  ∃ w', feed CH fuel (mjoin (frame_on from <$> ps) ++ rest) w = (w', rest) ∧
    w_calls w' = w_calls w ++ (got ≫= packet_calls c) ∧
    w_posts w' = w_posts w ++ (PSend <$> (got ≫= auto_reply (server_id c))) ∧
    client_id_ (w_st w') = foldl bound_id (client_id_ c) got ∧
    reads CH (w_ops w') = [CRead (RdHeader 0 sizeof_PacketHeader)].
Proof.
  intros Hps Hreads Hidle Hlen Hf c got.
  destruct (reads_singleton_inv CH _ _ Hreads) as (l1 & l2 & Hops & Hnr).
  destruct (feed_packets (pr:=connection_reader) CH from ps rest w l1 l2 fuel
              Hps Hops Hnr Hidle Hlen Hf)
    as (w' & r' & Hfeed & Hr' & _ & Hst & Hca & Hpo & _).
  destruct (handle_all_run got c) as (Ec & Ep & Es). fold c in Hst, Hca, Hpo.
  change (rx_of c) with (reading c) in *. fold got in Hst, Hca, Hpo.
  rewrite Ec in Hca. rewrite Ep in Hpo. rewrite Es in Hst.
  exists w'. split_and!; try done. by rewrite Hst.
Qed.

(** C9: A connection waiting for a header and fed the serialisation of any valid
    packets, then less than a header: the packet callback runs once per packet,
    in order; each BIND is answered with BIND_RESP and the server's id, each
    REQUEST with a RESPONSE echoing its payload, under the request's sequence
    number and in the order of arrival; the client id is that of the last BIND;
    and the connection is waiting for the next header. The payload seen is that
    of [seen]. *)
Theorem connection_serves_packets (from : machine) ps rest w fuel :
  Forall packet_ok ps → wf_bytes rest →
  reads CH (w_ops w) = [CRead (RdHeader 0 sizeof_PacketHeader)] → rx_idle (reading (w_st w)) →
  (length rest < sizeof_PacketHeader)%nat → (2 * length ps <= fuel)%nat →
  let c := w_st w in
  let got := seen (current_payload_ (reading c)) ps in
  ∃ w', feed CH fuel (mjoin (frame_on from <$> ps) ++ rest) w = (w', rest) ∧
    reachable CH w w' ∧
    w_calls w' = w_calls w ++ (got ≫= packet_calls c) ∧
    w_posts w' = w_posts w ++ (PSend <$> (got ≫= auto_reply (server_id c))) ∧
    client_id_ (w_st w') = foldl bound_id (client_id_ c) got ∧
    reads CH (w_ops w') = [CRead (RdHeader 0 sizeof_PacketHeader)].
Proof.
  intros Hps Hrest Hreads Hidle Hlen Hf c got.
  destruct (connection_feed from ps rest w fuel Hps Hreads Hidle Hlen Hf) as (w' & Hfeed & Hw').
  exists w'. split; [done|]. split; [|done].
  replace w' with (feed CH fuel (mjoin (frame_on from <$> ps) ++ rest) w).1 by by rewrite Hfeed.
  apply feed_reachable, wf_bytes_app. split; [by apply tcp_frames_wf|done].
Qed.

(** A request without payload is answered with the payload of an earlier
    packet: the payload vector keeps its contents. *)
Theorem empty_request_echoes_stale_payload (from : machine) w seq fuel rest :
  is_u32 seq → wf_bytes rest → (length rest < sizeof_PacketHeader)%nat →
  reads CH (w_ops w) = [CRead (RdHeader 0 sizeof_PacketHeader)] → rx_idle (reading (w_st w)) →
  let stale := current_payload_ (reading (w_st w)) in
  ∃ w', feed CH (S (S fuel)) (frame_on from (createPacket REQUEST 0 seq []) ++ rest) w = (w', rest) ∧
    w_posts w' = w_posts w ++ [PSend (serialize (createPacket RESPONSE 0 seq stale))].
Proof.
  intros Hq Hrest Hlen Hreads Hidle stale.
  destruct (reads_singleton_inv CH _ _ Hreads) as (l1 & l2 & Hops & Hnr).
  destruct (feed_packets (pr:=connection_reader) CH from [createPacket REQUEST 0 seq []] rest w l1 l2 (S (S fuel)))
    as (w' & r' & Hfeed & _ & _ & _ & _ & Hpo & _); try done; [|simpl; lia|].
  { apply Forall_singleton, createPacket_ok; try done; constructor. }
  exists w'. split; [by rewrite <-Hfeed; simpl mjoin; rewrite app_nil_r|].
  rewrite Hpo, (proj1 (proj2 (handle_all_run _ (w_st w)))). done.
Qed.

(** A header that announces less than a header or more than
    [MAX_BUFFER_SIZE] bytes: closing is posted and no read follows. *)
Theorem invalid_length_closes (from : machine) w hdr :
  header_ok hdr → invalid_length hdr = true →
  reads CH (w_ops w) = [CRead (RdHeader 0 sizeof_PacketHeader)] → rx_idle (reading (w_st w)) →
  ∃ w', feed CH 1 (header_on from hdr) w = (w', []) ∧
    reads CH (w_ops w') = [] ∧ w_posts w' = w_posts w ++ [PClose] ∧ w_calls w' = w_calls w.
Proof.
  intros Hh Hv Hreads Hidle.
  destruct (reads_singleton_inv CH _ _ Hreads) as (l1 & l2 & Hops & Hnr).
  rewrite <-(app_nil_r (header_on _ _)).
  rewrite (feed_read CH l1 _ sizeof_PacketHeader l2 _ [] w 0 Hops Hnr)
    by (done || apply header_on_length).
  destruct (header_rejected (pr:=connection_reader) CH from (w_now w) (w_st w) (reading (w_st w)) hdr Hidle Hh Hv) as (r' & Hrun).
  assert (Hset : w_st w = rx_set (reading (w_st w)) (w_st w)) by by destruct (w_st w).
  destruct (complete_run (pr:=connection_reader) CH (RdHeader 0 sizeof_PacketHeader) _ _ _ _ _ l1 l2 w Hset Hrun)
    as (_ & Ho & Hp & Hc & _).
  eexists. split; [done|]. simpl in *. rewrite Ho, app_nil_r, Hp, Hc, app_nil_r.
  split; [by apply reads_nil|done].
Qed.

End Props.

(** ** Witnesses: one concrete connection on a little-endian host *)

#[local] Instance tcp_host : Host := LittleEndian.
#[local] Instance tcp_storage : Storage := zero_storage.

(** The peer is big-endian. *)
Definition sample_peer : machine := Machine BigEndian zero_storage.

Definition sample_header : PacketHeader := mkPacketHeader 0 0 0 0.

(** A connection that has just been started. *)
Definition sample_conn : world connection c_op c_post c_timer c_call :=
  run (start (Some 1%nat) None)
    (init_world (new_connection (lit "SERVER_MAIN_001") 1 sample_header (vec_zero 12)) 0).

Definition sample_bind : Packet := createPacket BIND 0 1 (lit "CLIENT").
Definition sample_request : Packet := createPacket REQUEST 0 2 (lit "hi").

(** The same connection with two packets submitted, the first being written. *)
Definition sample_posted : world connection c_op c_post c_timer c_call :=
  run (sendPacket sample_request) (run (sendPacket sample_bind) sample_conn).

Definition sample_busy : world connection c_op c_post c_timer c_call :=
  run (send_posted (serialize sample_bind))
    (sample_posted <| w_posts := [PSend (serialize sample_request)] |>).

Lemma sample_busy_reachable : reachable CH sample_conn sample_busy.
Proof.
  eapply rtc_l; [exact (step_api CH sample_conn (ASendPacket sample_bind))|].
  eapply rtc_l; [exact (step_api CH _ (ASendPacket sample_request))|].
  apply rtc_once.
  exact (step_post CH sample_posted (PSend (serialize sample_bind)) [PSend (serialize sample_request)] eq_refl).
Qed.


Lemma connection_flushes_witness :
  ∃ w', reachable CH sample_busy w' ∧
    w_sent w' = w_sent sample_busy ++ mjoin (write_queue_ (w_st sample_busy)) ++
                mjoin [serialize sample_request] ∧
    write_queue_ (w_st w') = [] ∧ w_posts w' = [] ∧ writes (w_ops w') = [].
Proof.
  apply (connection_flushes [serialize sample_request] sample_busy); vm_compute; reflexivity.
Defined.

Lemma connection_reads_in_bounds_witness :
  (length (reads CH (w_ops sample_busy)) <= 1)%nat ∧
  Forall (read_in_bounds (w_st sample_busy)) (w_ops sample_busy).
Proof.
  apply (connection_reads_in_bounds (Some 1%nat) None (lit "SERVER_MAIN_001") 1 sample_header
           (vec_zero 12) 0); [reflexivity|apply sample_busy_reachable].
Defined.

Lemma connection_serves_packets_witness :
  let ps := [sample_bind; sample_request] in
  let got := seen (current_payload_ (reading (w_st sample_conn))) ps in
  ∃ w', feed CH 4 (mjoin (frame_on sample_peer <$> ps) ++ []) sample_conn = (w', []) ∧
    reachable CH sample_conn w' ∧
    w_calls w' = w_calls sample_conn ++ (got ≫= packet_calls (w_st sample_conn)) ∧
    w_posts w' = w_posts sample_conn ++
      (PSend <$> (got ≫= auto_reply (server_id (w_st sample_conn)))) ∧
    client_id_ (w_st w') = foldl bound_id (client_id_ (w_st sample_conn)) got ∧
    reads CH (w_ops w') = [CRead (RdHeader 0 sizeof_PacketHeader)].
Proof.
  apply (connection_serves_packets sample_peer [sample_bind; sample_request] [] sample_conn 4).
  - apply (bool_decide_unpack _). vm_compute. exact I.
  - constructor.
  - reflexivity.
  - repeat split.
  - vm_compute. lia.
  - simpl. lia.
Defined.

Lemma empty_request_echoes_stale_payload_witness :
  let w := (feed CH 2 (frame_on sample_peer sample_request) sample_conn).1 in
  let stale := current_payload_ (reading (w_st w)) in
  stale = lit "hi" ∧
  ∃ w', feed CH 2 (frame_on sample_peer (createPacket REQUEST 0 3 []) ++ []) w = (w', []) ∧
    w_posts w' = w_posts w ++ [PSend (serialize (createPacket RESPONSE 0 3 stale))].
Proof.
  split; [vm_compute; reflexivity|].
  apply (empty_request_echoes_stale_payload sample_peer
           (feed CH 2 (frame_on sample_peer sample_request) sample_conn).1 3 0 []).
  - done.
  - constructor.
  - vm_compute. lia.
  - vm_compute. reflexivity.
  - repeat split.
Defined.

Lemma invalid_length_closes_witness :
  let hdr := mkPacketHeader 16385 REQUEST 0 1 in
  ∃ w', feed CH 1 (header_on sample_peer hdr) sample_conn = (w', []) ∧
    reads CH (w_ops w') = [] ∧ w_posts w' = w_posts sample_conn ++ [PClose] ∧
    w_calls w' = w_calls sample_conn.
Proof.
  apply (invalid_length_closes sample_peer sample_conn (mkPacketHeader 16385 REQUEST 0 1));
    vm_compute; done.
Defined.
