(* ===== verification/TcpServer.v ===== *)
(** * TcpServer: the claude server

    Class [TcpServer] of claude/asio_server.cpp: the registry of connections,
    the sequence numbers, the table of pending requests with its timer, the
    callbacks. Connections are objects of their own (TcpConnection.v): the
    server holds pointers to them and sends them commands ([ToConn]). *)

From S2P Require Import Prelude Bytes Tables Asio TcpPacket.

(** A [PacketReceivedCallback]: one of the user's, or the lambda [start]
    installs, which calls [self->handleIncomingPacket]. *)
Inductive packet_cb := UserCb (f : nat) | RedirectCb.

Record PendingRequest := mkPending {
  expiryTime : Z;
  pr_connectionId : Z;
  pr_callback : std_function }.

(** Member functions of [Connection] the server calls. *)
Inductive conn_cmd :=
| CmdStart (packetCallback : option packet_cb) (closedCallback : std_function)
| CmdSend (packet : Packet)
| CmdClose.

Inductive s_call :=
| ToConn (p : nat) (cmd : conn_cmd)
| UserPacket (f : nat) (connectionId : Z) (packet : Packet)
| UserClosed (f : nat) (connectionId : Z)
| UserResponse (f : nat) (connectionId : Z) (packet : Packet)
| UserTimeout (f : nat) (sequenceNumber : Z).

(** [async_accept] into the socket of a new connection. *)
Inductive s_op := OpAccept (newConnection : nat) (connectionId : Z).

(** [timeoutTimer_] is the only timer. *)
Abbreviation s_timer := unit.

Record tcpserver := mkServer {
  acceptor_open : bool;
  nextConnectionId_ : Z;
  nextSequence_ : Z;
  server_id_ : bytes;
  connections_ : gmap Z nat;
  packetCallback_ : option packet_cb;
  closedCallback_ : std_function;
  pendingRequests_ : gmap Z PendingRequest;
  timeoutTimerRunning_ : bool;
  timeoutCallback_ : std_function;
  allocated : nat }.             (* connection objects created so far *)

#[export] Instance eta_tcpserver : Eta tcpserver := λ s,
  mkServer (acceptor_open s) (nextConnectionId_ s) (nextSequence_ s) (server_id_ s)
    (connections_ s) (packetCallback_ s) (closedCallback_ s) (pendingRequests_ s)
    (timeoutTimerRunning_ s) (timeoutCallback_ s) (allocated s).

(** The constructor (the acceptor listens; threads come with [start]). *)
Definition new_server (serverId : bytes) : tcpserver :=
  mkServer true 1 1 serverId ∅ None None ∅ false None 0.

Abbreviation s_eff := (eff s_op Empty_set s_timer s_call).
Abbreviation M := (act tcpserver s_eff).

Definition call (c : s_call) : M unit := emit (ECall c).

(** ** Configuration and sequence numbers *)

Definition setServerId (serverId : bytes) : M unit :=
  modify (λ s, s <| server_id_ := serverId |>).

Definition setCallbacks (p : option packet_cb) (c : std_function) : M unit :=
  modify (λ s, s <| packetCallback_ := p |> <| closedCallback_ := c |>).

Definition setTimeoutCallback (c : std_function) : M unit :=
  modify (λ s, s <| timeoutCallback_ := c |>).

Definition getNextSequence : M Z :=
  n ← gets nextSequence_;
  modify (λ s, s <| nextSequence_ := u32 (n + 1) |>);;
  mret n.

(** ** Sending *)

Definition sendPacketTo (connectionId : Z) (packet : Packet) : M bool :=
  cs ← gets connections_;
  match cs !! connectionId with
  | Some p => call (ToConn p (CmdSend packet));; mret true
  | None => mret false
  end.

Definition sendTo (connectionId packetId status : Z) (data : bytes) : M bool :=
  sequence ← getNextSequence;
  sendPacketTo connectionId (createPacket packetId status sequence data).

(** The loops over [connections_] (the order of an [unordered_map] is not
    specified; here that of the map's enumeration). *)
Definition to_all (cmd : conn_cmd) : M unit :=
  cs ← gets connections_;
  foldr (λ e k, call (ToConn e.2 cmd);; k) skip (map_to_list cs).

Definition broadcastPacket (packet : Packet) : M unit := to_all (CmdSend packet).

Definition broadcast (packetId status : Z) (data : bytes) : M unit :=
  sequence ← getNextSequence;
  broadcastPacket (createPacket packetId status sequence data).

(** ** The registry *)

Definition connectionCount : M Z :=
  cs ← gets connections_; mret (Z.of_nat (size cs)).

(** [getClientId] of the connection objects is a parameter. *)
Definition getClientInfo (getClientId : nat → bytes) (connectionId : Z) : M bytes :=
  cs ← gets connections_;
  match cs !! connectionId with
  | Some p => mret (getClientId p)
  | None => mret (lit "Not found")
  end.

Definition closeConnection (connectionId : Z) : M bool :=
  cs ← gets connections_;
  match cs !! connectionId with
  | Some p => call (ToConn p CmdClose);; mret true
  | None => mret false
  end.

Definition registerConnection (connectionId : Z) (connection : nat) : M unit :=
  modify (λ s, s <| connections_ := <[connectionId := connection]> (connections_ s) |>).

Definition unregisterConnection (connectionId : Z) : M unit :=
  modify (λ s, s <| connections_ := delete connectionId (connections_ s) |>);;
  c ← gets closedCallback_;
  match c with Some f => call (UserClosed f connectionId) | None => skip end.

Definition startAccept : M unit :=
  connectionId ← gets nextConnectionId_;
  p ← gets allocated;
  modify (λ s, s <| nextConnectionId_ := i32 (connectionId + 1) |>
                 <| allocated := S p |>);;
  emit (EStart (OpAccept p connectionId)).

(** The completion handler of [startAccept]. *)
Definition on_accept (newConnection : nat) (connectionId : Z) (res : io_result) : M unit :=
  match res with
  | IoOk _ =>
      registerConnection connectionId newConnection;;
      pcb ← gets packetCallback_;
      ccb ← gets closedCallback_;
      call (ToConn newConnection (CmdStart pcb ccb))
  | IoErr _ => skip
  end;;
  open ← gets acceptor_open;
  if open : bool then startAccept else skip.

Definition start : M unit :=
  ccb ← gets closedCallback_;
  setCallbacks (Some RedirectCb) ccb;;
  startAccept.

Definition stop : M unit :=
  modify (λ s, s <| acceptor_open := false |>);;
  emit EClose;;
  to_all CmdClose;;
  modify (λ s, s <| connections_ := ∅ |>).

(** ** Requests

    The bodies are split at their critical sections, which other threads can
    come between. *)

Definition arm_timer (now : Z) : M unit := emit (EArm () (now + milliseconds 100)).

(** [sendRequest], the section that registers the request. *)
Definition sendRequest_register (sequence : Z) (request : PendingRequest)
    (timeoutCallback : std_function) : M unit :=
  modify (λ s, s <| pendingRequests_ := <[sequence := request]> (pendingRequests_ s) |>);;
  match timeoutCallback with
  | Some f => modify (λ s, s <| timeoutCallback_ := Some f |>)
  | None => skip
  end.

(** [sendRequest], the section that starts the timer. *)
Definition sendRequest_schedule (now : Z) : M unit :=
  running ← gets timeoutTimerRunning_;
  if running : bool then skip
  else
    modify (λ s, s <| timeoutTimerRunning_ := true |>);;
    arm_timer now.

Definition sendRequest (now connectionId : Z) (data : bytes) (timeout : Z)
    (responseCallback timeoutCallback : std_function) : M Z :=
  sequence ← getNextSequence;
  sent ← sendPacketTo connectionId (createPacket REQUEST 0 sequence data);
  if sent : bool then
    sendRequest_register sequence
      (mkPending (now + milliseconds timeout) connectionId responseCallback) timeoutCallback;;
    sendRequest_schedule now;;
    mret sequence
  else mret 0.

Definition is_expired (now : Z) (r : PendingRequest) : bool := expiryTime r <=? now.

(** The keys of the expired requests, in the order [std::map] iterates. *)
Definition expiredSequences (now : Z) (m : gmap Z PendingRequest) : list Z :=
  keys_where (is_expired now) m.

Definition expire_one (sequence : Z) : M unit :=
  c ← gets timeoutCallback_;
  match c with Some f => call (UserTimeout f sequence) | None => skip end;;
  modify (λ s, s <| pendingRequests_ := delete sequence (pendingRequests_ s) |>).

Fixpoint expire_all (sequences : list Z) : M unit :=
  match sequences with
  | [] => skip
  | q :: qs => expire_one q;; expire_all qs
  end.

(** [checkTimeouts], the section that sweeps the table. *)
Definition checkTimeouts_sweep (now : Z) : M bool :=
  m ← gets pendingRequests_;
  expire_all (expiredSequences now m);;
  m ← gets pendingRequests_;
  mret (negb (bool_decide (m = ∅))).

(** [checkTimeouts], after that section. *)
Definition checkTimeouts_finish (now : Z) (hasPending : bool) : M unit :=
  if hasPending then arm_timer now
  else modify (λ s, s <| timeoutTimerRunning_ := false |>).

Definition checkTimeouts (now : Z) (error : bool) : M unit :=
  if error then modify (λ s, s <| timeoutTimerRunning_ := false |>)
  else
    hasPending ← checkTimeouts_sweep now;
    checkTimeouts_finish now hasPending.

Definition cancelRequest (sequenceNumber : Z) : M bool :=
  m ← gets pendingRequests_;
  modify (λ s, s <| pendingRequests_ := delete sequenceNumber (pendingRequests_ s) |>);;
  mret (bool_decide (is_Some (m !! sequenceNumber))).

(** ** Incoming packets *)

(** [handleIncomingPacket] up to the call of the global callback. *)
Definition route_response (connectionId : Z) (packet : Packet) : M unit :=
  if hd_packetId (header packet) =? RESPONSE then
    m ← gets pendingRequests_;
    match m !! hd_sequence (header packet) with
    | Some r =>
        modify (λ s, s <| pendingRequests_ :=
          delete (hd_sequence (header packet)) (pendingRequests_ s) |>);;
        match pr_callback r with
        | Some f => call (UserResponse f connectionId packet)
        | None => skip
        end
    | None => skip
    end
  else skip.

(** Calling a packet callback. The depth of calls is bounded by [fuel]; the
    result says whether the call returned. *)
Fixpoint call_packet (fuel : nat) (cb : packet_cb) (connectionId : Z) (packet : Packet) :
    M bool :=
  match fuel with
  | O => mret false
  | S fuel' =>
      match cb with
      | UserCb f => call (UserPacket f connectionId packet);; mret true
      | RedirectCb =>
          route_response connectionId packet;;
          cb' ← gets packetCallback_;
          match cb' with
          | Some cb' => call_packet fuel' cb' connectionId packet
          | None => mret true
          end
      end
  end.

(** [handleIncomingPacket] is what the redirecting lambda runs. *)
Definition handleIncomingPacket (fuel : nat) (connectionId : Z) (packet : Packet) : M bool :=
  call_packet fuel RedirectCb connectionId packet.

(** ** The server as a machine of the I/O contract

    The interface: what the user calls, and what its connections call. The
    bound on nested callbacks is that of the machine. *)

Inductive s_api :=
| ASetCallbacks (f c : std_function)
| ASetTimeoutCallback (c : std_function)
| ASetServerId (serverId : bytes)
| AStart
| AStop
| ASendTo (connectionId packetId status : Z) (data : bytes)
| ABroadcast (packetId status : Z) (data : bytes)
| ACloseConnection (connectionId : Z)
| ASendRequest (connectionId : Z) (data : bytes) (timeout : Z) (rcb tcb : std_function)
| ACancelRequest (sequenceNumber : Z)
| APacket (cb : packet_cb) (connectionId : Z) (packet : Packet)
| AUnregister (connectionId : Z).

Definition ignore {A} (m : M A) : M unit := m;; mret ().

Definition server_api (depth : nat) (now : Z) (a : s_api) : M unit :=
  match a with
  | ASetCallbacks f c => setCallbacks (UserCb <$> f) c
  | ASetTimeoutCallback c => setTimeoutCallback c
  | ASetServerId i => setServerId i
  | AStart => start
  | AStop => stop
  | ASendTo c i s d => ignore (sendTo c i s d)
  | ABroadcast i s d => broadcast i s d
  | ACloseConnection c => ignore (closeConnection c)
  | ASendRequest c d t r tc => ignore (sendRequest now c d t r tc)
  | ACancelRequest q => ignore (cancelRequest q)
  | APacket cb c p => ignore (call_packet depth cb c p)
  | AUnregister c => unregisterConnection c
  end.

Definition server_handlers (depth : nat) :
    handlers tcpserver s_op Empty_set s_timer s_call s_api :=
  Handlers (λ _, KAccept)
    (λ _ o res, let '(OpAccept p i) := o in on_accept p i res)
    (λ _ p, match p with end)
    (λ now _ aborted, checkTimeouts now aborted)
    (server_api depth).
