(* ===== verification/TcpServerProps.v ===== *)
(** * TcpServerProps: the request table of the claude server

    - the sweep reports exactly the expired requests, in the order of their
      sequence numbers, and keeps the others;
    - as long as each member function runs without interruption, every pending
      request is watched by the timer, and times out unless answered or
      cancelled; with the critical sections interleaved it may not be;
    - a response is routed to the callback of its request, once;
    - what [start] does to the packet callback. *)

From S2P Require Import Prelude Bytes Tables Asio TcpPacket TcpServer.

Implicit Types (s : tcpserver) (m : gmap Z PendingRequest)
  (w : world tcpserver s_op Empty_set s_timer s_call).

(** ** The sweep *)

Definition timeouts (cb : std_function) (qs : list Z) : list s_call :=
  match cb with Some f => UserTimeout f <$> qs | None => [] end.

Definition still_pending (now : Z) m : gmap Z PendingRequest :=
  filter (λ e, is_expired now e.2 = false) m.

Lemma server_elem_expired now m q :
  q ∈ expiredSequences now m ↔ ∃ r, m !! q = Some r ∧ expiryTime r <= now.
Proof. unfold expiredSequences. rewrite elem_keys_where. by setoid_rewrite Z.leb_le. Qed.

Lemma expire_all_run qs s :
  expire_all qs s =
    (s <| pendingRequests_ := erase_all qs (pendingRequests_ s) |>,
     ECall <$> timeouts (timeoutCallback_ s) qs, ()).
Proof.
  revert s. induction qs as [|q qs IH]; intros s; [by destruct s as [? ? ? ? ? ? ? ? ? [] ?]|].
  change (expire_all (q :: qs) s) with ((expire_one q;; expire_all qs) s).
  cbv [mbind act_bind]. destruct (expire_one q s) as [[s1 e1] []] eqn:E. rewrite IH.
  unfold expire_one in E. unact. destruct s as [? ? ? ? ? ? ? ? ? [f|] ?]; by simplify_eq/=.
Qed.

Lemma server_sweep_run now s :
  checkTimeouts_sweep now s =
    (s <| pendingRequests_ := still_pending now (pendingRequests_ s) |>,
     ECall <$> timeouts (timeoutCallback_ s) (expiredSequences now (pendingRequests_ s)),
     negb (bool_decide (still_pending now (pendingRequests_ s) = ∅))).
Proof.
  unfold checkTimeouts_sweep. cbv [mbind act_bind gets mret act_ret].
  unfold expiredSequences.
  rewrite expire_all_run, erase_keys_where. simpl. by rewrite app_nil_r.
Qed.

(** A timer expiry reports exactly the requests whose expiry time has come, in
    the order of their sequence numbers, once each, to the timeout callback;
    removes them and no other request; and arms the timer for the next check
    exactly when requests remain. *)
Theorem timer_reports_expired_requests now s :
  let expired := expiredSequences now (pendingRequests_ s) in
  let rest := still_pending now (pendingRequests_ s) in
  let r := checkTimeouts now false s in
  (∀ q, q ∈ expired ↔ ∃ p, pendingRequests_ s !! q = Some p ∧ expiryTime p <= now) ∧
  Sorted Z.le expired ∧ NoDup expired ∧
  effs_of r = (ECall <$> timeouts (timeoutCallback_ s) expired) ++
              (if decide (rest = ∅) then [] else [EArm () (now + milliseconds 100)]) ∧
  pendingRequests_ (state_of r) = rest ∧
  timeoutTimerRunning_ (state_of r) =
    (if decide (rest = ∅) then false else timeoutTimerRunning_ s).
Proof.
  intros expired rest r. split; [apply server_elem_expired|].
  destruct (keys_where_sorted (is_expired now) (pendingRequests_ s)) as [Hs Hn]. split; [done|]. split; [done|].
  unfold r, checkTimeouts. cbv [mbind act_bind]. rewrite server_sweep_run.
  fold rest expired. unfold checkTimeouts_finish, arm_timer.
  destruct (decide (rest = ∅)) as [He|He].
  - rewrite bool_decide_true by done. done.
  - rewrite bool_decide_false by done. done.
Qed.

(** ** Every pending request is watched *)

(** The timer is armed, or has expired and its handler is about to run, exactly
    when [timeoutTimerRunning_] says so, and it is running when requests are
    pending. *)
Definition watched w : Prop :=
  (length (w_armed w) + length (w_fired w))%nat =
    (if timeoutTimerRunning_ (w_st w) then 1%nat else 0%nat) ∧
  Forall (λ f, f.2 = false) (w_fired w) ∧
  (pendingRequests_ (w_st w) ≠ ∅ → timeoutTimerRunning_ (w_st w) = true).

(** Member functions that do not touch the timer and add no request. *)
Definition same_timer (s s' : tcpserver) : Prop :=
  timeoutTimerRunning_ s' = timeoutTimerRunning_ s ∧
  (pendingRequests_ s = ∅ → pendingRequests_ s' = ∅).

#[local] Instance same_timer_preorder : PreOrder same_timer.
Proof. split; [done|]. intros s1 s2 s3 [? ?] [? ?]. split; [congruence|auto]. Qed.

Abbreviation table_quiet := (keeps same_timer timer_free _).

(** Every operation built from reads, updates of other members, calls and
    deletions from the table is quiet. *)
Create HintDb tn_quiet.

Ltac quiet_tac :=
  repeat first
    [ solve [auto with tn_quiet nocore]
    | progress keeps_tac
    | progress case_match
    | apply keeps_modify; intros s; split; [done|intros Hs; simpl; rewrite Hs; apply delete_empty] ].

Lemma quiet_each cmd (l : list (Z * nat)) :
  table_quiet (foldr (λ e k, call (ToConn e.2 cmd);; k) skip l).
Proof.
  induction l as [|e l IH]; simpl; [quiet_tac|]. unfold call. by apply compose; [quiet_tac|].
Qed.
#[local] Hint Resolve quiet_each : tn_quiet.

Lemma quiet_route i p : table_quiet (route_response i p).
Proof. unfold route_response, call. quiet_tac. Qed.
#[local] Hint Resolve quiet_route : tn_quiet.

Lemma quiet_call_packet depth cb i p : table_quiet (call_packet depth cb i p).
Proof.
  revert cb. induction depth as [|d IH]; intros cb; simpl; [quiet_tac|].
  destruct cb as [f|]; [unfold call; quiet_tac|].
  apply compose; [apply quiet_route|]. intros _.
  apply compose; [quiet_tac|]. intros [cb'|]; [apply IH|quiet_tac].
Qed.
#[local] Hint Resolve quiet_call_packet : tn_quiet.

Lemma quiet_startAccept : table_quiet startAccept.
Proof. unfold startAccept. quiet_tac. Qed.
#[local] Hint Resolve quiet_startAccept : tn_quiet.

Lemma quiet_accept p i res : table_quiet (on_accept p i res).
Proof.
  unfold on_accept, registerConnection, call. apply compose; [quiet_tac|].
  intros _. apply compose; [quiet_tac|]. intros []; [apply quiet_startAccept|quiet_tac].
Qed.
#[local] Hint Resolve quiet_accept : tn_quiet.

Definition adds_request (a : s_api) : bool :=
  match a with ASendRequest _ _ _ _ _ => true | _ => false end.

Lemma quiet_api depth now a : adds_request a = false → table_quiet (server_api depth now a).
Proof.
  destruct a; intros Ha; try discriminate Ha; simpl;
    unfold ignore, setCallbacks, setTimeoutCallback, setServerId, sendTo, broadcast,
      closeConnection, cancelRequest, unregisterConnection, getNextSequence, sendPacketTo, call,
      start, setCallbacks, stop, broadcastPacket; quiet_tac.
Qed.

Lemma server_watched_quiet {A} (a : M A) w : table_quiet a → watched w → watched (run a w).
Proof.
  intros Hq (Hn & Hf & Hp). destruct (Hq (w_st w)) as ((Hr & Hm) & He).
  destruct (run_timer_free a w He) as [Ha' Hf'].
  destruct (run_fields a w) as (Hs & _). unfold watched. rewrite Hs, Ha', Hf', Hr.
  split; [done|]. split; [done|]. intros Hne. apply Hp. intros Hz. auto.
Qed.

(** [sendRequest], computed. *)
Lemma sendRequest_run now c d t rcb tcb s :
  let q := nextSequence_ s in
  let s1 := s <| nextSequence_ := u32 (q + 1) |> in
  sendRequest now c d t rcb tcb s =
    match connections_ s !! c with
    | None => (s1, [], 0)
    | Some p =>
        (s1 <| pendingRequests_ :=
                <[q := mkPending (now + milliseconds t) c rcb]> (pendingRequests_ s) |>
            <| timeoutCallback_ := match tcb with Some _ => tcb | None => timeoutCallback_ s end |>
            <| timeoutTimerRunning_ := true |>,
         ECall (ToConn p (CmdSend (createPacket REQUEST 0 q d))) ::
           (if timeoutTimerRunning_ s then [] else [EArm () (now + milliseconds 100)]),
         q)
    end.
Proof.
  unfold sendRequest, getNextSequence, sendPacketTo, sendRequest_register,
    sendRequest_schedule, call, arm_timer. unact.
  destruct (connections_ s !! c); simpl; [|done].
  destruct tcb; simpl; destruct s as [? ? ? ? ? ? ? ? [] ? ?]; done.
Qed.

Lemma watched_sendRequest now c d t rcb tcb w :
  watched w → watched (run (sendRequest now c d t rcb tcb) w).
Proof.
  intros (Hn & Hf & Hp). pose proof (sendRequest_run now c d t rcb tcb (w_st w)) as Hr.
  cbv zeta in Hr. destruct (run_fields (sendRequest now c d t rcb tcb) w) as (Hs & _).
  unfold watched. rewrite Hs. destruct (connections_ (w_st w) !! c) as [p|].
  - destruct (timeoutTimerRunning_ (w_st w)) eqn:Er.
    + destruct (run_timer_free (sendRequest now c d t rcb tcb) w) as [-> ->];
        [rewrite Hr; by repeat constructor|]. by rewrite Hr.
    + destruct (w_armed w) eqn:Ea, (w_fired w) eqn:Ef; try discriminate Hn.
      destruct (run_arm (sendRequest now c d t rcb tcb) 
        [ECall (ToConn p (CmdSend (createPacket REQUEST 0 (nextSequence_ (w_st w)) d)))]
        () (now + milliseconds 100) w) as [-> ->]; [by rewrite Hr|by repeat constructor|done|].
      rewrite Hr, Ef. split; [done|]. split; [constructor|done].
  - destruct (run_timer_free (sendRequest now c d t rcb tcb) w) as [-> ->];
      [by rewrite Hr|]. by rewrite Hr.
Qed.

Lemma server_run_ignore {A} (a : M A) w : run (ignore a) w = run a w.
Proof.
  unfold run, ignore. cbv [mbind act_bind mret act_ret].
  destruct (a (w_st w)) as [[s es] x]. simpl. by rewrite app_nil_r.
Qed.

Lemma server_checkTimeouts_run now s :
  let rest := still_pending now (pendingRequests_ s) in
  let expired := expiredSequences now (pendingRequests_ s) in
  let r := checkTimeouts now false s in
  effs_of r = (ECall <$> timeouts (timeoutCallback_ s) expired) ++
              (if decide (rest = ∅) then [] else [EArm () (now + milliseconds 100)]) ∧
  state_of r =
    (if decide (rest = ∅)
     then s <| pendingRequests_ := rest |> <| timeoutTimerRunning_ := false |>
     else s <| pendingRequests_ := rest |>).
Proof.
  intros rest expired r. unfold r, checkTimeouts. cbv [mbind act_bind]. rewrite server_sweep_run.
  fold rest expired. unfold checkTimeouts_finish, arm_timer.
  destruct (decide (rest = ∅)); [rewrite bool_decide_true by done|
    rewrite bool_decide_false by done]; done.
Qed.

Lemma timeouts_timer_free cb qs :
  Forall timer_free (ECall (Op:=s_op) (P:=Empty_set) (T:=s_timer) <$> timeouts cb qs).
Proof. apply Forall_fmap. by apply Forall_true. Qed.

Lemma watched_timer now ab t l1 l2 w :
  w_fired w = l1 ++ (t, ab) :: l2 → watched w →
  watched (run (checkTimeouts now ab) (w <| w_fired := l1 ++ l2 |>)).
Proof.
  intros Ef (Hn & Hf & Hp). rewrite Ef in Hn, Hf.
  assert (l1 = [] ∧ l2 = [] ∧ w_armed w = [] ∧ timeoutTimerRunning_ (w_st w) = true)
    as (-> & -> & Ha & Hrun).
  { rewrite length_app in Hn. simpl in Hn. destruct (timeoutTimerRunning_ (w_st w)); [|lia].
    destruct l1, l2, (w_armed w); simpl in Hn; try lia. done. }
  simpl in Hf. rewrite Forall_singleton in Hf. simpl in Hf. subst ab. simpl app.
  set (w1 := w <| w_fired := [] |>). change (w_armed w1 = []) in Ha.
  destruct (server_checkTimeouts_run now (w_st w1)) as [He Hs].
  destruct (run_fields (checkTimeouts now false) w1) as (Hst & _).
  unfold watched. rewrite Hst, Hs. destruct (decide _) as [Hz|Hz].
  - rewrite app_nil_r in He. destruct (run_timer_free (checkTimeouts now false) w1) as [-> ->].
    { rewrite He. apply timeouts_timer_free. }
    rewrite Ha. simpl. split; [done|]. split; [constructor|]. intros Hne. by destruct Hne.
  - destruct (run_arm (checkTimeouts now false) _ _ _ w1 He) as [-> ->];
      [apply timeouts_timer_free|done|]. simpl. rewrite Hrun.
    split; [done|]. split; [constructor|done].
Qed.

Section Server.
Context (depth : nat).
Abbreviation SH := (server_handlers depth).

Lemma watched_reachable w0 w : watched w0 → reachable SH w0 w → watched w.
Proof.
  intros H0. apply (invariant_reachable SH watched); [done|]. clear w0 w H0.
  intros w w' Hw Hs. destruct Hs as [w p|w o l1 l2 r Ho Ha|w t d l1 l2 Ha Hd|
    w t ab l1 l2 Hf|w now|w a].
  - destruct p.
  - destruct o as [p i]. unfold complete. apply server_watched_quiet; [apply quiet_accept|done].
  - destruct Hw as (Hn & Hf & Hp). unfold watched. simpl. rewrite Ha in Hn.
    rewrite !length_app in *. simpl in *. split; [lia|]. split; [|done].
    apply Forall_app. split; [done|by apply Forall_singleton].
  - by apply (watched_timer _ _ t).
  - done.
  - destruct (adds_request a) eqn:Ha.
    + destruct a; try discriminate Ha. simpl. rewrite server_run_ignore. by apply watched_sendRequest.
    + apply server_watched_quiet; [by apply quiet_api|done].
Qed.

Lemma watched_init serverId now : watched (init_world (new_server serverId) now).
Proof. split; [done|]. split; [constructor|done]. Qed.

(** Running the expiry handler of the timer once a request's time has come. *)
Lemma expiry_reports w t q r f :
  w_fired w = [(t, false)] → pendingRequests_ (w_st w) !! q = Some r →
  expiryTime r <= w_now w → timeoutCallback_ (w_st w) = Some f →
  ∃ w', step SH w w' ∧ UserTimeout f q ∈ w_calls w' ∧
    pendingRequests_ (w_st w') !! q = None.
Proof.
  intros Hf Hq Hd Hc. eexists. split; [exact (step_timer SH w t false [] [] Hf)|].
  set (w1 := w <| w_fired := [] ++ [] |>).
  destruct (run_fields (h_timer SH (w_now w) t false) w1) as (-> & _ & _ & -> & _).
  change (h_timer SH (w_now w) t false) with (checkTimeouts (w_now w) false).
  change (w_st w1) with (w_st w).
  destruct (server_checkTimeouts_run (w_now w) (w_st w)) as [-> ->]. split.
  - rewrite called_app, Hc. apply elem_of_app. right. apply elem_of_app. left.
    cbn [timeouts]. apply list_elem_of_omap.
    exists (ECall (UserTimeout f q)). split; [|done].
    rewrite !list_elem_of_fmap. exists (UserTimeout f q). split; [done|].
    apply list_elem_of_fmap. exists q. split; [done|]. apply server_elem_expired. eauto.
  - assert (Hn : still_pending (w_now w) (pendingRequests_ (w_st w)) !! q = None).
    { apply map_lookup_filter_None. right. intros r' Hr'. simplify_eq. simpl.
      unfold is_expired. rewrite (proj2 (Z.leb_le _ _)) by lia. done. }
    by destruct (decide _).
Qed.


End Server.

(** ** The critical sections interleaved

    Threads between two critical sections of a member function, the server they
    share, the deadlines the timer waits for. *)

Inductive thread := InSendRequest | InCheckTimeouts (hasPending : bool).

Record shared := Shared {
  sh_server : tcpserver;
  sh_threads : list thread;
  sh_armed : list Z;
  sh_now : Z }.

Definition arms (es : list s_eff) : list Z :=
  omap (λ e, match e with EArm _ d => Some d | _ => None end) es.

Inductive section_step : shared → shared → Prop :=
| sec_register s ts ar now q req tcb :
    section_step (Shared s ts ar now)
      (Shared (state_of (sendRequest_register q req tcb s)) (ts ++ [InSendRequest]) ar now)
| sec_schedule s t1 t2 ar now :
    let r := sendRequest_schedule now s in
    section_step (Shared s (t1 ++ InSendRequest :: t2) ar now)
      (Shared (state_of r) (t1 ++ t2) (ar ++ arms (effs_of r)) now)
| sec_sweep s ts a1 d a2 now :
    d <= now →
    let r := checkTimeouts_sweep now s in
    section_step (Shared s ts (a1 ++ d :: a2) now)
      (Shared (state_of r) (ts ++ [InCheckTimeouts (val_of r)]) (a1 ++ a2) now)
| sec_finish s t1 b t2 ar now :
    let r := checkTimeouts_finish now b s in
    section_step (Shared s (t1 ++ InCheckTimeouts b :: t2) ar now)
      (Shared (state_of r) (t1 ++ t2) (ar ++ arms (effs_of r)) now)
| sec_tick s ts ar now now' :
    now <= now' → section_step (Shared s ts ar now) (Shared s ts ar now').

(** A request registered between the sweep that finds the table empty and the
    section that clears [timeoutTimerRunning_] is not watched: it stays in the
    table, with no timer and no thread left to look at it. From any server
    whose last request was just answered, some interleaving ends there. *)
Theorem request_can_be_left_unwatched s q req (tcb : std_function) d now :
  pendingRequests_ s = ∅ → timeoutTimerRunning_ s = true →
  ∃ s' now', rtc section_step (Shared s [] [d] now) (Shared s' [] [] now') ∧
    pendingRequests_ s' !! q = Some req ∧ timeoutTimerRunning_ s' = false.
Proof.
  intros Hp Hr. set (now' := Z.max now d).
  assert (Hsweep : checkTimeouts_sweep now' s = (s, [], false)).
  { rewrite server_sweep_run, Hp. assert (Hz : still_pending now' ∅ = ∅) by apply map_filter_empty.
    assert (He : expiredSequences now' ∅ = []).
    { unfold expiredSequences, keys_where. by rewrite map_filter_empty, map_to_list_empty. }
    rewrite Hz, He, bool_decide_true by done.
    destruct s as [? ? ? ? ? ? ? ? ? [] ?]; simpl in *; by subst. }
  eexists _, now'. split.
  - eapply rtc_l; [apply (sec_tick _ _ _ _ now'); lia|].
    eapply rtc_l; [apply (sec_sweep s [] [] d [] now'); lia|]. rewrite Hsweep. simpl.
    eapply rtc_l; [apply (sec_register _ _ _ _ q req tcb)|]. simpl.
    eapply rtc_l; [apply (sec_schedule _ [InCheckTimeouts false] [])|].
    set (s1 := state_of (sendRequest_register q req tcb s)).
    assert (Hs1 : timeoutTimerRunning_ s1 = true) by (by destruct tcb).
    unfold sendRequest_schedule. unact. rewrite Hs1. simpl.
    apply rtc_once. apply (sec_finish _ [] false []).
  - unfold sendRequest_register. unact. destruct tcb; simpl; by rewrite lookup_insert_eq.
Qed.

(** ** Incoming packets *)

Definition response_call (connectionId : Z) (packet : Packet) m : list s_call :=
  match m !! hd_sequence (header packet) with
  | Some r =>
      match pr_callback r with
      | Some f => [UserResponse f connectionId packet]
      | None => []
      end
  | None => []
  end.

Definition global_call (connectionId : Z) (packet : Packet) (cb : option packet_cb) :
    list s_call :=
  match cb with Some (UserCb f) => [UserPacket f connectionId packet] | _ => [] end.

(** With a user's packet callback or none in place, [handleIncomingPacket]
    returns, and a response is handed to the callback of the request with its
    sequence number and forgotten: a second response with that number reaches
    the global callback only. *)
Theorem response_routed_once fuel i p s :
  packetCallback_ s ≠ Some RedirectCb → hd_packetId (header p) = RESPONSE →
  let q := hd_sequence (header p) in
  let r := handleIncomingPacket (S (S fuel)) i p s in
  let r2 := handleIncomingPacket (S (S fuel)) i p (state_of r) in
  val_of r = true ∧
  called (effs_of r) = response_call i p (pendingRequests_ s) ++
                       global_call i p (packetCallback_ s) ∧
  pendingRequests_ (state_of r) = delete q (pendingRequests_ s) ∧
  called (effs_of r2) = global_call i p (packetCallback_ s).
Proof.
  intros Hcb Hid q r r2.
  assert (Hgen : ∀ s, packetCallback_ s ≠ Some RedirectCb →
    let r := handleIncomingPacket (S (S fuel)) i p s in
    val_of r = true ∧
    called (effs_of r) = response_call i p (pendingRequests_ s) ++
                         global_call i p (packetCallback_ s) ∧
    state_of r = s <| pendingRequests_ := delete q (pendingRequests_ s) |>).
  { clear -Hid. intros s Hcb. unfold handleIncomingPacket, response_call. simpl.
    unfold route_response, call. rewrite Hid. simpl. unact. fold q.
    destruct (pendingRequests_ s !! q) as [[? ? [f|]]|] eqn:Hq; simpl;
      destruct (packetCallback_ s) as [[g|]|] eqn:Hg; try done; simpl; split_and!; try done.
    all: destruct s; simpl in *; subst; rewrite ?delete_id by done; done. }
  destruct (Hgen s Hcb) as (Hv & Hc & Hs). fold r in Hv, Hc, Hs.
  split; [done|]. split; [done|]. rewrite Hs. split; [done|].
  assert (Hcb2 : packetCallback_ (state_of r) ≠ Some RedirectCb) by by rewrite Hs.
  destruct (Hgen (state_of r) Hcb2) as (_ & Hc2 & _). fold r2 in Hc2. rewrite Hc2, Hs.
  unfold response_call. simpl. fold q. by rewrite lookup_delete_eq.
Qed.

Lemma redirect_never_returns depth i p s :
  packetCallback_ s = Some RedirectCb → val_of (call_packet depth RedirectCb i p s) = false.
Proof.
  revert s. induction depth as [|d IH]; intros s Hs; [done|]. simpl.
  cbv [mbind act_bind gets]. destruct (route_response i p s) as [[s1 e1] []] eqn:E.
  assert (Hs1 : packetCallback_ s1 = Some RedirectCb).
  { rewrite <-Hs. change s1 with (state_of (s1, e1, ())). rewrite <-E.
    unfold route_response, call. unact. run_cases. }
  rewrite Hs1. specialize (IH s1 Hs1).
  destruct (call_packet d RedirectCb i p s1) as [[s2 e2] b]. done.
Qed.

(** [start] replaces the packet callback by the lambda that calls
    [handleIncomingPacket], which calls the packet callback: a connection
    accepted afterwards is given that lambda, and for no packet and no stack
    depth does the lambda return. *)
Theorem start_packet_callback_never_returns depth i p s conn j :
  let s' := state_of (start s) in
  let r := on_accept conn j (IoOk []) s' in
  ToConn conn (CmdStart (Some RedirectCb) (closedCallback_ s)) ∈ called (effs_of r) ∧
  val_of (call_packet depth RedirectCb i p (state_of r)) = false.
Proof.
  intros s' r.
  assert (Hs' : packetCallback_ s' = Some RedirectCb ∧ closedCallback_ s' = closedCallback_ s)
    by done. destruct Hs' as [Hp Hc]. subst r. clearbody s'.
  unfold on_accept, registerConnection, call, startAccept. unact. rewrite Hp, Hc.
  destruct (acceptor_open s'); simpl; (split; [by left|]);
    by apply redirect_never_returns.
Qed.

(** The timeout callback of one request is stored in the only place there is:
    the next sweep reports every expired request to it, also those sent before
    with a callback of their own. *)
Theorem request_timeout_callback_is_global now now' c d t rcb g s p q r :
  connections_ s !! c = Some p →
  pendingRequests_ s !! q = Some r → expiryTime r <= now' → q ≠ nextSequence_ s →
  let s' := state_of (sendRequest now c d t rcb (Some g) s) in
  UserTimeout g q ∈ called (effs_of (checkTimeouts now' false s')) ∧
  ∀ f q', UserTimeout f q' ∈ called (effs_of (checkTimeouts now' false s')) → f = g.
Proof.
  intros Hc Hq Hd Hne s'.
  assert (Hs' : timeoutCallback_ s' = Some g ∧ pendingRequests_ s' !! q = Some r).
  { unfold s'. rewrite sendRequest_run, Hc. simpl. by rewrite lookup_insert_ne by done. }
  destruct Hs' as [Hcb Hq']. destruct (server_checkTimeouts_run now' s') as [-> _].
  rewrite Hcb, called_app. cbn [timeouts].
  assert (Hcalls : ∀ l : list s_call, called (Op:=s_op) (P:=Empty_set) (T:=s_timer) (ECall <$> l) = l).
  { intros l. induction l as [|y l IH]; [done|]. simpl. by f_equal. }
  rewrite Hcalls. split.
  - apply elem_of_app. left. apply list_elem_of_fmap. exists q. split; [done|].
    apply server_elem_expired. eauto.
  - intros f q' [Hin|Hin]%elem_of_app.
    + apply list_elem_of_fmap in Hin as (? & [= -> ->] & _). done.
    + destruct (decide _); simpl in Hin; by apply not_elem_of_nil in Hin.
Qed.

(** ** Witnesses: a server with one connection and one request of five seconds *)

Abbreviation swld := (world tcpserver s_op Empty_set s_timer s_call).

Definition srv0 : swld := init_world (new_server (lit "SERVER_MAIN_001")) 0.
Definition srv1 : swld :=
  run (h_api (server_handlers 8) (w_now srv0) (ASetTimeoutCallback (Some 9%nat))) srv0.
Definition srv2 : swld := run (h_api (server_handlers 8) (w_now srv1) AStart) srv1.
Definition srv3 : swld :=
  complete (server_handlers 8) (OpAccept 0 1) (IoOk []) ([] ++ []) srv2.
Definition srv4 : swld :=
  run (h_api (server_handlers 8) (w_now srv3)
         (ASendRequest 1 (lit "hi") 5000 (Some 3%nat) None)) srv3.

Lemma srv4_reachable : reachable (server_handlers 8) srv0 srv4.
Proof.
  apply (rtc_l _ _ srv1); [apply step_api|]. apply (rtc_l _ _ srv2); [apply step_api|].
  apply (rtc_l _ _ srv3); [|apply rtc_once, step_api].
  exact (step_io (server_handlers 8) srv2 (OpAccept 0 1) [] [] (IoOk []) eq_refl eq_refl).
Qed.

Definition req1 : PendingRequest := mkPending (milliseconds 5000) 1 (Some 3%nat).


(** The same server once the request is answered: the table is empty, the timer
    still armed. *)
Definition answered : tcpserver := state_of (cancelRequest 1 (w_st srv4)).

Lemma request_can_be_left_unwatched_witness :
  ∃ s' now', rtc section_step (Shared answered [] [milliseconds 100] 0) (Shared s' [] [] now') ∧
    pendingRequests_ s' !! 2 = Some req1 ∧ timeoutTimerRunning_ s' = false.
Proof.
  apply (request_can_be_left_unwatched answered 2 req1 None (milliseconds 100) 0);
    vm_compute; reflexivity.
Defined.

Definition response1 : Packet := createPacket RESPONSE 0 1 (lit "ok").
Definition with_user_callback : tcpserver :=
  (w_st srv4) <| packetCallback_ := Some (UserCb 4) |>.

Lemma response_routed_once_witness :
  let r := handleIncomingPacket 2 1 response1 with_user_callback in
  let r2 := handleIncomingPacket 2 1 response1 (state_of r) in
  val_of r = true ∧
  called (effs_of r) = response_call 1 response1 (pendingRequests_ with_user_callback) ++
                       global_call 1 response1 (packetCallback_ with_user_callback) ∧
  pendingRequests_ (state_of r) = delete 1 (pendingRequests_ with_user_callback) ∧
  called (effs_of r2) = global_call 1 response1 (packetCallback_ with_user_callback).
Proof.
  apply (response_routed_once 0 1 response1 with_user_callback); [done|reflexivity].
Defined.

Lemma request_timeout_callback_is_global_witness :
  let s' := state_of (sendRequest 0 1 (lit "b") 5000 None (Some 7%nat) (w_st srv4)) in
  UserTimeout 7 1 ∈ called (effs_of (checkTimeouts (milliseconds 6000) false s')) ∧
  ∀ f q', UserTimeout f q' ∈ called (effs_of (checkTimeouts (milliseconds 6000) false s')) →
    f = 7%nat.
Proof.
  apply (request_timeout_callback_is_global 0 (milliseconds 6000) 1 (lit "b") 5000 None 7
           (w_st srv4) 0 1 req1); [vm_compute; reflexivity..|vm_compute; discriminate|].
  vm_compute. discriminate.
Defined.
