(* ===== verification/TcpClient.v ===== *)
(** * TcpClient: the claude client

    Class [TcpClient] of claude/asio_client.cpp as a machine of the I/O
    contract: its handlers run on its strand. Reading is the shared reader of
    TcpReader.v (instance [client_reader]). [stop] is modelled but not one of the
    machine's steps; the program that calls it is in ClientConsole.v. *)

From S2P Require Import Prelude Bytes Tables Asio TcpPacket TcpReader.

#[local] Arguments lit : simpl never.

Definition DEFAULT_RECONNECT_DELAY_MS : Z := 3000.

Inductive k_op :=
| OpResolve
| OpConnect
| OpRead (o : read_op)
| OpWrite (bs : bytes).

(** Closures posted to the strand by [connect], [sendPacket] and
    [startTimeoutTimer]. *)
Inductive k_post := PConnect | PSend (serialized : bytes) | PTimeoutTimer.

(** [timer_] and [reconnect_timer_]. *)
Inductive k_timer := TTimeout | TReconnect.

#[export] Instance k_timer_eq_dec : EqDecision k_timer.
Proof. solve_decision. Defined.

(** A [ResponseCallback]: the user's, or the lambda of [sendRequestSync] that
    fulfils promise [k]. *)
Inductive response_cb := UserResponse (f : nat) | SetPromise (k : nat).

Inductive k_call :=
| CStatus (f : nat) (connected : bool)
| CPacket (f : nat) (packet : Packet)
| CResponse (cb : response_cb) (packet : Packet)
| CTimeout (f : nat) (sequenceNumber : Z).

Record PendingRequest := mkPending {
  expiryTime : Z;
  callback : option response_cb }.

Record tcpclient := mkClient {
  socket_open : bool;
  io_thread_joinable : bool;
  client_id_ : bytes;
  connected_ : bool;
  reconnect_enabled_ : bool;
  next_sequence_ : Z;
  packet_callback_ : std_function;
  connection_status_callback_ : std_function;
  timeout_callback_ : std_function;
  reading : rx;
  write_queue_ : list bytes;
  pending_requests_ : gmap Z PendingRequest }.

#[export] Instance eta_tcpclient : Eta tcpclient := λ c,
  mkClient (socket_open c) (io_thread_joinable c) (client_id_ c) (connected_ c)
    (reconnect_enabled_ c) (next_sequence_ c) (packet_callback_ c)
    (connection_status_callback_ c) (timeout_callback_ c) (reading c) (write_queue_ c)
    (pending_requests_ c).

Definition new_client (clientId : bytes) (hdr : PacketHeader) (buf : bytes) : tcpclient :=
  mkClient false false clientId false false 1 None None None (new_rx hdr buf) [] ∅.

Abbreviation k_eff := (eff k_op k_post k_timer k_call).
Abbreviation M := (act tcpclient k_eff).

Section Client.
Context `{Host} `{Storage}.

(** ** Configuration *)

Definition setPacketCallback (f : std_function) : M unit :=
  modify (λ c, c <| packet_callback_ := f |>).
Definition setConnectionStatusCallback (f : std_function) : M unit :=
  modify (λ c, c <| connection_status_callback_ := f |>).
Definition setTimeoutCallback (f : std_function) : M unit :=
  modify (λ c, c <| timeout_callback_ := f |>).
Definition setAutoReconnect (enabled : bool) : M unit :=
  modify (λ c, c <| reconnect_enabled_ := enabled |>).

Definition notifyConnectionStatus (connected : bool) : M unit :=
  f ← gets connection_status_callback_;
  match f with Some f => emit (ECall (CStatus f connected)) | None => skip end.

Definition getNextSequence : M Z :=
  n ← gets next_sequence_;
  modify (λ c, c <| next_sequence_ := u32 (n + 1) |>);;
  mret n.

(** ** Connecting *)

Definition close : M unit :=
  o ← gets socket_open;
  if o : bool then emit EClose;; modify (λ c, c <| socket_open := false |>) else skip.

Definition connect : M unit := emit (EPost PConnect).

(** The closure posted by [connect]. *)
Definition connect_posted : M unit :=
  close;;
  modify (λ c, c <| connected_ := false |>
                 <| reading := (reading c) <| read_state_ := HEADER |>
                                 <| header_bytes_read_ := 0%nat |>
                                 <| payload_bytes_read_ := 0%nat |> |>);;
  emit (EStart OpResolve).

Definition scheduleReconnect (now : Z) : M unit :=
  enabled ← gets reconnect_enabled_;
  if enabled : bool
  then emit (EArm TReconnect (now + milliseconds DEFAULT_RECONNECT_DELAY_MS))
  else skip.

(** The handler of [reconnect_timer_]. *)
Definition on_reconnect_timer (aborted : bool) : M unit :=
  enabled ← gets reconnect_enabled_;
  if negb aborted && enabled then connect else skip.

Definition handleDisconnect (now : Z) : M unit :=
  conn ← gets connected_;
  if conn : bool then
    modify (λ c, c <| connected_ := false |>);;
    notifyConnectionStatus false;;
    modify (λ c, c <| pending_requests_ := ∅ |>);;
    scheduleReconnect now
  else skip.

(** [start]: creating the I/O thread while one is joinable ends the program;
    the result says whether the program goes on. *)
Definition start : M bool :=
  running ← gets io_thread_joinable;
  if running : bool then mret false
  else
    modify (λ c, c <| io_thread_joinable := true |>);;
    connect;;
    mret true.

Definition stop : M unit :=
  modify (λ c, c <| reconnect_enabled_ := false |>);;
  emit (ECancel TTimeout);;
  emit (ECancel TReconnect);;
  close;;
  modify (λ c, c <| io_thread_joinable := false |>).

(** ** Writing *)

Definition doWrite : M unit :=
  q ← gets write_queue_;
  match q with
  | [] => skip
  | front :: _ => emit (EStart (OpWrite front))
  end.

Definition onWrite (now : Z) (res : io_result) : M unit :=
  match res with
  | IoOk _ =>
      modify (λ c, c <| write_queue_ := tail (write_queue_ c) |>);;
      q ← gets write_queue_;
      match q with [] => skip | _ :: _ => doWrite end
  | IoErr aborted => if aborted then skip else handleDisconnect now
  end.

Definition sendPacket (packet : Packet) : M bool :=
  conn ← gets connected_;
  if conn : bool then emit (EPost (PSend (serialize packet)));; mret true
  else mret false.

(** The closure posted by [sendPacket]. *)
Definition send_posted (serialized : bytes) : M unit :=
  q ← gets write_queue_;
  let write_in_progress := match q with [] => false | _ :: _ => true end in
  modify (λ c, c <| write_queue_ := write_queue_ c ++ [serialized] |>);;
  if write_in_progress then skip else doWrite.

Definition sendBindPacket : M unit :=
  sequence ← getNextSequence;
  i ← gets client_id_;
  sendPacket (createPacket BIND 0 sequence i);;
  skip.

(** ** Requests *)

Definition startTimeoutTimer : M unit := emit (EPost PTimeoutTimer).

(** The closure posted by [startTimeoutTimer]. *)
Definition timeout_timer_posted (now : Z) : M unit :=
  m ← gets pending_requests_;
  if bool_decide (m = ∅) then skip
  else
    emit (ECancel TTimeout);;
    emit (EArm TTimeout (now + milliseconds 100)).

Definition sendRequest (now : Z) (data : bytes) (timeout : Z)
    (responseCallback : option response_cb) : M Z :=
  conn ← gets connected_;
  if conn : bool then
    sequence ← getNextSequence;
    sent ← sendPacket (createPacket REQUEST 0 sequence data);
    if sent : bool then
      modify (λ c, c <| pending_requests_ :=
        <[sequence := mkPending (now + milliseconds timeout) responseCallback]>
          (pending_requests_ c) |>);;
      startTimeoutTimer;;
      mret sequence
    else mret 0
  else mret 0.

Definition cancelRequest (sequenceNumber : Z) : M bool :=
  m ← gets pending_requests_;
  modify (λ c, c <| pending_requests_ := delete sequenceNumber (pending_requests_ c) |>);;
  mret (bool_decide (is_Some (m !! sequenceNumber))).

(** [sendRequestSync] up to the wait on promise [k]; [None] when it throws. *)
Definition sendRequestSync_send (now : Z) (data : bytes) (timeout : Z) (k : nat) :
    M (option Z) :=
  sequence ← sendRequest now data timeout (Some (SetPromise k));
  mret (if sequence =? 0 then None else Some sequence).

(** [sendRequestSync] after the wait: the packet the promise was given in time,
    if any; [None] when it throws. *)
Definition sendRequestSync_wait (sequence : Z) (outcome : option Packet) : M (option Packet) :=
  match outcome with
  | None => cancelRequest sequence;; mret None
  | Some p => mret (Some p)
  end.

Definition is_expired (now : Z) (r : PendingRequest) : bool := expiryTime r <=? now.

(** The keys of the expired requests, in the order [std::map] iterates. *)
Definition expiredSequences (now : Z) (m : gmap Z PendingRequest) : list Z :=
  keys_where (is_expired now) m.

Definition timeout_calls (f : std_function) (sequences : list Z) : M unit :=
  match f with
  | Some f => foldr (λ q k, emit (ECall (CTimeout f q));; k) skip sequences
  | None => skip
  end.

Definition checkTimeouts (now : Z) : M unit :=
  m ← gets pending_requests_;
  let expired := expiredSequences now m in
  modify (λ c, c <| pending_requests_ := erase_all expired (pending_requests_ c) |>);;
  m ← gets pending_requests_;
  f ← gets timeout_callback_;
  timeout_calls f expired;;
  if bool_decide (m = ∅) then skip else emit (EArm TTimeout (now + milliseconds 100)).

(** The handler of [timer_]. *)
Definition on_timeout_timer (now : Z) (aborted : bool) : M unit :=
  if aborted then skip else checkTimeouts now.

(** ** Incoming packets *)

(** [processPacket] after the packet is put together. *)
Definition handle_packet (packet : Packet) : M unit :=
  (if hd_packetId (header packet) =? RESPONSE then
     m ← gets pending_requests_;
     match m !! hd_sequence (header packet) with
     | Some r =>
         modify (λ c, c <| pending_requests_ :=
           delete (hd_sequence (header packet)) (pending_requests_ c) |>);;
         match callback r with
         | Some cb => emit (ECall (CResponse cb packet))
         | None => skip
         end
     | None => skip
     end
   else skip);;
  f ← gets packet_callback_;
  match f with Some f => emit (ECall (CPacket f packet)) | None => skip end.

#[global] Instance client_reader : PacketReader tcpclient k_op k_post k_timer k_call := {
  rx_of := reading;
  rx_set r c := c <| reading := r |>;
  rd := OpRead;
  handlePacket := handle_packet;
  closeSocket := close;
  readFailed := handleDisconnect }.

Definition on_resolve (now : Z) (res : io_result) : M unit :=
  match res with
  | IoOk _ =>
      modify (λ c, c <| socket_open := true |>);;
      emit (EStart OpConnect)
  | IoErr _ => scheduleReconnect now
  end.

Definition startRead : M unit := readHeader.

Definition on_connect (now : Z) (res : io_result) : M unit :=
  match res with
  | IoOk _ =>
      modify (λ c, c <| connected_ := true |>);;
      notifyConnectionStatus true;;
      startRead;;
      sendBindPacket
  | IoErr _ => scheduleReconnect now
  end.

(** ** The client as a machine *)

Inductive k_api :=
| ASetAutoReconnect (enabled : bool)
| AConnect
| ASendPacket (packet : Packet)
| ASendRequest (data : bytes) (timeout : Z) (cb : option response_cb)
| ACancelRequest (sequenceNumber : Z).

Definition ignore {A} (m : M A) : M unit := m;; mret ().

Definition client_api (now : Z) (a : k_api) : M unit :=
  match a with
  | ASetAutoReconnect b => setAutoReconnect b
  | AConnect => connect
  | ASendPacket p => ignore (sendPacket p)
  | ASendRequest d t cb => ignore (sendRequest now d t cb)
  | ACancelRequest q => ignore (cancelRequest q)
  end.

Definition client_kind (o : k_op) : io_kind :=
  match o with
  | OpResolve | OpConnect => KConnect
  | OpRead o => KRead (read_size o)
  | OpWrite bs => KWrite bs
  end.

Definition client_io (now : Z) (o : k_op) (res : io_result) : M unit :=
  match o with
  | OpResolve => on_resolve now res
  | OpConnect => on_connect now res
  | OpRead o => onRead now o res
  | OpWrite _ => onWrite now res
  end.

Definition client_post (now : Z) (p : k_post) : M unit :=
  match p with
  | PConnect => connect_posted
  | PSend bs => send_posted bs
  | PTimeoutTimer => timeout_timer_posted now
  end.

Definition client_timer (now : Z) (t : k_timer) (aborted : bool) : M unit :=
  match t with
  | TTimeout => on_timeout_timer now aborted
  | TReconnect => on_reconnect_timer aborted
  end.

Definition client_handlers : handlers tcpclient k_op k_post k_timer k_call k_api :=
  Handlers client_kind client_io client_post client_timer client_api.

#[global] Instance client_reader_laws : PacketReaderLaws client_handlers.
Proof.
  split; try done.
  - by intros [].
  - intros p s. simpl. unfold handle_packet. unact. run_cases.
  - intros p r []. simpl. unfold handle_packet. unact. run_cases.
  - intros p s. simpl. unfold handle_packet. unact. run_cases.
Qed.

End Client.
Abbreviation KH := client_handlers.
