(* ===== verification/TcpClientProps.v ===== *)
(** * TcpClientProps: what the claude client promises, and where it stops

    - receiving: a stream of packets becomes response callbacks and packet
      callbacks, in order, each response answering its request once;
    - requests: while any is pending, a check of the table is on its way;
    - a lost or failed write, an invalid packet and a disconnection: what the
      client does from then on. *)

From S2P Require Import Prelude Bytes Tables Asio TcpPacket TcpReader TcpClient.

#[local] Arguments lit : simpl never.

Section Props.
Context {ho : Host} {sg : Storage}.
Implicit Types (c : tcpclient) (m : gmap Z PendingRequest)
  (w : world tcpclient k_op k_post k_timer k_call).

(** ** Receiving *)

Definition response_calls m (p : Packet) : list k_call :=
  if hd_packetId (header p) =? RESPONSE then
    match m !! hd_sequence (header p) with
    | Some r => match callback r with Some cb => [CResponse cb p] | None => [] end
    | None => []
    end
  else [].

Definition packet_calls (f : std_function) (p : Packet) : list k_call :=
  match f with Some f => [CPacket f p] | None => [] end.

Definition settle m (p : Packet) : gmap Z PendingRequest :=
  if hd_packetId (header p) =? RESPONSE then delete (hd_sequence (header p)) m else m.

(** The callbacks a sequence of packets causes, with the requests pending. *)
Fixpoint deliveries (f : std_function) m (ps : list Packet) : list k_call :=
  match ps with
  | [] => []
  | p :: ps' => response_calls m p ++ packet_calls f p ++ deliveries f (settle m p) ps'
  end.

Lemma tcp_client_handle_packet_run p c :
  let r := handle_packet p c in
  called (effs_of r) = response_calls (pending_requests_ c) p ++
                       packet_calls (packet_callback_ c) p ∧
  posted (effs_of r) = [] ∧
  state_of r = c <| pending_requests_ := settle (pending_requests_ c) p |>.
Proof.
  unfold handle_packet, response_calls, packet_calls, settle.
  destruct c as [? ? ? ? ? ? [f|] ? ? ? ? m]; unact;
    destruct (hd_packetId (header p) =? RESPONSE); simpl; try done;
    destruct (m !! hd_sequence (header p)) as [[? [cb|]]|] eqn:E; simpl; try done;
    by rewrite delete_id.
Qed.

Lemma tcp_client_handle_all_run ps c :
  let r := handle_all ps c in
  called (effs_of r) = deliveries (packet_callback_ c) (pending_requests_ c) ps ∧
  posted (effs_of r) = [] ∧
  state_of r = c <| pending_requests_ := foldl settle (pending_requests_ c) ps |>.
Proof.
  revert c. induction ps as [|p ps IH]; intros c; [by destruct c|].
  rewrite handle_all_cons. simpl. destruct (tcp_client_handle_packet_run p c) as (Hc & Hp & Hs).
  rewrite called_app, posted_app, !Hc, !Hp, !Hs.
  destruct (IH (c <| pending_requests_ := settle (pending_requests_ c) p |>)) as (-> & -> & ->).
  rewrite <-app_assoc. by destruct c.
Qed.

Lemma tcp_client_feed (from : machine) ps rest w fuel :
  Forall packet_ok ps →
  reads KH (w_ops w) = [OpRead (RdHeader 0 sizeof_PacketHeader)] → rx_idle (reading (w_st w)) →
  (length rest < sizeof_PacketHeader)%nat → (2 * length ps <= fuel)%nat →
  let c := w_st w in
  let got := seen (current_payload_ (reading c)) ps in
  ∃ w', feed KH fuel (mjoin (frame_on from <$> ps) ++ rest) w = (w', rest) ∧
    w_calls w' = w_calls w ++ deliveries (packet_callback_ c) (pending_requests_ c) got ∧
    pending_requests_ (w_st w') = foldl settle (pending_requests_ c) got ∧
    reads KH (w_ops w') = [OpRead (RdHeader 0 sizeof_PacketHeader)] ∧
    w_posts w' = w_posts w.
Proof.
  intros Hps Hreads Hidle Hlen Hf c got.
  destruct (reads_singleton_inv KH _ _ Hreads) as (l1 & l2 & Hops & Hnr).
  destruct (feed_packets (pr:=client_reader) KH from ps rest w l1 l2 fuel Hps Hops Hnr Hidle Hlen Hf)
    as (w' & r' & Hfeed & Hr' & _ & Hst & Hca & Hpo & _).
  destruct (tcp_client_handle_all_run got c) as (Ec & Ep & Es). fold c in Hst, Hca, Hpo.
  change (rx_of c) with (reading c) in *. fold got in Hst, Hca, Hpo.
  rewrite Ec in Hca. rewrite Ep, app_nil_r in Hpo. rewrite Es in Hst.
  exists w'. split_and!; try done. by rewrite Hst.
Qed.

(** C26: A client waiting for a header and fed the frames of valid packets from any machine,
    then less than a header: every packet reaches the packet callback in order;
    a RESPONSE first reaches the callback of the pending request with its
    sequence number, which is then no longer pending, so a duplicate does not
    reach it again; the client is waiting for the next header. *)
Theorem tcp_client_receives_packets (from : machine) ps rest w fuel :
  Forall packet_ok ps → wf_bytes rest →
  reads KH (w_ops w) = [OpRead (RdHeader 0 sizeof_PacketHeader)] → rx_idle (reading (w_st w)) →
  (length rest < sizeof_PacketHeader)%nat → (2 * length ps <= fuel)%nat →
  let c := w_st w in
  let got := seen (current_payload_ (reading c)) ps in
  ∃ w', feed KH fuel (mjoin (frame_on from <$> ps) ++ rest) w = (w', rest) ∧
    reachable KH w w' ∧
    w_calls w' = w_calls w ++ deliveries (packet_callback_ c) (pending_requests_ c) got ∧
    pending_requests_ (w_st w') = foldl settle (pending_requests_ c) got ∧
    reads KH (w_ops w') = [OpRead (RdHeader 0 sizeof_PacketHeader)] ∧
    w_posts w' = w_posts w.
Proof.
  intros Hps Hrest Hreads Hidle Hlen Hf c got.
  destruct (tcp_client_feed from ps rest w fuel Hps Hreads Hidle Hlen Hf) as (w' & Hfeed & Hw').
  exists w'. split; [done|]. split; [|done].
  replace w' with (feed KH fuel (mjoin (frame_on from <$> ps) ++ rest) w).1 by by rewrite Hfeed.
  apply feed_reachable, wf_bytes_app. split; [by apply tcp_frames_wf|done].
Qed.

(** ** A client that lost a write *)

Definition writes (ops : list k_op) : list bytes :=
  omap (λ o, match o with OpWrite bs => Some bs | _ => None end) ops.

Lemma tcp_client_writes_app l1 l2 : writes (l1 ++ l2) = writes l1 ++ writes l2.
Proof. apply omap_app. Qed.

(** The queue is not empty and no write is outstanding. *)
Definition stalled (sent0 : bytes) c (ops : list k_op) (ps : list k_post) (sent : bytes) : Prop :=
  write_queue_ c ≠ [] ∧ writes ops = [] ∧ sent = sent0.

(** Handlers that never start a write or empty the queue; the rest of the
    client, [onWrite] apart, when the queue is not empty. *)
Definition no_write {A} (a : M A) : Prop :=
  ∀ c, write_queue_ c ≠ [] →
    write_queue_ (state_of (a c)) ≠ [] ∧ writes (started (effs_of (a c))) = [].

#[local] Instance no_write_compositional : Compositional (@no_write).
Proof.
  intros A B a k Ha Hk c Hc. cbv [mbind act_bind]. destruct (Ha c Hc) as [Hq Hs].
  destruct (a c) as [[c1 e1] x]. simpl in *. destruct (Hk x c1 Hq) as [Hq' Hs'].
  destruct (k x c1) as [[c2 e2] y]. simpl in *. by rewrite started_app, tcp_client_writes_app, Hs, Hs'.
Qed.

Ltac no_write_tac :=
  repeat first [ apply (compose (P:=@no_write)); [|intros ?] | progress case_match | done ].

Lemma no_write_read now o res : no_write (onRead now o res).
Proof.
  apply (onRead_compositional (@no_write)); try done; simpl.
  - intros p. unfold handle_packet. no_write_tac.
  - unfold close. no_write_tac.
  - unfold handleDisconnect, notifyConnectionStatus, scheduleReconnect. no_write_tac.
Qed.

Lemma no_write_send bs : no_write (send_posted bs).
Proof.
  intros c Hc. unfold send_posted. unact. destruct (write_queue_ c); [done|]. done.
Qed.

Lemma no_write_timeout_calls f qs : no_write (timeout_calls f qs).
Proof.
  destruct f as [f|]; [|done]. induction qs as [|q qs IH]; simpl; [done|].
  by apply (compose (P:=@no_write)).
Qed.

Lemma tcp_client_stalled_frame {A} (a : M A) sent0 c ops ps sent :
  no_write a → stalled sent0 c ops ps sent →
  let r := a c in
  stalled sent0 (state_of r) (ops ++ started (effs_of r)) (ps ++ posted (effs_of r)) sent.
Proof.
  intros Ha (Hq & Hw & Hs) r. destruct (Ha c Hq) as [Hq' Hw'].
  split; [done|]. split; [|done]. by rewrite tcp_client_writes_app, Hw.
Qed.

Lemma tcp_client_stalled_reachable sent0 w0 w :
  stalled sent0 (w_st w0) (w_ops w0) (w_posts w0) (w_sent w0) → reachable KH w0 w →
  stalled sent0 (w_st w) (w_ops w) (w_posts w) (w_sent w).
Proof.
  apply (step_ops_invariant KH (stalled sent0)).
  - intros c ops ps sent now p HI. apply tcp_client_stalled_frame; [|by destruct HI].
    destruct p; simpl; [|apply no_write_send|unfold timeout_timer_posted; no_write_tac].
    unfold connect_posted, close. no_write_tac.
  - intros c l1 l2 ps sent now o res (Hq & Hw & Hs) _. rewrite tcp_client_writes_app in Hw.
    apply app_nil in Hw as [Hl1 Hl2].
    replace (sent ++ _) with sent.
    2: { destruct o, res; try done; simpl; by rewrite app_nil_r. }
    apply tcp_client_stalled_frame; [|split; [done|]; split; [|done]].
    + destruct o; simpl; try done.
      * destruct res; simpl; unfold scheduleReconnect; no_write_tac.
      * destruct res; simpl; unfold notifyConnectionStatus, sendBindPacket, getNextSequence,
          sendPacket, scheduleReconnect, startRead, readHeader; no_write_tac.
      * apply no_write_read.
    + destruct o; rewrite tcp_client_writes_app, Hl1; done.
  - intros c ops ps sent now [] ab HI; apply tcp_client_stalled_frame; try done; simpl.
    + unfold on_timeout_timer, checkTimeouts. destruct ab; [done|].
      no_write_tac; apply no_write_timeout_calls.
    + unfold on_reconnect_timer. no_write_tac.
  - intros c ops ps sent now a HI. apply tcp_client_stalled_frame; [|done].
    destruct a; simpl; unfold ignore, setAutoReconnect, sendPacket, sendRequest, cancelRequest,
      getNextSequence, startTimeoutTimer; no_write_tac.
Qed.

(** The front of the queue is being written and the write fails, for whatever
    reason: the frame stays in the queue, every later [sendPacket] finds a write
    "in progress", and nothing is ever written again. The queue survives a
    reconnection, so a client that reconnects never even sends its BIND. *)
Theorem failed_write_silences_client w b l1 l2 ab w' :
  w_ops w = l1 ++ OpWrite b :: l2 → writes (l1 ++ l2) = [] → write_queue_ (w_st w) ≠ [] →
  reachable KH (complete KH (OpWrite b) (IoErr ab) (l1 ++ l2) w) w' →
  w_sent w' = w_sent w ∧ writes (w_ops w') = [] ∧ write_queue_ (w_st w') ≠ [].
Proof.
  intros Hops Hw Hq Hr. apply (tcp_client_stalled_reachable (w_sent w)) in Hr as (? & ? & ?); [done|].
  destruct (complete_fields KH (OpWrite b) (IoErr ab) (l1 ++ l2) w)
    as (-> & -> & _ & _ & -> & _). simpl. rewrite app_nil_r.
  assert (Hn : no_write (onWrite (w_now w) (IoErr ab))).
  { simpl. unfold handleDisconnect, notifyConnectionStatus, scheduleReconnect. no_write_tac. }
  destruct (Hn (w_st w) Hq) as [Hq' Hs]. split; [done|]. split; [|done].
  simpl in Hs. by rewrite tcp_client_writes_app, Hw.
Qed.

(** ** Pending requests are watched *)

(** A check of the table is on its way: posted, waiting on [timer_], or about to
    run after an expiry. *)
Definition check_coming w : Prop :=
  PTimeoutTimer ∈ w_posts w ∨ (∃ d, (TTimeout, d) ∈ w_armed w) ∨ (TTimeout, false) ∈ w_fired w.

Definition requests_watched w : Prop := pending_requests_ (w_st w) ≠ ∅ → check_coming w.

(** Effects that do not touch [timer_]. *)
Definition spares_timer (e : k_eff) : Prop :=
  match e with EArm t _ | ECancel t => t ≠ TTimeout | _ => True end.

Lemma cancel_reconnect_spares d w :
  (TTimeout, d) ∈ w_armed w → (TTimeout, d) ∈ w_armed (cancel_timer TReconnect w).
Proof. intros Hd. simpl. by apply list_elem_of_filter. Qed.

Lemma do_eff_check e w : spares_timer e → check_coming w → check_coming (do_eff e w).
Proof.
  intros He. unfold check_coming. destruct e as [| |t d|t| |]; simpl in *; try done.
  - rewrite elem_of_app. naive_solver.
  - destruct t; [done|]. setoid_rewrite elem_of_app. setoid_rewrite list_elem_of_filter.
    naive_solver.
  - destruct t; [done|]. setoid_rewrite elem_of_app. setoid_rewrite list_elem_of_filter.
    naive_solver.
Qed.

Lemma do_effs_check es w :
  Forall spares_timer es → check_coming w → check_coming (do_effs es w).
Proof.
  intros Hes. revert w. induction Hes as [|e es He _ IH]; intros w Hw; [done|].
  apply IH. by apply do_eff_check.
Qed.

Lemma check_coming_state c w : check_coming (w <| w_st := c |>) ↔ check_coming w.
Proof. done. Qed.

(** Functions that do not touch [timer_] and add no request. *)
Definition adds_nothing (c c' : tcpclient) : Prop :=
  pending_requests_ c = ∅ → pending_requests_ c' = ∅.

#[local] Instance adds_nothing_preorder : PreOrder adds_nothing.
Proof. split; unfold adds_nothing; repeat intro; auto. Qed.

Abbreviation timer_quiet := (keeps adds_nothing spares_timer _).

Ltac timer_quiet_tac :=
  repeat first
    [ progress keeps_tac | progress case_match
    | apply keeps_modify; intros c Hc; simpl; first [done | rewrite Hc; apply delete_empty] ].

Lemma timer_quiet_disconnect now : timer_quiet (handleDisconnect now).
Proof.
  unfold handleDisconnect, notifyConnectionStatus, scheduleReconnect. timer_quiet_tac.
Qed.

Lemma timer_quiet_close : timer_quiet close.
Proof. unfold close. timer_quiet_tac. Qed.

Lemma timer_quiet_read now o res : timer_quiet (onRead now o res).
Proof.
  apply (onRead_compositional (keeps adds_nothing spares_timer)); simpl;
    [intros; unfold rx_upd; timer_quiet_tac..|intros p; unfold handle_packet; timer_quiet_tac
    |apply timer_quiet_close|apply timer_quiet_disconnect].
Qed.

Lemma tcp_client_watched_quiet {A} (a : M A) w :
  timer_quiet a → requests_watched w → requests_watched (run a w).
Proof.
  intros Ha Hw. destruct (Ha (w_st w)) as [Hp He]. unfold requests_watched, run in *.
  destruct (a (w_st w)) as [[c es] x]. simpl in *. intros Hne.
  destruct (do_effs_fields es (w <| w_st := c |>)) as (Hst & _). simpl in Hst. rewrite Hst in Hne.
  apply do_effs_check; [done|]. apply Hw. auto.
Qed.

Lemma timeout_calls_run f qs c :
  timeout_calls f qs c =
    (c, match f with Some f => (λ q, ECall (CTimeout f q)) <$> qs | None => [] end, ()).
Proof.
  destruct f as [f|]; [|done]. induction qs as [|q qs IH]; [done|].
  cbn [timeout_calls foldr] in *. rewrite act_emit, IH. done.
Qed.

Lemma tcp_client_run_ignore {A} (a : M A) w : run (ignore a) w = run a w.
Proof.
  unfold run, ignore. cbv [mbind act_bind mret act_ret].
  destruct (a (w_st w)) as [[c es] x]. simpl. by rewrite app_nil_r.
Qed.

(** A check leaves the requests that are not due, and comes again if there are
    any. *)
Lemma tcp_client_checkTimeouts_run now c :
  let expired := expiredSequences now (pending_requests_ c) in
  let rest := erase_all expired (pending_requests_ c) in
  checkTimeouts now c =
    (c <| pending_requests_ := rest |>,
     match timeout_callback_ c with
     | Some f => (λ q, ECall (CTimeout f q)) <$> expired
     | None => []
     end ++ (if bool_decide (rest = ∅) then [] else [EArm TTimeout (now + milliseconds 100)]),
     ()).
Proof.
  unfold checkTimeouts. cbv [mbind act_bind gets modify]. cbv zeta.
  cbn [app pending_requests_ timeout_callback_ field_upd]. rewrite timeout_calls_run.
  by destruct (bool_decide _).
Qed.

Lemma watched_check now w : requests_watched (run (checkTimeouts now) w).
Proof.
  intros Hne. destruct (run_fields (checkTimeouts now) w) as (Hst & _).
  rewrite Hst, tcp_client_checkTimeouts_run in Hne. cbn [state_of fst] in Hne.
  unfold run. rewrite tcp_client_checkTimeouts_run. cbv zeta. rewrite bool_decide_false by exact Hne.
  rewrite do_effs_app. right. left. eexists. simpl. apply elem_of_app. right. by left.
Qed.

Lemma watched_step w w' : requests_watched w → step KH w w' → requests_watched w'.
Proof.
  intros Hw Hs. destruct Hs as [w p ps Hp|w o l1 l2 r Ho Ha|w t d l1 l2 Ha Hd|
    w t ab l1 l2 Hf|w now|w a].
  - destruct p; simpl.
    + apply tcp_client_watched_quiet; [unfold connect_posted; timer_quiet_tac; apply timer_quiet_close|].
      intros Hne. specialize (Hw Hne). unfold check_coming in *. rewrite Hp in Hw. simpl.
      rewrite elem_of_cons in Hw. naive_solver.
    + apply tcp_client_watched_quiet; [unfold send_posted, doWrite; timer_quiet_tac|].
      intros Hne. specialize (Hw Hne). unfold check_coming in *. rewrite Hp in Hw. simpl.
      rewrite elem_of_cons in Hw. naive_solver.
    + unfold requests_watched, run, timeout_timer_posted. unact.
      destruct (bool_decide_reflect (pending_requests_ (w_st w) = ∅)); [done|]. simpl.
      intros _. right. left. eexists. simpl. apply elem_of_app. right. by left.
  - unfold complete. apply tcp_client_watched_quiet.
    2: { intros Hne. specialize (Hw Hne). done. }
    destruct o; simpl.
    + destruct r; simpl; unfold scheduleReconnect; timer_quiet_tac.
    + destruct r; simpl; unfold notifyConnectionStatus, sendBindPacket, getNextSequence,
        sendPacket, scheduleReconnect, startRead, readHeader; timer_quiet_tac.
    + apply timer_quiet_read.
    + destruct r as [|[]]; simpl; [|timer_quiet_tac|apply timer_quiet_disconnect].
      unfold doWrite. timer_quiet_tac.
  - intros Hne. specialize (Hw Hne). unfold check_coming in *. rewrite Ha in Hw. simpl.
    setoid_rewrite elem_of_app. setoid_rewrite elem_of_app in Hw. setoid_rewrite elem_of_cons in Hw.
    destruct Hw as [|[(d' & [|[[= -> ->]|]])|]]; eauto 6. do 2 right. right. by left.
  - destruct t; simpl.
    + destruct ab; simpl; [|apply watched_check]. apply tcp_client_watched_quiet; [timer_quiet_tac|].
      intros Hne. specialize (Hw Hne). unfold check_coming in *. rewrite Hf in Hw. simpl.
      rewrite elem_of_app, elem_of_cons in Hw. rewrite elem_of_app. naive_solver.
    + apply tcp_client_watched_quiet; [unfold on_reconnect_timer, connect; timer_quiet_tac|].
      intros Hne. specialize (Hw Hne). unfold check_coming in *. rewrite Hf in Hw. simpl.
      rewrite elem_of_app, elem_of_cons in Hw. rewrite elem_of_app. naive_solver.
  - done.
  - destruct a as [b| |p|d t cb|q]; simpl; rewrite ?tcp_client_run_ignore.
    1,2,3,5: apply tcp_client_watched_quiet; [|done]; unfold setAutoReconnect, connect, sendPacket,
      cancelRequest; timer_quiet_tac.
    unfold requests_watched, run, sendRequest, getNextSequence, sendPacket, startTimeoutTimer.
    unact. destruct (connected_ (w_st w)) eqn:Ec; simpl; rewrite ?Ec; simpl; [|done].
    intros _. left. simpl. rewrite !elem_of_app. right. by left.
Qed.

(** C27: Over every run of a client (reconnections, errors and late expiries
    included): as long as a request is pending, a check of the table has been
    posted, is waiting on [timer_] or is about to run; no request is forgotten
    by the timer. *)
Theorem client_requests_are_watched clientId hdr buf now w :
  reachable KH (init_world (new_client clientId hdr buf) now) w →
  pending_requests_ (w_st w) ≠ ∅ → check_coming w.
Proof.
  intros Hr. refine (invariant_reachable KH requests_watched _ w _ _ Hr); [by intros []|].
  intros w1 w2. apply watched_step.
Qed.

(** ** Expiry of requests *)

(** A synchronous request whose wait ran out is cancelled: if its response
    still arrives, no callback of a request runs, whatever else is pending, so
    the abandoned promise is never set. *)
Theorem late_response_is_ignored now d t k q c p :
  val_of (sendRequestSync_send now d t k c) = Some q →
  hd_sequence (header p) = q →
  let c1 := state_of (sendRequestSync_send now d t k c) in
  let c2 := state_of (sendRequestSync_wait q None c1) in
  (∃ r, pending_requests_ c1 !! q = Some r ∧ callback r = Some (SetPromise k)) ∧
  val_of (sendRequestSync_wait q None c1) = None ∧
  called (effs_of (handle_packet p c2)) = packet_calls (packet_callback_ c) p.
Proof.
  intros Hv Hp c1 c2.
  assert (Hc1 : q = next_sequence_ c ∧ packet_callback_ c1 = packet_callback_ c ∧
    pending_requests_ c1 !! q = Some (mkPending (now + milliseconds t) (Some (SetPromise k)))).
  { revert Hv. unfold c1, sendRequestSync_send, sendRequest, getNextSequence, sendPacket,
      startTimeoutTimer. unact. destruct (connected_ c) eqn:Ec; simpl; rewrite ?Ec; simpl.
    - destruct (Z.eqb_spec (next_sequence_ c) 0); [done|]. intros [= <-].
      by rewrite lookup_insert_eq.
    - done. }
  destruct Hc1 as (Hq & Hcb & Hl). split; [eauto|]. split; [done|].
  destruct (tcp_client_handle_packet_run p c2) as (-> & _).
  assert (Hc2 : pending_requests_ c2 !! q = None) by (unfold c2; simpl; apply lookup_delete_eq).
  unfold response_calls. rewrite Hp, Hc2. change (packet_callback_ c2) with (packet_callback_ c1).
  rewrite Hcb. by destruct (_ =? _).
Qed.

(** ** Invalid packets and disconnections *)

(** A header with an invalid length: the client closes its socket and stops
    reading, but stays [connected_], tells nobody and schedules no
    reconnection. *)
Theorem invalid_packet_deafens_client (from : machine) w hdr :
  header_ok hdr → invalid_length hdr = true → connected_ (w_st w) = true →
  reads KH (w_ops w) = [OpRead (RdHeader 0 sizeof_PacketHeader)] → rx_idle (reading (w_st w)) →
  ∃ w', feed KH 1 (header_on from hdr) w = (w', []) ∧
    reads KH (w_ops w') = [] ∧ socket_open (w_st w') = false ∧
    connected_ (w_st w') = true ∧ w_calls w' = w_calls w ∧ w_posts w' = w_posts w ∧
    w_armed w' = w_armed w.
Proof.
  intros Hh Hv Hc Hreads Hidle.
  destruct (reads_singleton_inv KH _ _ Hreads) as (l1 & l2 & Hops & Hnr).
  rewrite <-(app_nil_r (header_on _ _)).
  rewrite (feed_read KH l1 _ sizeof_PacketHeader l2 _ [] w 0 Hops Hnr)
    by (done || apply header_on_length).
  destruct (header_rejected (pr:=client_reader) KH from (w_now w) (w_st w) (reading (w_st w)) hdr
              Hidle Hh Hv) as (r' & Hrun).
  assert (Hset : rx_set (reading (w_st w)) (w_st w) = w_st w) by by destruct (w_st w).
  rewrite Hset in Hrun. eexists. split; [done|].
  unfold complete, run. cbn [w_st field_upd h_io KH client_io onRead].
  rewrite Hrun. cbn [closeSocket client_reader]. unfold close. unact.
  destruct (socket_open (w_st w)) eqn:Eo; simpl; rewrite (reads_nil KH _ Hnr); done.
Qed.

(** A disconnection (a failed read or write of a connected client) clears the
    table of requests without calling back for any of them: none of the
    requests pending then is ever answered or reported as timed out by its own
    callback; only the status callback runs, and a reconnection is scheduled
    three seconds later if enabled. *)
Theorem disconnect_drops_requests now c :
  connected_ c = true →
  let r := handleDisconnect now c in
  pending_requests_ (state_of r) = ∅ ∧ connected_ (state_of r) = false ∧
  called (effs_of r) =
    match connection_status_callback_ c with Some f => [CStatus f false] | None => [] end ∧
  (EArm TReconnect (now + milliseconds 3000) ∈ effs_of r ↔ reconnect_enabled_ c = true) ∧
  write_queue_ (state_of r) = write_queue_ c.
Proof.
  intros Hc. unfold handleDisconnect, notifyConnectionStatus, scheduleReconnect. unact.
  rewrite Hc. simpl. destruct (connection_status_callback_ c), (reconnect_enabled_ c); simpl;
    split_and!; try done; set_solver.
Qed.

End Props.

(** ** Witnesses: a client that has connected and sent its BIND *)

#[local] Instance tcp_host : Host := LittleEndian.
#[local] Instance tcp_storage : Storage := zero_storage.
Definition server_machine : machine := Machine BigEndian zero_storage.

Abbreviation kwld := (world tcpclient k_op k_post k_timer k_call).

Definition cli0 : kwld :=
  init_world (new_client (lit "CLIENT_1") (mkPacketHeader 0 0 0 0) (vec_zero 12)) 0.
Definition cli1 : kwld := run (h_api KH (w_now cli0) AConnect) cli0.
Definition cli2 : kwld := run (h_post KH (w_now cli1) PConnect) (cli1 <| w_posts := [] |>).
Definition cli3 : kwld := complete KH OpResolve (IoOk []) ([] ++ []) cli2.
Definition cli4 : kwld := complete KH OpConnect (IoOk []) ([] ++ []) cli3.
Definition bind_frame : bytes := serialize (createPacket BIND 0 1 (lit "CLIENT_1")).
Definition cli5 : kwld :=
  run (h_post KH (w_now cli4) (PSend bind_frame)) (cli4 <| w_posts := [] |>).
Definition cli6 : kwld :=
  run (h_api KH (w_now cli5) (ASendRequest (lit "hi") 5000 (Some (UserResponse 3)))) cli5.

Lemma cli6_reachable : reachable KH cli0 cli6.
Proof.
  apply (rtc_l _ _ cli1); [apply step_api|].
  apply (rtc_l _ _ cli2); [exact (step_post KH cli1 PConnect [] eq_refl)|].
  apply (rtc_l _ _ cli3); [exact (step_io KH cli2 OpResolve [] [] (IoOk []) eq_refl eq_refl)|].
  apply (rtc_l _ _ cli4); [exact (step_io KH cli3 OpConnect [] [] (IoOk []) eq_refl eq_refl)|].
  apply (rtc_l _ _ cli5); [exact (step_post KH cli4 (PSend bind_frame) [] eq_refl)|].
  apply rtc_once, step_api.
Qed.

Lemma client_requests_are_watched_witness :
  pending_requests_ (w_st cli6) ≠ ∅ ∧ check_coming cli6.
Proof.
  assert (Hne : pending_requests_ (w_st cli6) ≠ ∅) by (vm_compute; discriminate).
  split; [exact Hne|].
  apply (client_requests_are_watched (lit "CLIENT_1") (mkPacketHeader 0 0 0 0) (vec_zero 12) 0
           cli6 cli6_reachable Hne).
Defined.

Definition answer : Packet := createPacket RESPONSE 0 2 (lit "hi").

Lemma tcp_client_receives_packets_witness :
  let got := seen (current_payload_ (reading (w_st cli6))) [answer; answer] in
  ∃ w', feed KH 4 (mjoin (frame_on server_machine <$> [answer; answer]) ++ []) cli6 = (w', []) ∧
    reachable KH cli6 w' ∧
    w_calls w' = w_calls cli6 ++
      deliveries (packet_callback_ (w_st cli6)) (pending_requests_ (w_st cli6)) got ∧
    pending_requests_ (w_st w') = foldl settle (pending_requests_ (w_st cli6)) got ∧
    reads KH (w_ops w') = [OpRead (RdHeader 0 sizeof_PacketHeader)] ∧
    w_posts w' = w_posts cli6.
Proof.
  apply (tcp_client_receives_packets server_machine [answer; answer] [] cli6 4).
  - apply (bool_decide_unpack _). vm_compute. exact I.
  - constructor.
  - vm_compute. reflexivity.
  - vm_compute. done.
  - vm_compute. lia.
  - simpl. lia.
Defined.

Definition hdr_op : k_op := OpRead (RdHeader 0 sizeof_PacketHeader).

Lemma failed_write_silences_client_witness :
  let w := complete KH (OpWrite bind_frame) (IoErr false) ([hdr_op] ++ []) cli5 in
  w_sent w = w_sent cli5 ∧ writes (w_ops w) = [] ∧ write_queue_ (w_st w) ≠ [].
Proof.
  apply (failed_write_silences_client cli5 bind_frame [hdr_op] [] false);
    [vm_compute; reflexivity|reflexivity|vm_compute; discriminate|apply rtc_refl].
Defined.

Lemma late_response_is_ignored_witness :
  let c := w_st cli5 in
  let p := createPacket RESPONSE 0 2 (lit "late") in
  let c1 := state_of (sendRequestSync_send 0 (lit "x") 10 0 c) in
  let c2 := state_of (sendRequestSync_wait 2 None c1) in
  (∃ r, pending_requests_ c1 !! 2 = Some r ∧ callback r = Some (SetPromise 0)) ∧
  val_of (sendRequestSync_wait 2 None c1) = None ∧
  called (effs_of (handle_packet p c2)) = packet_calls (packet_callback_ c) p.
Proof.
  apply (late_response_is_ignored 0 (lit "x") 10 0 2 (w_st cli5)
           (createPacket RESPONSE 0 2 (lit "late"))); vm_compute; reflexivity.
Defined.

Lemma invalid_packet_deafens_client_witness :
  let hdr := mkPacketHeader 5 REQUEST 0 1 in
  ∃ w', feed KH 1 (header_on server_machine hdr) cli5 = (w', []) ∧
    reads KH (w_ops w') = [] ∧ socket_open (w_st w') = false ∧
    connected_ (w_st w') = true ∧ w_calls w' = w_calls cli5 ∧ w_posts w' = w_posts cli5 ∧
    w_armed w' = w_armed cli5.
Proof.
  apply (invalid_packet_deafens_client server_machine cli5 (mkPacketHeader 5 REQUEST 0 1));
    vm_compute; done.
Defined.

Lemma disconnect_drops_requests_witness :
  let r := handleDisconnect 0 (w_st cli6) in
  pending_requests_ (state_of r) = ∅ ∧ connected_ (state_of r) = false ∧
  called (effs_of r) =
    match connection_status_callback_ (w_st cli6) with
    | Some f => [CStatus f false] | None => [] end ∧
  (EArm TReconnect (0 + milliseconds 3000) ∈ effs_of r ↔ reconnect_enabled_ (w_st cli6) = true) ∧
  write_queue_ (state_of r) = write_queue_ (w_st cli6).
Proof. apply (disconnect_drops_requests 0 (w_st cli6)). reflexivity. Defined.
