(* ===== verification/TcpNet.v ===== *)
(** * TcpNet: the claude client and a connection of the claude server together

    The frames the one submits, fed to the reader of the other, on machines of
    any byte order. *)

From S2P Require Import Prelude Bytes Asio TcpPacket TcpReader.
From S2P Require Import TcpConnection TcpConnectionProps TcpClient TcpClientProps.

Section EndToEnd.
Context (hk : Host) (sk : Storage).   (* the client's machine *)
Context (hs : Host) (ss : Storage).   (* the server's machine *)

Abbreviation KH := (@TcpClient.client_handlers hk sk).
Abbreviation CH := (@TcpConnection.connection_handlers hs ss).
Abbreviation hdr_read := (RdHeader 0 sizeof_PacketHeader).


End EndToEnd.

