(* ===== verification/QwenSession.v ===== *)
(** * QwenSession: one session of the qwen server

    Class [session] of qwen/server.cpp as a machine of the I/O contract: reads,
    writes and posted closures on its strand, the heartbeat timer. Calls into
    the server ([handle_response], [remove_session]) are the machine's calls.
    [strand_.dispatch] runs its closure at once when the caller is on the
    strand, and posts it otherwise. The counter behind
    [generate_sequence_number] is the server's and shared: other users may
    advance it at any time ([ASequence]). *)

From S2P Require Import Prelude Bytes Asio TurboFrame.

Definition PKT_BIND_REQ : Z := 1.
Definition PKT_BIND_RESP : Z := 129.
Definition PKT_SUBMIT_REQ : Z := 2.
Definition PKT_SUBMIT_RESP : Z := 130.
Definition PKT_HEARTBEAT_REQ : Z := 3.
Definition PKT_HEARTBEAT_RESP : Z := 131.
Definition PKT_UNBIND_REQ : Z := 4.
Definition PKT_UNBIND_RESP : Z := 132.
Definition PKT_TIMEOUT_STATUS : Z := 255.

Definition length_size : nat := 4.

Inductive q_op := QReadLength | QReadBody (packet_length : Z) | QWrite (bs : bytes).

(** Closures queued on the strand: of [post_write], of the heartbeat response. *)
Inductive q_post := PWrite (packet : bytes) | PHeartbeat.

Abbreviation q_timer := unit.

(** Calls of the server, made while [server_.lock()] succeeds. *)
Inductive q_call :=
| CHandleResponse (type status sequence : Z) (payload : bytes)
| CRemoveSession (id : Z).

Record session := mkSession {
  session_id_ : Z;
  server_alive : bool;             (* server_.lock() is not null *)
  sequence_generator : Z;          (* the server's sequence_generator_ *)
  length_buffer_ : bytes;
  message_buffer_ : bytes;
  write_queue_ : list bytes;
  last_heartbeat_seq_ : Z }.

#[export] Instance eta_session : Eta session := λ s,
  mkSession (session_id_ s) (server_alive s) (sequence_generator s) (length_buffer_ s)
    (message_buffer_ s) (write_queue_ s) (last_heartbeat_seq_ s).

Definition new_session (id seq : Z) (buf : bytes) : session :=
  mkSession id true seq buf [] [] 0.

Abbreviation q_eff := (eff q_op q_post q_timer q_call).
Abbreviation M := (act session q_eff).

Section Session.
Context `{Host}.

Definition generate_sequence_number : M Z :=
  n ← gets sequence_generator;
  modify (λ s, s <| sequence_generator := u32 (n + 1) |>);;
  mret n.

(** [if (server_) { auto server = server_.lock(); if (server) ... }] *)
Definition call_server (c : q_call) : M unit :=
  alive ← gets server_alive;
  if alive : bool then emit (ECall c) else skip.

Definition remove_self : M unit :=
  i ← gets session_id_;
  call_server (CRemoveSession i).

(** ** Writing *)

Definition do_write : M unit :=
  q ← gets write_queue_;
  match q with
  | [] => skip
  | packet :: _ => emit (EStart (QWrite packet))
  end.

Definition on_write (res : io_result) : M unit :=
  match res with
  | IoOk _ =>
      modify (λ s, s <| write_queue_ := tail (write_queue_ s) |>);;
      q ← gets write_queue_;
      match q with [] => skip | _ :: _ => do_write end
  | IoErr _ => remove_self
  end.

(** The closure of [post_write]. *)
Definition write_posted (packet : bytes) : M unit :=
  q ← gets write_queue_;
  modify (λ s, s <| write_queue_ := write_queue_ s ++ [packet] |>);;
  match q with [] => do_write | _ :: _ => skip end.

(** [post_write], called on the strand or from elsewhere. *)
Definition post_write (on_strand : bool) (packet : bytes) : M unit :=
  if on_strand then write_posted packet else emit (EPost (PWrite packet)).

(** The buffer [send_packet] fills. *)
Definition build_packet (type status sequence : Z) (payload : bytes) : bytes :=
  let length_ := u32 (10 + blen payload) in
  let packet := vec_zero (Z.to_nat (u32 (4 + length_))) in
  let packet := blit 0 (store32 (htonl length_)) packet in
  let packet := vec_set 4 type packet in
  let packet := vec_set 5 status packet in
  let packet := blit 6 (store32 (htonl sequence)) packet in
  blit 10 payload packet.

Definition send_packet (on_strand : bool) (type status sequence : Z) (payload : bytes) :
    M unit :=
  post_write on_strand (build_packet type status sequence payload).

(** ** Heartbeats *)

Definition start_heartbeat (on_strand : bool) (now : Z) : M unit :=
  emit (EArm () (now + seconds 10));;
  n ← generate_sequence_number;
  modify (λ s, s <| last_heartbeat_seq_ := n |>);;
  send_packet on_strand PKT_HEARTBEAT_REQ 0 n [].

(** The handler of the heartbeat timer. *)
Definition on_heartbeat_timer (aborted : bool) : M unit :=
  if aborted then skip else remove_self.

(** [graceful_close], called by the server. *)
Definition graceful_close : M unit :=
  n ← generate_sequence_number;
  send_packet false PKT_UNBIND_RESP 0 n [];;
  emit EClose.

(** ** Reading *)

Definition do_read_length : M unit := emit (EStart QReadLength).

Definition do_read_body (packet_length : Z) : M unit :=
  emit (EStart (QReadBody packet_length)).

Definition on_read_length (res : io_result) : M unit :=
  match res with
  | IoOk data =>
      modify (λ s, s <| length_buffer_ := data |>);;
      let packet_length := ntohl (load32 data) in
      if packet_length <? 10 then skip
      else
        modify (λ s, s <| message_buffer_ :=
          vec_resize (Z.to_nat packet_length - length_size) (message_buffer_ s) |>);;
        do_read_body packet_length
  | IoErr _ => remove_self
  end.

Definition handle_packet (packet_length : Z) : M unit :=
  b ← gets message_buffer_;
  if negb (blen b =? u32 (packet_length - Z.of_nat length_size)) then skip
  else
    let type := nth 0 b 0 in
    let status := nth 1 b 0 in
    let sequence := ntohl (load32 (take 4 (drop 2 b))) in
    let payload := drop 6 b in
    call_server (CHandleResponse type status sequence payload);;
    if type =? PKT_BIND_REQ then send_packet true PKT_BIND_RESP 0 sequence []
    else if type =? PKT_SUBMIT_REQ then send_packet true PKT_SUBMIT_RESP 0 sequence []
    else if type =? PKT_HEARTBEAT_REQ then send_packet true PKT_HEARTBEAT_RESP 0 sequence []
    else if type =? PKT_UNBIND_REQ then send_packet true PKT_UNBIND_RESP 0 sequence []
    else if type =? PKT_HEARTBEAT_RESP then
      last ← gets last_heartbeat_seq_;
      if sequence =? last then emit (ECancel ());; emit (EPost PHeartbeat) else skip
    else skip.

Definition on_read_body (packet_length : Z) (res : io_result) : M unit :=
  match res with
  | IoOk data =>
      modify (λ s, s <| message_buffer_ := data |>);;
      handle_packet packet_length;;
      do_read_length
  | IoErr _ => remove_self
  end.

Definition start (now : Z) : M unit := do_read_length;; start_heartbeat false now.

(** ** The machine *)

Inductive q_api :=
| ASendPacket (type status sequence : Z) (payload : bytes)
| AGracefulClose
| ASequence (n : Z)
| AServerGone.

Definition session_api (now : Z) (a : q_api) : M unit :=
  match a with
  | ASendPacket t s q p => send_packet false t s q p
  | AGracefulClose => graceful_close
  | ASequence n => modify (λ s, s <| sequence_generator := u32 n |>)
  | AServerGone => modify (λ s, s <| server_alive := false |>)
  end.

(** The body read fills the whole of [message_buffer_], whose size is
    [packet_length - 4]. *)
Definition session_kind (o : q_op) : io_kind :=
  match o with
  | QReadLength => KRead length_size
  | QReadBody n => KRead (Z.to_nat n - length_size)
  | QWrite bs => KWrite bs
  end.

Definition session_io (now : Z) (o : q_op) (res : io_result) : M unit :=
  match o with
  | QReadLength => on_read_length res
  | QReadBody n => on_read_body n res
  | QWrite _ => on_write res
  end.

Definition session_post (now : Z) (p : q_post) : M unit :=
  match p with
  | PWrite bs => write_posted bs
  | PHeartbeat => start_heartbeat true now
  end.

Definition session_handlers : handlers session q_op q_post q_timer q_call q_api :=
  Handlers session_kind session_io session_post (λ _ _ ab, on_heartbeat_timer ab) session_api.

End Session.
Abbreviation QH := session_handlers.
