(* ===== verification/QwenSessionProps.v ===== *)
(** * QwenSessionProps: the reading side of a qwen session, and the format it
      writes

    A session reads the 10-byte-header format of TurboFrame.v and serves every
    packet of a stream in that format. What [send_packet] writes is that format
    followed by four stray bytes, which a session that reads it takes for the
    length of the next packet. *)

From S2P Require Import Prelude Bytes Asio TurboFrame QwenSession.

Section Props.
Context {ho : Host}.
Implicit Types (s : session) (w : world session q_op q_post q_timer q_call).

(** ** The format *)

Lemma fill_packet_tail (w1 w2 data : bytes) (a b : Z) k :
  length w1 = 4%nat → length w2 = 4%nat →
  blit 10 data (blit 6 w2 (vec_set 5 b (vec_set 4 a
    (blit 0 w1 (vec_zero (10 + (length data + k))))))) =
  w1 ++ [a; b] ++ w2 ++ data ++ vec_zero k.
Proof.
  intros H1 H2.
  destruct w1 as [|x0 [|x1 [|x2 [|x3 [|]]]]]; simplify_eq/=.
  destruct w2 as [|y0 [|y1 [|y2 [|y3 [|]]]]]; simplify_eq/=.
  unfold vec_zero, blit, vec_set; simpl. rewrite !drop_replicate.
  by replace (length data + k - 0 - length data)%nat with k by lia.
Qed.

Lemma qwen_packet_frame type status sequence payload :
  14 + blen payload < 2 ^ 32 →
  QwenSession.build_packet type status sequence payload =
    frame (Packet type status sequence payload) ++ vec_zero 4.
Proof.
  intros Hl. unfold QwenSession.build_packet, frame, blen in *. cbv zeta.
  replace (Z.to_nat (u32 (4 + u32 (10 + Z.of_nat (length payload)))))
    with (10 + (length payload + 4))%nat.
  2: { unfold u32. rewrite (Z.mod_small (10 + _)), Z.mod_small by lia. lia. }
  rewrite !store32_htonl, be_bytes_u32, fill_packet_tail by apply be_bytes_length.
  cbn [pk_id pk_status pk_seq pk_body]. by rewrite <-!app_assoc.
Qed.

(** ** One packet *)

Definition body_of (p : packet) : bytes :=
  [pk_id p; pk_status p] ++ be_bytes 4 (pk_seq p) ++ pk_body p.

Lemma frame_body p : frame p = be_bytes 4 (10 + blen (pk_body p)) ++ body_of p.
Proof. done. Qed.

Lemma body_of_length p : length (body_of p) = (6 + length (pk_body p))%nat.
Proof. unfold body_of. rewrite !length_app, be_bytes_length. done. Qed.

(** The frames a session answers a packet with, and whether it restarts its
    heartbeat. *)
Definition replies (p : packet) : list bytes :=
  let reply t := [QwenSession.build_packet t 0 (pk_seq p) []] in
  if pk_id p =? PKT_BIND_REQ then reply PKT_BIND_RESP
  else if pk_id p =? PKT_SUBMIT_REQ then reply PKT_SUBMIT_RESP
  else if pk_id p =? PKT_HEARTBEAT_REQ then reply PKT_HEARTBEAT_RESP
  else if pk_id p =? PKT_UNBIND_REQ then reply PKT_UNBIND_RESP
  else [].

Definition server_calls (alive : bool) (p : packet) : list q_call :=
  if alive then [CHandleResponse (pk_id p) (pk_status p) (pk_seq p) (pk_body p)] else [].

Definition beats (last : Z) (p : packet) : list q_post :=
  if (pk_id p =? PKT_HEARTBEAT_RESP) && (pk_seq p =? last) then [PHeartbeat] else [].

Lemma write_posted_run bs s :
  let r := write_posted bs s in
  state_of r = s <| write_queue_ := write_queue_ s ++ [bs] |> ∧
  called (effs_of r) = [] ∧ posted (effs_of r) = [] ∧
  Forall (λ o, is_read QH o = false) (started (effs_of r)).
Proof.
  unfold write_posted, do_write. unact.
  destruct (write_queue_ s) eqn:Eq; simpl; rewrite ?Eq; simpl; repeat constructor.
Qed.

Lemma handle_packet_effects p n s :
  wf_packet p → message_buffer_ s = body_of p → n = 10 + blen (pk_body p) →
  let r := QwenSession.handle_packet n s in
  state_of r = s <| write_queue_ := write_queue_ s ++ replies p |> ∧
  called (effs_of r) = server_calls (server_alive s) p ∧
  posted (effs_of r) = beats (last_heartbeat_seq_ s) p ∧
  Forall (λ o, is_read QH o = false) (started (effs_of r)).
Proof.
  intros (_ & _ & Hq & Hb & Hl) Hm -> r.
  assert (Hseq : ntohl (load32 (take 4 (drop 2 (body_of p)))) = pk_seq p).
  { change (drop 2 (body_of p)) with (be_bytes 4 (pk_seq p) ++ pk_body p).
    rewrite take_app_le, take_ge by (rewrite be_bytes_length; lia).
    rewrite ntohl_load32 by (apply be_bytes_wf || apply be_bytes_length).
    by apply be_val_bytes32. }
  assert (Hbody : drop 6 (body_of p) = pk_body p).
  { change (drop 6 (body_of p)) with (drop 4 (be_bytes 4 (pk_seq p) ++ pk_body p)).
    rewrite drop_app_ge by (rewrite be_bytes_length; lia). by rewrite be_bytes_length. }
  unfold r, QwenSession.handle_packet. cbv [mbind act_bind gets]. rewrite Hm.
  replace (blen (body_of p) =? _) with true.
  2: { symmetry. apply Z.eqb_eq. unfold blen. rewrite body_of_length.
       unfold u32, length_size, blen in *. rewrite Z.mod_small by lia. lia. }
  rewrite Hseq, Hbody. cbn [negb nth body_of app].
  assert (Hsend : ∀ t, send_packet true t 0 (pk_seq p) [] =
    write_posted (QwenSession.build_packet t 0 (pk_seq p) [])) by done.
  assert (Hcall : ∀ c, call_server c s = (s, if server_alive s then [ECall c] else [], ())).
  { intros c. unfold call_server. unact. by destruct (server_alive s). }
  rewrite Hcall, !Hsend. unfold replies, beats, server_calls.
  repeat match goal with
  | |- context [if pk_id p =? ?t then write_posted ?bs else _] =>
      destruct (Z.eqb_spec (pk_id p) t) as [E|_];
      [ destruct (write_posted_run bs s) as (Hs & Hc & Hp & Hr);
        destruct (write_posted bs s) as [[s1 e1] []]; simpl in *; rewrite E;
        destruct (server_alive s); simpl; rewrite ?Hs, ?Hc, ?Hp; done |]
  end.
  rewrite app_nil_r. destruct (pk_id p =? PKT_HEARTBEAT_RESP); simpl;
    [destruct (pk_seq p =? last_heartbeat_seq_ s)|]; destruct s as [? [] ? ? ? ? ?]; simpl;
    split_and!; try done; constructor.
Qed.

Lemma read_length_run now n s :
  is_u32 n →
  session_io now QReadLength (IoOk (be_bytes 4 n)) s =
    if n <? 10 then (s <| length_buffer_ := be_bytes 4 n |>, [], ())
    else (s <| length_buffer_ := be_bytes 4 n |>
            <| message_buffer_ := vec_resize (Z.to_nat n - length_size) (message_buffer_ s) |>,
          [EStart (QReadBody n)], ()).
Proof.
  intros Hn. unfold session_io, on_read_length. unact.
  rewrite ntohl_load32, be_val_bytes32 by (done || apply be_bytes_wf || apply be_bytes_length).
  by destruct (n <? 10).
Qed.

Lemma read_body_run now p s :
  wf_packet p →
  let r := session_io now (QReadBody (10 + blen (pk_body p))) (IoOk (body_of p)) s in
  write_queue_ (state_of r) = write_queue_ s ++ replies p ∧
  server_alive (state_of r) = server_alive s ∧
  last_heartbeat_seq_ (state_of r) = last_heartbeat_seq_ s ∧
  called (effs_of r) = server_calls (server_alive s) p ∧
  posted (effs_of r) = beats (last_heartbeat_seq_ s) p ∧
  ∃ ws, started (effs_of r) = ws ++ [QReadLength] ∧ Forall (λ o, is_read QH o = false) ws.
Proof.
  intros Hp. unfold session_io, on_read_body. cbv [mbind act_bind modify]. simpl app.
  set (s0 := s <| message_buffer_ := body_of p |>).
  destruct (handle_packet_effects p _ s0 Hp eq_refl eq_refl) as (Hs & Hc & Hpo & Hst).
  destruct (QwenSession.handle_packet _ s0) as [[s1 e1] []]. simpl in *.
  rewrite started_app, called_app, posted_app, Hs, Hc, Hpo, !app_nil_r. simpl.
  split_and!; try done. by exists (started e1).
Qed.

(** Both halves of one packet against a world whose only read is that of a
    length. *)
Lemma qwen_feed_frame p rest w l1 l2 fuel :
  wf_packet p → w_ops w = l1 ++ QReadLength :: l2 →
  Forall (λ o, is_read QH o = false) (l1 ++ l2) →
  ∃ w' l1', feed QH (S (S fuel)) (frame p ++ rest) w = feed QH fuel rest w' ∧
    w_ops w' = l1' ++ [QReadLength] ∧ Forall (λ o, is_read QH o = false) l1' ∧
    w_calls w' = w_calls w ++ server_calls (server_alive (w_st w)) p ∧
    w_posts w' = w_posts w ++ beats (last_heartbeat_seq_ (w_st w)) p ∧
    write_queue_ (w_st w') = write_queue_ (w_st w) ++ replies p ∧
    server_alive (w_st w') = server_alive (w_st w) ∧
    last_heartbeat_seq_ (w_st w') = last_heartbeat_seq_ (w_st w).
Proof.
  intros Hp Hops Hnr. pose proof Hp as (_ & _ & _ & _ & Hl). unfold blen in Hl.
  set (n := 10 + blen (pk_body p)).
  assert (Hn : is_u32 n) by (unfold is_u32, n, blen; lia).
  assert (Hk : h_kind QH (QReadBody n) = KRead (length (body_of p))).
  { rewrite body_of_length. cbn [h_kind QH session_kind]. f_equal.
    unfold n, blen, length_size. lia. }
  rewrite frame_body, <-app_assoc. fold n.
  rewrite (feed_read QH l1 QReadLength 4 l2 (be_bytes 4 n) _ w _ Hops Hnr eq_refl
    (be_bytes_length _ _)).
  destruct (complete_fields QH QReadLength (IoOk (be_bytes 4 n)) (l1 ++ l2) w)
    as (Hs1 & Ho1 & Hp1 & Hc1 & _).
  remember (complete QH _ _ _ w) as w1 eqn:E1. clear E1.
  cbn [h_io QH] in Hs1, Ho1, Hp1, Hc1. rewrite (read_length_run _ n _ Hn) in Hs1, Ho1, Hp1, Hc1.
  rewrite (proj2 (Z.ltb_ge n 10)) in Hs1, Ho1, Hp1, Hc1 by (unfold n, blen; lia).
  simpl in Hs1, Ho1, Hp1, Hc1. rewrite app_nil_r in Hp1, Hc1.
  rewrite (feed_read QH (l1 ++ l2) (QReadBody n) (length (body_of p)) [] (body_of p) rest w1 fuel
    Ho1) by (rewrite ?app_nil_r; done).
  destruct (complete_fields QH (QReadBody n) (IoOk (body_of p)) ((l1 ++ l2) ++ []) w1)
    as (Hs2 & Ho2 & Hp2 & Hc2 & _).
  remember (complete QH _ _ _ w1) as w2 eqn:E2. clear E2.
  destruct (read_body_run (w_now w1) p (w_st w1) Hp) as (Hq & Ha & Hb & Hca & Hpo & ws & Hws & Hf).
  fold n in Hq, Ha, Hb, Hca, Hpo, Hws. cbn [h_io QH] in Hs2, Ho2, Hp2, Hc2.
  rewrite <-Hs2 in Hq, Ha, Hb. rewrite Hws, app_nil_r, app_assoc in Ho2.
  rewrite Hca in Hc2. rewrite Hpo in Hp2.
  exists w2, ((l1 ++ l2) ++ ws). rewrite Hs1 in *. simpl in *.
  split_and!; try done; [by apply Forall_app|congruence..].
Qed.

(** C39: A session waiting for a length and fed packets in the documented format,
    then less than a length: the server is told of every packet, in order; every
    request is answered with an empty response under its sequence number, in
    order; the current heartbeat's response restarts the heartbeat; and the
    session waits for the next length. *)
Theorem qwen_session_serves_frames ps rest w l1 l2 fuel :
  Forall wf_packet ps → w_ops w = l1 ++ QReadLength :: l2 →
  Forall (λ o, is_read QH o = false) (l1 ++ l2) →
  (length rest < length_size)%nat → (2 * length ps <= fuel)%nat →
  let s := w_st w in
  ∃ w', feed QH fuel (mjoin (frame <$> ps) ++ rest) w = (w', rest) ∧
    w_calls w' = w_calls w ++ (ps ≫= server_calls (server_alive s)) ∧
    w_posts w' = w_posts w ++ (ps ≫= beats (last_heartbeat_seq_ s)) ∧
    write_queue_ (w_st w') = write_queue_ s ++ (ps ≫= replies) ∧
    reads QH (w_ops w') = [QReadLength].
Proof.
  intros Hps. revert w l1 l2 fuel.
  induction Hps as [|p ps Hp _ IH]; intros w l1 l2 fuel Hops Hnr Hrest Hf s.
  - exists w. simpl. rewrite (feed_starved QH l1 _ _ l2 rest w fuel Hops Hnr eq_refl) by done.
    rewrite Hops, (sole_read QH), !app_nil_r; done.
  - simpl in Hf. destruct fuel as [|[|fuel]]; [lia..|].
    rewrite fmap_cons. change (mjoin (frame p :: ?l)) with (frame p ++ mjoin l).
    rewrite <-app_assoc.
    destruct (qwen_feed_frame p (mjoin (frame <$> ps) ++ rest) w l1 l2 fuel Hp Hops Hnr)
      as (w1 & l1' & -> & Ho1 & Hn1 & Hc1 & Hp1 & Hq1 & Ha1 & Hl1).
    destruct (IH w1 l1' [] fuel) as (w2 & -> & Hc2 & Hp2 & Hq2 & Hr2);
      rewrite ?app_nil_r; try done; [lia|].
    exists w2. split; [done|]. rewrite Hc2, Hc1, Hp2, Hp1, Hq2, Hq1, Ha1, Hl1.
    rewrite !bind_cons, <-!app_assoc. done.
Qed.

(** A session that is fed what another session's [send_packet] produces handles
    the first packet; the four stray bytes then read as a length of zero, and
    the session stops reading: whatever follows stays unread for ever. *)
Theorem qwen_session_deaf_after_first_packet type status sequence payload more w l1 l2 fuel :
  let p := Packet type status sequence payload in
  wf_packet p → 14 + blen payload < 2 ^ 32 → w_ops w = l1 ++ QReadLength :: l2 →
  Forall (λ o, is_read QH o = false) (l1 ++ l2) →
  ∃ w', feed QH (S (S (S fuel))) (QwenSession.build_packet type status sequence payload ++ more) w
          = (w', more) ∧
    w_calls w' = w_calls w ++ server_calls (server_alive (w_st w)) p ∧
    reads QH (w_ops w') = [].
Proof.
  intros p Hp Hl Hops Hnr. rewrite qwen_packet_frame by done. fold p. rewrite <-app_assoc.
  destruct (qwen_feed_frame p (vec_zero 4 ++ more) w l1 l2 (S fuel) Hp Hops Hnr)
    as (w1 & l1' & -> & Ho1 & Hn1 & Hc1 & _).
  rewrite (feed_read QH l1' QReadLength 4 [] (vec_zero 4) more w1 fuel Ho1)
    by (rewrite ?app_nil_r; done).
  change (vec_zero 4) with (be_bytes 4 0).
  destruct (complete_fields QH QReadLength (IoOk (be_bytes 4 0)) (l1' ++ []) w1)
    as (_ & Ho2 & _ & Hc2 & _).
  remember (complete QH _ _ _ w1) as w2 eqn:E2. clear E2.
  cbn [h_io QH] in Ho2, Hc2. rewrite read_length_run in Ho2, Hc2 by done.
  simpl in Ho2, Hc2. rewrite !app_nil_r in Ho2. rewrite app_nil_r in Hc2.
  assert (Hr2 : reads QH (w_ops w2) = []) by (rewrite Ho2; by apply reads_nil).
  exists w2. split; [|split; [by rewrite Hc2|done]].
  destruct fuel as [|fuel]; [done|]. cbn [feed].
  destruct (pick_read QH (w_ops w2)) as [[[[a o] n] b]|] eqn:Ep; [|done].
  apply pick_read_Some in Ep as [Eo Ek]. rewrite Eo, reads_app in Hr2.
  apply app_nil in Hr2 as [_ Hr2]. unfold reads in Hr2.
  rewrite filter_cons_True in Hr2 by (unfold is_read; by rewrite Ek). done.
Qed.
End Props.

(** ** Witnesses *)

#[local] Instance qwen_host : Host := LittleEndian.

Definition qwen_world : world session q_op q_post q_timer q_call :=
  run (start 0) (init_world (new_session 1 1 (vec_zero 4)) 0).

Definition bind_req : packet := Packet PKT_BIND_REQ 0 7 (lit "id").

Lemma qwen_session_serves_frames_witness :
  let ps := [bind_req; bind_req] in
  ∃ w', feed QH 4 (mjoin (frame <$> ps) ++ []) qwen_world = (w', []) ∧
    w_calls w' = w_calls qwen_world ++
      (ps ≫= server_calls (server_alive (w_st qwen_world))) ∧
    w_posts w' = w_posts qwen_world ++
      (ps ≫= beats (last_heartbeat_seq_ (w_st qwen_world))) ∧
    write_queue_ (w_st w') = write_queue_ (w_st qwen_world) ++ (ps ≫= replies) ∧
    reads QH (w_ops w') = [QReadLength].
Proof.
  apply (qwen_session_serves_frames [bind_req; bind_req] [] qwen_world [] [] 4).
  - apply (bool_decide_unpack _). vm_compute. exact I.
  - reflexivity.
  - constructor.
  - vm_compute. lia.
  - simpl. lia.
Defined.

Lemma qwen_session_deaf_after_first_packet_witness :
  let more := QwenSession.build_packet PKT_SUBMIT_REQ 0 8 (lit "sms") in
  ∃ w', feed QH 3 (QwenSession.build_packet PKT_BIND_REQ 0 7 (lit "id") ++ more) qwen_world
          = (w', more) ∧
    w_calls w' = w_calls qwen_world ++
      server_calls (server_alive (w_st qwen_world)) bind_req ∧
    reads QH (w_ops w') = [].
Proof.
  apply (qwen_session_deaf_after_first_packet PKT_BIND_REQ 0 7 (lit "id")
           (QwenSession.build_packet PKT_SUBMIT_REQ 0 8 (lit "sms")) qwen_world [] [] 0).
  - apply (bool_decide_unpack _). vm_compute. exact I.
  - vm_compute. reflexivity.
  - reflexivity.
  - constructor.
Defined.
