(* ===== verification/QwenServer.v ===== *)
(** * QwenServer: sessions, statistics and pending requests of the qwen server

    Class [server] of qwen/server.cpp. Every operation takes its lock for its
    whole effect, so each is one event ([handle]). Times are in whole seconds
    ([std::time]); the total session time, a [double] in the source, is the
    exact sum of the whole seconds added to it. Sessions are held by weak
    pointers: whether one is still alive is part of the state, and what is asked
    of a session is an effect. *)

From S2P Require Import Prelude Bytes Tables QwenSession.
From Stdlib Require Import QArith.
#[local] Open Scope Z_scope.

Record SessionMetadata := mkMetadata {
  ip_address : bytes;
  connection_time : Z;
  last_active_time : Z }.

Record PendingRequest := mkPendingRequest {
  callback : nat;
  expected_type : Z;
  timer : Z }.                       (* when it expires *)

Record server := mkServer {
  sessions_ : gmap Z ();
  alive : gset Z;                    (* sessions whose object still exists *)
  session_metadata_ : gmap Z SessionMetadata;
  session_start_times_ : gmap Z Z;
  id_counter : Z;
  sequence_generator_ : Z;
  pending_requests_ : gmap Z PendingRequest;
  max_idle_time_seconds_ : Z;
  active_sessions_count_ : Z;
  total_session_time_ : Z }.

#[export] Instance eta_server : Eta server := λ s,
  mkServer (sessions_ s) (alive s) (session_metadata_ s) (session_start_times_ s) (id_counter s)
    (sequence_generator_ s) (pending_requests_ s) (max_idle_time_seconds_ s)
    (active_sessions_count_ s) (total_session_time_ s).

Definition new_server (max_idle : Z) : server :=
  mkServer ∅ ∅ ∅ ∅ 1 1 ∅ max_idle 0 0.

(** What the server asks of its sessions and of the user's callbacks. *)
Inductive v_eff :=
| VStartSession (id : Z)
| VSendPacket (id : Z) (type status sequence : Z) (payload : bytes)
| VGracefulClose (id : Z)
| VCallback (f : nat) (payload : bytes) (status : Z)
| VArmRequest (sequence deadline : Z)
| VCancelRequest (sequence : Z).

Abbreviation M := (act server v_eff).

Definition generate_session_id : M Z :=
  n ← gets id_counter; modify (λ s, s <| id_counter := u64 (n + 1) |>);; mret n.

Definition generate_sequence_number : M Z :=
  n ← gets sequence_generator_;
  modify (λ s, s <| sequence_generator_ := u32 (n + 1) |>);; mret n.

(** ** Sessions *)

(** [it->second.lock()] of a registered session. *)
Definition get_session (id : Z) : M (option Z) :=
  ss ← gets sessions_;
  a ← gets alive;
  mret (if bool_decide (is_Some (ss !! id) ∧ id ∈ a) then Some id else None).

(** The handler of [async_accept]; [ip] is the peer's address, if known. *)
Definition on_accept (now : Z) (ip : option bytes) : M unit :=
  id ← generate_session_id;
  let md := mkMetadata (match ip with Some i => i | None => lit "unknown" end) now now in
  modify (λ s, s <| alive := alive s ∪ {[id]} |>
    <| sessions_ := <[id := ()]> (sessions_ s) |>
    <| session_metadata_ := <[id := md]> (session_metadata_ s) |>
    <| session_start_times_ := <[id := connection_time md]> (session_start_times_ s) |>
    <| active_sessions_count_ := i32 (active_sessions_count_ s + 1) |>);;
  emit (VStartSession id).

Definition update_last_active_time (now id : Z) : M unit :=
  modify (λ s, s <| session_metadata_ :=
    alter (λ md, mkMetadata (ip_address md) (connection_time md) now) id (session_metadata_ s) |>).

(** The time of a session, added to the total when its start is known. *)
Definition account_time (now id : Z) : M unit :=
  modify (λ s,
    match session_start_times_ s !! id with
    | Some t => s <| total_session_time_ := total_session_time_ s + (now - t) |>
                  <| session_start_times_ := delete id (session_start_times_ s) |>
    | None => s
    end).

Definition remove_session (now id : Z) : M unit :=
  ss ← gets sessions_;
  match ss !! id with
  | Some _ =>
      a ← gets alive;
      (if bool_decide (id ∈ a) then emit (VGracefulClose id) else skip);;
      modify (λ s, s <| sessions_ := delete id (sessions_ s) |>)
  | None => skip
  end;;
  md ← gets session_metadata_;
  match md !! id with
  | Some _ =>
      account_time now id;;
      modify (λ s, s <| session_metadata_ := delete id (session_metadata_ s) |>)
  | None => skip
  end;;
  modify (λ s, s <| active_sessions_count_ := i32 (active_sessions_count_ s - 1) |>).

Definition is_idle (now max_idle : Z) (md : SessionMetadata) : bool :=
  max_idle <? now - last_active_time md.

(** The body of the loop of [check_expired_sessions] on an expired entry. *)
Definition expire_session (now id : Z) : M unit :=
  modify (λ s, s <| sessions_ := delete id (sessions_ s) |>);;
  account_time now id;;
  modify (λ s, s <| session_metadata_ := delete id (session_metadata_ s) |>
                 <| active_sessions_count_ := i32 (active_sessions_count_ s - 1) |>).

Fixpoint expire_sessions (now : Z) (ids : list Z) : M unit :=
  match ids with
  | [] => skip
  | id :: ids' => expire_session now id;; expire_sessions now ids'
  end.

Definition check_expired_sessions (now : Z) : M unit :=
  md ← gets session_metadata_;
  idle ← gets max_idle_time_seconds_;
  expire_sessions now (keys_where (is_idle now idle) md).

Record SessionStats := mkStats { active_sessions : Z; avg_session_time : Q }.

Definition get_statistics : M SessionStats :=
  active ← gets active_sessions_count_;
  total ← gets total_session_time_;
  mret (mkStats active
    (if active =? 0 then 0%Q else (inject_Z total / inject_Z active)%Q)).

(** ** Requests *)

(** The registration both senders perform when a response is expected. *)
Definition register_request (now sequence : Z) (cb : option nat) (expected timeout : Z) :
    M unit :=
  match cb with
  | Some f =>
      if expected =? 0 then skip
      else
        emit (VArmRequest sequence (now + timeout));;
        modify (λ s, s <| pending_requests_ :=
          <[sequence := mkPendingRequest f expected (now + timeout)]> (pending_requests_ s) |>)
  | None => skip
  end.

Definition send_request_to_session (now session_id request_type : Z) (payload : bytes)
    (cb : option nat) (expected timeout : Z) : M unit :=
  sequence ← generate_sequence_number;
  register_request now sequence cb expected timeout;;
  session ← get_session session_id;
  match session with
  | Some id => emit (VSendPacket id request_type 0 sequence payload)
  | None => skip
  end.

(** The loop over the sessions, for those whose object exists. *)
Fixpoint send_each (a : gset Z) (ids : list Z) (request_type sequence : Z) (payload : bytes) :
    M unit :=
  match ids with
  | [] => skip
  | id :: ids' =>
      (if bool_decide (id ∈ a) then emit (VSendPacket id request_type 0 sequence payload)
       else skip);;
      send_each a ids' request_type sequence payload
  end.

Definition send_request_to_all (now request_type : Z) (payload : bytes)
    (cb : option nat) (expected timeout : Z) : M unit :=
  sequence ← generate_sequence_number;
  register_request now sequence cb expected timeout;;
  ss ← gets sessions_;
  a ← gets alive;
  send_each a (map_to_list ss).*1 request_type sequence payload.

Definition handle_response (type status sequence : Z) (payload : bytes) : M unit :=
  m ← gets pending_requests_;
  match m !! sequence with
  | Some r =>
      emit (VCancelRequest sequence);;
      (if expected_type r =? type then emit (VCallback (callback r) payload status) else skip);;
      modify (λ s, s <| pending_requests_ := delete sequence (pending_requests_ s) |>)
  | None => skip
  end.

(** The handler of a request's timer. *)
Definition on_request_timer (sequence : Z) (aborted : bool) : M unit :=
  if aborted then skip
  else
    m ← gets pending_requests_;
    match m !! sequence with
    | Some r =>
        emit (VCallback (callback r) [] PKT_TIMEOUT_STATUS);;
        modify (λ s, s <| pending_requests_ := delete sequence (pending_requests_ s) |>)
    | None => skip
    end.

(** ** The server's own steps

    Everything the program calls. [update_last_active_time] is not among them:
    no code calls it. *)

Inductive v_event :=
| EvAccept (ip : option bytes)
| EvRemove (id : Z)
| EvExpiry
| EvGone (id : Z)                     (* a session object is destroyed *)
| EvSend (session_id type : Z) (payload : bytes) (cb : option nat) (expected timeout : Z)
| EvSendAll (type : Z) (payload : bytes) (cb : option nat) (expected timeout : Z)
| EvPacket (type status sequence : Z) (payload : bytes)
| EvRequestTimer (sequence : Z) (aborted : bool).

Definition handle (now : Z) (e : v_event) : M unit :=
  match e with
  | EvAccept ip => on_accept now ip
  | EvRemove id => remove_session now id
  | EvExpiry => check_expired_sessions now
  | EvGone id => modify (λ s, s <| alive := alive s ∖ {[id]} |>)
  | EvSend i t p cb e to => send_request_to_session now i t p cb e to
  | EvSendAll t p cb e to => send_request_to_all now t p cb e to
  | EvPacket t st q p => handle_response t st q p
  | EvRequestTimer q ab => on_request_timer q ab
  end.

(** A run: events with their times, and everything the server asked for. *)
Fixpoint handle_all (es : list (Z * v_event)) : M unit :=
  match es with
  | [] => skip
  | (now, e) :: es' => handle now e;; handle_all es'
  end.
