(* ===== verification/QwenServerProps.v ===== *)
(** * QwenServerProps: the session count, expiry and requests of the qwen server *)

From S2P Require Import Prelude Bytes Tables QwenSession QwenServer.

Implicit Types s : server.

(** ** The session tables *)

(** The tables agree, the ids are those handed out, and the count is that of
    the registered sessions (as an [int]). *)
Definition counted s : Prop :=
  dom (sessions_ s) = dom (session_metadata_ s) ∧
  (∀ id, id ∈ dom (sessions_ s) → 1 <= id < id_counter s) ∧
  active_sessions_count_ s = i32 (Z.of_nat (size (sessions_ s))).

Lemma i32_idemp x y : i32 (i32 x + y) = i32 (x + y).
Proof.
  unfold i32. f_equal.
  replace ((x + 2 ^ 31) mod 2 ^ 32 - 2 ^ 31 + y + 2 ^ 31)
    with ((x + 2 ^ 31) mod 2 ^ 32 + y) by lia.
  rewrite Zplus_mod_idemp_l. f_equal. lia.
Qed.

(** Handlers that leave the tables and the counters alone. *)
Definition same_tables s s' : Prop :=
  sessions_ s' = sessions_ s ∧ session_metadata_ s' = session_metadata_ s ∧
  id_counter s' = id_counter s ∧ active_sessions_count_ s' = active_sessions_count_ s ∧
  max_idle_time_seconds_ s' = max_idle_time_seconds_ s.

Lemma same_tables_counted s s' : same_tables s s' → counted s → counted s'.
Proof. intros (E1 & E2 & E3 & E4 & _). unfold counted. by rewrite E1, E2, E3, E4. Qed.

(** Removing a registered session from both tables. *)
Definition drop_session s s' (id : Z) : Prop :=
  sessions_ s' = delete id (sessions_ s) ∧
  session_metadata_ s' = delete id (session_metadata_ s) ∧
  id_counter s' = id_counter s ∧
  active_sessions_count_ s' = i32 (active_sessions_count_ s - 1) ∧
  max_idle_time_seconds_ s' = max_idle_time_seconds_ s.

Lemma drop_session_counted s s' id :
  drop_session s s' id → is_Some (sessions_ s !! id) → counted s → counted s'.
Proof.
  intros (E1 & E2 & E3 & E4 & _) Hid (Hd & Hi & Hc). unfold counted.
  rewrite E1, E2, E3, E4, Hc, !dom_delete_L, Hd. split; [done|]. split.
  - intros i Hin. apply Hi. set_solver.
  - unfold Z.sub. rewrite i32_idemp. f_equal.
    destruct Hid as [u Hu]. rewrite map_size_delete, Hu. simpl.
    assert (size (sessions_ s) ≠ 0)%nat by (eapply map_size_ne_0_lookup_2; eauto). lia.
Qed.

Lemma remove_registered now id s :
  is_Some (sessions_ s !! id) → is_Some (session_metadata_ s !! id) →
  drop_session s (state_of (remove_session now id s)) id.
Proof.
  intros [[] Hs] [md Hm]. unfold remove_session, account_time. unact. rewrite Hs.
  destruct (bool_decide (id ∈ alive s)); simpl; rewrite Hm; simpl;
    destruct (session_start_times_ s !! id); done.
Qed.

Lemma expire_one_session now id s : drop_session s (state_of (expire_session now id s)) id.
Proof.
  unfold expire_session, account_time. unact. by destruct (session_start_times_ s !! id).
Qed.

Lemma expire_sessions_cons now id ids s :
  state_of (expire_sessions now (id :: ids) s) =
    state_of (expire_sessions now ids (state_of (expire_session now id s))).
Proof.
  change (expire_sessions now (id :: ids) s)
    with ((expire_session now id;; expire_sessions now ids) s).
  cbv [mbind act_bind]. destruct (expire_session now id s) as [[s1 e1] []]. simpl.
  by destruct (expire_sessions now ids s1) as [[s2 e2] []].
Qed.

(** The sweep removes the listed sessions from both tables. *)
Lemma expire_sessions_tables now ids s :
  let s' := state_of (expire_sessions now ids s) in
  sessions_ s' = foldl (λ m i, delete i m) (sessions_ s) ids ∧
  session_metadata_ s' = erase_all ids (session_metadata_ s) ∧
  max_idle_time_seconds_ s' = max_idle_time_seconds_ s.
Proof.
  revert s. induction ids as [|id ids IH]; intros s; [done|]. cbv zeta.
  rewrite expire_sessions_cons. destruct (expire_one_session now id s) as (E1 & E2 & _ & _ & E5).
  destruct (IH (state_of (expire_session now id s))) as (-> & -> & ->).
  by rewrite E1, E2, E5.
Qed.

Lemma expire_sessions_counted now ids s :
  NoDup ids → (∀ id, id ∈ ids → is_Some (session_metadata_ s !! id)) → counted s →
  counted (state_of (expire_sessions now ids s)).
Proof.
  intros Hnd. revert s. induction Hnd as [|id ids Hid _ IH]; intros s Hall Hc; [done|].
  rewrite expire_sessions_cons. pose proof (expire_one_session now id s) as Hdrop.
  apply IH.
  - intros i Hi. destruct Hdrop as (_ & -> & _). rewrite lookup_delete_ne by set_solver.
    apply Hall. by right.
  - apply (drop_session_counted s _ id); [done| |done].
    destruct Hc as (Hd & _). apply elem_of_dom. rewrite Hd. apply elem_of_dom, Hall. by left.
Qed.

Lemma check_expired_run now s :
  state_of (check_expired_sessions now s) =
    state_of (expire_sessions now
      (keys_where (is_idle now (max_idle_time_seconds_ s)) (session_metadata_ s)) s).
Proof.
  unfold check_expired_sessions. cbv [mbind act_bind gets].
  by destruct (expire_sessions _ _ s) as [[? ?] ?].
Qed.

Lemma send_each_same a ids type seq pl s : state_of (send_each a ids type seq pl s) = s.
Proof.
  revert s. induction ids as [|id ids IH]; intros s; [done|]. cbn [send_each].
  specialize (IH s). destruct (bool_decide (id ∈ a)).
  - by rewrite act_emit.
  - cbv [mbind act_bind skip]. by destruct (send_each a ids type seq pl s) as [[? ?] []].
Qed.

(** Requests and packets do not touch the session tables. *)
Definition about_requests (e : v_event) : bool :=
  match e with EvAccept _ | EvRemove _ | EvExpiry => false | _ => true end.

Lemma requests_same_tables now e s :
  about_requests e = true → same_tables s (state_of (handle now e s)).
Proof.
  destruct e; intros He; try discriminate He; simpl.
  - done.
  - unfold send_request_to_session, generate_sequence_number, register_request, get_session.
    unact. destruct cb; simpl; [destruct (expected =? 0); simpl|]; by case_bool_decide.
  - unfold send_request_to_all, generate_sequence_number.
    cbv [mbind act_bind gets modify mret act_ret].
    destruct (register_request _ _ _ _ _ _) as [[s1 e1] []] eqn:Er.
    assert (H1 : same_tables s s1).
    { change s1 with (state_of (s1, e1, ())). rewrite <-Er. unfold register_request. unact.
      destruct cb; simpl; [destruct (expected =? 0)|]; done. }
    pose proof (send_each_same (alive s1) (map_to_list (sessions_ s1)).*1 type
      (sequence_generator_ s) payload s1) as Hs.
    destruct (send_each _ _ _ _ _ s1) as [[s2 e2] []]. simpl in *. by subst s2.
  - unfold handle_response. unact. destruct (pending_requests_ s !! sequence); simpl; [|done].
    by destruct (_ =? _).
  - unfold on_request_timer. destruct aborted; [done|]. unact.
    by destruct (pending_requests_ s !! sequence).
Qed.

(** ** Runs *)

(** Each session is reported to [remove_session] only while it is registered,
    and ids are not used up. *)
Fixpoint regular (es : list (Z * v_event)) s : Prop :=
  match es with
  | [] => True
  | (now, e) :: es' =>
      match e with
      | EvRemove id => is_Some (sessions_ s !! id)
      | EvAccept _ => id_counter s < 2 ^ 64 - 1
      | _ => True
      end ∧ regular es' (state_of (handle now e s))
  end.

Lemma handle_all_state now e es s :
  state_of (handle_all ((now, e) :: es) s) = state_of (handle_all es (state_of (handle now e s))).
Proof.
  change (handle_all ((now, e) :: es) s) with ((handle now e;; handle_all es) s).
  cbv [mbind act_bind]. destruct (handle now e s) as [[s1 e1] []]. simpl.
  by destruct (handle_all es s1) as [[s2 e2] []].
Qed.

Lemma handle_all_effs now e es s :
  effs_of (handle_all ((now, e) :: es) s) =
    effs_of (handle now e s) ++ effs_of (handle_all es (state_of (handle now e s))).
Proof.
  change (handle_all ((now, e) :: es) s) with ((handle now e;; handle_all es) s).
  cbv [mbind act_bind]. destruct (handle now e s) as [[s1 e1] []]. simpl.
  by destruct (handle_all es s1) as [[s2 e2] []].
Qed.

Lemma counted_accept now ip s :
  counted s → 1 <= id_counter s < 2 ^ 64 - 1 → counted (state_of (on_accept now ip s)).
Proof.
  intros (Hd & Hi & Hc) Hn. unfold on_accept, generate_session_id. unact. unfold counted. simpl.
  assert (Hu : u64 (id_counter s + 1) = id_counter s + 1)
    by (unfold u64; apply Z.mod_small; lia).
  rewrite Hu, !dom_insert_L, Hd. split; [done|]. split.
  - intros id [->%elem_of_singleton|Hid]%elem_of_union; [lia|].
    rewrite <-Hd in Hid. specialize (Hi id Hid). lia.
  - rewrite Hc, i32_idemp. f_equal. rewrite map_size_insert_None; [lia|].
    apply not_elem_of_dom. intros Hin. specialize (Hi _ Hin). lia.
Qed.

(** ** Theorems *)

(** As long as every session is reported once, the number of active sessions
    the statistics give is the number of registered sessions, and every
    registered session has its metadata. *)
Theorem qwen_sessions_counted es max_idle :
  regular es (new_server max_idle) →
  let s := state_of (handle_all es (new_server max_idle)) in
  active_sessions (val_of (get_statistics s)) = i32 (Z.of_nat (size (sessions_ s))) ∧
  dom (sessions_ s) = dom (session_metadata_ s).
Proof.
  assert (H0 : counted (new_server max_idle) ∧ 1 <= id_counter (new_server max_idle)).
  { split; [|done]. split; [done|]. split; [|done]. intros id Hid. set_solver. }
  revert H0. generalize (new_server max_idle) as s. clear max_idle.
  induction es as [|[now e] es IH]; intros s [Hc Hn] Hreg; cbv zeta.
  { destruct Hc as (Hd & _ & Ha). done. }
  rewrite handle_all_state. destruct Hreg as [He Hreg]. apply IH; [|done].
  assert (Hq : about_requests e = true → counted (state_of (handle now e s)) ∧
                1 <= id_counter (state_of (handle now e s))).
  { intros Hr. pose proof (requests_same_tables now e s Hr) as Hs.
    split; [by apply (same_tables_counted s)|]. by destruct Hs as (_ & _ & -> & _). }
  destruct e; try (by apply Hq); simpl in *.
  - split; [by apply counted_accept|]. unfold on_accept, generate_session_id. unact.
    unfold u64. rewrite Z.mod_small; lia.
  - assert (Hm : is_Some (session_metadata_ s !! id)).
    { destruct Hc as (Hd & _). apply elem_of_dom. rewrite <-Hd. by apply elem_of_dom. }
    pose proof (remove_registered now id s He Hm) as Hdrop.
    split; [by apply (drop_session_counted s _ id)|]. by destruct Hdrop as (_ & _ & -> & _).
  - rewrite check_expired_run. split.
    + apply expire_sessions_counted; [apply keys_where_sorted| |done].
      intros id (md & Hmd & _)%elem_keys_where. eauto.
    + generalize (keys_where (is_idle now (max_idle_time_seconds_ s)) (session_metadata_ s)).
      intros ids. clear -Hn. revert s Hn. induction ids as [|id ids IHi]; intros s Hn; [done|].
      rewrite expire_sessions_cons. apply IHi.
      by destruct (expire_one_session now id s) as (_ & _ & -> & _).
Qed.

(** The sweep asks nothing of the sessions it removes. *)
Lemma expire_sessions_silent now ids s : effs_of (expire_sessions now ids s) = [].
Proof.
  revert s. induction ids as [|id ids IH]; intros s; [done|].
  change (expire_sessions now (id :: ids) s)
    with ((expire_session now id;; expire_sessions now ids) s).
  cbv [mbind act_bind]. destruct (expire_session now id s) as [[s1 e1] []] eqn:E.
  assert (He : e1 = []).
  { change e1 with (effs_of (s1, e1, ())). rewrite <-E. unfold expire_session, account_time.
    unact. by destruct (session_start_times_ s !! id). }
  specialize (IH s1). destruct (expire_sessions now ids s1) as [[? ?] []]. by subst.
Qed.

Lemma check_expired_silent now s : effs_of (check_expired_sessions now s) = [].
Proof.
  unfold check_expired_sessions. cbv [mbind act_bind gets].
  pose proof (expire_sessions_silent now
    (keys_where (is_idle now (max_idle_time_seconds_ s)) (session_metadata_ s)) s) as H.
  by destruct (expire_sessions _ _ s) as [[? ?] ?].
Qed.

(** [remove_session] of a session that is not registered. *)
Lemma remove_unregistered now id s :
  sessions_ s !! id = None → session_metadata_ s !! id = None →
  remove_session now id s =
    (s <| active_sessions_count_ := i32 (active_sessions_count_ s - 1) |>, [], ()).
Proof. intros Hs Hm. unfold remove_session. unact. rewrite Hs. simpl. by rewrite Hm. Qed.

(** A session that expired is forgotten but not closed; when it later reports
    its end, the count is decremented a second time: from then on the
    statistics are one session short. *)
Theorem expired_session_counted_twice now now' id md s :
  counted s → session_metadata_ s !! id = Some md →
  is_idle now (max_idle_time_seconds_ s) md = true →
  let s' := state_of (handle_all [(now, EvExpiry); (now', EvRemove id)] s) in
  sessions_ s' !! id = None ∧
  active_sessions (val_of (get_statistics s')) = i32 (Z.of_nat (size (sessions_ s')) - 1) ∧
  VGracefulClose id ∉ effs_of (handle_all [(now, EvExpiry); (now', EvRemove id)] s).
Proof.
  intros Hc Hmd Hidle s'. set (s1 := state_of (handle now EvExpiry s)).
  set (ids := keys_where (is_idle now (max_idle_time_seconds_ s)) (session_metadata_ s)).
  assert (Hin : id ∈ ids) by (apply elem_keys_where; eauto).
  assert (Hc1 : counted s1).
  { unfold s1. simpl. rewrite check_expired_run.
    apply expire_sessions_counted; [apply keys_where_sorted| |done].
    intros i (md' & Hmd' & _)%elem_keys_where. eauto. }
  assert (Hm1 : session_metadata_ s1 !! id = None).
  { unfold s1. simpl. rewrite check_expired_run. fold ids.
    destruct (expire_sessions_tables now ids s) as (_ & -> & _).
    rewrite erase_all_lookup. by rewrite decide_True. }
  assert (Hs1 : sessions_ s1 !! id = None).
  { apply not_elem_of_dom. destruct Hc1 as (-> & _). by apply not_elem_of_dom. }
  assert (Hs' : s' = s1 <| active_sessions_count_ := i32 (active_sessions_count_ s1 - 1) |>).
  { unfold s'. rewrite handle_all_state. fold s1. rewrite handle_all_state.
    cbn [handle]. by rewrite (remove_unregistered now' id s1 Hs1 Hm1). }
  rewrite Hs'. split; [done|]. split.
  - simpl. destruct Hc1 as (_ & _ & ->). unfold Z.sub. by rewrite i32_idemp.
  - rewrite !handle_all_effs. fold s1. cbn [handle].
    rewrite check_expired_silent, (remove_unregistered now' id s1 Hs1 Hm1). simpl. set_solver.
Qed.

(** No step of the program calls [update_last_active_time], so a session's last
    activity is its connection: whatever a client sends, right after a sweep
    every session still registered was accepted at most [max_idle] seconds
    before. *)
Theorem active_sessions_expire_anyway es max_idle now :
  let s := state_of (handle_all es (new_server max_idle)) in
  let s' := state_of (handle now EvExpiry s) in
  ∀ id md, session_metadata_ s' !! id = Some md → now - connection_time md <= max_idle.
Proof.
  intros s s' id md Hmd.
  assert (Hinv : map_Forall (λ _ md, last_active_time md = connection_time md)
                   (session_metadata_ s) ∧ max_idle_time_seconds_ s = max_idle).
  { unfold s. assert (H0 : map_Forall (λ _ md, last_active_time md = connection_time md)
      (session_metadata_ (new_server max_idle)) ∧
      max_idle_time_seconds_ (new_server max_idle) = max_idle) by (split; [apply map_Forall_empty|done]).
    revert H0. generalize (new_server max_idle) as t0. clear.
    induction es as [|[t e] es IH]; intros t0 [Hf Hi]; [done|].
    rewrite handle_all_state. apply IH.
    assert (Hq : about_requests e = true → _) by exact (requests_same_tables t e t0).
    destruct e; try (destruct (Hq eq_refl) as (_ & -> & _ & _ & ->); done); clear Hq; simpl.
    - unfold on_accept, generate_session_id. unact. split; [|done]. by apply map_Forall_insert_2.
    - unfold remove_session, account_time. unact.
      destruct (sessions_ t0 !! id) as [[]|]; [destruct (bool_decide (id ∈ alive t0))|]; simpl;
        destruct (session_metadata_ t0 !! id) eqn:Em; simpl;
        try destruct (session_start_times_ t0 !! id); simpl; split; try done;
        by apply map_Forall_delete.
    - rewrite check_expired_run. destruct (expire_sessions_tables t
        (keys_where (is_idle t (max_idle_time_seconds_ t0)) (session_metadata_ t0)) t0)
        as (_ & -> & ->). rewrite erase_keys_where. split; [|done].
      intros i x [Hx _]%map_lookup_filter_Some. by apply (Hf i). }
  destruct Hinv as [Hf Hi]. unfold s' in Hmd. simpl in Hmd. rewrite check_expired_run in Hmd.
  destruct (expire_sessions_tables now
    (keys_where (is_idle now (max_idle_time_seconds_ s)) (session_metadata_ s)) s)
    as (_ & E & _). rewrite E, erase_keys_where in Hmd.
  apply map_lookup_filter_Some in Hmd as [Hmd Hn]. unfold is_idle in Hn. simpl in Hn.
  apply Z.ltb_ge in Hn. rewrite Hi, (Hf _ _ Hmd) in Hn. lia.
Qed.

(** Every packet a client sends is matched against the pending requests by its
    sequence number alone: one whose type is not the expected response makes
    the server forget the request; its callback runs neither then nor at any
    later packet or timer with that number. *)
Theorem mismatched_packet_drops_request t st q pl s r es :
  pending_requests_ s !! q = Some r → expected_type r ≠ t →
  Forall (λ e, match e.2 with
               | EvPacket _ _ q' _ | EvRequestTimer q' _ => q' = q
               | _ => False
               end) es →
  effs_of (handle_response t st q pl s) = [VCancelRequest q] ∧
  effs_of (handle_all es (state_of (handle_response t st q pl s))) = [].
Proof.
  intros Hq Ht Hes.
  assert (Hr : handle_response t st q pl s =
    (s <| pending_requests_ := delete q (pending_requests_ s) |>, [VCancelRequest q], ())).
  { unfold handle_response. unact. rewrite Hq. simpl.
    by rewrite (proj2 (Z.eqb_neq _ _) Ht). }
  rewrite Hr. split; [done|]. simpl.
  assert (Hn : ∀ s', pending_requests_ s' !! q = None → effs_of (handle_all es s') = []).
  { clear -Hes. induction Hes as [|[now e] es He _ IH]; intros s' Hs'; [done|].
    rewrite handle_all_effs.
    assert (E : handle now e s' = (s', [], ())).
    { destruct e; simpl in He; try done; subst; simpl.
      - unfold handle_response. unact. by rewrite Hs'.
      - unfold on_request_timer. destruct aborted; [done|]. unact. by rewrite Hs'. }
    rewrite E. simpl. by apply IH. }
  apply Hn. simpl. apply lookup_delete_eq.
Qed.

(** ** Witnesses: one session accepted at time 100, one request of five seconds *)

Definition qsrv1 : server := state_of (handle 100 (EvAccept None) (new_server 300)).
Definition qsrv2 : server :=
  state_of (handle 100 (EvSend 1 PKT_SUBMIT_REQ (lit "x") (Some 5%nat) PKT_SUBMIT_RESP 5) qsrv1).

Lemma qwen_sessions_counted_witness :
  let s := state_of (handle_all [(100, EvAccept None); (101, EvAccept None); (102, EvRemove 1)]
                       (new_server 300)) in
  active_sessions (val_of (get_statistics s)) = i32 (Z.of_nat (size (sessions_ s))) ∧
  dom (sessions_ s) = dom (session_metadata_ s).
Proof.
  apply (qwen_sessions_counted [(100, EvAccept None); (101, EvAccept None); (102, EvRemove 1)] 300).
  split; [vm_compute; reflexivity|]. split; [vm_compute; reflexivity|].
  split; [|exact I]. exists (). vm_compute. reflexivity.
Defined.

Lemma expired_session_counted_twice_witness :
  let s' := state_of (handle_all [(401, EvExpiry); (402, EvRemove 1)] qsrv1) in
  sessions_ s' !! 1 = None ∧
  active_sessions (val_of (get_statistics s')) = i32 (Z.of_nat (size (sessions_ s')) - 1) ∧
  VGracefulClose 1 ∉ effs_of (handle_all [(401, EvExpiry); (402, EvRemove 1)] qsrv1).
Proof.
  apply (expired_session_counted_twice 401 402 1 (mkMetadata (lit "unknown") 100 100) qsrv1).
  - split; [vm_compute; reflexivity|]. split; [|vm_compute; reflexivity].
    intros id Hid. vm_compute in Hid. change (id ∈ ({[1]} : gset Z)) in Hid.
    apply elem_of_singleton in Hid as ->. vm_compute. split; [discriminate|reflexivity].
  - vm_compute. reflexivity.
  - vm_compute. reflexivity.
Defined.

Lemma mismatched_packet_drops_request_witness :
  effs_of (handle_response PKT_SUBMIT_REQ 0 1 (lit "y") qsrv2) = [VCancelRequest 1] ∧
  effs_of (handle_all [(104, EvPacket PKT_SUBMIT_RESP 0 1 (lit "ok")); (105, EvRequestTimer 1 false)]
             (state_of (handle_response PKT_SUBMIT_REQ 0 1 (lit "y") qsrv2))) = [].
Proof.
  apply (mismatched_packet_drops_request PKT_SUBMIT_REQ 0 1 (lit "y") qsrv2
           (mkPendingRequest 5 PKT_SUBMIT_RESP 105)).
  - vm_compute. reflexivity.
  - discriminate.
  - repeat constructor.
Defined.

Lemma active_sessions_expire_anyway_witness :
  200 - connection_time (mkMetadata (lit "unknown") 100 100) <= 300.
Proof.
  apply (active_sessions_expire_anyway [(100, EvAccept None)] 300 200 1).
  vm_compute. reflexivity.
Defined.
