(* ===== verification/QwenReactor.v ===== *)
(** * QwenReactor: the qwen server together with its accept and its timers

    The server of QwenServer.v as a machine of the I/O contract: the accept that
    [start_accept] keeps outstanding, the sweep that [start_expiration_timer]
    keeps scheduled, and one timer per pending request. What the server asks of
    sessions and callbacks is the machine's log. Deadlines are in seconds. *)

From S2P Require Import Prelude Bytes Tables Asio QwenSession QwenServer QwenServerProps.

Inductive v_op := VAccept.
Inductive v_timer := VExpiration | VRequest (sequence : Z).

#[export] Instance v_timer_eq_dec : EqDecision v_timer.
Proof. solve_decision. Defined.

Abbreviation r_eff := (eff v_op Empty_set v_timer v_eff).
Abbreviation R := (act server r_eff).

Definition to_eff (e : v_eff) : r_eff :=
  match e with
  | VArmRequest q d => EArm (VRequest q) d
  | VCancelRequest q => ECancel (VRequest q)
  | e => ECall e
  end.

(** An operation of the server, its requests handed to the library. *)
Definition lift {A} (m : M A) : R A :=
  λ s, let '(s', es, x) := m s in (s', to_eff <$> es, x).

Section Reactor.
(** The address of the peer of a connection, when it can be had. *)
Context (remote_endpoint : Z → option bytes).

Definition start_accept : R unit := emit (EStart VAccept).

(** The handler [start_accept] installs. *)
Definition accept_handler (now : Z) (res : io_result) : R unit :=
  match res with
  | IoOk _ => id ← gets id_counter; lift (on_accept now (remote_endpoint id))
  | IoErr _ => skip
  end;;
  start_accept.

Definition start_expiration_timer (now : Z) : R unit := emit (EArm VExpiration (now + 30)).

(** The handler of [expiration_timer_]: it does not look at the error code. *)
Definition expiration_handler (now : Z) : R unit :=
  lift (check_expired_sessions now);; start_expiration_timer now.

(** [server::server]. *)
Definition construct (now : Z) : R unit := start_accept;; start_expiration_timer now.

Inductive v_api :=
| VSend (session_id type : Z) (payload : bytes) (cb : option nat) (expected timeout : Z)
| VSendAll (type : Z) (payload : bytes) (cb : option nat) (expected timeout : Z)
| VPacket (type status sequence : Z) (payload : bytes)
| VRemove (id : Z)
| VGone (id : Z).

Definition api_event (a : v_api) : v_event :=
  match a with
  | VSend i t p cb e to => EvSend i t p cb e to
  | VSendAll t p cb e to => EvSendAll t p cb e to
  | VPacket t st q p => EvPacket t st q p
  | VRemove id => EvRemove id
  | VGone id => EvGone id
  end.

Definition reactor : handlers server v_op Empty_set v_timer v_eff v_api :=
  Handlers (λ _, KAccept)
    (λ now _ res, accept_handler now res)
    (λ _ (p : Empty_set), match p return R unit with end)
    (λ now t ab, match t with
                 | VExpiration => expiration_handler now
                 | VRequest q => lift (on_request_timer q ab)
                 end)
    (λ now a, lift (handle now (api_event a))).

Definition started_server (max_idle now : Z) : world server v_op Empty_set v_timer v_eff :=
  run (construct now) (init_world (new_server max_idle) now).

Implicit Types (s : server) (w : world server v_op Empty_set v_timer v_eff).

(** ** The accept and the timers never stop *)

Definition wanted s (t : v_timer) : Prop :=
  match t with
  | VExpiration => True
  | VRequest q => is_Some (pending_requests_ s !! q)
  end.

(** Operations of the server that leave the pending requests alone. *)
Definition other_business (e : v_eff) : Prop :=
  match e with VArmRequest _ _ | VCancelRequest _ => False | _ => True end.

Definition same_requests s s' : Prop := pending_requests_ s' = pending_requests_ s.

#[local] Instance same_requests_preorder : PreOrder same_requests.
Proof. split; [done|]. intros s1 s2 s3. unfold same_requests. congruence. Qed.

Abbreviation requests_quiet := (keeps same_requests other_business _).

Lemma quiet_account now id : requests_quiet (account_time now id).
Proof. apply keeps_modify. intros s. by case_match. Qed.

Lemma quiet_expiry now : requests_quiet (check_expired_sessions now).
Proof.
  unfold check_expired_sessions. keeps_tac. generalize (keys_where (is_idle now x0) x) as ids.
  induction ids as [|id ids IH]; simpl; [keeps_tac|]. apply compose; [|intros _; exact IH].
  unfold expire_session. keeps_tac. apply quiet_account.
Qed.

Lemma quiet_on_accept now ip : requests_quiet (on_accept now ip).
Proof. unfold on_accept, generate_session_id. keeps_tac. Qed.

Lemma quiet_remove now id : requests_quiet (remove_session now id).
Proof.
  unfold remove_session. repeat (progress keeps_tac || apply quiet_account || case_match).
Qed.

Lemma quiet_send_each a ids t q p : requests_quiet (send_each a ids t q p).
Proof.
  induction ids as [|id ids IH]; simpl; [keeps_tac|]. apply compose; [|intros _; exact IH].
  by case_bool_decide; keeps_tac.
Qed.

Lemma lift_quiet {A} (m : M A) : requests_quiet m → keeps_watch wanted None (lift m).
Proof.
  intros Hm s t Ht. destruct (Hm s) as [Hp He]. unfold lift in *.
  destruct (m s) as [[s' es] x]. simpl in *. rewrite timer_fate_free.
  - destruct t as [|q]; [done|]. simpl in *. by rewrite <-Hp.
  - apply Forall_fmap. apply (Forall_impl _ _ _ He). by intros [].
Qed.

Lemma watch_bind {A B} but (m : M A) (k : A → M B) :
  keeps_watch wanted but (lift m) → (∀ x, keeps_watch wanted None (lift (k x))) →
  keeps_watch wanted but (lift (x ← m; k x)).
Proof.
  intros Hm Hk s t. pose proof (keeps_watch_bind wanted but (lift m) (λ x, lift (k x)) Hm Hk s t) as H.
  revert H. unfold lift. cbv [mbind act_bind]. destruct (m s) as [[s1 e1] x].
  destruct (k x s1) as [[s2 e2] y]. by rewrite fmap_app.
Qed.

(** A request is registered together with its timer. *)
Lemma watch_register now q cb e t : keeps_watch wanted None (lift (register_request now q cb e t)).
Proof.
  destruct cb as [f|]; [|by apply lift_quiet, keeps_skip, _]. simpl.
  destruct (e =? 0); [by apply lift_quiet, keeps_skip, _|].
  intros s u. unfold lift. unact. simpl. destruct (decide (u = VRequest q)) as [->|Hne]; [done|].
  intros Hu. destruct u as [|q']; [done|]. simpl in *. by rewrite lookup_insert_ne in Hu by congruence.
Qed.

Lemma watch_response t st q p : keeps_watch wanted None (lift (handle_response t st q p)).
Proof.
  intros s u. unfold lift, handle_response. unact.
  destruct (pending_requests_ s !! q) as [r|] eqn:Eq; [|done]. simpl.
  assert (Hw : wanted (s <| pending_requests_ := delete q (pending_requests_ s) |>) u → wanted s u ∧ u ≠ VRequest q).
  { destruct u as [|q']; [done|]. simpl. intros Hu. split; [|intros [= ->]; rewrite lookup_delete_eq in Hu; by destruct Hu].
    apply (lookup_weaken_is_Some _ _ _ Hu), delete_subseteq. }
  destruct (expected_type r =? t); simpl; intros [H1 H2]%Hw; by rewrite decide_False.
Qed.

Lemma watch_request_timer q (ab : bool) :
  keeps_watch wanted (if ab then None else Some (VRequest q)) (lift (on_request_timer q ab)).
Proof.
  destruct ab; [by apply lift_quiet, keeps_skip, _|].
  intros s u. unfold lift, on_request_timer. unact.
  destruct (pending_requests_ s !! q) as [r|] eqn:Eq; simpl.
  - destruct u as [|q']; [done|]. simpl. intros Hu. split.
    + apply (lookup_weaken_is_Some _ _ _ Hu), delete_subseteq.
    + intros [= ->]. rewrite lookup_delete_eq in Hu. by destruct Hu.
  - intros Hu. split; [done|]. intros [= <-]. simpl in Hu. rewrite Eq in Hu. by destruct Hu.
Qed.

Lemma watch_api now a : keeps_watch wanted None (lift (handle now (api_event a))).
Proof.
  destruct a; simpl.
  - unfold send_request_to_session, generate_sequence_number, get_session.
    apply watch_bind; [apply lift_quiet; keeps_tac|]. intros q.
    apply watch_bind; [apply watch_register|]. intros _.
    apply lift_quiet. repeat (progress keeps_tac || case_match).
  - unfold send_request_to_all, generate_sequence_number.
    apply watch_bind; [apply lift_quiet; keeps_tac|]. intros q.
    apply watch_bind; [apply watch_register|]. intros _.
    apply lift_quiet. keeps_tac. apply quiet_send_each.
  - apply watch_response.
  - apply lift_quiet, quiet_remove.
  - apply lift_quiet. keeps_tac.
Qed.

Lemma watch_expiration now but :
  but = None ∨ but = Some VExpiration → keeps_watch wanted but (expiration_handler now).
Proof.
  intros Hb s t. destruct (quiet_expiry now s) as [Hp He].
  unfold expiration_handler, lift. cbv [mbind act_bind].
  destruct (check_expired_sessions now s) as [[s1 e1] []]. simpl in *. rewrite timer_fate_app.
  simpl. destruct (decide (t = VExpiration)) as [->|Hne]; [done|].
  rewrite timer_fate_free by (apply Forall_fmap, (Forall_impl _ _ _ He); by intros []).
  destruct t as [|q]; [done|]. simpl. rewrite Hp. intros Hq. split; [done|].
  by destruct Hb as [->| ->].
Qed.

Lemma lift_started {A} (m : M A) s : started (effs_of (lift m s)) = [].
Proof.
  unfold lift. destruct (m s) as [[s' es] x]. simpl.
  induction es as [|e es IH]; [done|]. by destruct e.
Qed.

Lemma started_then (m m' : R unit) s :
  started (effs_of (m s)) = [] →
  started (effs_of ((m;; m') s)) = started (effs_of (m' (state_of (m s)))).
Proof.
  cbv [mbind act_bind]. destruct (m s) as [[s1 e1] []]. simpl. intros Hm.
  destruct (m' s1) as [[s2 e2] []]. simpl. by rewrite started_app, Hm.
Qed.

(** Exactly one accept is outstanding. *)
Lemma accept_outstanding max_idle now w :
  reachable reactor (started_server max_idle now) w → w_ops w = [VAccept].
Proof.
  intros Hr. apply (step_ops_invariant reactor (λ _ ops _ _, ops = [VAccept])) in Hr; [done|..|done].
  - by intros s ops ps sent now' [].
  - intros s l1 l2 ps sent now' o res Hops _.
    destruct l1 as [|? [|]]; [|done..]. destruct l2; [|done]. simpl. unfold accept_handler.
    rewrite started_then; [done|]. destruct res; [|done]. rewrite act_gets. apply lift_started.
  - intros s ops ps sent now' t ab ->. destruct t as [|q]; simpl; [|by rewrite lift_started].
    unfold expiration_handler. by rewrite started_then by apply lift_started.
  - intros s ops ps sent now' a ->. simpl. by rewrite lift_started.
Qed.

Lemma reactor_watched max_idle now w :
  reachable reactor (started_server max_idle now) w → watched wanted w.
Proof.
  apply (watched_invariant reactor wanted).
  - by intros now' [].
  - intros now' o res. simpl. unfold accept_handler. apply keeps_watch_bind.
    + destruct res; [|by intros s t ?]. apply keeps_watch_bind; [by intros s t ?|].
      intros id. apply lift_quiet, quiet_on_accept.
    + intros _ s t Ht. done.
  - intros now' [|q] ab; simpl; [apply watch_expiration; destruct ab; auto|apply watch_request_timer].
  - intros now' a. apply watch_api.
  - intros [|q]; [|intros Hq; simpl in Hq; rewrite lookup_empty in Hq; by destruct Hq].
    intros _. left. simpl. left.
Qed.

(** ** Theorems *)

(** C22: Over every run of the server: one accept is outstanding, the next sweep of
    the idle sessions is scheduled or about to run, and every pending request
    has its timer running, or expired with its report about to be made. *)
Theorem qwen_server_stays_responsive max_idle now w :
  reachable reactor (started_server max_idle now) w →
  w_ops w = [VAccept] ∧ timer_coming VExpiration w ∧
  ∀ q, is_Some (pending_requests_ (w_st w) !! q) → timer_coming (VRequest q) w.
Proof.
  intros Hr. pose proof (reactor_watched _ _ _ Hr) as Hw. split_and!.
  - by eapply accept_outstanding.
  - by apply Hw.
  - intros q Hq. by apply Hw.
Qed.

(** A wait that is coming can be brought to the point where its handler runs. *)
Lemma coming_fires t w :
  timer_coming t w →
  ∃ w1 l1 l2, reachable reactor w w1 ∧ w_fired w1 = l1 ++ (t, false) :: l2 ∧
    w_st w1 = w_st w ∧ w_calls w1 = w_calls w ∧ w_now w <= w_now w1.
Proof.
  intros [Ha|Hf].
  - apply list_elem_of_fmap in Ha as ([t' d] & -> & Ha).
    apply list_elem_of_split in Ha as (l1 & l2 & Ha).
    set (w1 := w <| w_now := Z.max (w_now w) d |>).
    exists (w1 <| w_armed := l1 ++ l2 |> <| w_fired := w_fired w1 ++ [(t', false)] |>), (w_fired w), [].
    split_and!; try done; [|simpl; lia].
    apply (rtc_l _ _ w1); [apply step_tick; lia|]. apply rtc_once.
    apply (step_expire reactor w1 t' d l1 l2 Ha). simpl. lia.
  - apply list_elem_of_split in Hf as (l1 & l2 & Hf). exists w, l1, l2. split_and!; try done. apply rtc_refl.
Qed.

(** A pending request is never stuck: some run of the server reports it to its
    callback as timed out and forgets it. *)
Theorem qwen_request_times_out max_idle now w q r :
  reachable reactor (started_server max_idle now) w →
  pending_requests_ (w_st w) !! q = Some r →
  ∃ w', reachable reactor w w' ∧
    w_calls w' = w_calls w ++ [VCallback (callback r) [] PKT_TIMEOUT_STATUS] ∧
    pending_requests_ (w_st w') = delete q (pending_requests_ (w_st w)).
Proof.
  intros Hr Hq. destruct (coming_fires (VRequest q) w) as (w1 & l1 & l2 & Hr1 & Hf & Hs & Hc & _).
  { apply (reactor_watched _ _ _ Hr). by exists r. }
  exists (run (h_timer reactor (w_now w1) (VRequest q) false) (w1 <| w_fired := l1 ++ l2 |>)).
  split; [eapply rtc_r; [exact Hr1|by apply step_timer]|].
  destruct (run_fields (h_timer reactor (w_now w1) (VRequest q) false) (w1 <| w_fired := l1 ++ l2 |>))
    as (-> & _ & _ & -> & _). simpl. unfold lift, on_request_timer. rewrite Hs, Hc. unact.
  rewrite Hq. done.
Qed.

(** No session is kept for ever: from every state some run of the server drops
    a registered session, by the sweep that is coming once the session's idle
    time is over. *)
Theorem qwen_idle_session_expires max_idle now w id md :
  reachable reactor (started_server max_idle now) w →
  session_metadata_ (w_st w) !! id = Some md →
  ∃ w', reachable reactor w w' ∧ session_metadata_ (w_st w') !! id = None ∧
    sessions_ (w_st w') !! id = None.
Proof.
  intros Hr Hmd. set (idle := max_idle_time_seconds_ (w_st w)).
  set (w0 := w <| w_now := Z.max (w_now w) (last_active_time md + idle + 1) |>).
  destruct (coming_fires VExpiration w0) as (w1 & l1 & l2 & Hr1 & Hf & Hs & _ & Hn).
  { exact (reactor_watched _ _ _ Hr VExpiration I). }
  exists (run (h_timer reactor (w_now w1) VExpiration false) (w1 <| w_fired := l1 ++ l2 |>)). split.
  { apply (rtc_l _ _ w0); [apply step_tick; lia|]. eapply rtc_r; [exact Hr1|by apply step_timer]. }
  destruct (run_fields (h_timer reactor (w_now w1) VExpiration false) (w1 <| w_fired := l1 ++ l2 |>))
    as (-> & _). simpl. rewrite Hs.
  assert (Hst : state_of (expiration_handler (w_now w1) (w_st w0)) =
    state_of (check_expired_sessions (w_now w1) (w_st w))).
  { unfold expiration_handler, lift. cbv [mbind act_bind]. simpl.
    by destruct (check_expired_sessions (w_now w1) (w_st w)) as [[? ?] []]. }
  rewrite Hst, check_expired_run.
  set (ids := keys_where _ _).
  assert (Hin : id ∈ ids).
  { apply elem_keys_where. exists md. split; [done|]. unfold is_idle. simpl in Hn. lia. }
  destruct (expire_sessions_tables (w_now w1) ids (w_st w)) as (-> & -> & _).
  rewrite erase_all_lookup, decide_True by done. split; [done|].
  exact (eq_trans (erase_all_lookup ids (sessions_ (w_st w)) id) (decide_True _ _ Hin)).
Qed.
End Reactor.

(** ** Witnesses: a client is accepted at time 0 and sent a request *)

Abbreviation qwld := (world server v_op Empty_set v_timer v_eff).
Definition unknown_peer (id : Z) : option bytes := None.
#[local] Abbreviation RQ := (reactor unknown_peer).

Definition react0 : qwld := started_server 300 0.
Definition react1 : qwld := complete RQ VAccept (IoOk []) ([] ++ []) react0.
Definition react2 : qwld :=
  run (h_api RQ 0 (VSend 1 PKT_SUBMIT_REQ (lit "x") (Some 5%nat) PKT_SUBMIT_RESP 5)) react1.

Lemma react2_reachable : reachable RQ react0 react2.
Proof.
  apply (rtc_l _ _ react1); [exact (step_io RQ react0 VAccept [] [] (IoOk []) eq_refl eq_refl)|].
  apply rtc_once. apply (step_api RQ react1).
Qed.

Lemma qwen_server_stays_responsive_witness :
  w_ops react2 = [VAccept] ∧ timer_coming VExpiration react2 ∧ timer_coming (VRequest 1) react2.
Proof.
  destruct (qwen_server_stays_responsive unknown_peer 300 0 react2 react2_reachable) as (H1 & H2 & H3).
  split; [exact H1|]. split; [exact H2|]. apply H3. exists (mkPendingRequest 5 PKT_SUBMIT_RESP 5).
  vm_compute. reflexivity.
Defined.

Lemma qwen_request_times_out_witness :
  ∃ w', reachable RQ react2 w' ∧
    w_calls w' = w_calls react2 ++ [VCallback 5 [] PKT_TIMEOUT_STATUS] ∧
    pending_requests_ (w_st w') = delete 1 (pending_requests_ (w_st react2)).
Proof.
  apply (qwen_request_times_out unknown_peer 300 0 react2 1 (mkPendingRequest 5 PKT_SUBMIT_RESP 5)
    react2_reachable). vm_compute. reflexivity.
Defined.

Lemma qwen_idle_session_expires_witness :
  ∃ w', reachable RQ react2 w' ∧ session_metadata_ (w_st w') !! 1 = None ∧
    sessions_ (w_st w') !! 1 = None.
Proof.
  apply (qwen_idle_session_expires unknown_peer 300 0 react2 1 (mkMetadata (lit "unknown") 0 0)
    react2_reachable). vm_compute. reflexivity.
Defined.
