(* ===== verification/Smpp.v ===== *)
(** * Smpp: the SMPP library of new_chatgpt/main.cpp

    PDUs and their encoding, [SmppSession] as a machine of the I/O contract, the
    request handler [SmppServer] installs and the wrappers of [SmppClient]. The
    constructors of PDUs leave members unset that they do not mention; such
    values are arguments here. [to_buffers] is modelled by the bytes its buffers
    refer to when it returns. *)

From S2P Require Import Prelude Bytes Asio.

Definition MAX_HEADER : nat := 16.
Definition MAX_PDU_SIZE : Z := 1024 * 8.

Record SmppPdu := mkPdu {
  command_length : Z;
  command_id : Z;
  command_status : Z;
  sequence_number : Z;
  body : bytes }.

#[export] Instance eta_SmppPdu : Eta SmppPdu := λ p,
  mkPdu (command_length p) (command_id p) (command_status p) (sequence_number p) (body p).

(** [SmppPdu()]: the four header members are not initialised. *)
Definition new_pdu (len id status seq : Z) : SmppPdu := mkPdu len id status seq [].

Definition BindTransceiver (len seq : Z) (system_id password : bytes) : SmppPdu :=
  mkPdu len 9 0 seq
    (system_id ++ [0] ++ password ++ [0] ++ [0] ++ [52] ++ [0] ++ [0] ++ [0]).

Definition BindTransceiverResp (len seq status : Z) : SmppPdu :=
  mkPdu len 2147483657 status seq (lit "SMPP-SERVER" ++ [0]).

Definition EnquireLink (len seq : Z) : SmppPdu := mkPdu len 21 0 seq [].

(** The outcome of [deserialize]: [nullptr], a PDU, or undefined behaviour
    ([assign] from a range whose end is before its start). *)
Inductive deserialized := Null | Pdu (p : SmppPdu) | BadRange.

Section Codec.
Context `{Host}.

(** [boost::endian::native_to_big] and [big_to_native]. *)
Definition native_to_big (v : Z) : Z := htonl v.
Definition big_to_native (v : Z) : Z := ntohl v.

Definition to_buffers (p : SmppPdu) : bytes :=
  store32 (native_to_big (command_length p)) ++
  store32 (native_to_big (command_id p)) ++
  store32 (native_to_big (command_status p)) ++
  store32 (native_to_big (sequence_number p)) ++ body p.

(** What [send_batch] sends of a PDU: its members as they are in memory. *)
Definition raw_buffers (p : SmppPdu) : bytes :=
  store32 (command_length p) ++ store32 (command_id p) ++ store32 (command_status p) ++
  store32 (sequence_number p) ++ body p.

(** The [uint32_t] at an offset. *)
Definition word_at (off : nat) (data : bytes) : Z :=
  big_to_native (load32 (take 4 (drop off data))).

Definition deserialize (data : bytes) (size : nat) : deserialized :=
  if (size <? MAX_HEADER)%nat then Null
  else
    let cmd_len := word_at 0 data in
    if (Z.of_nat size <? cmd_len) || (MAX_PDU_SIZE <? cmd_len) then Null
    else if cmd_len <? 16 then BadRange
    else Pdu (mkPdu cmd_len (word_at 4 data) (word_at 8 data) (word_at 12 data)
                (take (Z.to_nat cmd_len - 16) (drop 16 data))).

End Codec.

#[global] Arguments deserialize : simpl never.
#[global] Arguments word_at : simpl never.
#[global] Arguments to_buffers : simpl never.
#[global] Arguments raw_buffers : simpl never.

(** ** The session *)

Inductive m_op := MReadHeader | MReadBody (size : nat) | MWrite (bs : bytes).

Inductive m_timer := TInactivity | TPdu (seq : Z).

#[export] Instance m_timer_eq_dec : EqDecision m_timer.
Proof. solve_decision. Defined.

(** [on_request]: the user's, or the lambda of [SmppServer::start_accept]. *)
Inductive request_cb := UserRequest (f : nat) | ServerRequest.

Inductive m_call :=
| CRequest (f : nat) (p : SmppPdu)
| CResponse (f : nat) (p : SmppPdu)
| CTimeout (f : nat) (seq : Z)
| CClose (f : nat)
| CUndefined.                       (* undefined behaviour reached *)

Record smpp_session := mkSession {
  socket_open : bool;
  streambuf_ : bytes;
  pending_timers_ : gset Z;
  seq_ : Z;
  on_request : option request_cb;
  on_response : std_function;
  on_timeout : std_function;
  on_close : std_function }.

#[export] Instance eta_smpp_session : Eta smpp_session := λ s,
  mkSession (socket_open s) (streambuf_ s) (pending_timers_ s) (seq_ s) (on_request s)
    (on_response s) (on_timeout s) (on_close s).

Definition new_session (rq : option request_cb) (rs tm cl : std_function) : smpp_session :=
  mkSession true [] ∅ 1 rq rs tm cl.

Abbreviation m_eff := (eff m_op Empty_set m_timer m_call).
Abbreviation M := (act smpp_session m_eff).

Section Session.
Context `{Host}.

Definition invoke (f : std_function) (c : nat → m_call) : M unit :=
  match f with Some f => emit (ECall (c f)) | None => skip end.

Definition close : M unit :=
  modify (λ s, s <| socket_open := false |>);;
  emit EClose;;
  f ← gets on_close;
  invoke f CClose.

Definition next_seq : M Z :=
  n ← gets seq_; modify (λ s, s <| seq_ := u32 (n + 1) |>);; mret n.

Definition reset_inactivity_timer (now : Z) : M unit :=
  emit (EArm TInactivity (now + seconds 60)).

(** [send_pdu]: overwrites the PDU's sequence number. When the number is still
    in [pending_timers_], [emplace] keeps the old timer and destroys the new one,
    whose aborted wait does nothing. *)
Definition send_pdu (now : Z) (pdu : SmppPdu) (timeout : Z) : M unit :=
  seq ← next_seq;
  let pdu := pdu <| sequence_number := seq |> in
  pend ← gets pending_timers_;
  whenb (bool_decide (seq ∉ pend)) (emit (EArm (TPdu seq) (now + seconds timeout)));;
  modify (λ s, s <| pending_timers_ := pending_timers_ s ∪ {[seq]} |>);;
  emit (EStart (MWrite (to_buffers pdu))).

(** [send_batch]: one gathered write. *)
Fixpoint number_batch (pdus : list SmppPdu) : M bytes :=
  match pdus with
  | [] => mret []
  | pdu :: pdus' =>
      seq ← next_seq;
      rest ← number_batch pdus';
      mret (raw_buffers (pdu <| sequence_number := seq |>) ++ rest)
  end.

Definition send_batch (pdus : list SmppPdu) : M unit :=
  bufs ← number_batch pdus;
  emit (EStart (MWrite bufs)).

Definition on_write (res : io_result) : M unit :=
  match res with IoOk _ => skip | IoErr _ => close end.

Definition on_pdu_timer (seq : Z) (aborted : bool) : M unit :=
  if aborted then skip
  else
    emit (ECancel (TPdu seq));;         (* [erase] destroys the timer *)
    modify (λ s, s <| pending_timers_ := pending_timers_ s ∖ {[seq]} |>);;
    f ← gets on_timeout;
    invoke f (λ f, CTimeout f seq).

Definition on_inactivity_timer (aborted : bool) : M unit := if aborted then skip else close.

(** The lambda of [SmppServer::start_accept]; [len] is the unset
    [command_length] of the response. *)
Definition server_request (now len : Z) (p : SmppPdu) : M unit :=
  if command_id p =? 9 then send_pdu now (BindTransceiverResp len (sequence_number p) 0) 30
  else skip.

Definition call_request (now len : Z) (p : SmppPdu) : M unit :=
  cb ← gets on_request;
  match cb with
  | Some (UserRequest f) => emit (ECall (CRequest f p))
  | Some ServerRequest => server_request now len p
  | None => skip
  end.

Definition read_header : M unit := emit (EStart MReadHeader).
Definition read_body (size : nat) : M unit := emit (EStart (MReadBody size)).

Definition handle_header : M unit :=
  data ← gets streambuf_;
  let cmd_len := word_at 0 data in
  if (cmd_len <? Z.of_nat MAX_HEADER) || (MAX_PDU_SIZE <? cmd_len) then close
  else read_body (Z.to_nat cmd_len - MAX_HEADER).

Definition on_read_header (res : io_result) : M unit :=
  match res with
  | IoOk data => modify (λ s, s <| streambuf_ := streambuf_ s ++ data |>);; handle_header
  | IoErr _ => close
  end.

Definition parse_pdu (now len : Z) (total : nat) : M unit :=
  data ← gets streambuf_;
  let pdu := deserialize data total in
  modify (λ s, s <| streambuf_ := drop total (streambuf_ s) |>);;
  match pdu with
  | Null => skip
  | BadRange => emit (ECall CUndefined)
  | Pdu p =>
      pend ← gets pending_timers_;
      if bool_decide (sequence_number p ∈ pend) then
        emit (ECancel (TPdu (sequence_number p)));;
        modify (λ s, s <| pending_timers_ := pending_timers_ s ∖ {[sequence_number p]} |>);;
        f ← gets on_response;
        invoke f (λ f, CResponse f p)
      else call_request now len p
  end.

Definition on_read_body (now len : Z) (size : nat) (res : io_result) : M unit :=
  match res with
  | IoOk data =>
      modify (λ s, s <| streambuf_ := streambuf_ s ++ data |>);;
      parse_pdu now len (size + MAX_HEADER);;
      reset_inactivity_timer now;;
      read_header
  | IoErr _ => close
  end.

Definition start (now : Z) : M unit := reset_inactivity_timer now;; read_header.

(** [SmppClient::bind_transceiver]. *)
Definition bind_transceiver (now len : Z) (sys_id pwd : bytes) : M unit :=
  send_pdu now (BindTransceiver len 1 sys_id pwd) 30.

Inductive m_api :=
| ASendPdu (pdu : SmppPdu) (timeout : Z)
| ASendBatch (pdus : list SmppPdu)
| ABind (len : Z) (sys_id pwd : bytes)
| AClose.

Definition smpp_api (now : Z) (a : m_api) : M unit :=
  match a with
  | ASendPdu p t => send_pdu now p t
  | ASendBatch ps => send_batch ps
  | ABind len i p => bind_transceiver now len i p
  | AClose => close
  end.

Definition smpp_kind (o : m_op) : io_kind :=
  match o with
  | MReadHeader => KRead MAX_HEADER
  | MReadBody n => KRead n
  | MWrite bs => KWrite bs
  end.

(** [unset] is the indeterminate [command_length] of the PDUs the server
    creates. *)
Definition smpp_io (unset now : Z) (o : m_op) (res : io_result) : M unit :=
  match o with
  | MReadHeader => on_read_header res
  | MReadBody n => on_read_body now unset n res
  | MWrite _ => on_write res
  end.

Definition smpp_timer (now : Z) (t : m_timer) (aborted : bool) : M unit :=
  match t with
  | TInactivity => on_inactivity_timer aborted
  | TPdu seq => on_pdu_timer seq aborted
  end.

Definition smpp_handlers (unset : Z) :
    handlers smpp_session m_op Empty_set m_timer m_call m_api :=
  Handlers smpp_kind (smpp_io unset) (λ _ p, match p with end) smpp_timer smpp_api.

End Session.
