(* ===== verification/SmppProps.v ===== *)
(** * SmppProps: the SMPP codec and session

    - a PDU whose [command_length] is right survives encoding and decoding
      between hosts of any byte order; one sent by [send_batch] from a
      little-endian host does not get past the receiver's length check;
    - a session turns a stream of PDUs into its callbacks, and whatever the peer
      sends, [deserialize] is never asked for an invalid range;
    - the server answers a bind under a sequence number of its own. *)

From S2P Require Import Prelude Bytes Asio TurboFrame Smpp.

(** ** Encoding *)

Definition pdu_ok (p : SmppPdu) : Prop :=
  is_u32 (command_id p) ∧ is_u32 (command_status p) ∧ is_u32 (sequence_number p) ∧
  wf_bytes (body p) ∧ command_length p = 16 + blen (body p) ∧ command_length p <= MAX_PDU_SIZE.

#[export] Instance pdu_ok_dec p : Decision (pdu_ok p).
Proof. unfold pdu_ok. apply _. Defined.

(** The encoding is big-endian on every host. *)
Lemma to_buffers_be `{Host} p :
  to_buffers p = be_bytes 4 (command_length p) ++ be_bytes 4 (command_id p) ++
    be_bytes 4 (command_status p) ++ be_bytes 4 (sequence_number p) ++ body p.
Proof. unfold to_buffers, native_to_big. by rewrite !store32_htonl. Qed.

Lemma to_buffers_length `{Host} p : length (to_buffers p) = (16 + length (body p))%nat.
Proof. rewrite to_buffers_be, !length_app, !be_bytes_length. lia. Qed.

Lemma word_at_app `{Host} off pre v post :
  length pre = off → is_u32 v → word_at off (pre ++ be_bytes 4 v ++ post) = v.
Proof.
  intros <- Hv. unfold word_at, big_to_native. rewrite drop_app_length.
  rewrite take_app_le, take_ge by (rewrite be_bytes_length; lia).
  rewrite ntohl_load32 by (apply be_bytes_wf || apply be_bytes_length).
  by apply be_val_bytes32.
Qed.

Lemma pdu_words (hw hr : Host) p rest :
  pdu_ok p →
  let d := @to_buffers hw p ++ rest in
  @word_at hr 0 d = command_length p ∧ @word_at hr 4 d = command_id p ∧
  @word_at hr 8 d = command_status p ∧ @word_at hr 12 d = sequence_number p.
Proof.
  intros (Hi & Hs & Hq & _ & Hl & Hm) d. unfold d. rewrite to_buffers_be.
  assert (Hlen : is_u32 (command_length p))
    by (unfold is_u32, MAX_PDU_SIZE, blen in *; lia).
  set (a := be_bytes 4 (command_length p)). set (b := be_bytes 4 (command_id p)).
  set (c := be_bytes 4 (command_status p)). rewrite <-!app_assoc.
  assert (La : length a = 4%nat) by apply be_bytes_length.
  assert (Lb : length b = 4%nat) by apply be_bytes_length.
  assert (Lc : length c = 4%nat) by apply be_bytes_length.
  split_and!.
  - by apply (word_at_app 0 []).
  - by apply word_at_app.
  - rewrite (app_assoc a b). apply word_at_app; [rewrite length_app; lia|done].
  - rewrite (app_assoc a b), (app_assoc (a ++ b) c).
    apply word_at_app; [rewrite !length_app; lia|done].
Qed.

Lemma deserialize_ok (hw hr : Host) p rest :
  pdu_ok p →
  @deserialize hr (@to_buffers hw p ++ rest) (length (@to_buffers hw p)) = Pdu p.
Proof.
  intros Hp. destruct (pdu_words hw hr p rest Hp) as (W0 & W4 & W8 & W12).
  destruct Hp as (_ & _ & _ & _ & Hl & Hm). unfold deserialize.
  rewrite W0, W4, W8, W12, to_buffers_length. cbn [MAX_HEADER].
  replace (16 + length (body p) <? 16)%nat with false by (symmetry; apply Nat.ltb_ge; lia).
  unfold blen in Hl.
  rewrite (proj2 (Z.ltb_ge _ (command_length p))) by lia.
  rewrite (proj2 (Z.ltb_ge MAX_PDU_SIZE _)) by lia. simpl.
  rewrite (proj2 (Z.ltb_ge (command_length p) 16)) by lia.
  assert (Hb : take (Z.to_nat (command_length p) - 16) (drop 16 (@to_buffers hw p ++ rest)) = body p).
  { rewrite to_buffers_be, <-!app_assoc.
    assert (Hd : ∀ a b c d e : bytes, length a = 4%nat → length b = 4%nat → length c = 4%nat →
      length d = 4%nat → drop 16 (a ++ b ++ c ++ d ++ e) = e).
    { intros a b c d e Ha Hb Hc Hd. rewrite !app_assoc, drop_app_ge by (rewrite !length_app; lia).
      rewrite !length_app, Ha, Hb, Hc, Hd. done. }
    rewrite Hd by apply be_bytes_length.
    replace (Z.to_nat (command_length p) - 16)%nat with (length (body p)) by lia.
    by rewrite take_app_length. }
  rewrite Hb. by destruct p.
Qed.

(** A PDU with the right [command_length], at most 8192 bytes long, encoded by
    [to_buffers] on a host of either byte order, is what [deserialize] finds on
    a host of either byte order, whatever follows it in the buffer. *)
Theorem smpp_pdu_roundtrip (hw hr : Host) p rest :
  pdu_ok p →
  @deserialize hr (@to_buffers hw p ++ rest) (length (@to_buffers hw p)) = Pdu p.
Proof. apply deserialize_ok. Qed.

(** [send_batch] on a little-endian host sends the header in host byte order:
    any PDU of a valid length is then announced as longer than the receiver
    accepts, and the receiver closes. *)
Lemma bswap_rejected len : 16 <= len <= MAX_PDU_SIZE → MAX_PDU_SIZE < bswap32 len.
Proof.
  intros Hl. unfold MAX_PDU_SIZE, bswap32, be_val in *.
  change (le_bytes 4 len) with
    [len mod 256; len / 256 mod 256; len / 256 / 256 mod 256; len / 256 / 256 / 256 mod 256].
  change (rev [?a; ?b; ?c; ?d]) with [d; c; b; a].
  assert (Hd : len / 256 / 256 = 0) by (rewrite Z.div_div by lia; apply Z.div_small; lia).
  pose proof (Z.div_mod len 256 ltac:(lia)). pose proof (Z.mod_pos_bound len 256 ltac:(lia)).
  assert (len / 256 <= 32) by (apply Z.div_le_upper_bound; lia).
  rewrite Hd, !(Z.mod_small (len / 256)) by (split; [apply Z.div_pos|]; lia).
  rewrite ?Z.div_0_l, ?Z.mod_0_l by lia. unfold le_val. lia.
Qed.

(** ** The session *)

Section Session.
Context {ho : Host} (unset : Z).
Abbreviation MH := (smpp_handlers unset).
Implicit Types (s : smpp_session) (w : world smpp_session m_op Empty_set m_timer m_call).

(** What a PDU means to a session whose requests go to the user. *)
Definition user_request (cb : option request_cb) (p : SmppPdu) : list m_call :=
  match cb with Some (UserRequest f) => [CRequest f p] | _ => [] end.

Definition pdu_calls s (pend : gset Z) (p : SmppPdu) : list m_call :=
  if bool_decide (sequence_number p ∈ pend)
  then match on_response s with Some f => [CResponse f p] | None => [] end
  else user_request (on_request s) p.

Fixpoint pdus_calls s (pend : gset Z) (ps : list SmppPdu) : list m_call :=
  match ps with
  | [] => []
  | p :: ps' => pdu_calls s pend p ++ pdus_calls s (pend ∖ {[sequence_number p]}) ps'
  end.

Lemma pdus_calls_ext s s' pend ps :
  on_request s' = on_request s → on_response s' = on_response s →
  pdus_calls s' pend ps = pdus_calls s pend ps.
Proof.
  intros Hq Hr. revert pend. induction ps as [|p ps IH]; intros pend; [done|]. simpl.
  rewrite IH. unfold pdu_calls. by rewrite Hq, Hr.
Qed.

Lemma close_run s :
  close s = (s <| socket_open := false |>,
    EClose :: match on_close s with Some f => [ECall (CClose f)] | None => [] end, ()).
Proof. destruct s as [o b pe q rq rs tm cl]. unfold close, invoke. unact. by destruct cl. Qed.

Lemma handle_header_run s data :
  let n := word_at 0 data in
  on_read_header (IoOk data) (s <| streambuf_ := [] |>) =
    if (n <? 16) || (MAX_PDU_SIZE <? n)
    then close (s <| streambuf_ := data |>)
    else (s <| streambuf_ := data |>, [EStart (MReadBody (Z.to_nat n - MAX_HEADER))], ()).
Proof.
  intros n. unfold on_read_header, handle_header, read_body, emit.
  cbv [mbind act_bind gets modify]. cbn [streambuf_ field_upd app]. fold n.
  change (Z.of_nat MAX_HEADER) with 16.
  destruct ((n <? 16) || (MAX_PDU_SIZE <? n)); [|done].
  by destruct (close _) as [[? ?] []].
Qed.

(** What [parse_pdu] does with a PDU. *)
Definition deliver (now : Z) (p : SmppPdu) : M unit :=
  pend ← gets pending_timers_;
  if bool_decide (sequence_number p ∈ pend) then
    emit (ECancel (TPdu (sequence_number p)));;
    modify (λ s, s <| pending_timers_ := pending_timers_ s ∖ {[sequence_number p]} |>);;
    f ← gets on_response;
    invoke f (λ f, CResponse f p)
  else call_request now unset p.

(** A complete PDU in the buffer. *)
Lemma parse_pdu_run (hw : endian) now p s :
  pdu_ok p →
  parse_pdu now unset (length (@to_buffers hw p)) (s <| streambuf_ := @to_buffers hw p |>) =
  deliver now p (s <| streambuf_ := [] |>).
Proof.
  intros Hp. pose proof (deserialize_ok hw ho p [] Hp) as Hd. rewrite app_nil_r in Hd.
  assert (Hpair : ∀ r : smpp_session * list m_eff * unit,
    (let '(s2, o2, b) := let '(s2, o2, b) := r in (s2, [] ++ o2, b) in (s2, [] ++ o2, b)) = r)
    by by intros [[? ?] ?].
  unfold parse_pdu. destruct s as [o b pend q rq rs tm cl]. cbv [mbind act_bind modify gets].
  cbn [streambuf_ field_upd]. rewrite Hd, drop_all. exact (Hpair (deliver now p _)).
Qed.

Lemma smpp_body_run (hw : endian) now p s hd bd :
  pdu_ok p → @to_buffers hw p = hd ++ bd → length hd = MAX_HEADER →
  on_read_body now unset (length bd) (IoOk bd) (s <| streambuf_ := hd |>) =
  (deliver now p;; reset_inactivity_timer now;; read_header) (s <| streambuf_ := [] |>).
Proof.
  intros Hp Hsplit Lh. pose proof (parse_pdu_run hw now p s Hp) as Hr.
  assert (Hn : (length bd + MAX_HEADER)%nat = length (@to_buffers hw p))
    by (rewrite Hsplit, length_app; lia).
  cbn [on_read_body]. cbv [mbind act_bind modify]. cbn [streambuf_ field_upd].
  rewrite Hn, <-Hsplit. simpl in Hr |- *. rewrite Hr.
  by destruct (deliver now p _) as [[s1 e1] []].
Qed.

(** One PDU against a world whose only read is a header read: it is delivered,
    and the next header is awaited. *)
Lemma smpp_feed_deliver (hw : endian) p rest w l1 l2 fuel :
  pdu_ok p → w_ops w = l1 ++ MReadHeader :: l2 →
  Forall (λ o, is_read MH o = false) (l1 ++ l2) → streambuf_ (w_st w) = [] →
  feed MH (S (S fuel)) (@to_buffers hw p ++ rest) w =
  feed MH fuel rest (run (deliver (w_now w) p;; reset_inactivity_timer (w_now w);; read_header)
    (w <| w_ops := l1 ++ l2 |>)).
Proof.
  intros Hp Hops Hnr Hbuf.
  pose proof (pdu_words hw ho p [] Hp) as (W0 & _). rewrite app_nil_r in W0.
  pose proof Hp as (_ & _ & _ & _ & Hl & Hm). unfold blen in Hl.
  set (hd := take 16 (@to_buffers hw p)). set (bd := drop 16 (@to_buffers hw p)).
  assert (Lh : length hd = 16%nat) by (unfold hd; rewrite length_take, to_buffers_length; lia).
  assert (Lb : length bd = length (body p))
    by (unfold bd; rewrite length_drop, to_buffers_length; lia).
  assert (Hsplit : @to_buffers hw p = hd ++ bd) by (symmetry; apply take_drop).
  assert (W : word_at 0 hd = command_length p).
  { rewrite <-W0. unfold word_at, hd. do 2 f_equal. rewrite !drop_0. by rewrite take_take. }
  rewrite Hsplit, <-app_assoc.
  rewrite (feed_read MH l1 MReadHeader 16 l2 hd _ w _ Hops Hnr eq_refl Lh).
  assert (E1 : complete MH MReadHeader (IoOk hd) (l1 ++ l2) w =
    w <| w_ops := (l1 ++ l2) ++ [MReadBody (length bd)] |> <| w_st := (w_st w) <| streambuf_ := hd |> |>).
  { unfold complete, run. cbn [h_io MH smpp_io w_st field_upd h_kind smpp_kind written].
    replace (on_read_header (IoOk hd) (w_st w))
      with (on_read_header (IoOk hd) ((w_st w) <| streambuf_ := [] |>))
      by (f_equal; destruct (w_st w); simpl in *; by subst).
    rewrite handle_header_run, W.
    assert (Hguard : (command_length p <? 16) || (MAX_PDU_SIZE <? command_length p) = false)
      by (apply orb_false_intro; apply Z.ltb_ge; lia).
    rewrite Hguard. replace (Z.to_nat (command_length p) - MAX_HEADER)%nat with (length bd)
      by (unfold MAX_HEADER; lia).
    destruct w; simpl. by rewrite app_nil_r. }
  rewrite E1.
  match goal with |- feed _ _ _ ?w1 = _ =>
    rewrite (feed_read MH (l1 ++ l2) (MReadBody (length bd)) (length bd) [] bd rest w1 fuel eq_refl)
      by (rewrite ?app_nil_r; done) end.
  f_equal. unfold complete, run. cbn [h_io MH smpp_io w_st field_upd h_kind smpp_kind written w_now].
  match goal with |- context [on_read_body ?n ?u ?k ?r ?st] =>
    change (on_read_body n u k r st)
      with (on_read_body (w_now w) u k r ((w_st w) <| streambuf_ := hd |>)) end.
  rewrite (smpp_body_run hw (w_now w) p (w_st w) hd bd Hp Hsplit Lh).
  replace ((w_st w) <| streambuf_ := [] |>) with (w_st w)
    by (destruct (w_st w); simpl in *; by subst).
  destruct ((deliver (w_now w) p;; reset_inactivity_timer (w_now w);; read_header) (w_st w))
    as [[s1 e1] []]. f_equal. destruct w; simpl. by rewrite !app_nil_r.
Qed.

(** A session without the server's lambda. *)
Lemma smpp_feed_pdu (hw : endian) p rest w l1 l2 fuel :
  pdu_ok p → w_ops w = l1 ++ MReadHeader :: l2 →
  Forall (λ o, is_read MH o = false) (l1 ++ l2) →
  streambuf_ (w_st w) = [] → on_request (w_st w) ≠ Some ServerRequest →
  ∃ w', feed MH (S (S fuel)) (@to_buffers hw p ++ rest) w = feed MH fuel rest w' ∧
    w_ops w' = (l1 ++ l2) ++ [MReadHeader] ∧
    w_calls w' = w_calls w ++ pdu_calls (w_st w) (pending_timers_ (w_st w)) p ∧
    w_st w' = (w_st w) <| pending_timers_ :=
                pending_timers_ (w_st w) ∖ {[sequence_number p]} |>.
Proof.
  intros Hp Hops Hnr Hbuf Hrq. rewrite (smpp_feed_deliver hw p rest w l1 l2) by done.
  eexists. split; [reflexivity|].
  destruct (run_fields (deliver (w_now w) p;; reset_inactivity_timer (w_now w);; read_header)
    (w <| w_ops := l1 ++ l2 |>)) as (-> & -> & _ & -> & _).
  simpl. unfold deliver, pdu_calls, call_request, user_request, reset_inactivity_timer, read_header.
  destruct (w_st w) as [o b pend q rq rs tm cl]. unact.
  destruct (decide (sequence_number p ∈ pend)) as [Hin|Hin].
  - rewrite !bool_decide_true by done. unfold invoke. unact. by destruct rs.
  - rewrite !bool_decide_false by done. simpl in Hrq.
    replace (pend ∖ {[sequence_number p]}) with pend by set_solver. by destruct rq as [[f|]|].
Qed.

(** A session whose requests go to the user, fed encoded PDUs of any host and
    then less than a header: a PDU whose sequence number is awaited is a
    response and settles it, any other is a request; the callbacks run in the
    order of arrival, and the session waits for the next header. *)
Theorem smpp_session_receives_pdus (hw : endian) ps rest w l1 l2 fuel :
  Forall pdu_ok ps → w_ops w = l1 ++ MReadHeader :: l2 →
  Forall (λ o, is_read MH o = false) (l1 ++ l2) →
  streambuf_ (w_st w) = [] → on_request (w_st w) ≠ Some ServerRequest →
  (length rest < MAX_HEADER)%nat → (2 * length ps <= fuel)%nat →
  ∃ w', feed MH fuel (mjoin (@to_buffers hw <$> ps) ++ rest) w = (w', rest) ∧
    w_calls w' = w_calls w ++ pdus_calls (w_st w) (pending_timers_ (w_st w)) ps ∧
    reads MH (w_ops w') = [MReadHeader] ∧ streambuf_ (w_st w') = [].
Proof.
  intros Hps. revert w l1 l2 fuel.
  induction Hps as [|p ps Hp _ IH]; intros w l1 l2 fuel Hops Hnr Hbuf Hrq Hrest Hf.
  - exists w. simpl. rewrite (feed_starved MH l1 _ _ l2 rest w fuel Hops Hnr eq_refl) by done.
    rewrite Hops, (sole_read MH), !app_nil_r; done.
  - simpl in Hf. destruct fuel as [|[|fuel]]; [lia..|].
    rewrite fmap_cons. change (mjoin (@to_buffers hw p :: ?l)) with (@to_buffers hw p ++ mjoin l).
    rewrite <-app_assoc.
    destruct (smpp_feed_pdu hw p (mjoin (@to_buffers hw <$> ps) ++ rest) w l1 l2 fuel
                Hp Hops Hnr Hbuf Hrq) as (w1 & -> & Ho1 & Hc1 & Hs1).
    destruct (IH w1 (l1 ++ l2) [] fuel) as (w2 & -> & Hc2 & Hr2 & Hb2);
      rewrite ?Hs1, ?app_nil_r; try done; [lia|].
    exists w2. split; [done|]. split; [|done]. rewrite Hc2, Hc1, Hs1, <-app_assoc. simpl.
    do 2 f_equal. by apply pdus_calls_ext.
Qed.

(** ** What a session's callbacks are given, and its buffer *)

(** A call of a session that is as it should be: no undefined behaviour, and a
    PDU whose members have their types and agree with each other. *)
Definition call_ok (c : m_call) : Prop :=
  match c with
  | CRequest _ p | CResponse _ p => pdu_ok p
  | CUndefined => False
  | _ => True
  end.

(** The read the session waits for agrees with what is in the buffer. *)
Definition buffer_ok s (ops : list m_op) : Prop :=
  reads MH ops = [] ∨
  (reads MH ops = [MReadHeader] ∧ streambuf_ s = []) ∨
  (∃ n, reads MH ops = [MReadBody n] ∧ length (streambuf_ s) = MAX_HEADER ∧
     wf_bytes (streambuf_ s) ∧
     word_at 0 (streambuf_ s) = Z.of_nat (n + MAX_HEADER) ∧
     Z.of_nat (n + MAX_HEADER) <= MAX_PDU_SIZE).

(** Functions that leave the buffer alone, start no read and make only calls
    that are in order. *)
Definition same_buffer s s' : Prop := streambuf_ s' = streambuf_ s.

#[local] Instance same_buffer_preorder : PreOrder same_buffer.
Proof. split; [done|]. intros s1 s2 s3. unfold same_buffer. congruence. Qed.

Definition eff_ok (e : m_eff) : Prop :=
  match e with EStart o => is_read MH o = false | ECall c => call_ok c | _ => True end.

Abbreviation buffer_quiet := (keeps same_buffer eff_ok _).

Lemma eff_ok_all es :
  Forall eff_ok es → reads MH (started es) = [] ∧ Forall call_ok (called es).
Proof.
  intros Hes. split.
  - apply reads_nil, Forall_forall. intros o (e & He & Ho)%list_elem_of_omap.
    rewrite Forall_forall in Hes. specialize (Hes e He). by destruct e; simplify_eq/=.
  - apply Forall_forall. intros c (e & He & Hc)%list_elem_of_omap.
    rewrite Forall_forall in Hes. specialize (Hes e He). by destruct e; simplify_eq/=.
Qed.

Lemma buffer_quiet_invoke f c : (∀ n, call_ok (c n)) → buffer_quiet (invoke f c).
Proof.
  intros Hc. destruct f; [apply keeps_emit; [apply _|apply Hc]|apply keeps_skip, _].
Qed.

Lemma buffer_quiet_close : buffer_quiet close.
Proof. unfold close. keeps_tac. by apply buffer_quiet_invoke. Qed.

Lemma buffer_quiet_send now p t : buffer_quiet (send_pdu now p t).
Proof. unfold send_pdu, next_seq. keeps_tac. Qed.

Lemma buffer_quiet_batch ps : buffer_quiet (send_batch ps).
Proof.
  unfold send_batch. apply compose; [|intros bufs; keeps_tac].
  induction ps as [|p ps IH]; simpl; [keeps_tac|].
  apply compose; [unfold next_seq; keeps_tac|]. intros n.
  apply compose; [done|]. intros rest. keeps_tac.
Qed.

Lemma buffer_quiet_request now p : pdu_ok p → buffer_quiet (call_request now unset p).
Proof.
  intros Hp. unfold call_request, server_request. apply compose; [keeps_tac|].
  intros [[f|]|]; [keeps_tac| |keeps_tac].
  destruct (_ =? _); [apply buffer_quiet_send|keeps_tac].
Qed.

Lemma buffer_quiet_pdu now p : pdu_ok p → buffer_quiet (deliver now p).
Proof.
  intros Hp. unfold deliver. apply compose; [keeps_tac|]. intros pend.
  case_bool_decide; [|by apply buffer_quiet_request].
  keeps_tac. by apply buffer_quiet_invoke.
Qed.

Lemma buffer_quiet_other now o res : is_read MH o = false → buffer_quiet (smpp_io unset now o res).
Proof.
  destruct o; try discriminate. intros _. destruct res; simpl; [keeps_tac|].
  apply buffer_quiet_close.
Qed.

Lemma buffer_quiet_timer now t ab : buffer_quiet (smpp_timer now t ab).
Proof.
  destruct t; simpl; unfold on_inactivity_timer, on_pdu_timer; destruct ab;
    [keeps_tac|apply buffer_quiet_close|keeps_tac|keeps_tac; by apply buffer_quiet_invoke].
Qed.

Lemma buffer_quiet_api now a : buffer_quiet (smpp_api now a).
Proof.
  destruct a; simpl; [apply buffer_quiet_send|apply buffer_quiet_batch|
    apply buffer_quiet_send|apply buffer_quiet_close].
Qed.

Lemma word_at_0_app a b : (4 <= length a)%nat → word_at 0 (a ++ b) = word_at 0 a.
Proof. intros Ha. unfold word_at. by rewrite !drop_0, take_app_le. Qed.

Lemma word_at_u32 off data :
  wf_bytes data → (off + 4 <= length data)%nat → is_u32 (word_at off data).
Proof.
  intros Hw Hl. unfold word_at, big_to_native.
  assert (Hw' : wf_bytes (take 4 (drop off data))) by by apply Forall_take, Forall_drop.
  assert (Hl' : length (take 4 (drop off data)) = 4%nat) by len.
  rewrite ntohl_load32 by done. by apply be_val_u32.
Qed.

(** A buffer that holds what its length field announces is a PDU. *)
Lemma deserialize_typed data size :
  wf_bytes data → length data = size → (MAX_HEADER <= size)%nat →
  word_at 0 data = Z.of_nat size → Z.of_nat size <= MAX_PDU_SIZE →
  ∃ p, deserialize data size = Pdu p ∧ pdu_ok p.
Proof.
  intros Hw Hl Hs Hn Hm. unfold deserialize, MAX_HEADER in *. rewrite Hn.
  rewrite (proj2 (Nat.ltb_ge _ _)), (proj2 (Z.ltb_ge _ (Z.of_nat size))) by lia.
  rewrite (proj2 (Z.ltb_ge MAX_PDU_SIZE _)), (proj2 (Z.ltb_ge (Z.of_nat size) 16)) by lia.
  eexists. split; [done|]. unfold pdu_ok. cbn.
  split_and!; try (apply word_at_u32; [done|lia]); try done.
  - by apply Forall_take, Forall_drop.
  - unfold blen. len.
Qed.

(** The two reads. *)
Lemma buffer_header s data :
  streambuf_ s = [] → length data = MAX_HEADER → wf_bytes data →
  let r := on_read_header (IoOk data) s in
  buffer_ok (state_of r) (started (effs_of r)) ∧ Forall call_ok (called (effs_of r)).
Proof.
  intros Hb Hl Hw. assert (Hset : s = s <| streambuf_ := [] |>)
    by (destruct s; simpl in *; by subst).
  rewrite Hset, handle_header_run. destruct (_ || _) eqn:Hg.
  - destruct (buffer_quiet_close (s <| streambuf_ := data |>)) as (_ & He).
    apply eff_ok_all in He as [Hr Hu]. split; [by left|done].
  - apply orb_false_elim in Hg as [H1%Z.ltb_ge H2%Z.ltb_ge]. split; [|constructor].
    right. right. exists (Z.to_nat (word_at 0 data) - MAX_HEADER)%nat. simpl.
    unfold MAX_HEADER in *. split_and!; try done; lia.
Qed.

Lemma buffer_body now n s data :
  length (streambuf_ s) = MAX_HEADER → wf_bytes (streambuf_ s) →
  length data = n → wf_bytes data →
  word_at 0 (streambuf_ s) = Z.of_nat (n + MAX_HEADER) →
  Z.of_nat (n + MAX_HEADER) <= MAX_PDU_SIZE →
  let r := on_read_body now unset n (IoOk data) s in
  buffer_ok (state_of r) (started (effs_of r)) ∧ Forall call_ok (called (effs_of r)).
Proof.
  intros Hb Hwb Hl Hwd Hw Hm. unfold on_read_body. cbv [mbind act_bind modify].
  set (s0 := s <| streambuf_ := streambuf_ s ++ data |>).
  assert (Hp : let r := parse_pdu now unset (n + MAX_HEADER) s0 in
    streambuf_ (state_of r) = [] ∧ Forall eff_ok (effs_of r)).
  { destruct (deserialize_typed (streambuf_ s0) (n + MAX_HEADER)) as (p & Hd & Hp).
    - by apply wf_bytes_app.
    - unfold s0. cbn [streambuf_ field_upd]. rewrite length_app. lia.
    - lia.
    - unfold s0. cbn [streambuf_ field_upd]. rewrite word_at_0_app; [done|].
      rewrite Hb. unfold MAX_HEADER. lia.
    - done.
    - unfold parse_pdu. rewrite act_gets, act_modify, Hd.
      set (s1 := s0 <| streambuf_ := drop (n + MAX_HEADER) (streambuf_ s0) |>).
      assert (Hs1 : streambuf_ s1 = []).
      { unfold s1, s0. cbn [streambuf_ field_upd]. apply drop_ge. rewrite length_app. lia. }
      rewrite <-Hs1. by apply buffer_quiet_pdu. }
  destruct (parse_pdu now unset (n + MAX_HEADER) s0) as [[s1 e1] []]. simpl in *.
  destruct Hp as [Hp1 [Hp2 Hp3]%eff_ok_all].
  unfold buffer_ok. rewrite started_app, called_app, reads_app, Hp2. split; [right; by left|].
  apply Forall_app. split; [done|constructor].
Qed.

Lemma buffer_ok_read s l1 o l2 :
  buffer_ok s (l1 ++ o :: l2) → is_read MH o = true →
  reads MH (l1 ++ l2) = [] ∧ buffer_ok s [o].
Proof.
  intros Hb Ho. unfold buffer_ok in *. rewrite reads_app in *.
  assert (E : reads MH (o :: l2) = o :: reads MH l2)
    by (unfold reads; by rewrite filter_cons_True).
  assert (E' : reads MH [o] = [o]) by (unfold reads; by rewrite filter_cons_True).
  rewrite E in Hb. rewrite E'.
  assert (Hl : ∀ x, reads MH l1 ++ o :: reads MH l2 = [x] →
    reads MH l1 ++ reads MH l2 = [] ∧ o = x).
  { intros x Hx. destruct (reads MH l1) as [|y [|]]; [|discriminate..].
    by injection Hx as -> ->. }
  destruct Hb as [Hb|[[Hb ?]|(n & Hb & ?)]].
  - by destruct (reads MH l1).
  - destruct (Hl _ Hb) as [? ->]. split; [done|]. right. by left.
  - destruct (Hl _ Hb) as [? ->]. split; [done|]. right. right. by exists n.
Qed.

(** A completed read, in whichever way. *)
Lemma buffer_read now o res s :
  buffer_ok s [o] → is_read MH o = true → io_allowed (smpp_kind o) res →
  let r := smpp_io unset now o res s in
  buffer_ok (state_of r) (started (effs_of r)) ∧ Forall call_ok (called (effs_of r)).
Proof.
  intros Hb Ho Ha. destruct res as [data|ab].
  - destruct o as [|n|]; [..|done]; destruct Ha as [Hl Hw];
      destruct Hb as [Hb|[[Hb ?]|(m & Hb & ? & ? & ? & ?)]]; try done.
    + by apply buffer_header.
    + injection Hb as ->. by apply buffer_body.
  - destruct (buffer_quiet_close s) as (_ & [Hr Hu]%eff_ok_all).
    destruct o; [..|done]; (split; [by left|done]).
Qed.

(** Functions that are quiet keep the invariant. *)
Definition session_ok s (ops : list m_op) (cs : list m_call) : Prop :=
  Forall call_ok cs ∧ buffer_ok s ops.

Lemma session_ok_quiet {A} (a : M A) s ops cs :
  keeps same_buffer eff_ok A a → session_ok s ops cs →
  session_ok (state_of (a s)) (ops ++ started (effs_of (a s))) (cs ++ called (effs_of (a s))).
Proof.
  intros Ha [Hu Hb]. destruct (Ha s) as (E1 & [E2 E3]%eff_ok_all).
  split; [by apply Forall_app|].
  unfold buffer_ok in *. by rewrite reads_app, E2, app_nil_r, E1.
Qed.

(** The invariant of all runs. *)
Lemma session_ok_reachable rq rs tm cl now w :
  reachable MH (run (start now) (init_world (new_session rq rs tm cl) now)) w →
  session_ok (w_st w) (w_ops w) (w_calls w).
Proof.
  apply (invariant_reachable MH (λ w, session_ok (w_st w) (w_ops w) (w_calls w))).
  { split; [constructor|]. right. by left. }
  intros v v' Hv Hs.
  destruct Hs as [v p|v o l1 l2 r Ho Ha|v t d l1 l2|v t ab l1 l2|v n|v a]; [destruct p|..]; try done.
  - destruct (complete_fields MH o r (l1 ++ l2) v) as (-> & -> & _ & -> & _).
    destruct Hv as [Hu Hb]. rewrite Ho in Hb. destruct (is_read MH o) eqn:Er.
    + destruct (buffer_ok_read _ _ _ _ Hb Er) as [Hl Hr].
      destruct (buffer_read (w_now v) o r (w_st v) Hr Er Ha) as [H1 H2].
      split; [by apply Forall_app|]. unfold buffer_ok. by rewrite reads_app, Hl.
    + apply session_ok_quiet; [by apply buffer_quiet_other|]. split; [done|].
      unfold buffer_ok in *. rewrite reads_app in *. unfold reads at 2 4 6 in Hb.
      by rewrite filter_cons_False in Hb by congruence.
  - destruct (run_fields (h_timer MH (w_now v) t ab) (v <| w_fired := l1 ++ l2 |>))
      as (-> & -> & _ & -> & _). apply session_ok_quiet; [apply buffer_quiet_timer|done].
  - destruct (run_fields (h_api MH (w_now v) a) v) as (-> & -> & _ & -> & _).
    apply session_ok_quiet; [apply buffer_quiet_api|done].
Qed.

(** C28: Over every run of a session, whatever bytes the peer sends and whichever
    role the session plays: [deserialize] is never called with a length that
    makes it read an invalid range, and the buffer holds what the outstanding
    read assumes. *)
Theorem smpp_session_no_undefined_behaviour rq rs tm cl now w :
  reachable MH (run (start now) (init_world (new_session rq rs tm cl) now)) w →
  (CUndefined ∉ w_calls w) ∧ buffer_ok (w_st w) (w_ops w).
Proof.
  intros [Hc Hb]%session_ok_reachable. split; [|done].
  intros Hin. rewrite Forall_forall in Hc. exact (Hc _ Hin).
Qed.

(** C24: Over every run of a session, a PDU handed to the request or the response
    callback is well-typed whatever the peer sent: its members fit 32 bits, its
    body is bytes, and its [command_length] is its size and at most 8192. *)
Theorem smpp_callbacks_well_typed rq rs tm cl now w f p :
  reachable MH (run (start now) (init_world (new_session rq rs tm cl) now)) w →
  CRequest f p ∈ w_calls w ∨ CResponse f p ∈ w_calls w → pdu_ok p.
Proof.
  intros [Hc _]%session_ok_reachable Hin. rewrite Forall_forall in Hc.
  destruct Hin as [Hin|Hin]; exact (Hc _ Hin).
Qed.

(** ** Requests in flight are watched *)

(** Every sequence number in [pending_timers_] has its timer. *)
Definition requests_timed w : Prop :=
  ∀ q, q ∈ pending_timers_ (w_st w) → timer_coming (TPdu q) w.

Definition stays_timed {A} (a : M A) : Prop :=
  ∀ w, requests_timed w → requests_timed (run a w).

Lemma timed_bind {A B} (a : M A) (k : A → M B) :
  stays_timed a → (∀ x, stays_timed (k x)) → stays_timed (x ← a; k x).
Proof. intros Ha Hk w Hw. rewrite run_bind. by apply Hk, Ha. Qed.

(** Functions that change neither [pending_timers_] nor a PDU's timer. *)
Lemma timed_quiet {A} (a : M A) :
  (∀ s, pending_timers_ (state_of (a s)) = pending_timers_ s ∧
        Forall (λ e, ∀ q, e ≠ ECancel (TPdu q)) (effs_of (a s))) → stays_timed a.
Proof.
  intros Ha w Hw q. destruct (run_fields a w) as (-> & _). destruct (Ha (w_st w)) as [-> He].
  intros Hq. specialize (Hw q Hq). unfold run. destruct (a (w_st w)) as [[s es] x].
  simpl in He. rewrite do_effs_state. change (timer_coming (TPdu q) (do_effs es w)).
  clear Hq Ha. revert w Hw. induction He as [|e es He _ IH]; intros w Hw; [done|].
  simpl. apply IH. by apply timer_coming_eff.
Qed.

Ltac timed_tac :=
  repeat first
    [ apply timed_bind; [|intros ?]
    | by (apply timed_quiet; intros ?; split; [done|repeat constructor; congruence]) ].

Lemma timed_invoke f c : stays_timed (invoke f c).
Proof. destruct f; timed_tac. Qed.

Lemma timed_close : stays_timed close.
Proof. unfold close. timed_tac. apply timed_invoke. Qed.

(** Arming and registering a number, unless it is registered. *)
Lemma timed_register seq d pend w :
  requests_timed w → pend = pending_timers_ (w_st w) →
  requests_timed (run (whenb (bool_decide (seq ∉ pend)) (emit (EArm (TPdu seq) d));;
    modify (λ s, s <| pending_timers_ := pending_timers_ s ∪ {[seq]} |>)) w).
Proof.
  intros Hw -> q Hq. rewrite run_bind in *. unfold whenb in *.
  assert (Hq' : q ∈ pending_timers_ (w_st w) ∨ q = seq).
  { case_bool_decide; simpl in Hq; set_solver. }
  case_bool_decide as Hs; cycle 1.
  { assert (Hin : seq ∈ pending_timers_ (w_st w)) by (by destruct (decide (seq ∈ pending_timers_ (w_st w)))).
    destruct Hq' as [Hq'| ->]; [exact (Hw q Hq')|exact (Hw seq Hin)]. }
  change (timer_coming (TPdu q) (do_eff (EArm (TPdu seq) d) w)).
  destruct (decide (q = seq)) as [->|Hne].
  - left. simpl. rewrite fmap_app. apply elem_of_app. right. by left.
  - apply timer_coming_eff; [done|]. apply Hw. by destruct Hq'.
Qed.

(** Cancelling and unregistering one. *)
Lemma timed_unregister seq w :
  (∀ q, q ∈ pending_timers_ (w_st w) → q ≠ seq → timer_coming (TPdu q) w) →
  requests_timed (run (emit (ECancel (TPdu seq));;
    modify (λ s, s <| pending_timers_ := pending_timers_ s ∖ {[seq]} |>)) w).
Proof.
  intros Hw q Hq. simpl in Hq. apply elem_of_difference in Hq as [Hq Hne].
  assert (Hne' : q ≠ seq) by set_solver.
  change (timer_coming (TPdu q) (do_eff (ECancel (TPdu seq)) w)).
  apply timer_coming_eff; [congruence|]. by apply Hw.
Qed.

Lemma timed_send now p t : stays_timed (send_pdu now p t).
Proof.
  unfold send_pdu. apply timed_bind; [unfold next_seq; timed_tac|]. intros seq w Hw.
  rewrite run_bind. replace (run (gets pending_timers_) w) with w by (by destruct w).
  cbn [val_of gets snd].
  pose proof (timed_register seq (now + seconds t) _ w Hw eq_refl) as Hr.
  rewrite run_bind in Hr. rewrite !run_bind. apply (timed_quiet (emit (EStart _))); [|exact Hr].
  intros ?. split; [done|]. by repeat constructor.
Qed.

Lemma timed_batch ps : stays_timed (send_batch ps).
Proof.
  unfold send_batch. apply timed_bind; [|intros bufs; timed_tac].
  induction ps as [|p ps IH]; simpl; [timed_tac|]. unfold next_seq. timed_tac. apply IH.
Qed.

Lemma timed_parse now total : stays_timed (parse_pdu now unset total).
Proof.
  unfold parse_pdu. apply timed_bind; [timed_tac|]. intros data.
  apply timed_bind; [timed_tac|]. intros _. destruct (deserialize _ _) as [|p|]; [timed_tac| |timed_tac].
  apply timed_bind; [timed_tac|]. intros pend. case_bool_decide.
  - intros w Hw. rewrite !run_bind.
    pose proof (timed_unregister (sequence_number p) w (λ q Hq _, Hw q Hq)) as Hr.
    rewrite run_bind in Hr. by apply timed_invoke, timed_quiet.
  - unfold call_request. apply timed_bind; [timed_tac|]. intros [[f|]|]; [timed_tac| |timed_tac].
    unfold server_request. destruct (_ =? _); [apply timed_send|timed_tac].
Qed.

Lemma timed_io now o res : stays_timed (smpp_io unset now o res).
Proof.
  destruct o, res; try apply timed_close; simpl; [..|timed_tac].
  - apply timed_bind; [timed_tac|]. intros _. unfold handle_header.
    apply timed_bind; [timed_tac|]. intros bs. destruct (_ || _); [apply timed_close|timed_tac].
  - apply timed_bind; [timed_tac|]. intros _. apply timed_bind; [apply timed_parse|]. intros _.
    timed_tac.
Qed.

(** A wait's handler, run once the wait is no longer there. *)
Lemma timed_timer now t ab l1 l2 w :
  w_fired w = l1 ++ (t, ab) :: l2 → requests_timed w →
  requests_timed (run (smpp_timer now t ab) (w <| w_fired := l1 ++ l2 |>)).
Proof.
  intros Hf Hw.
  assert (Hrest : ∀ q, q ∈ pending_timers_ (w_st w) → (TPdu q, false) ≠ (t, ab) →
    timer_coming (TPdu q) (w <| w_fired := l1 ++ l2 |>)).
  { intros q Hq Hne. by eapply timer_coming_rest; [..|apply Hw]. }
  destruct t as [|seq], ab; simpl.
  1,2,3: assert (Hw' : requests_timed (w <| w_fired := l1 ++ l2 |>))
      by (intros q Hq; by apply Hrest).
  - exact Hw'.
  - by apply timed_close.
  - exact Hw'.
  - rewrite !run_bind. pose proof (timed_unregister seq (w <| w_fired := l1 ++ l2 |>)) as Hr.
    rewrite run_bind in Hr. apply timed_invoke, timed_quiet; [done|]. apply Hr.
    intros q Hq Hne. apply Hrest; [done|congruence].
Qed.

(** Over every run of a session: each request that was sent with a deadline and
    neither answered nor reported has its timer running, or expired with the
    report about to be made. None is forgotten. *)
Theorem smpp_requests_are_timed rq rs tm cl now w :
  reachable MH (run (start now) (init_world (new_session rq rs tm cl) now)) w →
  ∀ q, q ∈ pending_timers_ (w_st w) → timer_coming (TPdu q) w.
Proof.
  apply (invariant_reachable MH requests_timed); [intros q Hq; simpl in Hq; set_solver|].
  intros v v' Hv Hs.
  destruct Hs as [v p|v o l1 l2 r Ho Ha|v t d l1 l2 Hp Hd|v t ab l1 l2 Hf|v n Hn|v a]; [destruct p|..].
  - apply timed_io. exact Hv.
  - intros q Hq. eapply timer_coming_expire; [done|]. exact (Hv q Hq).
  - by apply timed_timer.
  - exact Hv.
  - destruct a; simpl; [apply timed_send|apply timed_batch|apply timed_send|apply timed_close]; done.
Qed.

(** ** Batches and the reply to a bind *)

(** The length field of the first PDU of a batch, as the receiver reads it. *)
Lemma raw_word p rest :
  is_u32 (command_length p) →
  word_at 0 (@raw_buffers LittleEndian p ++ rest) = bswap32 (command_length p).
Proof.
  intros Hl. unfold raw_buffers. rewrite <-app_assoc.
  change (@store32 LittleEndian (command_length p)) with (le_bytes 4 (command_length p)).
  unfold word_at, big_to_native. rewrite drop_0.
  rewrite take_app_le, take_ge by (rewrite le_bytes_length; lia).
  rewrite ntohl_load32 by (apply le_bytes_wf || apply le_bytes_length). done.
Qed.

(** A header whose length is out of range: the session closes and reads no
    more. *)
Lemma smpp_feed_bad_header hd rest w l1 l2 fuel :
  w_ops w = l1 ++ MReadHeader :: l2 → Forall (λ o, is_read MH o = false) (l1 ++ l2) →
  streambuf_ (w_st w) = [] → length hd = MAX_HEADER →
  ¬ 16 <= word_at 0 hd <= MAX_PDU_SIZE →
  let w' := (feed MH (S fuel) (hd ++ rest) w).1 in
  socket_open (w_st w') = false ∧ reads MH (w_ops w') = [] ∧
  w_calls w' = w_calls w ++ match on_close (w_st w) with Some f => [CClose f] | None => [] end ∧
  w_ops w' = l1 ++ l2.
Proof.
  intros Hops Hnr Hbuf Lh Hbad. cbv zeta.
  rewrite (feed_read MH l1 MReadHeader 16 l2 hd _ w fuel Hops Hnr eq_refl Lh).
  destruct (complete_fields MH MReadHeader (IoOk hd) (l1 ++ l2) w) as (Hs1 & Ho1 & _ & Hc1 & _).
  remember (complete MH _ _ _ w) as w1 eqn:E1. clear E1.
  assert (Hset : w_st w = (w_st w) <| streambuf_ := [] |>)
    by (destruct (w_st w); simpl in *; by subst).
  cbn [h_io MH smpp_io] in Hs1, Ho1, Hc1. rewrite Hset, handle_header_run in Hs1, Ho1, Hc1.
  assert (Hg : (word_at 0 hd <? 16) || (MAX_PDU_SIZE <? word_at 0 hd) = true) by lia.
  rewrite Hg, close_run in Hs1, Ho1, Hc1.
  assert (Ho : w_ops w1 = l1 ++ l2)
    by (rewrite Ho1; simpl; destruct (on_close (w_st w)); simpl; by rewrite app_nil_r).
  assert (Hstop : feed MH fuel rest w1 = (w1, rest)).
  { destruct fuel as [|fuel]; [done|]. cbn [feed]. rewrite Ho.
    destruct (pick_read MH (l1 ++ l2)) as [[[[l1' o] n] l2']|] eqn:Epr; [|done].
    apply pick_read_Some in Epr as [Epr Hk]. rewrite Epr, Forall_app, Forall_cons in Hnr.
    destruct Hnr as (_ & Hn & _). unfold is_read in Hn. by rewrite Hk in Hn. }
  rewrite Hstop. cbn [fst]. rewrite Ho, Hs1, Hc1. split; [done|].
  split; [by apply reads_nil|]. split; [|done]. simpl. by destruct (on_close (w_st w)).
Qed.

(** A batch sent by a little-endian host whose first PDU has a valid length is
    rejected by the receiver on its first header: it closes and reads no more,
    and no PDU of the batch is reported. *)
Theorem smpp_batch_rejected s ps p w l1 l2 fuel :
  pdu_ok p → w_ops w = l1 ++ MReadHeader :: l2 →
  Forall (λ o, is_read MH o = false) (l1 ++ l2) → streambuf_ (w_st w) = [] →
  let sent := val_of (@number_batch LittleEndian (p :: ps) s) in
  let w' := (feed MH (S fuel) sent w).1 in
  socket_open (w_st w') = false ∧ reads MH (w_ops w') = [] ∧
  w_calls w' = w_calls w ++
    match on_close (w_st w) with Some f => [CClose f] | None => [] end.
Proof.
  intros Hp Hops Hnr Hbuf. cbv zeta.
  set (p' := p <| sequence_number := seq_ s |>).
  set (rest := val_of (@number_batch LittleEndian ps (s <| seq_ := u32 (seq_ s + 1) |>))).
  assert (Hsent : val_of (@number_batch LittleEndian (p :: ps) s) = @raw_buffers LittleEndian p' ++ rest).
  { unfold rest. simpl. unfold next_seq. unact.
    by destruct (@number_batch _ ps _) as [[s2 e2] bs]. }
  rewrite Hsent. destruct Hp as (_ & _ & _ & _ & Hl & Hm).
  set (d := @raw_buffers LittleEndian p'). unfold blen in Hl.
  assert (Ld : (16 <= length d)%nat).
  { unfold d, raw_buffers. rewrite !length_app. change (length (@store32 LittleEndian _)) with 4%nat. lia. }
  assert (Hw : word_at 0 (take 16 d) = bswap32 (command_length p)).
  { change (command_length p) with (command_length p').
    rewrite <-(raw_word p' rest) by (unfold p', is_u32, MAX_PDU_SIZE in *; simpl; lia).
    fold d. rewrite word_at_0_app by lia. unfold word_at. by rewrite !drop_0, take_take. }
  rewrite <-(take_drop 16 d), <-app_assoc.
  destruct (smpp_feed_bad_header (take 16 d) (drop 16 d ++ rest) w l1 l2 fuel)
    as (? & ? & ? & _); try done.
  rewrite Hw. pose proof (bswap_rejected (command_length p)). lia.
Qed.

(** A bind received by a server's session: the reply is written with the
    sequence number the session hands out next, not with the one of the request,
    and announced with a length that was never set; the session then waits for
    an answer to its own reply. *)
Theorem smpp_bind_reply_numbered_by_server (hw : endian) now p s :
  pdu_ok p → command_id p = 9 → on_request s = Some ServerRequest →
  sequence_number p ∉ pending_timers_ s → streambuf_ s = @to_buffers hw p →
  let r := parse_pdu now unset (length (@to_buffers hw p)) s in
  started (effs_of r) =
    [MWrite (to_buffers (BindTransceiverResp unset (seq_ s) 0))] ∧
  called (effs_of r) = [] ∧
  pending_timers_ (state_of r) = pending_timers_ s ∪ {[seq_ s]}.
Proof.
  intros Hp Hid Hrq Hq Hb. pose proof (deserialize_ok hw ho p [] Hp) as Hd.
  rewrite app_nil_r in Hd. cbv zeta. unfold parse_pdu.
  rewrite act_gets, act_modify, Hb, Hd, act_gets, bool_decide_false by done.
  unfold call_request. rewrite act_gets. cbn [on_request field_upd]. rewrite Hrq.
  unfold server_request. rewrite Hid. cbn [Z.eqb Pos.eqb].
  destruct s as [o b pe q rq rs tm cl]. unfold send_pdu, next_seq. unact.
  by destruct (bool_decide _).
Qed.

End Session.

(** ** Concrete runs *)

Definition sample_request : SmppPdu := mkPdu 20 5 0 7 [1; 2; 3; 4].
Definition sample_answer : SmppPdu := mkPdu 16 2147483669 0 1 [].

(** A session that has an enquire_link in flight under the number 1. *)
Definition sample_session : smpp_session :=
  new_session (Some (UserRequest 1)) (Some 2%nat) (Some 3%nat) (Some 4%nat).

Definition sample_started : world smpp_session m_op Empty_set m_timer m_call :=
  @run _ _ _ _ _ _ _ (@start 0) (init_world sample_session 0).

Definition sample_waiting : world smpp_session m_op Empty_set m_timer m_call :=
  run (@send_pdu LittleEndian 0 (EnquireLink 16 0) 30) sample_started.

Lemma sample_waiting_reachable :
  reachable (@smpp_handlers LittleEndian 0) sample_started sample_waiting.
Proof.
  apply rtc_once. apply (step_api (@smpp_handlers LittleEndian 0) sample_started
    (ASendPdu (EnquireLink 16 0) 30)).
Qed.

Lemma smpp_pdu_roundtrip_witness :
  @deserialize LittleEndian (@to_buffers BigEndian sample_request ++ [9]) 20 = Pdu sample_request.
Proof. apply (smpp_pdu_roundtrip BigEndian LittleEndian sample_request [9]). by apply (bool_decide_unpack _); vm_compute. Defined.

Lemma smpp_session_receives_pdus_witness :
  ∃ w', feed (@smpp_handlers LittleEndian 0) 4
      (mjoin (@to_buffers BigEndian <$> [sample_request; sample_answer]) ++ [0]) sample_waiting
      = (w', [0]) ∧
    w_calls w' = [CRequest 1 sample_request; CResponse 2 sample_answer] ∧
    reads (@smpp_handlers LittleEndian 0) (w_ops w') = [MReadHeader] ∧ streambuf_ (w_st w') = [].
Proof.
  apply (smpp_session_receives_pdus (ho:=LittleEndian) 0 BigEndian [sample_request; sample_answer] [0]
    sample_waiting [] [MWrite (@to_buffers LittleEndian (EnquireLink 16 1))] 4); try done.
  - repeat constructor; by apply (bool_decide_unpack _); vm_compute.
  - by repeat constructor.
  - vm_compute. repeat constructor.
Defined.

Lemma smpp_session_no_undefined_behaviour_witness :
  (CUndefined ∉ w_calls sample_waiting) ∧
  buffer_ok (ho:=LittleEndian) 0 (w_st sample_waiting) (w_ops sample_waiting).
Proof.
  apply (smpp_session_no_undefined_behaviour (ho:=LittleEndian) 0 (Some (UserRequest 1)) (Some 2%nat)
    (Some 3%nat) (Some 4%nat) 0 sample_waiting). exact sample_waiting_reachable.
Defined.

Lemma smpp_requests_are_timed_witness :
  1 ∈ pending_timers_ (w_st sample_waiting) ∧ timer_coming (TPdu 1) sample_waiting.
Proof.
  assert (H1 : 1 ∈ pending_timers_ (w_st sample_waiting)) by by apply (bool_decide_unpack _); vm_compute.
  split; [exact H1|].
  exact (smpp_requests_are_timed (ho:=LittleEndian) 0 (Some (UserRequest 1)) (Some 2%nat)
    (Some 3%nat) (Some 4%nat) 0 sample_waiting sample_waiting_reachable 1 H1).
Defined.

Lemma smpp_batch_rejected_witness :
  let w' := (feed (@smpp_handlers LittleEndian 0) 9
    (val_of (@number_batch LittleEndian [sample_request; sample_answer] sample_session))
    sample_started).1 in
  socket_open (w_st w') = false ∧ reads (@smpp_handlers LittleEndian 0) (w_ops w') = [] ∧
  w_calls w' = [CClose 4].
Proof.
  apply (smpp_batch_rejected (ho:=LittleEndian) 0 sample_session [sample_answer] sample_request
    sample_started [] [] 8); try done; by apply (bool_decide_unpack _); vm_compute.
Defined.

(** An enquire_link and then a bind, numbered 1 and 2 by the client: the server
    answers the bind under the number 1. *)
Definition sample_bind : SmppPdu := BindTransceiver 31 2 (lit "sys") (lit "pwd!!").
Definition sample_server : smpp_session :=
  (new_session (Some ServerRequest) None None None)
    <| streambuf_ := @to_buffers LittleEndian sample_bind |>.

Lemma smpp_bind_reply_numbered_by_server_witness :
  let r := @parse_pdu LittleEndian 0 0 (length (@to_buffers LittleEndian sample_bind)) sample_server in
  started (effs_of r) =
    [MWrite (@to_buffers LittleEndian (BindTransceiverResp 0 (seq_ sample_server) 0))] ∧
  called (effs_of r) = [] ∧
  pending_timers_ (state_of r) = pending_timers_ sample_server ∪ {[seq_ sample_server]}.
Proof.
  apply (smpp_bind_reply_numbered_by_server (ho:=LittleEndian) 0 LittleEndian 0
    sample_bind sample_server).
  - by apply (bool_decide_unpack _); vm_compute.
  - reflexivity.
  - reflexivity.
  - by apply (bool_decide_unpack _); vm_compute.
  - reflexivity.
Defined.

(** A request received by the started session. *)
Definition sample_received : world smpp_session m_op Empty_set m_timer m_call :=
  (feed (@smpp_handlers LittleEndian 0) 2 (@to_buffers BigEndian sample_request) sample_started).1.

Lemma smpp_callbacks_well_typed_witness :
  w_calls sample_received = [CRequest 1 sample_request] ∧ pdu_ok sample_request.
Proof.
  assert (Hc : w_calls sample_received = [CRequest 1 sample_request]) by (vm_compute; reflexivity).
  split; [exact Hc|].
  apply (smpp_callbacks_well_typed (ho:=LittleEndian) 0 (Some (UserRequest 1)) (Some 2%nat)
    (Some 3%nat) (Some 4%nat) 0 sample_received 1 sample_request).
  - apply feed_reachable. apply (bool_decide_unpack _). vm_compute. exact I.
  - left. rewrite Hc. by left.
Defined.
