(* ===== verification/SmppNet.v ===== *)
(** * SmppNet: SmppServer, SmppClient and a bind between them

    The accept loop and the life of [SmppServer] of new_chatgpt/main.cpp over the
    sessions of Smpp.v, the session an [SmppClient] owns, and the exchange the
    two are made for. [SmppClient::connect] calls a member that [SmppSession]
    does not have; the client's session is taken from the point where it is
    started. *)

From S2P Require Import Prelude Bytes Asio Smpp SmppProps.

Abbreviation mworld := (world smpp_session m_op Empty_set m_timer m_call).

(** [SmppClient::SmppClient]: the session's callbacks forward to those of the
    client, which may be empty. *)
Definition SmppClient (rq rs tm cl : std_function) : smpp_session :=
  new_session (UserRequest <$> rq) rs tm cl.

Record SmppServer := mkServer {
  sv_sessions : list mworld;       (* accepted, in order *)
  accept_pending : bool;
  context_stopped : bool }.

#[export] Instance eta_SmppServer : Eta SmppServer := λ v,
  mkServer (sv_sessions v) (accept_pending v) (context_stopped v).

Section Server.
Context {ho : Host} (unset : Z).

(** The session [start_accept] creates, once it is accepted. *)
Definition accepted_session (now : Z) : mworld :=
  run (start now) (init_world (new_session (Some ServerRequest) None None None) now).

Definition start_accept (v : SmppServer) : SmppServer := v <| accept_pending := true |>.

(** The completion handler of [async_accept]. *)
Definition on_accept (now : Z) (ok : bool) (v : SmppServer) : SmppServer :=
  start_accept
    (v <| accept_pending := false |>
       <| sv_sessions := if ok then sv_sessions v ++ [accepted_session now] else sv_sessions v |>).

Definition new_SmppServer : SmppServer := start_accept (mkServer [] false false).

(** [SmppServer::~SmppServer]: [io_context::stop] and joining the threads. *)
Definition destroy (v : SmppServer) : SmppServer := v <| context_stopped := true |>.

(** Nothing calls the interface of an accepted session but its own handlers. *)
Definition server_handlers : handlers smpp_session m_op Empty_set m_timer m_call Empty_set :=
  Handlers smpp_kind (smpp_io unset) (λ _ (p : Empty_set), match p return M unit with end) smpp_timer
    (λ _ (a : Empty_set), match a return M unit with end).

Inductive server_step : SmppServer → SmppServer → Prop :=
| sv_accept v now ok :
    context_stopped v = false → accept_pending v = true → server_step v (on_accept now ok v)
| sv_session v i w w' :
    context_stopped v = false → sv_sessions v !! i = Some w → step server_handlers w w' →
    server_step v (v <| sv_sessions := <[i := w']> (sv_sessions v) |>)
| sv_destroy v : server_step v (destroy v).

(** The thread of [main]: the server is a local of a lambda that ends at once. *)
Definition main_server : SmppServer := destroy new_SmppServer.

(** ** The sessions of a server *)

Lemma server_session_step w w' : step server_handlers w w' → step (smpp_handlers unset) w w'.
Proof.
  intros Hs. destruct Hs as [w p|w o l1 l2 r Ho Ha|w t d l1 l2 Hl Hd|w t ab l1 l2 Hl|w now Hn|w []];
    [destruct p|..].
  - exact (step_io (smpp_handlers unset) w o l1 l2 r Ho Ha).
  - by eapply step_expire.
  - exact (step_timer (smpp_handlers unset) w t ab l1 l2 Hl).
  - by apply step_tick.
Qed.

(** A reply to a bind. *)
Definition is_reply (bs : bytes) : Prop := ∃ n, bs = to_buffers (BindTransceiverResp unset n 0).

(** A session that serves: only replies are being written or were written, in
    full, and no callback ran. *)
Definition serving (s : smpp_session) (ops : list m_op) (ps : list Empty_set) (sent : bytes) : Prop :=
  (on_request s = Some ServerRequest ∧ on_response s = None ∧ on_timeout s = None ∧ on_close s = None) ∧
  (∀ bs, MWrite bs ∈ ops → is_reply bs) ∧
  ∃ rs, sent = mjoin rs ∧ Forall is_reply rs.

Definition same_callbacks (s s' : smpp_session) : Prop :=
  on_request s' = on_request s ∧ on_response s' = on_response s ∧ on_timeout s' = on_timeout s ∧
  on_close s' = on_close s.

(** Handlers of such a session. *)
Definition serves {A} (a : M A) : Prop :=
  ∀ s, on_request s = Some ServerRequest → same_callbacks s (state_of (a s)) ∧
    ∀ bs, MWrite bs ∈ started (effs_of (a s)) → is_reply bs.

#[local] Instance serves_compositional : Compositional (@serves).
Proof.
  intros A B a k Ha Hk s Hs. cbv [mbind act_bind]. destruct (Ha s Hs) as [Hc Hw].
  destruct (a s) as [[s1 e1] x]. simpl in *. unfold same_callbacks in *.
  destruct Hc as (C1 & C2 & C3 & C4). destruct (Hk x s1) as [(D1 & D2 & D3 & D4) Hw']; [congruence|].
  destruct (k x s1) as [[s2 e2] y]. simpl in *. split; [split_and!; congruence|].
  intros bs. rewrite started_app. intros [?|?]%elem_of_app; auto.
Qed.

Lemma serves_modify f : (∀ s, same_callbacks s (f s)) → serves (modify f).
Proof. intros Hf s _. split; [apply Hf|]. intros bs Hb. by apply not_elem_of_nil in Hb. Qed.

Lemma serves_pure {A} (a : M A) : (∀ s, a s = (s, effs_of (a s), val_of (a s)) ∧
  ∀ bs, MWrite bs ∉ started (effs_of (a s))) → serves a.
Proof. intros Ha s _. destruct (Ha s) as [-> Hw]. split; [done|]. intros bs Hb. by apply Hw in Hb. Qed.

Lemma serves_emit e : (∀ bs, e ≠ EStart (MWrite bs)) → serves (emit e).
Proof.
  intros He. apply serves_pure. intros s. split; [done|]. intros bs. simpl.
  destruct e as [o| | | | |]; try apply not_elem_of_nil.
  intros <-%list_elem_of_singleton. by eapply He.
Qed.

Lemma serves_gets {A} (f : smpp_session → A) : serves (gets f).
Proof. apply serves_pure. intros s. split; [done|]. intros bs. apply not_elem_of_nil. Qed.
Lemma serves_ret {A} (x : A) : serves (mret x).
Proof. apply serves_pure. intros s. split; [done|]. intros bs. apply not_elem_of_nil. Qed.
Lemma serves_skip : serves skip.
Proof. apply serves_pure. intros s. split; [done|]. intros bs. apply not_elem_of_nil. Qed.

Ltac serves_tac :=
  repeat first
    [ apply (compose (P:=@serves)); [|intros ?]
    | apply serves_gets | apply serves_ret | apply serves_skip
    | apply serves_emit; done | apply serves_modify; done
    | progress case_match ].

Lemma serves_close : serves close.
Proof. unfold close, invoke. serves_tac. Qed.

Lemma serves_bind now p : serves (server_request now unset p).
Proof.
  unfold server_request. destruct (_ =? _); [|apply serves_skip].
  unfold send_pdu, next_seq. apply (compose (P:=@serves)); [serves_tac|]. intros n.
  unfold whenb. serves_tac. all: intros s _; split; [done|].
  all: intros bs Hb; simpl in Hb; apply list_elem_of_singleton in Hb; injection Hb as ->; by exists n.
Qed.

Lemma serves_io now o res : serves (smpp_io unset now o res).
Proof.
  destruct o as [|n|bs], res as [data|ab]; try apply serves_close; simpl; [..|apply serves_skip].
  - apply (compose (P:=@serves)); [serves_tac|]. intros _. unfold handle_header.
    apply (compose (P:=@serves)); [serves_tac|]. intros d.
    destruct (_ || _); [apply serves_close|by apply serves_emit].
  - apply (compose (P:=@serves)); [serves_tac|]. intros _.
    apply (compose (P:=@serves)); [|intros _; unfold reset_inactivity_timer, read_header; serves_tac].
    unfold parse_pdu, invoke. serves_tac. apply serves_bind.
Qed.

Lemma serves_timer now t ab : serves (smpp_timer now t ab).
Proof.
  destruct t, ab; simpl; try apply serves_skip; [apply serves_close|].
  unfold invoke. serves_tac.
Qed.

Lemma serving_frame {A} (a : M A) s ops ps sent :
  serves a → serving s ops ps sent →
  let r := a s in
  serving (state_of r) (ops ++ started (effs_of r)) (ps ++ posted (effs_of r)) sent.
Proof.
  intros Ha ((H1 & H2 & H3 & H4) & Hw & Hs). cbv zeta. destruct (Ha s H1) as [(C1 & C2 & C3 & C4) Hw'].
  split; [split_and!; congruence|]. split; [|done]. intros bs [?|?]%elem_of_app; auto.
Qed.

Lemma serving_reachable w0 w :
  serving (w_st w0) (w_ops w0) (w_posts w0) (w_sent w0) → reachable server_handlers w0 w →
  serving (w_st w) (w_ops w) (w_posts w) (w_sent w).
Proof.
  apply (step_ops_invariant server_handlers serving).
  - by intros s ops ps sent now [].
  - intros s l1 l2 ps sent now o res (Hc & Hw & rs & -> & Hrs) _.
    apply serving_frame; [apply serves_io|]. split; [done|]. split.
    { intros bs Hb. apply Hw. rewrite elem_of_app, elem_of_cons in *. naive_solver. }
    destruct o as [|n|bs]; [exists rs; simpl; destruct res; by rewrite app_nil_r..|].
    destruct res; [|exists rs; simpl; by rewrite app_nil_r].
    exists (rs ++ [bs]). simpl. rewrite join_app. split; [simpl; by rewrite app_nil_r|].
    apply Forall_app. split; [done|]. constructor; [|constructor]. apply Hw.
    apply elem_of_app. right. left.
  - intros s ops ps sent now t ab HI. apply serving_frame; [apply serves_timer|done].
  - by intros s ops ps sent now [].
Qed.

(** Every session of a server is a run of the session machine. *)
Lemma server_sessions_reachable v :
  rtc server_step new_SmppServer v →
  accept_pending v = true ∧
  ∀ i w, sv_sessions v !! i = Some w → ∃ now, reachable server_handlers (accepted_session now) w.
Proof.
  apply (rtc_invariant server_step (λ v, accept_pending v = true ∧
    ∀ i w, sv_sessions v !! i = Some w → ∃ now, reachable server_handlers (accepted_session now) w));
    [done|].
  clear v. intros v v' [Ha IH] Hs.
  destruct Hs as [v now ok|v i w w' Hst Hi Hs|v]; [..|done].
  - split; [done|]. intros i w Hw. destruct ok; [|by apply (IH i)]. simpl in Hw.
    apply lookup_app_Some in Hw as [Hw|[_ Hw]]; [by apply (IH i)|].
    apply list_lookup_singleton_Some in Hw as [_ <-]. exists now. apply rtc_refl.
  - split; [done|]. intros j x Hx. simpl in Hx.
    apply list_lookup_insert_Some in Hx as [(<- & <- & _)|[_ Hx]]; [|by apply (IH j)].
    destruct (IH i w Hi) as [now Hr]. exists now. by eapply rtc_r.
Qed.

Lemma session_of_server v i w :
  rtc server_step new_SmppServer v → sv_sessions v !! i = Some w →
  serving (w_st w) (w_ops w) (w_posts w) (w_sent w) ∧
  session_ok unset (w_st w) (w_ops w) (w_calls w).
Proof.
  intros Hr Hi. destruct (server_sessions_reachable v Hr) as [_ Hs].
  destruct (Hs i w Hi) as [now Hw]. split.
  - apply (serving_reachable (accepted_session now)); [|done]. split; [done|].
    split; [|by exists []]. intros bs Hb. simpl in Hb. by apply list_elem_of_singleton in Hb.
  - apply (session_ok_reachable unset (Some ServerRequest) None None None now).
    apply (rtc_subrel (step server_handlers)); [|exact Hw]. exact server_session_step.
Qed.


(** The server of the example's [main] is destroyed as soon as it is built:
    nobody is ever accepted. *)
Theorem example_smpp_server_accepts_nobody v :
  rtc server_step main_server v → sv_sessions v = [].
Proof.
  intros Hr. apply (rtc_invariant server_step (λ v, context_stopped v = true ∧ sv_sessions v = [])) in Hr;
    [by destruct Hr|done|].
  intros v1 v2 [H1 H2] Hs. destruct Hs; [congruence..|done].
Qed.
End Server.

(** ** A bind *)

(** A world waiting for a header. *)
Definition idle_session {ho : Host} (unset : Z) (w : mworld) : Prop :=
  streambuf_ (w_st w) = [] ∧ is_u32 (seq_ (w_st w)) ∧
  ∃ l1 l2, w_ops w = l1 ++ MReadHeader :: l2 ∧
    Forall (λ o, is_read (smpp_handlers unset) o = false) (l1 ++ l2).

Definition bind_body (sys_id pwd : bytes) : bytes := body (BindTransceiver 0 0 sys_id pwd).

(** The bind with its length set, as the client numbers it. *)
Definition bind_pdu (q : Z) (sys_id pwd : bytes) : SmppPdu :=
  BindTransceiver (16 + blen (bind_body sys_id pwd)) q sys_id pwd.

Lemma bind_pdu_ok q sys_id pwd :
  is_u32 q → wf_bytes sys_id → wf_bytes pwd → 16 + blen (bind_body sys_id pwd) <= MAX_PDU_SIZE →
  pdu_ok (bind_pdu q sys_id pwd).
Proof.
  intros Hq Hs Hp Hl. unfold pdu_ok. cbn [bind_pdu BindTransceiver command_id command_status
    sequence_number body command_length]. split_and!; try done.
  repeat (apply Forall_app; split); done || by repeat constructor.
Qed.

(** What the client's world is after [bind_transceiver]. *)
Lemma bind_sent {ho : Host} unset sys_id pwd w :
  idle_session unset w →
  let q := seq_ (w_st w) in
  let w' := run (bind_transceiver (w_now w) (16 + blen (bind_body sys_id pwd)) sys_id pwd) w in
  (∃ l1 l2, w_ops w' = l1 ++ MReadHeader :: l2 ∧
     Forall (λ o, is_read (smpp_handlers unset) o = false) (l1 ++ l2) ∧
     MWrite (to_buffers (bind_pdu q sys_id pwd)) ∈ l2) ∧
  w_calls w' = w_calls w ∧
  w_st w' = (w_st w) <| seq_ := u32 (q + 1) |> <| pending_timers_ := pending_timers_ (w_st w) ∪ {[q]} |>.
Proof.
  intros (Hb & Hu & l1 & l2 & Hops & Hnr) q w'.
  destruct (run_fields (bind_transceiver (w_now w) (16 + blen (bind_body sys_id pwd)) sys_id pwd) w)
    as (Es & Eo & _ & Ec & _). fold w' in Es, Eo, Ec.
  unfold bind_transceiver, send_pdu, next_seq, whenb in Es, Eo, Ec. revert Es Eo Ec. unact.
  rewrite Hops. intros Es Eo Ec. split; [|by destruct (bool_decide _); rewrite ?app_nil_r in Ec].
  exists l1, (l2 ++ [MWrite (to_buffers (bind_pdu q sys_id pwd))]). split_and!.
  - rewrite Eo. rewrite <-app_assoc. simpl. by destruct (bool_decide _).
  - rewrite app_assoc. apply Forall_app. split; [done|]. by repeat constructor.
  - apply elem_of_app. right. left.
Qed.

(** The reply, when its length member happens to be right. *)
Definition reply_length : Z := 28.
Definition reply_pdu (r : Z) : SmppPdu := BindTransceiverResp reply_length r 0.

Lemma reply_pdu_ok r : is_u32 r → pdu_ok (reply_pdu r).
Proof.
  intros Hr. unfold pdu_ok, reply_pdu, BindTransceiverResp. cbn [command_id command_status
    sequence_number body command_length]. split_and!; try done.
  apply (bool_decide_unpack _). vm_compute. exact I.
Qed.

(** A bind read by a session of the server. *)
Lemma bind_answered (hc : endian) {hs : Host} unset p w :
  pdu_ok p → command_id p = 9 → idle_session unset w → on_request (w_st w) = Some ServerRequest →
  sequence_number p ∉ pending_timers_ (w_st w) →
  ∃ w', feed (smpp_handlers unset) 2 (@to_buffers hc p) w = (w', []) ∧
    MWrite (to_buffers (BindTransceiverResp unset (seq_ (w_st w)) 0)) ∈ w_ops w' ∧
    w_calls w' = w_calls w ∧
    pending_timers_ (w_st w') = pending_timers_ (w_st w) ∪ {[seq_ (w_st w)]}.
Proof.
  intros Hp Hid (Hb & _ & l1 & l2 & Hops & Hnr) Hrq Hq.
  pose proof (smpp_feed_deliver unset hc p [] w l1 l2 0 Hp Hops Hnr Hb) as Hf.
  rewrite app_nil_r in Hf. rewrite Hf. cbn [feed]. eexists. split; [reflexivity|].
  destruct (run_fields (deliver unset (w_now w) p;; reset_inactivity_timer (w_now w);; read_header)
    (w <| w_ops := l1 ++ l2 |>)) as (-> & -> & _ & -> & _).
  simpl. unfold deliver, call_request, server_request, send_pdu, next_seq, whenb,
    reset_inactivity_timer, read_header.
  destruct (w_st w) as [o b pend r rq rs tm cl]. simpl in Hrq, Hq. subst rq. unact.
  rewrite (bool_decide_false (_ ∈ pend)) by done. simpl. rewrite Hid. simpl.
  destruct (bool_decide (r ∉ pend)); simpl; split_and!; try (by rewrite app_nil_r); try done;
    apply elem_of_app; right; left.
Qed.


(** A bind whose length member was left out of range: the server closes the
    session on the header and answers nothing. *)
Theorem smpp_unset_length_closes (hc hs : endian) unset p (ws : mworld) fuel :
  is_u32 (command_length p) → ¬ 16 <= command_length p <= MAX_PDU_SIZE →
  @idle_session hs unset ws →
  let ws' := (feed (@smpp_handlers hs unset) (S fuel) (@to_buffers hc p) ws).1 in
  socket_open (w_st ws') = false ∧ reads (@smpp_handlers hs unset) (w_ops ws') = [] ∧
  length (w_ops ws') = (length (w_ops ws) - 1)%nat.
Proof.
  intros Hu Hbad (Hb & _ & l1 & l2 & Hops & Hnr). cbv zeta.
  assert (Hw : @word_at hs 0 (take 16 (@to_buffers hc p)) = command_length p).
  { rewrite (to_buffers_be (H:=hc)). unfold word_at. rewrite drop_0, take_take.
    pose proof (word_at_app (H:=hs) 0 [] (command_length p) (be_bytes 4 (command_id p) ++
      be_bytes 4 (command_status p) ++ be_bytes 4 (sequence_number p) ++ body p) eq_refl Hu) as E.
    unfold word_at in E. by rewrite drop_0 in E. }
  rewrite <-(take_drop 16 (@to_buffers hc p)).
  destruct (smpp_feed_bad_header (ho:=hs) unset (take 16 (@to_buffers hc p)) (drop 16 (@to_buffers hc p))
    ws l1 l2 fuel) as (? & ? & _ & Ho); try done.
  - rewrite length_take, to_buffers_length. unfold MAX_HEADER. lia.
  - by rewrite Hw.
  - split; [done|]. split; [done|]. rewrite Ho, Hops, !length_app. simpl. lia.
Qed.

(** ** Concrete runs *)

Definition bind_client : mworld :=
  run (start 0) (init_world (SmppClient None (Some 2%nat) None None) 0).


Lemma smpp_unset_length_closes_witness :
  let w := (feed (@smpp_handlers BigEndian 0) 2
    (@to_buffers LittleEndian (BindTransceiver 0 1 (lit "sys") (lit "pwd"))) (accepted_session 0)).1 in
  socket_open (w_st w) = false ∧ reads (@smpp_handlers BigEndian 0) (w_ops w) = [] ∧ length (w_ops w) = 0%nat.
Proof.
  apply (smpp_unset_length_closes LittleEndian BigEndian 0 (BindTransceiver 0 1 (lit "sys") (lit "pwd"))
    (accepted_session 0) 1).
  - vm_compute. split; discriminate || reflexivity.
  - simpl. lia.
  - split_and!; [done..|]. by exists [], [].
Defined.

(** A server that has accepted one client and read its bind. *)
Definition served : mworld :=
  (feed (server_handlers (ho:=LittleEndian) 28) 2 (@to_buffers BigEndian (bind_pdu 1 (lit "a") (lit "b")))
    (accepted_session 0)).1.
Definition served_server : SmppServer := mkServer [served] true false.

