(* ===== verification/SmppMain.v ===== *)
(** * SmppMain: the program of new_chatgpt/main.cpp

    [main] starts a thread for the server, creates the client, binds, sends one
    more PDU, sleeps two minutes and closes. The server's thread is detached; its
    server is a local variable that is destroyed at once. [SmppClient::connect]
    calls a member [SmppSession] does not have: the model starts the session
    there, as the server does with an accepted one. *)

From S2P Require Import Prelude Bytes Asio Schedule TurboLife Smpp SmppProps SmppNet.

Inductive xm_pc := XmConnect | XmBind | XmSend | XmSleep (until : Z) | XmReturn.

Record xmain := XMain {
  xm_client : mworld;                (* the session of [client] *)
  xm_io : bool;                      (* its thread is in [io_context_.run()] *)
  xm_server : option SmppServer;     (* the server, once its thread has made it *)
  xm_main : xm_pc;
  xm_end : option ending }.

#[export] Instance eta_xmain : Eta xmain := λ g,
  XMain (xm_client g) (xm_io g) (xm_server g) (xm_main g) (xm_end g).

Ltac xmain_simpl := cbn [field_upd xm_client xm_io xm_server xm_main xm_end] in *.

Section SmppMain.
(** [unset]: the indeterminate header members of the PDUs; the fields of
    [std::make_shared<SmppPdu>()], none of which is set. *)
Context {ho : Host} (unset : Z) (blank : SmppPdu).
Implicit Types (g : xmain) (w : mworld).

(** [SmppClient::close]: the session, then the context and its thread. *)
Definition client_close g : xmain :=
  g <| xm_client := run close (xm_client g) |> <| xm_io := false |>.

(** The callbacks are those of [main], which ignore PDUs and print. *)
Definition client0 : smpp_session := SmppClient (Some 1%nat) (Some 2%nat) (Some 3%nat) (Some 4%nat).

(** One statement of [main]. *)
Definition xm_turn g : xmain :=
  let w := xm_client g in
  match xm_main g with
  | XmConnect => g <| xm_client := run (start (w_now w)) w |> <| xm_io := true |> <| xm_main := XmBind |>
  | XmBind =>
      g <| xm_client := run (bind_transceiver (w_now w) unset (lit "sys") (lit "pwd")) w |> <| xm_main := XmSend |>
  | XmSend =>
      g <| xm_client := run (send_pdu (w_now w) blank 30) w |> <| xm_main := XmSleep (w_now w + seconds 120) |>
  | XmSleep _ => client_close g <| xm_main := XmReturn |>
  | XmReturn => g <| xm_end := Some (Exited 0) |>
  end.

Definition may_proceed g : Prop :=
  match xm_main g with XmSleep until => until <= w_now (xm_client g) | _ => True end.

Inductive xm_step : xmain → xmain → Prop :=
| xm_statement g : xm_end g = None → may_proceed g → xm_step g (xm_turn g)
| xm_handler g w' :
    xm_end g = None → xm_io g = true → step (server_handlers unset) (xm_client g) w' →
    xm_step g (g <| xm_client := w' |>)
| xm_tick g now :
    xm_end g = None → w_now (xm_client g) <= now →
    xm_step g (g <| xm_client := (xm_client g) <| w_now := now |> |>)
(* the detached thread: nobody catches what the constructor throws *)
| xm_server_made g :
    xm_end g = None → xm_server g = None → xm_step g (g <| xm_server := Some new_SmppServer |>)
| xm_server_throws g :
    xm_end g = None → xm_server g = None → xm_step g (g <| xm_end := Some Aborted |>)
| xm_server_step g v v' :
    xm_end g = None → xm_server g = Some v → server_step unset v v' →
    xm_step g (g <| xm_server := Some v' |>).

Definition xm_start (now : Z) : xmain := XMain (init_world client0 now) false None XmConnect None.

Definition xm_reachable (now : Z) g : Prop := rtc xm_step (xm_start now) g.

(** ** The program uses the session within its interface *)

Definition connected_at (now : Z) : mworld := run (start now) (init_world client0 now).

Definition xm_traced (now : Z) g : Prop :=
  match xm_main g with
  | XmConnect => xm_io g = false ∧ ∃ t, now <= t ∧ xm_client g = init_world client0 t
  | _ => ∃ t, now <= t ∧ reachable (smpp_handlers unset) (connected_at t) (xm_client g)
  end.

Lemma xm_traced_step now g g' : xm_traced now g → xm_step g g' → xm_traced now g'.
Proof.
  intros Ht Hs. destruct Hs as [g He Hp|g w' He Hio Hs|g t' He Hn|g He Hv|g He Hv|g v v' He Hv Hs]; try exact Ht.
  - unfold xm_traced, xm_turn, client_close in *.
    destruct (xm_main g) eqn:Hm; xmain_simpl; rewrite ?Hm; [|destruct Ht as (t & Hle & Ht); exists t; (split; [done|])..].
    + destruct Ht as (_ & t & Hle & Ht). exists t. split; [done|]. rewrite Ht. apply rtc_refl.
    + eapply rtc_r; [exact Ht|].
      apply (step_api (smpp_handlers unset) (xm_client g) (ABind unset (lit "sys") (lit "pwd"))).
    + eapply rtc_r; [exact Ht|]. apply (step_api (smpp_handlers unset) (xm_client g) (ASendPdu blank 30)).
    + eapply rtc_r; [exact Ht|]. apply (step_api (smpp_handlers unset) (xm_client g) AClose).
    + exact Ht.
  - unfold xm_traced in *. xmain_simpl. destruct (xm_main g); [by destruct Ht; congruence|..];
      destruct Ht as (t & Hle & Ht); exists t; (split; [done|]); eapply rtc_r; [exact Ht|by apply server_session_step
        |exact Ht|by apply server_session_step|exact Ht|by apply server_session_step|exact Ht|by apply server_session_step].
  - unfold xm_traced in *. xmain_simpl. destruct (xm_main g).
    + destruct Ht as (Hio & t & Hle & Ht). split; [done|]. exists t'. rewrite Ht in Hn |- *. simpl in Hn. split; [lia|done].
    + destruct Ht as (t & Hle & Ht); exists t; (split; [done|]); eapply rtc_r; [exact Ht|by apply step_tick].
    + destruct Ht as (t & Hle & Ht); exists t; (split; [done|]); eapply rtc_r; [exact Ht|by apply step_tick].
    + destruct Ht as (t & Hle & Ht); exists t; (split; [done|]); eapply rtc_r; [exact Ht|by apply step_tick].
    + destruct Ht as (t & Hle & Ht); exists t; (split; [done|]); eapply rtc_r; [exact Ht|by apply step_tick].
Qed.

(** Every run of the program is, for the client's session, a run of the session's
    machine from its start: what is proved of sessions holds of the program. *)
Theorem smpp_program_refines_session now g :
  xm_reachable now g → xm_main g ≠ XmConnect →
  ∃ t, now <= t ∧ reachable (smpp_handlers unset) (connected_at t) (xm_client g).
Proof.
  intros Hr Hm. assert (Ht : xm_traced now g).
  { refine (rtc_invariant xm_step (xm_traced now) _ g _ (xm_traced_step now) Hr).
    split; [done|]. by exists now. }
  unfold xm_traced in Ht. by destruct (xm_main g).
Qed.

End SmppMain.

(** ** What the program does with its session *)

Section Runs.
Context {ho : Host} (unset : Z) (blank : SmppPdu).

(** The bind and the second PDU are handed to the socket one right after the
    other: their writes are outstanding at the same time, and nothing orders
    the bytes. *)
Theorem smpp_writes_overlap :
  let w1 := run (bind_transceiver 0 unset (lit "sys") (lit "pwd")) (connected_at 0) in
  let w2 := run (send_pdu 0 blank 30) w1 in
  w_ops w2 = [MReadHeader; MWrite (to_buffers (BindTransceiver unset 1 (lit "sys") (lit "pwd")));
              MWrite (to_buffers (blank <| sequence_number := 2 |>))].
Proof. reflexivity. Qed.

(** Every failed operation, the expiry of the inactivity timer and
    [SmppClient::close] call [close], which does not look whether the session is
    closed already: each time the application hears [on_close]. *)
Theorem smpp_close_is_repeated (w : mworld) f n :
  on_close (w_st w) = Some f →
  w_calls (Nat.iter n (run close) w) = w_calls w ++ replicate n (CClose f).
Proof.
  intros Hf.
  assert (H : w_calls (Nat.iter n (run close) w) = w_calls w ++ replicate n (CClose f) ∧
              on_close (w_st (Nat.iter n (run close) w)) = Some f); [|by destruct H].
  induction n as [|n [IHc IHf]]; [by rewrite app_nil_r|]. cbn [Nat.iter nat_rect].
  set (v := Nat.iter n (run close) w) in *. change (nat_rect _ _ _ n) with v.
  destruct (run_fields close v) as (E1 & _ & _ & E2 & _). rewrite E1, E2.
  unfold close, invoke. unact. rewrite IHf. simpl. split; [|done].
  rewrite IHc, <-app_assoc. f_equal. rewrite <-replicate_S_end. done.
Qed.
End Runs.

(** ** Running the program by hand *)

Inductive xm_choice := TurnClient | TurnSession (c : choice) | TurnTime (now : Z).

Section Exec.
Context {ho : Host} (unset : Z) (blank : SmppPdu).

#[local] Instance may_proceed_dec g : Decision (may_proceed g).
Proof. unfold may_proceed. destruct (xm_main g); apply _. Defined.

Definition xm_exec (c : xm_choice) (g : xmain) : option xmain :=
  match xm_end g with
  | Some _ => None
  | None =>
      match c with
      | TurnClient => if bool_decide (may_proceed g) then Some (xm_turn unset blank g) else None
      | TurnSession c =>
          if xm_io g
          then w' ← exec (server_handlers unset) c (xm_client g); Some (g <| xm_client := w' |>) else None
      | TurnTime now =>
          if bool_decide (w_now (xm_client g) <= now)
          then Some (g <| xm_client := (xm_client g) <| w_now := now |> |>) else None
      end
  end.

Fixpoint xm_execs (cs : list xm_choice) (g : xmain) : option xmain :=
  match cs with
  | [] => Some g
  | c :: cs' => xm_exec c g ≫= xm_execs cs'
  end.

Lemma xm_execs_run cs g g' : xm_execs cs g = Some g' → rtc (xm_step unset blank) g g'.
Proof.
  revert g. induction cs as [|c cs IH]; intros g; simpl; [by intros [= <-]|].
  destruct (xm_exec c g) as [h|] eqn:E; simpl; [|done]. intros Hh.
  eapply rtc_l; [|by apply IH]. unfold xm_exec in E. destruct (xm_end g) eqn:He; [done|].
  destruct c as [|c|now].
  - case_bool_decide; [|done]. injection E as <-. by apply xm_statement.
  - destruct (xm_io g) eqn:Hio; [|done].
    destruct (exec _ c _) as [w'|] eqn:Hx; [|done]. injection E as <-.
    apply xm_handler; [done..|by eapply exec_step].
  - case_bool_decide; [|done]. injection E as <-. by apply xm_tick.
Qed.
End Exec.

(** The server does not answer: both PDUs time out, the session closes itself
    after a minute, the read fails, and [main] closes once more: it hears
    [on_close] three times. *)
#[local] Instance smpp_main_host : Host := LittleEndian.

Definition nobody_answers : list xm_choice :=
  [TurnClient; TurnClient; TurnClient; TurnSession (DoIo 1 (IoOk [])); TurnSession (DoIo 1 (IoOk []));
   TurnTime (seconds 30); TurnSession (DoExpire 1); TurnSession (DoExpire 1);
   TurnSession (DoTimer 0); TurnSession (DoTimer 0);
   TurnTime (seconds 60); TurnSession (DoExpire 0); TurnSession (DoTimer 0);
   TurnSession (DoIo 0 (IoErr true)); TurnTime (seconds 120); TurnClient; TurnClient].

Theorem smpp_program_closes_thrice :
  ∃ g, xm_execs 0 (new_pdu 0 0 0 0) nobody_answers (xm_start 0) = Some g ∧ xm_end g = Some (Exited 0) ∧
    w_calls (xm_client g) = [CTimeout 3 1; CTimeout 3 2; CClose 4; CClose 4; CClose 4].
Proof. eexists. split; [vm_compute; reflexivity|]. by split. Qed.

Lemma smpp_program_refines_session_witness :
  ∃ g, xm_execs 0 (new_pdu 0 0 0 0) nobody_answers (xm_start 0) = Some g ∧
    ∃ t, 0 <= t ∧ reachable (smpp_handlers 0) (connected_at t) (xm_client g).
Proof.
  eexists. split; [vm_compute; reflexivity|].
  apply (smpp_program_refines_session 0 (new_pdu 0 0 0 0)); [|discriminate].
  apply (xm_execs_run 0 (new_pdu 0 0 0 0) nobody_answers). vm_compute. reflexivity.
Defined.
