(* ===== verification/ThreadPool.v ===== *)
(** * ThreadPool: the worker pool of claude/server.cpp

    The queue of tasks, the workers and the condition variable they sleep on.
    The state keeps, besides the members of the class, where each worker is in
    its loop, the notifications that were decided on but not delivered yet (the
    notify calls are made after the mutex is released), and ghost lists of the
    tasks accepted, taken and finished. A critical section is one step;
    [condition.wait] releases the mutex and sleeps in one step, and may wake
    spuriously.

    - tasks are taken in the order they were accepted, none lost or repeated;
    - the destructor returns: every run of the workers is finite, and it ends
      with every worker gone and every accepted task finished. *)

From S2P Require Import Prelude.

Section ThreadPool.
Context {Task : Type}.

Inductive worker :=
| Checking                  (* about to evaluate the predicate under the lock *)
| Sleeping                  (* in [condition.wait] *)
| Running (t : Task)        (* in [task()] *)
| Exited.

Record pool := mkPool {
  workers : list worker;
  tasks : list Task;
  stop : bool;
  notify_one : nat;         (* [notify_one] calls still to be made *)
  notify_all : bool;        (* the destructor's [notify_all] still to be made *)
  accepted : list Task;
  taken : list Task;
  finished : list Task }.

#[export] Instance eta_pool : Eta pool := λ p,
  mkPool (workers p) (tasks p) (stop p) (notify_one p) (notify_all p)
    (accepted p) (taken p) (finished p).

Definition new_pool (numThreads : nat) : pool :=
  mkPool (replicate numThreads Checking) [] false 0 false [] [] [].

(** [enqueue]: [None] when it throws. *)
Definition enqueue (f : Task) (p : pool) : option pool :=
  if stop p then None
  else Some (p <| tasks := tasks p ++ [f] |> <| notify_one := S (notify_one p) |>
               <| accepted := accepted p ++ [f] |>).

(** One pass of a worker through the critical section of its loop. *)
Definition check (i : nat) (p : pool) : pool :=
  match tasks p with
  | [] => p <| workers := <[i := if stop p then Exited else Sleeping]> (workers p) |>
  | task :: rest =>
      p <| tasks := rest |> <| workers := <[i := Running task]> (workers p) |>
        <| taken := taken p ++ [task] |>
  end.

(** [task()] returned. *)
Definition finish (i : nat) (task : Task) (p : pool) : pool :=
  p <| workers := <[i := Checking]> (workers p) |> <| finished := finished p ++ [task] |>.

Definition wake (w : worker) : worker := match w with Sleeping => Checking | _ => w end.

(** First half of the destructor. *)
Definition set_stop (p : pool) : pool := p <| stop := true |> <| notify_all := true |>.

(** What workers and notifications do on their own. *)
Inductive work : pool → pool → Prop :=
| work_check p i : workers p !! i = Some Checking → work p (check i p)
| work_finish p i t : workers p !! i = Some (Running t) → work p (finish i t p)
| work_notify p i n :
    notify_one p = S n → workers p !! i = Some Sleeping →
    work p (p <| notify_one := n |> <| workers := <[i := Checking]> (workers p) |>)
| work_notify_none p n :
    notify_one p = S n → Sleeping ∉ workers p → work p (p <| notify_one := n |>)
| work_notify_all p :
    notify_all p = true →
    work p (p <| notify_all := false |> <| workers := wake <$> workers p |>).

(** All steps: also those of the clients, and spurious wake-ups. *)
Inductive pool_step : pool → pool → Prop :=
| pool_work p p' : work p p' → pool_step p p'
| pool_enqueue p p' f : enqueue f p = Some p' → pool_step p p'
| pool_stop p : stop p = false → pool_step p (set_stop p)
| pool_spurious p i :
    workers p !! i = Some Sleeping →
    pool_step p (p <| workers := <[i := Checking]> (workers p) |>).

(** ** Tasks are conserved *)

Definition running_of (w : worker) : option Task :=
  match w with Running t => Some t | _ => None end.
Definition running (ws : list worker) : list Task := omap running_of ws.

Lemma running_insert ws i w w' :
  ws !! i = Some w → running_of w = None → running_of w' = None →
  running (<[i := w']> ws) = running ws.
Proof.
  unfold running. revert i. induction ws as [|x ws IH]; intros [|i] Hi Hw Hw'; simplify_eq/=.
  - by rewrite Hw, Hw'.
  - by rewrite (IH i).
Qed.

Lemma running_start ws i w t :
  ws !! i = Some w → running_of w = None →
  running (<[i := Running t]> ws) ≡ₚ t :: running ws.
Proof.
  unfold running. revert i. induction ws as [|x ws IH]; intros [|i] Hi Hw; simplify_eq/=.
  - by rewrite Hw.
  - destruct (running_of x); rewrite (IH i) by done; [apply Permutation_swap|done].
Qed.

Lemma running_stop ws i t :
  ws !! i = Some (Running t) → running ws ≡ₚ t :: running (<[i := Checking]> ws).
Proof.
  intros Hi. rewrite <-(running_start (<[i := Checking]> ws) i Checking t); [|
    apply list_lookup_insert_eq; by eapply lookup_lt_Some|done].
  by rewrite list_insert_insert_eq, list_insert_id.
Qed.

Lemma running_wake ws : running (wake <$> ws) = running ws.
Proof.
  unfold running. induction ws as [|w ws IH]; [done|]. rewrite fmap_cons.
  destruct w; csimpl; by rewrite IH.
Qed.

(** The invariant: the queue is what was accepted and not taken, what was taken
    is finished or running, and a worker leaves only when the pool is stopped
    and the queue is empty. *)
Record conserved (p : pool) : Prop := {
  cons_fifo : taken p ++ tasks p = accepted p;
  cons_taken : taken p ≡ₚ finished p ++ running (workers p);
  cons_exit : Exited ∈ workers p → stop p = true ∧ tasks p = [] }.

Lemma exited_insert (ws : list worker) (i : nat) w : Exited ∈ <[i := w]> ws → w ≠ Exited → Exited ∈ ws.
Proof.
  intros Hin Hw. apply list_elem_of_lookup in Hin as [j Hj].
  apply list_lookup_insert_Some in Hj as [(_ & ? & _)|[_ Hj]]; [done|].
  by apply list_elem_of_lookup_2 in Hj.
Qed.

Lemma exited_wake (ws : list worker) : Exited ∈ wake <$> ws → Exited ∈ ws.
Proof. intros (w & Hw & Hin)%list_elem_of_fmap. by destruct w. Qed.

Lemma conserved_work p p' : conserved p → work p p' → conserved p'.
Proof.
  intros [Hf Ht He] Hw. destruct Hw as [p i Hi|p i t Hi|p i n Hn Hi|p n Hn Hs|p Ha].
  - unfold check. destruct (tasks p) as [|t ts] eqn:E.
    + split; simpl; [by rewrite E| |].
      * rewrite (running_insert _ _ Checking); [done..|]. by destruct (stop p).
      * destruct (stop p) eqn:Es; [done|]. intros Hx%exited_insert; [|done].
        by apply He in Hx as [? _].
    + split; simpl; [by rewrite <-app_assoc| |].
      * rewrite (running_start _ _ Checking) by done. rewrite Ht.
        by rewrite <-Permutation_cons_append, Permutation_middle.
      * intros Hx%exited_insert; [|done]. by apply He in Hx as [_ ?].
  - split; simpl; [done| |].
    + rewrite Ht, (running_stop _ _ _ Hi). rewrite <-app_assoc. done.
    + intros Hx%exited_insert; [|done]. by apply He.
  - split; simpl; [done| |].
    + by rewrite (running_insert _ _ Sleeping).
    + intros Hx%exited_insert; [|done]. by apply He.
  - by split.
  - split; simpl; [done| |].
    + by rewrite running_wake.
    + intros Hx%exited_wake. by apply He.
Qed.

Lemma conserved_step p p' : conserved p → pool_step p p' → conserved p'.
Proof.
  intros Hc Hs. destruct Hs as [p p' Hw|p p' f Hq|p Hs|p i Hi].
  - by eapply conserved_work.
  - unfold enqueue in Hq. destruct (stop p) eqn:Es; simplify_eq. destruct Hc as [Hf Ht He].
    split; simpl; [by rewrite app_assoc, Hf|done|]. intros [? _]%He. congruence.
  - destruct Hc as [Hf Ht He]. split; [exact Hf|exact Ht|]. intros [? _]%He. congruence.
  - destruct Hc as [Hf Ht He]. split; simpl; [done| |].
    + by rewrite (running_insert _ _ Sleeping).
    + intros Hx%exited_insert; [|done]. by apply He.
Qed.

Lemma conserved_new n : conserved (new_pool n).
Proof.
  split; simpl; [done| |].
  - unfold running. induction n; simpl; [done|]. exact IHn.
  - intros [? _]%elem_of_replicate. done.
Qed.

(** ** Nobody sleeps through work *)

Definition busy (w : worker) : Prop := match w with Checking | Running _ => True | _ => False end.

Record attended (p : pool) : Prop := {
  att_conserved : conserved p;
  att_workers : workers p ≠ [];
  att_stop : stop p = true → Sleeping ∈ workers p → notify_all p = true;
  att_all : notify_all p = true → stop p = true;
  att_tasks : tasks p ≠ [] → stop p = false → Exists busy (workers p) ∨ notify_one p ≠ 0%nat }.

Lemma busy_insert ws i w w' :
  ws !! i = Some w → busy w' → Exists busy (<[i := w']> ws).
Proof.
  intros Hi Hb. apply Exists_exists. exists w'. split; [|done].
  apply list_elem_of_lookup. exists i. apply list_lookup_insert_eq. by eapply lookup_lt_Some.
Qed.

Lemma insert_nonempty (ws : list worker) i w : ws ≠ [] → <[i := w]> ws ≠ [].
Proof. by destruct ws, i. Qed.

Lemma sleeping_insert (ws : list worker) (i : nat) w :
  Sleeping ∈ <[i := w]> ws → w ≠ Sleeping → Sleeping ∈ ws.
Proof.
  intros Hin Hw. apply list_elem_of_lookup in Hin as [j Hj].
  apply list_lookup_insert_Some in Hj as [(_ & ? & _)|[_ Hj]]; [done|].
  by apply list_elem_of_lookup_2 in Hj.
Qed.

(** Someone is busy, or someone sleeps, or all are gone. *)
Lemma busy_or_away ws :
  Exists busy ws ∨ Sleeping ∈ ws ∨ Forall (λ w, w = Exited) ws.
Proof.
  induction ws as [|w ws IH]; [right; by right|].
  destruct w; [left; by left|right; left; by left|left; by left|].
  destruct IH as [?|[?|?]]; [left; by right|right; left; by right|right; right; by constructor].
Qed.

Lemma all_exited_elem ws : ws ≠ [] → Forall (λ w, w = Exited) ws → Exited ∈ ws.
Proof. intros Hn Hf. destruct Hf as [|w ws -> _]; [done|by left]. Qed.

Lemma attended_work p p' : attended p → work p p' → attended p'.
Proof.
  intros [Hc Hn Hst Hal Hta] Hw. split; [by eapply conserved_work|..];
    destruct Hw as [p i Hi|p i t Hi|p i n Hn1 Hi|p n Hn1 Hs|p Ha]; try done; simpl.
  all: try by apply insert_nonempty.
  all: try by (unfold check; destruct (tasks p); apply insert_nonempty).
  all: try by (intros Hs Hin; apply Hst; [done|]; by eapply sleeping_insert).
  all: try by (intros _ _; left; by eapply busy_insert).
  - intros E. by apply fmap_nil_inv in E.
  - unfold check. destruct (tasks p); simpl.
    + intros Hs Hin. rewrite Hs in Hin. apply Hst; [done|]. by eapply sleeping_insert.
    + intros Hs Hin. apply Hst; [done|]. by eapply sleeping_insert.
  - intros _ (w & Hw & Hin)%list_elem_of_fmap. by destruct w.
  - unfold check. by destruct (tasks p).
  - unfold check. destruct (tasks p) eqn:E; simpl; [by rewrite E|].
    intros _ _. left. by eapply busy_insert.
  - intros Ht Hs'. destruct (busy_or_away (workers p)) as [?|[?|Hx]]; [by left|done|].
    apply (all_exited_elem _ Hn), (cons_exit _ Hc) in Hx as [? _]. congruence.
  - intros _ Hs. apply Hal in Ha. congruence.
Qed.

Lemma attended_step p p' : attended p → pool_step p p' → attended p'.
Proof.
  intros Ha Hs. pose proof (conserved_step _ _ (att_conserved _ Ha) Hs) as Hc'.
  destruct Hs as [p p' Hw|p p' f Hq|p Hs|p i Hi]; [by eapply attended_work|..];
    destruct Ha as [Hc Hn Hst Hal Hta].
  - unfold enqueue in Hq. destruct (stop p) eqn:Es; simplify_eq.
    split; [done|exact Hn|simpl; congruence|simpl; intros ?%Hal; congruence|].
    intros _ _. by right.
  - split; done.
  - split; simpl; try done; [by apply insert_nonempty| |].
    + intros Hs Hin. apply Hst; [done|]. by eapply sleeping_insert.
    + intros _ _. left. by eapply busy_insert.
Qed.

Lemma attended_reachable n p :
  (0 < n)%nat → rtc pool_step (new_pool n) p → attended p.
Proof.
  intros Hn Hr. assert (Ha : attended (new_pool n)).
  { split; [apply conserved_new|by destruct n; [lia|]|done..]. }
  revert Ha. induction Hr as [|p q r Hs _ IH]; [done|]. eauto using attended_step.
Qed.

(** A pool in which something is left to do can move. *)
Lemma attended_moves p :
  attended p →
  (∃ p', work p p') ∨
  (tasks p = [] ∧ running (workers p) = [] ∧
   (stop p = true → Forall (λ w, w = Exited) (workers p))).
Proof.
  intros [Hc Hn Hst Hal Hta].
  assert (Hb : Exists busy (workers p) → ∃ p', work p p').
  { intros (w & Hin & Hw)%Exists_exists. apply list_elem_of_lookup in Hin as [i Hi].
    destruct w; [| done| |done]; eauto using work. }
  destruct (busy_or_away (workers p)) as [?|[Hsl|Hx]]; [left; auto| |].
  - destruct (stop p) eqn:Es; [left; eauto using work|].
    destruct (notify_one p) as [|n] eqn:En; cycle 1.
    { left. apply list_elem_of_lookup in Hsl as [i Hi]. eauto using work. }
    destruct (tasks p) as [|t ts]; [|left; apply Hb; by destruct Hta].
    destruct (running (workers p)) as [|t l] eqn:Er; [by right|left]. apply Hb.
    assert (Hin : t ∈ running (workers p)) by (rewrite Er; by left).
    apply list_elem_of_omap in Hin as (w & Hin & Hw). apply Exists_exists.
    exists w. split; [done|]. by destruct w.
  - right. split_and!; [by apply (cons_exit _ Hc), all_exited_elem| |done].
    clear -Hx. unfold running. induction Hx as [|w ws -> _ IH]; [done|]. exact IH.
Qed.

(** ** The workers come to rest *)

Definition weight (w : worker) : nat :=
  match w with Checking => 1 | Running _ => 2 | _ => 0 end.
Definition weights (ws : list worker) : nat := sum_list_with weight ws.

Definition work_left (p : pool) : nat :=
  2 * length (tasks p) + weights (workers p) + 2 * notify_one p +
  if notify_all p then S (length (workers p)) else 0.

Lemma weights_insert ws i w w' :
  ws !! i = Some w → (weights (<[i := w']> ws) + weight w = weights ws + weight w')%nat.
Proof.
  unfold weights. revert i. induction ws as [|x ws IH]; intros [|i] Hi; simplify_eq/=; [lia|].
  specialize (IH i Hi). lia.
Qed.

Lemma weights_wake ws : (weights (wake <$> ws) <= weights ws + length ws)%nat.
Proof.
  unfold weights. induction ws as [|w ws IH]; [simpl; lia|]. rewrite fmap_cons.
  destruct w; csimpl; lia.
Qed.

Lemma work_decreases p p' : work p p' → (work_left p' < work_left p)%nat.
Proof.
  unfold work_left. destruct 1 as [p i Hi|p i t Hi|p i n Hn Hi|p n Hn Hs|p Ha].
  - unfold check. destruct (tasks p) as [|t ts] eqn:Et; simpl; rewrite length_insert, ?Et.
    + pose proof (weights_insert _ _ _ (if stop p then Exited else Sleeping) Hi) as E.
      destruct (stop p); simpl in E |- *; lia.
    + pose proof (weights_insert _ _ _ (Running t) Hi) as E. simpl in E. lia.
  - simpl. rewrite length_insert. pose proof (weights_insert _ _ _ Checking Hi) as E. simpl in E. lia.
  - simpl. rewrite length_insert, Hn. pose proof (weights_insert _ _ _ Checking Hi) as E.
    simpl in E. lia.
  - simpl. lia.
  - simpl. rewrite Ha. pose proof (weights_wake (workers p)). lia.
Qed.

Lemma work_terminates p : sn work p.
Proof.
  remember (work_left p) as m eqn:Em. revert p Em.
  induction (lt_wf m) as [m _ IH]. intros p ->. constructor. intros p' Hw.
  eapply IH; [|done]. by apply work_decreases.
Qed.

(** ** Properties *)

(** Over every run of a pool, with clients enqueuing and stopping it and spurious
    wake-ups at any point: the tasks taken by the workers are a prefix of those
    accepted, in order, and each is finished or running, once. *)
Theorem pool_tasks_in_order n p :
  rtc pool_step (new_pool n) p →
  taken p ++ tasks p = accepted p ∧ taken p ≡ₚ finished p ++ running (workers p).
Proof.
  intros Hr. assert (Hc : conserved p).
  { pose proof (conserved_new n) as Hc. revert Hc. induction Hr as [|p q r Hs _ IH]; [done|].
    eauto using conserved_step. }
  split; apply Hc.
Qed.

(** C29: Left to themselves, with at least one worker, the workers come to rest, and
    only when every accepted task is finished. If the destructor has begun, all
    workers are gone then, so its joins return. *)
Theorem pool_finishes n p :
  (0 < n)%nat → rtc pool_step (new_pool n) p →
  sn work p ∧
  ∀ p', rtc work p p' → nf work p' →
    finished p' ≡ₚ accepted p ∧
    (stop p = true → Forall (λ w, w = Exited) (workers p')).
Proof.
  intros Hn Hr. split; [apply work_terminates|]. intros p' Hw Hnf.
  pose proof (attended_reachable n p Hn Hr) as Ha. clear Hr.
  assert (Hp' : attended p' ∧ accepted p' = accepted p ∧ stop p' = stop p).
  { clear Hnf. induction Hw as [|p q r Hs _ IH]; [done|].
    destruct IH as (? & -> & ->); [by eapply attended_work|].
    split; [done|]. destruct Hs; try done; unfold check; by destruct (tasks p). }
  destruct Hp' as (Ha' & <- & <-).
  destruct (attended_moves p' Ha') as [[p2 ?]|(Ht & Hru & Hex)]; [exfalso; apply Hnf; by exists p2|].
  split; [|done]. destruct (att_conserved _ Ha') as [Hf Hta _].
  by rewrite Ht, app_nil_r in Hf; rewrite Hru, app_nil_r in Hta; rewrite <-Hta, Hf.
Qed.

(** After the destructor has begun, [enqueue] throws. *)
Lemma enqueue_after_stop f p : stop p = true → enqueue f p = None.
Proof. intros Hs. unfold enqueue. by rewrite Hs. Qed.

End ThreadPool.

#[global] Arguments worker : clear implicits.
#[global] Arguments pool : clear implicits.

(** ** A concrete run *)

(** Two workers: one runs task 7, the other sleeps; task 8 was enqueued and the
    destructor began, and neither notification has been delivered. *)
Definition pool_0 : pool nat := new_pool 2.
Definition pool_1 : pool nat := check 1 pool_0.
Definition pool_2 : pool nat := default pool_1 (enqueue 7%nat pool_1).
Definition pool_3 : pool nat := check 0 pool_2.
Definition pool_4 : pool nat := default pool_3 (enqueue 8%nat pool_3).
Definition pool_5 : pool nat := set_stop pool_4.

Lemma pool_5_reachable : rtc pool_step (new_pool 2) pool_5.
Proof.
  apply (rtc_l _ _ pool_1); [by apply pool_work, work_check|].
  apply (rtc_l _ _ pool_2); [by apply (pool_enqueue _ _ 7%nat)|].
  apply (rtc_l _ _ pool_3); [by apply pool_work, work_check|].
  apply (rtc_l _ _ pool_4); [by apply (pool_enqueue _ _ 8%nat)|].
  apply rtc_once. by apply pool_stop.
Qed.

Lemma pool_tasks_in_order_witness :
  taken pool_5 ++ tasks pool_5 = accepted pool_5 ∧
  taken pool_5 ≡ₚ finished pool_5 ++ running (workers pool_5).
Proof. exact (pool_tasks_in_order 2 pool_5 pool_5_reachable). Defined.

Lemma pool_finishes_witness :
  workers pool_5 = [Running 7%nat; Sleeping] ∧ tasks pool_5 = [8%nat] ∧
  sn work pool_5 ∧
  ∀ p', rtc work pool_5 p' → nf work p' →
    finished p' ≡ₚ [7%nat; 8%nat] ∧
    (stop pool_5 = true → Forall (λ w, w = Exited) (workers p')).
Proof.
  split; [reflexivity|]. split; [reflexivity|].
  apply (pool_finishes 2 pool_5); [lia|exact pool_5_reachable].
Defined.
