(* ===== verification/EpollServer.v ===== *)
(** * EpollServer: the epoll server of claude/server.cpp

    [Connection] and [TcpServer] with the event loop, the tasks handed to the
    pool and the kernel objects they work on. The kernel is modelled by what the
    server relies on: [accept] returns a descriptor that is not open, closing a
    descriptor takes it out of the interest list, a descriptor registered with
    [EPOLLET] is reported once for each arrival, [recv] takes what is there up
    to the size asked for, [send] takes a prefix.

    The main thread and the workers interleave between any two of their calls
    that touch shared state; a [Connection] is destroyed, and its descriptor
    closed, when the last [shared_ptr] to it is dropped. *)

From S2P Require Import Prelude Bytes.

Definition MAX_EVENTS : nat := 64.
Definition MAX_BUFFER_SIZE : nat := 4096.

(** ** Kernel sockets *)

Record sock := mkSock {
  inbox : bytes;             (* received, not read *)
  peer_closed : bool;
  broken : bool;             (* a pending error such as ECONNRESET *)
  outbox : bytes }.          (* accepted for sending *)

#[export] Instance eta_sock : Eta sock := λ k,
  mkSock (inbox k) (peer_closed k) (broken k) (outbox k).

Inductive recv_result := Received (data : bytes) | Eof | Again | Failed.

Definition recv (len : nat) (k : sock) : recv_result * sock :=
  if (len =? 0)%nat then (Eof, k)
  else match inbox k with
       | _ :: _ => (Received (take len (inbox k)), k <| inbox := drop len (inbox k) |>)
       | [] => (if broken k then Failed else if peer_closed k then Eof else Again, k)
       end.

(** ** Connection *)

Record Connection := mkConn {
  sockfd : Z;
  readBuffer : bytes;
  bytesInBuffer : nat }.

#[export] Instance eta_Connection : Eta Connection := λ c,
  mkConn (sockfd c) (readBuffer c) (bytesInBuffer c).

Definition new_connection (fd : Z) : Connection := mkConn fd (vec_zero MAX_BUFFER_SIZE) 0.

Definition readData (c : Connection) (k : sock) : recv_result * Connection * sock :=
  let '(r, k') := recv (MAX_BUFFER_SIZE - bytesInBuffer c) k in
  match r with
  | Received data =>
      (r, c <| readBuffer := blit (bytesInBuffer c) data (readBuffer c) |>
            <| bytesInBuffer := (bytesInBuffer c + length data)%nat |>, k')
  | _ => (r, c, k')
  end.

(** [sendData]: the kernel takes [n] bytes; the count is returned to callers
    that ignore it. *)
Definition sendData (n : nat) (data : bytes) (k : sock) : sock :=
  k <| outbox := outbox k ++ take n data |>.

(** The C string at the start of a buffer. *)
Fixpoint c_str (bs : bytes) : bytes :=
  match bs with
  | [] => []
  | b :: bs' => if b =? 0 then [] else b :: c_str bs'
  end.

(** [processData]: nothing, a line printed, or a write behind the end of
    [readBuffer]. *)
Inductive processed := Nothing | Printed (line : bytes) | Overrun.

Definition processData (c : Connection) : processed * Connection :=
  if (0 <? bytesInBuffer c)%nat then
    if (bytesInBuffer c <? length (readBuffer c))%nat then
      let buf := <[bytesInBuffer c := 0]> (readBuffer c) in
      (Printed (c_str buf), c <| readBuffer := buf |> <| bytesInBuffer := 0%nat |>)
    else (Overrun, c <| bytesInBuffer := 0%nat |>)
  else (Nothing, c).

(** ** TcpServer: construction *)

Inductive ctor_call :=
| EpollCreate | Socket | SetSockOpt | SetNonBlocking | Bind | Listen | EpollAdd.

#[export] Instance ctor_call_eq_dec : EqDecision ctor_call.
Proof. solve_decision. Defined.

(** The constructor: [ok] says which system calls succeed; the result is the
    error thrown, if any, and the descriptors that are open afterwards. *)
Definition TcpServer (ok : ctor_call → bool) (epollFd serverFd : Z) (fds : gset Z) :
    option string * gset Z :=
  let opened := fds ∪ {[epollFd]} in
  let opened2 := opened ∪ {[serverFd]} in
  let closed2 := opened2 ∖ {[serverFd]} ∖ {[epollFd]} in
  if negb (ok EpollCreate) then (Some "Failed to create epoll instance", fds)
  else if negb (ok Socket) then (Some "Failed to create socket", opened ∖ {[epollFd]})
  else if negb (ok SetSockOpt) then (Some "Failed to set socket options", closed2)
  else if negb (ok SetNonBlocking) then (Some "Failed to set non-blocking mode", closed2)
  else if negb (ok Bind) then (Some "Failed to bind socket", closed2)
  else if negb (ok Listen) then (Some "Failed to listen on socket", closed2)
  else if negb (ok EpollAdd) then (Some "Failed to add server socket to epoll", closed2)
  else (None, opened2).

(** ** TcpServer: state *)

(** An entry of the vector filled by [epoll_wait]: the listening socket, or a
    client descriptor with [EPOLLIN] and with [EPOLLERR] or [EPOLLHUP]. *)
Inductive event := OnServer | OnFd (fd : Z) (ev_in ev_hup : bool).

Definition event_fd (e : event) : option Z :=
  match e with OnServer => None | OnFd fd _ _ => Some fd end.

(** Where the main thread is; [c] is the [shared_ptr] local to the handler and
    [evs] the events of the batch still to be handled. *)
Inductive main_pc :=
| MWait                                              (* while (running) *)
| MPoll                                              (* in epoll_wait *)
| MEvents (evs : list event)
| MRegister (c : nat) (evs : list event)             (* before epoll_ctl ADD *)
| MInsert (c : nat) (evs : list event)               (* before connections[fd] = c *)
| MWelcome (c : nat) (evs : list event)              (* before sendData *)
| MFound (c : nat) (fd : Z) (ev_in ev_hup : bool) (evs : list event)
| MDel (c : nat) (fd : Z) (evs : list event)         (* removeConnection(fd) *)
| MErase (c : nat) (fd : Z) (evs : list event)
| MReturned.

(** Where a worker is in the lambda of [handleExistingConnection]. *)
Inductive task_pc :=
| WIdle
| WRead (c : nat)
| WProcess (c : nat)
| WDel (c : nat)
| WErase (c : nat).

Record server := mkServer {
  running : bool;
  connections : gmap Z nat;
  objects : gmap nat Connection;      (* the live Connection objects *)
  tasks : list nat;                   (* queued lambdas, by the connection captured *)
  workers : list task_pc;
  main : main_pc;
  next_object : nat;
  backlog : list sock;                (* connections not accepted yet *)
  socks : gmap Z sock;                (* open client descriptors *)
  interest : gset Z;                  (* client descriptors registered with epoll *)
  ready : gset Z;                     (* ... to be reported *)
  printed : list processed }.

#[export] Instance eta_server : Eta server := λ s,
  mkServer (running s) (connections s) (objects s) (tasks s) (workers s) (main s) (next_object s)
    (backlog s) (socks s) (interest s) (ready s) (printed s).

Definition new_server (threadPoolSize : nat) : server :=
  mkServer true ∅ ∅ [] (replicate threadPoolSize WIdle) MWait 0 [] ∅ ∅ ∅ [].

(** ** shared_ptr: which objects are still referred to *)

Definition main_ref (m : main_pc) : list nat :=
  match m with
  | MRegister c _ | MInsert c _ | MWelcome c _ | MFound c _ _ _ _ | MDel c _ _ | MErase c _ _ => [c]
  | _ => []
  end.

Definition task_ref (w : task_pc) : list nat :=
  match w with WIdle => [] | WRead c | WProcess c | WDel c | WErase c => [c] end.

Definition refs (s : server) : list nat :=
  (map_to_list (connections s)).*2 ++ tasks s ++ (workers s ≫= task_ref) ++ main_ref (main s).

(** [~Connection] of every object no longer referred to: its descriptor is
    closed. *)
Definition dead (s : server) : gmap nat Connection := filter (λ e, e.1 ∉ refs s) (objects s).
Definition dead_fds (s : server) : gset Z := list_to_set (sockfd <$> (map_to_list (dead s)).*2).

Definition collect (s : server) : server :=
  s <| objects := filter (λ e, e.1 ∈ refs s) (objects s) |>
    <| socks := filter (λ e, e.1 ∉ dead_fds s) (socks s) |>
    <| interest := interest s ∖ dead_fds s |>
    <| ready := ready s ∖ dead_fds s |>.

(** ** The main thread *)

Definition welcomeMsg : bytes := lit "Welcome to the high performance TCP server!" ++ [10].

(** [accept] succeeded with descriptor [fd]; [make_shared<Connection>]. *)
Definition accepted (fd : Z) (k : sock) (rest : list sock) (evs : list event) (s : server) : server :=
  s <| backlog := rest |> <| socks := <[fd := k]> (socks s) |>
    <| objects := <[next_object s := new_connection fd]> (objects s) |>
    <| next_object := S (next_object s) |>
    <| main := MRegister (next_object s) evs |>.

Definition object_fd (s : server) (c : nat) : Z :=
  match objects s !! c with Some o => sockfd o | None => -1 end.

(** A registration reports what is there already. *)
Definition pending_input (k : sock) : bool :=
  bool_decide (inbox k ≠ []) || peer_closed k || broken k.

Definition epoll_add (fd : Z) (s : server) : server :=
  s <| interest := interest s ∪ {[fd]} |>
    <| ready := if default false (pending_input <$> socks s !! fd) then ready s ∪ {[fd]} else ready s |>.

Definition epoll_del (fd : Z) (s : server) : server :=
  s <| interest := interest s ∖ {[fd]} |> <| ready := ready s ∖ {[fd]} |>.

Definition erase (fd : Z) (s : server) : server := s <| connections := delete fd (connections s) |>.

Definition send_to (fd : Z) (n : nat) (data : bytes) (s : server) : server :=
  s <| socks := alter (sendData n data) fd (socks s) |>.

Definition enqueue (c : nat) (s : server) : server := s <| tasks := tasks s ++ [c] |>.

Definition after_input (c : nat) (fd : Z) (ev_hup : bool) (evs : list event) : main_pc :=
  if ev_hup then MDel c fd evs else MEvents evs.

(** [Connection::broadcast]: the kernel takes [n fd] bytes on each descriptor. *)
Definition broadcast (n : Z → nat) (data : bytes) (s : server) : server :=
  s <| socks := map_imap (λ fd k, Some
         (if bool_decide (is_Some (connections s !! fd)) then sendData (n fd) data k else k))
       (socks s) |>.

Definition stop (s : server) : server := s <| running := false |> <| connections := ∅ |>.

Definition wait_allowed (evs : list event) (s : server) : Prop :=
  (length evs <= MAX_EVENTS)%nat ∧ NoDup (event_fd <$> evs) ∧
  Forall (λ e, match e with
               | OnServer => backlog s ≠ []
               | OnFd fd _ _ => fd ∈ ready s
               end) evs.

Definition reported (evs : list event) : gset Z := list_to_set (omap event_fd evs).

Inductive main_step : server → server → Prop :=
| main_enter s :
    main s = MWait → running s = true → main_step s (s <| main := MPoll |>)
| main_wait s evs :
    main s = MPoll → wait_allowed evs s →
    main_step s (s <| ready := ready s ∖ reported evs |> <| main := MEvents evs |>)
| main_leave s :
    main s = MWait → running s = false → main_step s (s <| main := MReturned |>)
| main_loop s : main s = MEvents [] → main_step s (s <| main := MWait |>)
(* handleNewConnection *)
| main_accept s fd k rest evs :
    main s = MEvents (OnServer :: evs) → backlog s = k :: rest → socks s !! fd = None →
    main_step s (accepted fd k rest evs s)
| main_accept_fails s evs :
    main s = MEvents (OnServer :: evs) → main_step s (s <| main := MEvents evs |>)
| main_add s c evs :
    main s = MRegister c evs →
    main_step s (epoll_add (object_fd s c) s <| main := MInsert c evs |>)
| main_add_fails s c evs :
    main s = MRegister c evs → main_step s (s <| main := MEvents evs |>)
| main_insert s c evs :
    main s = MInsert c evs →
    main_step s (s <| connections := <[object_fd s c := c]> (connections s) |>
                   <| main := MWelcome c evs |>)
| main_welcome s c n evs :
    main s = MWelcome c evs →
    main_step s (send_to (object_fd s c) n welcomeMsg s <| main := MEvents evs |>)
(* handleExistingConnection *)
| main_unknown s fd i h evs :
    main s = MEvents (OnFd fd i h :: evs) → connections s !! fd = None →
    main_step s (s <| main := MEvents evs |>)
| main_found s fd c i h evs :
    main s = MEvents (OnFd fd i h :: evs) → connections s !! fd = Some c →
    main_step s (s <| main := MFound c fd i h evs |>)
| main_enqueue s c fd i h evs :
    main s = MFound c fd i h evs →
    main_step s ((if i then enqueue c s else s) <| main := after_input c fd h evs |>)
| main_del s c fd evs :
    main s = MDel c fd evs → main_step s (epoll_del fd s <| main := MErase c fd evs |>)
| main_erase s c fd evs :
    main s = MErase c fd evs → main_step s (erase fd s <| main := MEvents evs |>).

(** ** The workers *)

Definition set_worker (i : nat) (w : task_pc) (s : server) : server :=
  s <| workers := <[i := w]> (workers s) |>.

(** [connection->readData()] and the choice of branch. *)
Definition task_read (i c : nat) (s : server) : server :=
  match objects s !! c with
  | None => s
  | Some o =>
      match socks s !! sockfd o with
      | None => s
      | Some k =>
          let '(r, o', k') := readData o k in
          set_worker i
            match r with Received _ => WProcess c | Again => WIdle | Eof | Failed => WDel c end
            (s <| objects := <[c := o']> (objects s) |> <| socks := <[sockfd o := k']> (socks s) |>)
      end
  end.

Definition task_process (i c : nat) (s : server) : server :=
  match objects s !! c with
  | None => s
  | Some o =>
      let '(p, o') := processData o in
      set_worker i WIdle
        (s <| objects := <[c := o']> (objects s) |> <| printed := printed s ++ [p] |>)
  end.

Inductive worker_step (i : nat) : server → server → Prop :=
| worker_take s c rest :
    workers s !! i = Some WIdle → tasks s = c :: rest →
    worker_step i s (set_worker i (WRead c) (s <| tasks := rest |>))
| worker_read s c :
    workers s !! i = Some (WRead c) → worker_step i s (task_read i c s)
| worker_process s c :
    workers s !! i = Some (WProcess c) → worker_step i s (task_process i c s)
| worker_del s c :
    workers s !! i = Some (WDel c) →
    worker_step i s (set_worker i (WErase c) (epoll_del (object_fd s c) s))
| worker_erase s c :
    workers s !! i = Some (WErase c) →
    worker_step i s (set_worker i WIdle (erase (object_fd s c) s)).

(** ** Peers and callers *)

Definition arrival (fd : Z) (f : sock → sock) (s : server) : server :=
  s <| socks := alter f fd (socks s) |>
    <| ready := if bool_decide (fd ∈ interest s) then ready s ∪ {[fd]} else ready s |>.

Inductive env_step : server → server → Prop :=
| env_connect s k : outbox k = [] → env_step s (s <| backlog := backlog s ++ [k] |>)
| env_data s fd bs :
    is_Some (socks s !! fd) →
    env_step s (arrival fd (λ k, k <| inbox := inbox k ++ bs |>) s)
| env_closed s fd :
    is_Some (socks s !! fd) → env_step s (arrival fd (λ k, k <| peer_closed := true |>) s)
| env_broken s fd :
    is_Some (socks s !! fd) → env_step s (arrival fd (λ k, k <| broken := true |>) s)
| env_broadcast s n data : env_step s (broadcast n data s)
| env_stop s : env_step s (stop s).

Inductive epoll_step : server → server → Prop :=
| epoll_main s s' : main_step s s' → epoll_step s (collect s')
| epoll_worker s i s' : worker_step i s s' → epoll_step s (collect s')
| epoll_env s s' : env_step s s' → epoll_step s (collect s').
