(* ===== verification/EpollServerProps.v ===== *)
(** * EpollServerProps: descriptors, reads and events of the epoll server

    - descriptors: every open client descriptor belongs to exactly one live
      [Connection], which someone refers to; a worker that removes "its"
      connection can only remove that one, although descriptors are reused;
    - an event of a batch can be stale by the time it is handled, and then a new
      client is dropped for what happened to an old one;
    - a read prints what arrived, unless it fills the buffer;
    - after [stop] the event loop returns, unless it is in [epoll_wait], from
      where it still serves one batch;
    - the constructor leaks no descriptor on any of its error paths. *)

From S2P Require Import Prelude Bytes EpollServer.

(** ** The constructor *)

(** The descriptors returned by the system are new ones. Every failing call
    throws, and leaves open what was open before; success opens two. *)
Theorem ctor_closes_on_error ok epollFd serverFd fds :
  epollFd ∉ fds → serverFd ∉ fds → epollFd ≠ serverFd →
  match TcpServer ok epollFd serverFd fds with
  | (Some _, fds') => fds' = fds ∧ ∃ call, ok call = false
  | (None, fds') => fds' = fds ∪ {[epollFd; serverFd]} ∧ ∀ call, ok call = true
  end.
Proof.
  intros He Hs Hne. unfold TcpServer.
  assert (H1 : (fds ∪ {[epollFd]}) ∖ {[epollFd]} = fds) by set_solver.
  assert (H2 : (fds ∪ {[epollFd]} ∪ {[serverFd]}) ∖ {[serverFd]} ∖ {[epollFd]} = fds) by set_solver.
  rewrite H1, H2.
  destruct (ok EpollCreate) eqn:E1; [|simpl; by eauto]. destruct (ok Socket) eqn:E2; [|simpl; by eauto].
  destruct (ok SetSockOpt) eqn:E3; [|simpl; by eauto]. destruct (ok SetNonBlocking) eqn:E4; [|simpl; by eauto].
  destruct (ok Bind) eqn:E5; [|simpl; by eauto]. destruct (ok Listen) eqn:E6; [|simpl; by eauto].
  destruct (ok EpollAdd) eqn:E7; [|simpl; by eauto]. simpl.
  split; [set_solver|]. by intros [].
Qed.

Lemma ctor_closes_on_error_witness :
  TcpServer (λ c, negb (bool_decide (c = Bind))) 4 5 ({[3]} : gset Z) =
    (Some "Failed to bind socket", {[3]}).
Proof.
  pose proof (ctor_closes_on_error (λ c, negb (bool_decide (c = Bind))) 4 5 ({[3]} : gset Z)
    ltac:(set_solver) ltac:(set_solver) ltac:(lia)) as H.
  destruct (TcpServer _ 4 5 {[3]}) as [[e|] fds'] eqn:E; [|by destruct H as [_ H]; specialize (H Bind)].
  destruct H as [-> _]. by inversion E.
Defined.

(** ** Ownership of descriptors *)

(** The descriptor of each live object. *)
Definition fd_of (s : server) : gmap nat Z := sockfd <$> objects s.

Definition main_fd (m : main_pc) : option (nat * Z) :=
  match m with
  | MFound c fd _ _ _ | MDel c fd _ | MErase c fd _ => Some (c, fd)
  | _ => None
  end.

Record owned (s : server) : Prop := {
  ow_map fd c : connections s !! fd = Some c → fd_of s !! c = Some fd;
  ow_open fd : fd ∈ dom (socks s) ↔ ∃ c, fd_of s !! c = Some fd;
  ow_inj c c' fd : fd_of s !! c = Some fd → fd_of s !! c' = Some fd → c = c';
  ow_tasks c : c ∈ tasks s → is_Some (fd_of s !! c);
  ow_workers w c : w ∈ workers s → c ∈ task_ref w → is_Some (fd_of s !! c);
  ow_main c : c ∈ main_ref (main s) → is_Some (fd_of s !! c);
  ow_main_fd c fd : main_fd (main s) = Some (c, fd) → fd_of s !! c = Some fd;
  ow_next c : is_Some (fd_of s !! c) → (c < next_object s)%nat }.

Lemma object_fd_of s c fd : fd_of s !! c = Some fd → object_fd s c = fd.
Proof.
  unfold fd_of, object_fd. rewrite lookup_fmap. by destruct (objects s !! c); intros [= <-].
Qed.

Lemma object_fd_live s c : is_Some (fd_of s !! c) → fd_of s !! c = Some (object_fd s c).
Proof. intros [fd Hfd]. by rewrite (object_fd_of s c fd Hfd). Qed.

(** Steps that create and destroy nothing. *)
Lemma owned_same s s' :
  owned s → fd_of s' = fd_of s → dom (socks s') = dom (socks s) →
  next_object s' = next_object s →
  (∀ fd c, connections s' !! fd = Some c → fd_of s !! c = Some fd) →
  (∀ c, c ∈ tasks s' → is_Some (fd_of s !! c)) →
  (∀ w c, w ∈ workers s' → c ∈ task_ref w → is_Some (fd_of s !! c)) →
  (∀ c, c ∈ main_ref (main s') → is_Some (fd_of s !! c)) →
  (∀ c fd, main_fd (main s') = Some (c, fd) → fd_of s !! c = Some fd) → owned s'.
Proof.
  intros Ho Hf Hd Hn Hm Ht Hw Hr Hmf. split; rewrite ?Hf, ?Hd, ?Hn; try done; apply Ho.
Qed.

Lemma refs_live s c : owned s → c ∈ refs s → is_Some (fd_of s !! c).
Proof.
  intros Ho. unfold refs. rewrite !elem_of_app. intros [Hc|[Hc|[Hc|Hc]]].
  - apply list_elem_of_fmap in Hc as ([fd c'] & -> & Hin). apply elem_of_map_to_list in Hin.
    eexists. by eapply ow_map.
  - by eapply ow_tasks.
  - apply list_elem_of_bind in Hc as (w & Hc & Hw). by eapply ow_workers.
  - by eapply ow_main.
Qed.

(** Destroying the objects nobody refers to. *)
Lemma collect_fd s c fd :
  fd_of (collect s) !! c = Some fd ↔ fd_of s !! c = Some fd ∧ c ∈ refs s.
Proof.
  unfold fd_of, collect. simpl. rewrite !lookup_fmap, map_lookup_filter.
  destruct (objects s !! c) as [o|]; simpl; [|naive_solver].
  case_guard; simpl; naive_solver.
Qed.

Lemma elem_dead_fds s fd :
  fd ∈ dead_fds s ↔ ∃ c, fd_of s !! c = Some fd ∧ c ∉ refs s.
Proof.
  unfold dead_fds, dead, fd_of. rewrite elem_of_list_to_set, list_elem_of_fmap. split.
  - intros (o & -> & ([c o'] & -> & Hin)%list_elem_of_fmap).
    apply elem_of_map_to_list, map_lookup_filter_Some in Hin as [Hl Hn]. simpl in *.
    exists c. by rewrite lookup_fmap, Hl.
  - intros (c & Hl & Hn). rewrite lookup_fmap in Hl.
    destruct (objects s !! c) as [o|] eqn:Ho; simplify_eq/=. exists o. split; [done|].
    apply list_elem_of_fmap. exists (c, o). split; [done|].
    apply elem_of_map_to_list, map_lookup_filter_Some. done.
Qed.

Lemma owned_collect s : owned s → owned (collect s).
Proof.
  intros Ho. assert (Hlive : ∀ c, is_Some (fd_of s !! c) → c ∈ refs s → is_Some (fd_of (collect s) !! c)).
  { intros c [fd Hfd] Hr. exists fd. by apply collect_fd. }
  split.
  - intros fd c Hc. simpl in Hc. apply collect_fd. split; [by apply (ow_map _ Ho)|].
    unfold refs. apply elem_of_app. left. apply list_elem_of_fmap. exists (fd, c).
    split; [done|]. by apply elem_of_map_to_list.
  - intros fd. assert (Hd : fd ∈ dom (socks (collect s)) ↔ fd ∈ dom (socks s) ∧ fd ∉ dead_fds s).
    { rewrite !elem_of_dom. unfold is_Some, collect. simpl.
      setoid_rewrite map_lookup_filter_Some. naive_solver. }
    rewrite Hd, (ow_open _ Ho), elem_dead_fds. split.
    + intros [[c Hc] Hn]. exists c. apply collect_fd. split; [done|].
      destruct (decide (c ∈ refs s)); [done|]. exfalso. apply Hn. by exists c.
    + intros [c [Hc Hr]%collect_fd]. split; [by exists c|]. intros (c' & Hc' & Hn).
      by rewrite (ow_inj _ Ho c' c fd Hc' Hc) in Hn.
  - intros c c' fd [Hc _]%collect_fd [Hc' _]%collect_fd. by apply (ow_inj _ Ho c c' fd).
  - intros c Hc. apply Hlive; [by apply (ow_tasks _ Ho)|]. unfold refs. rewrite !elem_of_app. auto.
  - intros w c Hw Hc. apply Hlive; [by eapply (ow_workers _ Ho)|]. unfold refs. rewrite !elem_of_app.
    right. right. left. apply list_elem_of_bind. by exists w.
  - intros c Hc. apply Hlive; [by apply (ow_main _ Ho)|]. unfold refs. rewrite !elem_of_app. auto.
  - intros c fd Hm. apply collect_fd. split; [by apply (ow_main_fd _ Ho)|].
    unfold refs. rewrite !elem_of_app. right. right. right.
    simpl in Hm. destruct (main s); simplify_eq/=; by left.
  - intros c [fd [Hc _]%collect_fd]. apply (ow_next _ Ho). by exists fd.
Qed.

(** ** The steps preserve ownership *)

Lemma owned_accept s fd k rest evs :
  owned s → socks s !! fd = None → owned (accepted fd k rest evs s).
Proof.
  intros Ho Hfd. set (n := next_object s).
  assert (Hf : fd_of (accepted fd k rest evs s) = <[n := fd]> (fd_of s)).
  { unfold fd_of, accepted. simpl. by rewrite fmap_insert. }
  assert (Hfresh : fd_of s !! n = None).
  { destruct (fd_of s !! n) eqn:E; [|done].
    assert (Hlt : (n < next_object s)%nat) by (apply (ow_next _ Ho); by rewrite E). unfold n in Hlt. lia. }
  assert (Hunused : ∀ c, fd_of s !! c ≠ Some fd).
  { intros c Hc. assert (Hin : fd ∈ dom (socks s)) by (apply (ow_open _ Ho); by exists c).
    apply elem_of_dom in Hin as [? ?]. congruence. }
  assert (Hold : ∀ c, is_Some (fd_of s !! c) → is_Some (<[n := fd]> (fd_of s) !! c)).
  { intros c Hc. apply lookup_insert_is_Some'. by right. }
  split; rewrite ?Hf; simpl.
  - intros fd' c Hc. apply (ow_map _ Ho) in Hc. rewrite lookup_insert_ne; [done|]. congruence.
  - intros fd'. rewrite dom_insert, elem_of_union, elem_of_singleton, (ow_open _ Ho). split.
    + intros [->|[c Hc]]; [exists n; apply lookup_insert_eq|].
      exists c. rewrite lookup_insert_ne; [done|]. congruence.
    + intros [c Hc]. apply lookup_insert_Some in Hc as [[_ ?]|[_ Hc]]; [by left|right; by exists c].
  - intros c c' fd'. rewrite !lookup_insert_Some.
    intros [[? ?]|[? H1]] [[? ?]|[? H2]]; subst; try done; try by destruct (Hunused _ H1).
    + by destruct (Hunused _ H2).
    + by eapply (ow_inj _ Ho).
  - intros c Hc. by apply Hold, (ow_tasks _ Ho).
  - intros w c Hw Hc. by eapply Hold, (ow_workers _ Ho).
  - intros c ->%list_elem_of_singleton. eexists. apply lookup_insert_eq.
  - done.
  - intros c Hc. apply lookup_insert_is_Some' in Hc as [<-|Hc]; [unfold n; lia|].
    apply (ow_next _ Ho) in Hc. lia.
Qed.

Lemma owned_enqueue s c fd i h evs :
  owned s → main s = MFound c fd i h evs →
  owned ((if i then enqueue c s else s) <| main := after_input c fd h evs |>).
Proof.
  intros Ho Hm. assert (Hc : fd_of s !! c = Some fd) by (apply (ow_main_fd _ Ho); by rewrite Hm).
  apply (owned_same s); try done; try (destruct i; done).
  - intros fd' c' Hc'. apply (ow_map _ Ho). by destruct i.
  - intros c' Hc'. destruct i; simpl in Hc'; [|by apply (ow_tasks _ Ho)].
    apply elem_of_app in Hc' as [?| ->%list_elem_of_singleton]; [by apply (ow_tasks _ Ho)|eauto].
  - intros w c' Hw. apply (ow_workers _ Ho). by destruct i.
  - intros c' Hc'. destruct h; simpl in Hc'; [|by apply not_elem_of_nil in Hc'].
    apply list_elem_of_singleton in Hc' as ->. eauto.
  - intros c' fd' E. destruct h; simpl in E; congruence.
Qed.

Lemma owned_erase s fd :
  owned s → ∀ fd' c, delete fd (connections s) !! fd' = Some c → fd_of s !! c = Some fd'.
Proof. intros Ho fd' c [_ Hc]%lookup_delete_Some. by apply (ow_map _ Ho). Qed.

Lemma owned_main s s' : owned s → main_step s s' → owned s'.
Proof.
  intros Ho Hs.
  assert (Hmain : ∀ c, c ∈ main_ref (main s) → is_Some (fd_of s !! c)) by apply Ho.
  assert (Hmfd : ∀ c fd, main_fd (main s) = Some (c, fd) → fd_of s !! c = Some fd) by apply Ho.
  destruct Hs as [s Hm|s evs Hm|s Hm|s Hm|s fd k rest evs Hm Hb Hn|s evs Hm|s c evs Hm|s c evs Hm|s c evs Hm
    |s c n evs Hm|s fd i h evs Hm Hc|s fd c i h evs Hm Hc|s c fd i h evs Hm|s c fd evs Hm|s c fd evs Hm];
    rewrite Hm in Hmain, Hmfd; simpl in Hmain, Hmfd.
  5: by apply owned_accept.
  12: by apply owned_enqueue.
  all: apply (owned_same s); try done; simpl; try apply Ho; try (by intros ? ?%not_elem_of_nil).
  - intros fd c'. rewrite lookup_insert_Some. intros [[<- <-]|[_ Hc]]; [|by apply (ow_map _ Ho)].
    apply object_fd_live, Hmain. by left.
  - apply dom_alter_L.
  - intros c' ->%list_elem_of_singleton. exists fd. by apply (ow_map _ Ho).
  - intros c' fd' [= <- <-]. by apply (ow_map _ Ho).
  - by apply owned_erase.
Qed.

Lemma owned_set_worker s (i : nat) w :
  owned s → (∀ c, c ∈ task_ref w → is_Some (fd_of s !! c)) →
  ∀ w' c, w' ∈ <[i := w]> (workers s) → c ∈ task_ref w' → is_Some (fd_of s !! c).
Proof.
  intros Ho Hw w' c Hin. apply list_elem_of_lookup in Hin as [j Hj].
  apply list_lookup_insert_Some in Hj as [(-> & <- & _)|[_ Hj]]; [apply Hw|].
  apply (ow_workers _ Ho). by apply list_elem_of_lookup_2 in Hj.
Qed.

Lemma fd_of_update s c o o' :
  objects s !! c = Some o → sockfd o' = sockfd o →
  sockfd <$> <[c := o']> (objects s) = fd_of s.
Proof.
  intros Hc Hfd. unfold fd_of. rewrite fmap_insert, Hfd. apply insert_id.
  by rewrite lookup_fmap, Hc.
Qed.

Lemma readData_fd o k r o' k' : readData o k = (r, o', k') → sockfd o' = sockfd o.
Proof.
  unfold readData. destruct (recv _ k) as [[] ?]; intros E; by simplify_eq/=.
Qed.

Lemma processData_fd o p o' : processData o = (p, o') → sockfd o' = sockfd o.
Proof.
  unfold processData. destruct (0 <? _)%nat; [destruct (_ <? _)%nat|]; intros E; by simplify_eq/=.
Qed.

Lemma owned_worker s i s' : owned s → worker_step i s s' → owned s'.
Proof.
  intros Ho Hs.
  assert (Hw : ∀ w c, workers s !! i = Some w → c ∈ task_ref w → is_Some (fd_of s !! c)).
  { intros w c Hi. apply (ow_workers _ Ho). by apply list_elem_of_lookup_2 in Hi. }
  destruct Hs as [s c rest Hi Ht|s c Hi|s c Hi|s c Hi|s c Hi].
  - apply (owned_same s); try done; simpl; try apply Ho.
    + intros c' Hc'. apply (ow_tasks _ Ho). rewrite Ht. by right.
    + apply owned_set_worker; [done|]. intros c' ->%list_elem_of_singleton.
      apply (ow_tasks _ Ho). rewrite Ht. by left.
  - unfold task_read. destruct (objects s !! c) as [o|] eqn:Eo; [|done].
    destruct (socks s !! sockfd o) as [k|] eqn:Ek; [|done].
    destruct (readData o k) as [[r o'] k'] eqn:Er.
    apply (owned_same s); try done; simpl; try apply Ho.
    + eapply fd_of_update; [done|]. by eapply readData_fd.
    + rewrite dom_insert_L. apply elem_of_dom_2 in Ek. set_solver.
    + apply owned_set_worker; [done|]. intros c' Hc'. apply (Hw _ _ Hi).
      destruct r; simpl in Hc'; try done. by apply not_elem_of_nil in Hc'.
  - unfold task_process. destruct (objects s !! c) as [o|] eqn:Eo; [|done].
    destruct (processData o) as [p o'] eqn:Er.
    apply (owned_same s); try done; simpl; try apply Ho.
    + eapply fd_of_update; [done|]. by eapply processData_fd.
    + apply owned_set_worker; [done|]. by intros c' Hc'%not_elem_of_nil.
  - apply (owned_same s); try done; simpl; try apply Ho.
    apply owned_set_worker; [done|]. intros c' Hc'. by apply (Hw _ _ Hi).
  - apply (owned_same s); try done; simpl; try apply Ho.
    + by apply owned_erase.
    + apply owned_set_worker; [done|]. by intros c' Hc'%not_elem_of_nil.
Qed.

Lemma owned_env s s' : owned s → env_step s s' → owned s'.
Proof.
  intros Ho Hs. destruct Hs; apply (owned_same s); try done; simpl; try apply Ho;
    try apply dom_alter_L.
  apply dom_imap_L. intros fd. split; [|intros (k & Hk & _); by apply elem_of_dom].
  intros [k Hk]%elem_of_dom. exists k. split; [done|]. by destruct (bool_decide _).
Qed.

Lemma owned_reachable n s : rtc epoll_step (new_server n) s → owned s.
Proof.
  intros Hr. assert (H0 : owned (new_server n)).
  { split; simpl; try done.
    - intros fd. unfold fd_of. simpl. rewrite dom_empty. setoid_rewrite lookup_fmap.
      setoid_rewrite lookup_empty. set_solver.
    - by intros c ?%not_elem_of_nil.
    - intros w c [-> _]%elem_of_replicate. by intros ?%not_elem_of_nil.
    - by intros c ?%not_elem_of_nil.
    - by intros c [? ?]. }
  revert H0. induction Hr as [|s1 s2 s3 Hs _ IH]; [done|]. intros Ho. apply IH.
  destruct Hs; apply owned_collect; eauto using owned_main, owned_worker, owned_env.
Qed.

(** C30: Over every interleaving of the event loop, the workers, the peers and the
    callers: the open client descriptors are those of the live connections, each
    of one; every live connection is referred to by the map, a task or a
    handler, so none stays open unreachable; and the map files each connection
    under its own descriptor. *)
Theorem epoll_descriptors_owned n s :
  rtc epoll_step (new_server n) s →
  (∀ fd, fd ∈ dom (socks s) ↔ ∃ c, fd_of s !! c = Some fd) ∧
  (∀ c c' fd, fd_of s !! c = Some fd → fd_of s !! c' = Some fd → c = c') ∧
  (∀ c, is_Some (fd_of s !! c) → c ∈ refs s) ∧
  (∀ fd c, connections s !! fd = Some c → fd_of s !! c = Some fd).
Proof.
  intros Hr. pose proof (owned_reachable n s Hr) as Ho.
  split_and!; [apply Ho|apply Ho| |apply Ho]. clear Ho.
  destruct (rtc_inv_r _ _ Hr) as [<-|(s0 & _ & Hs)]; [by intros c [? ?]|].
  intros c [fd Hc]. destruct Hs; apply collect_fd in Hc as [_ Hc]; exact Hc.
Qed.


(** ** Reading *)

Lemma c_str_app bs rest : c_str (bs ++ 0 :: rest) = c_str bs.
Proof. induction bs as [|b bs IH]; simpl; [done|]. by rewrite IH. Qed.

Lemma read_process o k :
  bytesInBuffer o = 0%nat → length (readBuffer o) = MAX_BUFFER_SIZE → inbox k ≠ [] →
  ∃ o1, readData o k =
      (Received (take MAX_BUFFER_SIZE (inbox k)), o1, k <| inbox := drop MAX_BUFFER_SIZE (inbox k) |>) ∧
    (processData o1).1 =
      if (length (inbox k) <? MAX_BUFFER_SIZE)%nat then Printed (c_str (inbox k)) else Overrun.
Proof.
  intros Hb Hl Hin. unfold readData, recv. rewrite Hb, Nat.sub_0_r.
  set (m := MAX_BUFFER_SIZE) in *.
  assert (Hm : (0 < m)%nat) by (apply Nat.ltb_lt; vm_compute; reflexivity). clearbody m.
  rewrite (proj2 (Nat.eqb_neq m 0)) by lia.
  destruct (inbox k) as [|b bs] eqn:E; [done|]. rewrite <-E in *.
  eexists. split; [done|]. unfold processData. cbn [bytesInBuffer readBuffer field_upd].
  assert (Hpos : (0 < length (inbox k))%nat) by (rewrite E; simpl; lia).
  rewrite Nat.add_0_l, length_take.
  assert (Hblit : length (blit 0 (take m (inbox k)) (readBuffer o)) = m).
  { rewrite blit_length; [done|]. unfold blit_ok. apply Nat.leb_le. rewrite length_take. lia. }
  rewrite Hblit, (proj2 (Nat.ltb_lt 0 _)) by lia.
  destruct (Nat.ltb_spec (length (inbox k)) m) as [Hlt|Hge].
  - rewrite (proj2 (Nat.ltb_lt _ _)) by lia. cbn [fst]. f_equal.
    rewrite Nat.min_r, take_ge by lia. unfold blit. simpl.
    rewrite insert_app_r_alt, Nat.sub_diag by lia.
    destruct (drop (length (inbox k)) (readBuffer o)) as [|x r] eqn:Ed.
    { apply (f_equal length) in Ed. rewrite length_drop in Ed. simpl in Ed. lia. }
    apply c_str_app.
  - by rewrite (proj2 (Nat.ltb_ge _ _)) by lia.
Qed.

(** One task of a worker on a connection with an empty buffer and input waiting:
    it reads once. Fewer than 4096 bytes are printed, up to the first zero byte;
    4096 bytes or more make [processData] write behind the end of the buffer.
    What is beyond 4096 bytes stays in the socket with no event left to report
    it. *)
Theorem epoll_read_outcome s i c o k :
  workers s !! i = Some (WRead c) → objects s !! c = Some o → socks s !! sockfd o = Some k →
  bytesInBuffer o = 0%nat → length (readBuffer o) = MAX_BUFFER_SIZE → inbox k ≠ [] →
  let s1 := task_read i c s in
  let s2 := task_process i c s1 in
  workers s1 !! i = Some (WProcess c) ∧ workers s2 !! i = Some WIdle ∧
  printed s2 = printed s ++
    [if (length (inbox k) <? MAX_BUFFER_SIZE)%nat then Printed (c_str (inbox k)) else Overrun] ∧
  (inbox <$> socks s2 !! sockfd o) = Some (drop MAX_BUFFER_SIZE (inbox k)) ∧
  ready s2 = ready s ∧ tasks s2 = tasks s.
Proof.
  intros Hw Ho Hk Hb Hl Hin. destruct (read_process o k Hb Hl Hin) as (o1 & Hr & Hp).
  pose proof (lookup_lt_Some _ _ _ Hw) as Hi.
  cbv zeta. unfold task_process, task_read. rewrite Ho, Hk, Hr. simpl.
  rewrite lookup_insert_eq. destruct (processData o1) as [p o2] eqn:Ep. simpl in Hp. subst p. simpl.
  split_and!; try done.
  - by apply list_lookup_insert_eq.
  - apply list_lookup_insert_eq. by rewrite length_insert.
  - by rewrite lookup_insert_eq.
Qed.

(** ** Stopping *)

(** The main thread alone. *)
Definition main_run (s s' : server) : Prop := ∃ t, main_step s t ∧ s' = collect t.

(** How many steps the main thread can still take before it looks at [running]
    again, plus one. *)
Definition steps_left (m : main_pc) : nat :=
  match m with
  | MReturned | MPoll => 0
  | MWait => 1
  | MEvents evs => 2 + 6 * length evs
  | MWelcome _ evs | MErase _ _ evs => 3 + 6 * length evs
  | MInsert _ evs | MDel _ _ evs => 4 + 6 * length evs
  | MRegister _ evs | MFound _ _ _ _ evs => 5 + 6 * length evs
  end.

(** The server was stopped and the main thread is not in [epoll_wait]. *)
Definition leaving (s : server) : Prop := running s = false ∧ main s ≠ MPoll.

Lemma leaving_run s s' :
  leaving s → main_run s s' → leaving s' ∧ (steps_left (main s') < steps_left (main s))%nat.
Proof.
  intros [Hr Hp] (t & Hs & ->). unfold leaving.
  destruct Hs as [s Hm Hr'|s evs Hm|s Hm|s Hm|s fd k rest evs Hm|s evs Hm|s c evs Hm|s c evs Hm|s c evs Hm
    |s c n evs Hm|s fd i h evs Hm Hc|s fd c i h evs Hm Hc|s c fd i h evs Hm|s c fd evs Hm|s c fd evs Hm];
    simpl; rewrite Hm; simpl; try congruence; try (split; [split; [done|discriminate]|lia]).
  destruct i, h; simpl; (split; [split; [done|discriminate]|lia]).
Qed.

(** It is never stuck before it has returned. *)
Lemma leaving_progress s : leaving s → main s = MReturned ∨ ∃ s', main_run s s'.
Proof.
  intros [Hr Hp].
  assert (Hgo : ∀ t, main_step s t → main s = MReturned ∨ ∃ s', main_run s s')
    by (intros t Ht; right; exists (collect t); by exists t).
  destruct (main s) as [| |[|[|fd i h] evs]|c evs|c evs|c evs|c fd i h evs|c fd evs|c fd evs|] eqn:Hm.
  - by eapply Hgo, main_leave.
  - done.
  - by eapply Hgo, main_loop.
  - by eapply Hgo, main_accept_fails.
  - destruct (connections s !! fd) as [c|] eqn:Hc; [by eapply Hgo, main_found|by eapply Hgo, main_unknown].
  - by eapply Hgo, main_add.
  - by eapply Hgo, main_insert.
  - by eapply Hgo, (main_welcome _ _ 0).
  - by eapply Hgo, main_enqueue.
  - by eapply Hgo, main_del.
  - by eapply Hgo, main_erase.
  - by left.
Qed.

(** C32: After [stop], a main thread that is not in [epoll_wait] handles the events it
    has and returns: its runs are finite, with six steps per event at most, it
    is never stuck, and it ends outside the loop. *)
Theorem stopped_loop_returns s :
  running s = false → main s ≠ MPoll →
  (∀ n s', nsteps main_run n s s' → (n <= steps_left (main s))%nat) ∧
  ∃ s', rtc main_run s s' ∧ main s' = MReturned.
Proof.
  intros Hr Hp. assert (Hl : leaving s) by done. clear Hr Hp. split.
  - intros n. revert s Hl. induction n as [|n IH]; intros s Hl s' Hn; [lia|].
    inversion Hn as [|? ? s1 ? H1 H2]; subst. destruct (leaving_run s s1 Hl H1) as [Hl1 Hlt].
    specialize (IH s1 Hl1 s' H2). lia.
  - remember (steps_left (main s)) as n eqn:E. revert s E Hl.
    induction (lt_wf n) as [n _ IH]; intros s -> Hl.
    destruct (leaving_progress s Hl) as [Hm|[s1 H1]]; [exists s; split; [apply rtc_refl|done]|].
    destruct (leaving_run s s1 Hl H1) as [Hl1 Hlt].
    destruct (IH _ Hlt s1 eq_refl Hl1) as (s' & Hs' & Hm). exists s'. split; [|done].
    by apply (rtc_l _ _ s1).
Qed.

(** ** A stale event *)

Definition fresh_sock : sock := mkSock [] false false [].
Definition hup5 : event := OnFd 5 true true.

(** A client gets descriptor 5. *)
Definition e0 : server := collect ((new_server 1) <| backlog := [fresh_sock] |>).
Definition e1 : server := collect (e0 <| main := MPoll |>).
Definition e2 : server := collect (e1 <| ready := ready e1 ∖ reported [OnServer] |> <| main := MEvents [OnServer] |>).
Definition e3 : server := collect (accepted 5 fresh_sock [] [] e2).
Definition e4 : server := collect (epoll_add (object_fd e3 0) e3 <| main := MInsert 0 [] |>).
Definition e5 : server :=
  collect (e4 <| connections := <[object_fd e4 0 := 0%nat]> (connections e4) |> <| main := MWelcome 0 [] |>).
Definition e6 : server := collect (send_to (object_fd e5 0) 44 welcomeMsg e5 <| main := MEvents [] |>).
Definition e6' : server := collect (e6 <| main := MWait |>).
Definition e7 : server := collect (e6' <| main := MPoll |>).
(** It closes; the task that will find out is queued. *)
Definition e8 : server := collect (arrival 5 (λ k, k <| peer_closed := true |>) e7).
Definition e9 : server :=
  collect (e8 <| ready := ready e8 ∖ reported [OnFd 5 true false] |> <| main := MEvents [OnFd 5 true false] |>).
Definition e10 : server := collect (e9 <| main := MFound 0 5 true false [] |>).
Definition e11 : server := collect ((enqueue 0 e10) <| main := after_input 0 5 false [] |>).
Definition e11' : server := collect (e11 <| main := MWait |>).
Definition e12 : server := collect (e11' <| main := MPoll |>).
(** A reset is reported for 5, in one batch with a new client. *)
Definition e13 : server := collect (arrival 5 (λ k, k <| broken := true |>) e12).
Definition e14 : server := collect (e13 <| backlog := backlog e13 ++ [fresh_sock] |>).
Definition e15 : server :=
  collect (e14 <| ready := ready e14 ∖ reported [OnServer; hup5] |> <| main := MEvents [OnServer; hup5] |>).
(** The worker removes the connection: descriptor 5 is closed. *)
Definition e16 : server := collect (set_worker 0 (WRead 0) (e15 <| tasks := [] |>)).
Definition e17 : server := collect (task_read 0 0 e16).
Definition e18 : server := collect (set_worker 0 (WErase 0) (epoll_del (object_fd e17 0) e17)).
Definition e19 : server := collect (set_worker 0 WIdle (erase (object_fd e18 0) e18)).
(** The new client gets descriptor 5, and then the event that was for the old
    one. *)
Definition e20 : server := collect (accepted 5 fresh_sock [] [hup5] e19).
Definition e21 : server := collect (epoll_add (object_fd e20 1) e20 <| main := MInsert 1 [hup5] |>).
Definition e22 : server :=
  collect (e21 <| connections := <[object_fd e21 1 := 1%nat]> (connections e21) |> <| main := MWelcome 1 [hup5] |>).
Definition e23 : server := collect (send_to (object_fd e22 1) 44 welcomeMsg e22 <| main := MEvents [hup5] |>).
Definition e24 : server := collect (e23 <| main := MFound 1 5 true true [] |>).
Definition e25 : server := collect ((enqueue 1 e24) <| main := after_input 1 5 true [] |>).
Definition e26 : server := collect (epoll_del 5 e25 <| main := MErase 1 5 [] |>).
Definition e27 : server := collect (erase 5 e26 <| main := MEvents [] |>).
(** The task of the new client finds nothing to read and lets go of it. *)
Definition e28 : server := collect (set_worker 0 (WRead 1) (e27 <| tasks := [] |>)).
Definition e29 : server := collect (task_read 0 1 e28).

Ltac go := vm_compute; reflexivity.

(** Discharges [wait_allowed]. *)
Ltac can_wait :=
  split_and!; [vm_compute; lia | apply (bool_decide_unpack _); vm_compute; exact I |];
  repeat apply List.Forall_cons; try apply List.Forall_nil;
  first [discriminate | apply (bool_decide_unpack _); vm_compute; exact I].

Lemma e7_reachable : rtc epoll_step (new_server 1) e7.
Proof.
  apply (rtc_l _ _ e0); [apply (epoll_env (new_server 1) _ (env_connect _ fresh_sock eq_refl))|].
  apply (rtc_l _ _ e1); [apply epoll_main, main_enter; go|].
  apply (rtc_l _ _ e2); [apply epoll_main, main_wait; [go|can_wait]|].
  apply (rtc_l _ _ e3); [apply epoll_main, main_accept; go|].
  apply (rtc_l _ _ e4); [apply epoll_main, main_add; go|].
  apply (rtc_l _ _ e5); [apply epoll_main, main_insert; go|].
  apply (rtc_l _ _ e6); [apply epoll_main, main_welcome; go|].
  apply (rtc_l _ _ e6'); [apply epoll_main, main_loop; go|].
  apply rtc_once. apply epoll_main, main_enter; go.
Qed.

Lemma e15_reachable : rtc epoll_step e7 e15.
Proof.
  apply (rtc_l _ _ e8); [apply epoll_env, env_closed; apply (bool_decide_unpack _); vm_compute; exact I|].
  apply (rtc_l _ _ e9); [apply epoll_main, main_wait; [go|can_wait]|].
  apply (rtc_l _ _ e10); [apply epoll_main, main_found; go|].
  apply (rtc_l _ _ e11); [apply epoll_main, (main_enqueue e10 0 5 true false []); go|].
  apply (rtc_l _ _ e11'); [apply epoll_main, main_loop; go|].
  apply (rtc_l _ _ e12); [apply epoll_main, main_enter; go|].
  apply (rtc_l _ _ e13); [apply epoll_env, env_broken; apply (bool_decide_unpack _); vm_compute; exact I|].
  apply (rtc_l _ _ e14); [apply epoll_env, env_connect; go|].
  apply rtc_once. apply epoll_main, main_wait; [go|can_wait].
Qed.

Lemma e18_reachable : rtc epoll_step e15 e18.
Proof.
  apply (rtc_l _ _ e16); [apply (epoll_worker _ 0), worker_take; go|].
  apply (rtc_l _ _ e17); [apply (epoll_worker _ 0), worker_read; go|].
  apply rtc_once. apply (epoll_worker _ 0), worker_del. go.
Qed.

Lemma e19_reachable : rtc epoll_step e18 e19.
Proof. apply rtc_once. apply (epoll_worker _ 0), worker_erase. go. Qed.

Lemma e23_reachable : rtc epoll_step e19 e23.
Proof.
  apply (rtc_l _ _ e20); [apply epoll_main, main_accept; go|].
  apply (rtc_l _ _ e21); [apply epoll_main, main_add; go|].
  apply (rtc_l _ _ e22); [apply epoll_main, main_insert; go|].
  apply rtc_once. apply epoll_main, main_welcome. go.
Qed.

Lemma e26_reachable : rtc epoll_step e23 e26.
Proof.
  apply (rtc_l _ _ e24); [apply epoll_main, main_found; go|].
  apply (rtc_l _ _ e25); [apply epoll_main, (main_enqueue e24 1 5 true true []); go|].
  apply rtc_once. apply epoll_main, (main_del e25 1 5 []). go.
Qed.

Lemma e29_reachable : rtc epoll_step e26 e29.
Proof.
  apply (rtc_l _ _ e27); [apply epoll_main, (main_erase e26 1 5 []); go|].
  apply (rtc_l _ _ e28); [apply (epoll_worker _ 0), worker_take; go|].
  apply rtc_once. apply (epoll_worker _ 0), worker_read. go.
Qed.

Lemma first_client_removed : rtc epoll_step (new_server 1) e18.
Proof.
  etransitivity; [exact e7_reachable|]. etransitivity; [exact e15_reachable|exact e18_reachable].
Qed.

Lemma new_client_connected : rtc epoll_step (new_server 1) e23.
Proof.
  etransitivity; [exact first_client_removed|].
  etransitivity; [exact e19_reachable|exact e23_reachable].
Qed.

(** The second client never closed nor failed, and was connected under
    descriptor 5; it is dropped and its descriptor closed because of an event
    that reported the end of the first client of that descriptor. *)
Theorem stale_event_drops_new_client :
  rtc epoll_step (new_server 1) e23 ∧ connections e23 !! 5 = Some 1%nat ∧
  (∃ k, socks e23 !! 5 = Some k ∧ peer_closed k = false ∧ broken k = false) ∧
  rtc epoll_step e23 e29 ∧ connections e29 = ∅ ∧ socks e29 = ∅.
Proof.
  split; [exact new_client_connected|]. split; [go|]. split; [eexists; split_and!; go|].
  split; [etransitivity; [exact e26_reachable|exact e29_reachable]|]. split; go.
Qed.

Lemma epoll_descriptors_owned_witness :
  (∀ fd, fd ∈ dom (socks e23) ↔ ∃ c, fd_of e23 !! c = Some fd) ∧
  (∀ c c' fd, fd_of e23 !! c = Some fd → fd_of e23 !! c' = Some fd → c = c') ∧
  (∀ c, is_Some (fd_of e23 !! c) → c ∈ refs e23) ∧
  (∀ fd c, connections e23 !! fd = Some c → fd_of e23 !! c = Some fd).
Proof. exact (epoll_descriptors_owned 1 e23 new_client_connected). Defined.


(** Three bytes on the connection a worker is about to read. *)
Definition e30 : server :=
  e16 <| socks := <[5 := mkSock [104; 105; 0] false false []]> (socks e16) |>.

Lemma epoll_read_outcome_witness :
  printed (task_process 0 0 (task_read 0 0 e30)) = [Printed [104; 105]].
Proof.
  destruct (epoll_read_outcome e30 0 0 (new_connection 5) (mkSock [104; 105; 0] false false []))
    as (_ & _ & H & _); [go|go|go|go|go|discriminate|].
  etransitivity; [exact H|]. go.
Defined.

(** Stopped with one event of a batch to go. *)
Lemma stopped_loop_returns_witness :
  (∀ n s', nsteps main_run n (stop e2) s' → (n <= 8)%nat) ∧
  ∃ s', rtc main_run (stop e2) s' ∧ main s' = MReturned.
Proof. apply (stopped_loop_returns (stop e2)); [reflexivity|vm_compute; discriminate]. Defined.

(** [stop] does not wake a main thread that is in [epoll_wait]: it returns with
    the next event, and that event is handled. Here a client connects after
    [stop], is accepted, registered and welcomed. *)
Definition stopped1 : server := collect (stop (collect ((new_server 1) <| main := MPoll |>))).
Definition stopped2 : server := collect (stopped1 <| backlog := [fresh_sock] |>).
Definition stopped3 : server :=
  collect (stopped2 <| ready := ready stopped2 ∖ reported [OnServer] |> <| main := MEvents [OnServer] |>).
Definition stopped4 : server := collect (accepted 5 fresh_sock [] [] stopped3).
Definition stopped5 : server := collect (epoll_add (object_fd stopped4 0) stopped4 <| main := MInsert 0 [] |>).
Definition stopped6 : server :=
  collect (stopped5 <| connections := <[object_fd stopped5 0 := 0%nat]> (connections stopped5) |>
                    <| main := MWelcome 0 [] |>).

Example stopped_server_accepts :
  rtc epoll_step stopped1 stopped6 ∧ running stopped1 = false ∧ connections stopped6 !! 5 = Some 0%nat.
Proof.
  split; [|split; go].
  apply (rtc_l _ _ stopped2); [apply (epoll_env stopped1 _ (env_connect _ fresh_sock eq_refl))|].
  apply (rtc_l _ _ stopped3); [apply epoll_main, main_wait; [go|can_wait]|].
  apply (rtc_l _ _ stopped4); [apply epoll_main, main_accept; go|].
  apply (rtc_l _ _ stopped5); [apply epoll_main, main_add; go|].
  apply rtc_once. apply epoll_main, main_insert; go.
Qed.
