(* ===== verification/EpollPool.v ===== *)
(** * EpollPool: what the epoll server assumes of its thread pool

    The interface between the two: a queue of tasks served in order by a fixed
    number of slots ([fifo_step]). ThreadPool.v, with its mutex, condition
    variable and destructor, implements it; EpollServer.v uses its tasks and
    workers in no other way. *)

From S2P Require Import Prelude ThreadPool EpollServer.

Record fifo (Task : Type) := mkFifo {
  queued : list Task;
  slots : list (option Task) }.
Arguments mkFifo {Task}.
Arguments queued {Task}.
Arguments slots {Task}.

Section Fifo.
Context {Task : Type}.

Inductive fifo_step : fifo Task → fifo Task → Prop :=
| fifo_enqueue t f : fifo_step f (mkFifo (queued f ++ [t]) (slots f))
| fifo_take i t rest f :
    queued f = t :: rest → slots f !! i = Some None →
    fifo_step f (mkFifo rest (<[i := Some t]> (slots f)))
| fifo_done i t f :
    slots f !! i = Some (Some t) → fifo_step f (mkFifo (queued f) (<[i := None]> (slots f))).

(** A step of an implementation: one of the interface, or nothing seen of it. *)
Definition fifo_sim (f f' : fifo Task) : Prop := f' = f ∨ fifo_step f f'.

(** ** The pool implements it *)

Definition pool_view (p : @pool Task) : fifo Task :=
  mkFifo (ThreadPool.tasks p) (running_of <$> ThreadPool.workers p).

Lemma view_insert (ws : list (@worker Task)) i w w' :
  ws !! i = Some w → running_of w' = running_of w → running_of <$> <[i := w']> ws = running_of <$> ws.
Proof.
  intros Hi Hw. rewrite list_fmap_insert, Hw. apply list_insert_id. by rewrite list_lookup_fmap, Hi.
Qed.

Lemma pool_work_fifo p p' : work p p' → fifo_sim (pool_view p) (pool_view p').
Proof.
  intros Hw. destruct Hw as [p i Hi|p i t Hi|p i n Hn Hi|p n Hn Hs|p Ha]; unfold pool_view; simpl.
  - unfold check. destruct (ThreadPool.tasks p) as [|t ts] eqn:E; [left|right]; simpl.
    + rewrite E, (view_insert _ i Checking) by (try done; by destruct (ThreadPool.stop p)). done.
    + rewrite list_fmap_insert. apply (fifo_take i t ts (mkFifo _ _)); [done|].
      simpl. by rewrite list_lookup_fmap, Hi.
  - right. rewrite list_fmap_insert. apply (fifo_done i t (mkFifo _ _)).
    simpl. by rewrite list_lookup_fmap, Hi.
  - left. by rewrite (view_insert _ i Sleeping).
  - by left.
  - left. f_equal. rewrite <-list_fmap_compose. apply list_fmap_ext. by intros ? [].
Qed.

End Fifo.

(** ** The server uses it *)

Definition task_of (w : task_pc) : option nat :=
  match w with WIdle => None | WRead c | WProcess c | WDel c | WErase c => Some c end.

Definition server_view (s : server) : fifo nat := mkFifo (tasks s) (task_of <$> workers s).

Lemma view_set_worker s i w w' :
  workers s !! i = Some w → task_of w' = task_of w →
  task_of <$> <[i := w']> (workers s) = task_of <$> workers s.
Proof.
  intros Hi Hw. rewrite list_fmap_insert, Hw. apply list_insert_id. by rewrite list_lookup_fmap, Hi.
Qed.

Lemma view_done s i w c :
  workers s !! i = Some w → task_of w = Some c →
  fifo_step (server_view s) (mkFifo (tasks s) (task_of <$> <[i := WIdle]> (workers s))).
Proof.
  intros Hi Hw. rewrite list_fmap_insert. apply (fifo_done i c (server_view s)). simpl.
  by rewrite list_lookup_fmap, Hi, <-Hw.
Qed.

Lemma task_read_fifo s i c :
  workers s !! i = Some (WRead c) → fifo_sim (server_view s) (server_view (task_read i c s)).
Proof.
  intros Hi. unfold task_read. destruct (objects s !! c) as [o|]; [|by left].
  destruct (socks s !! sockfd o) as [k|]; [|by left]. destruct (readData o k) as [[r o'] k'].
  unfold server_view, set_worker. simpl. destruct r.
  - left. by rewrite (view_set_worker s i (WRead c)).
  - left. by rewrite (view_set_worker s i (WRead c)).
  - right. by eapply view_done.
  - left. by rewrite (view_set_worker s i (WRead c)).
Qed.

Lemma worker_fifo i s s' : worker_step i s s' → fifo_sim (server_view s) (server_view s').
Proof.
  intros Hs. destruct Hs as [s c rest Hi Ht|s c Hi|s c Hi|s c Hi|s c Hi].
  - right. unfold server_view. simpl. rewrite list_fmap_insert.
    apply (fifo_take i c rest (server_view s)); [done|]. simpl. by rewrite list_lookup_fmap, Hi.
  - by apply task_read_fifo.
  - unfold task_process. destruct (objects s !! c) as [o|]; [|by left].
    destruct (processData o) as [p o']. right. by eapply (view_done s i (WProcess c)).
  - left. unfold server_view. simpl. by rewrite (view_set_worker s i (WDel c)).
  - right. by eapply (view_done s i (WErase c)).
Qed.

(** Every step of the server uses the pool through the interface: events
    enqueue, workers take the front of the queue when they are idle and go back
    to being idle, and nothing else touches either. *)
Theorem server_uses_fifo s s' : epoll_step s s' → fifo_sim (server_view s) (server_view s').
Proof.
  intros Hs.
  assert (Hc : ∀ t, server_view (collect t) = server_view t) by done.
  destruct Hs as [s t Hm|s i t Hw|s t He]; rewrite Hc.
  - destruct Hm; try (by left). destruct i; [right|by left].
    apply (fifo_enqueue c (server_view s)).
  - by eapply worker_fifo.
  - by destruct He; left.
Qed.

(** ** Witnesses: a worker takes a task; the server queues one *)

Definition queued_pool : @pool nat := mkPool [Sleeping; Checking] [7; 8]%nat false 1 false [7; 8]%nat [] [].

