(* ===== verification/Text.v ===== *)
(** * Text: the string operations of the console programs

    What the command loops use of [std::string], [std::istringstream],
    [std::stoi] and [std::to_string], on strings as byte buffers. *)

From S2P Require Import Prelude Bytes.

(** [std::isspace] and [std::isdigit] in the C locale. *)
Definition is_space (c : Z) : bool := (c =? 32) || ((9 <=? c) && (c <=? 13)).
Definition is_digit (c : Z) : bool := (48 <=? c) && (c <=? 57).

(** [iss >> std::ws]. *)
Fixpoint skip_ws (s : bytes) : bytes :=
  match s with
  | [] => []
  | c :: s' => if is_space c then skip_ws s' else s
  end.

(** The longest prefix of characters that satisfy a test, and the rest. *)
Fixpoint span (f : Z → bool) (s : bytes) : bytes * bytes :=
  match s with
  | [] => ([], [])
  | c :: s' => if f c then let '(a, b) := span f s' in (c :: a, b) else ([], s)
  end.

(** [iss >> word]: [None] when the extraction fails. *)
Definition extract (s : bytes) : option (bytes * bytes) :=
  match skip_ws s with
  | [] => None
  | s' => Some (span (λ c, negb (is_space c)) s')
  end.

(** [std::getline(iss >> std::ws, message)]: what is left of the line. *)
Definition rest_of_line (s : bytes) : bytes := (span (λ c, negb (c =? 10)) (skip_ws s)).1.

(** ** Numbers *)

Definition is_i32 (z : Z) : Prop := - 2 ^ 31 <= z < 2 ^ 31.

#[export] Instance is_i32_dec z : Decision (is_i32 z).
Proof. unfold is_i32. apply _. Defined.

Definition digits_val (ds : bytes) : Z := foldl (λ a d, 10 * a + (d - 48)) 0 ds.

(** [std::stoi]: [None] when it throws ([invalid_argument] or
    [out_of_range]). *)
Definition stoi (s : bytes) : option Z :=
  let s := skip_ws s in
  let '(neg, s) := match s with
                   | c :: s' => if c =? 45 then (true, s') else if c =? 43 then (false, s') else (false, s)
                   | [] => (false, s)
                   end in
  let ds := (span is_digit s).1 in
  match ds with
  | [] => None
  | _ :: _ =>
      let v := if neg : bool then - digits_val ds else digits_val ds in
      if bool_decide (is_i32 v) then Some v else None
  end.

(** [std::to_string] of an [int]; ten digits are enough. *)
Fixpoint decimal (fuel : nat) (n : Z) : bytes :=
  match fuel with
  | O => []
  | S fuel' => if n <? 10 then [48 + n] else decimal fuel' (n / 10) ++ [48 + n mod 10]
  end.

Definition to_string (z : Z) : bytes :=
  if z <? 0 then 45 :: decimal 10 (- z) else decimal 10 z.

(** ** Lemmas *)

Lemma span_app f a b :
  Forall (λ c, f c = true) a → match b with c :: _ => f c = false | [] => True end →
  span f (a ++ b) = (a, b).
Proof.
  intros Ha Hb. induction Ha as [|c a Hc _ IH]; simpl.
  - destruct b as [|c b]; [done|]. simpl. by rewrite Hb.
  - by rewrite Hc, IH.
Qed.

Lemma span_all f a : Forall (λ c, f c = true) a → span f a = (a, []).
Proof. intros Ha. rewrite <-(app_nil_r a) at 1. by apply span_app. Qed.

Lemma skip_ws_id s : match s with c :: _ => is_space c = false | [] => True end → skip_ws s = s.
Proof. destruct s as [|c s]; [done|]. simpl. by intros ->. Qed.

(** A word: not empty, no white space in it. *)
Definition is_word (w : bytes) : Prop := w ≠ [] ∧ Forall (λ c, is_space c = false) w.

#[export] Instance is_word_dec w : Decision (is_word w).
Proof. unfold is_word. apply _. Defined.

Lemma is_word_head w s : is_word w → skip_ws (w ++ s) = w ++ s.
Proof. intros [Hn Hw]. apply skip_ws_id. by destruct Hw. Qed.

(** Reading a word that ends in a blank or at the end. *)
Lemma extract_word w s :
  is_word w → match s with c :: _ => is_space c = true | [] => True end →
  extract (w ++ s) = Some (w, s).
Proof.
  intros Hw Hs. unfold extract. rewrite is_word_head by done.
  destruct (w ++ s) as [|c l] eqn:E; [destruct Hw as [? _]; by destruct w|]. rewrite <-E. f_equal.
  apply span_app; [|destruct s; [done|by rewrite Hs]].
  apply (Forall_impl _ _ _ (proj2 Hw)). by intros ? ->.
Qed.

Lemma extract_blank s : extract (32 :: s) = extract s.
Proof. done. Qed.

Lemma decimal_digits fuel n :
  0 <= n → Forall (λ c, is_digit c = true) (decimal fuel n).
Proof.
  revert n. induction fuel as [|fuel IH]; intros n Hn; simpl; [constructor|].
  destruct (Z.ltb_spec n 10).
  - repeat constructor. unfold is_digit. lia.
  - apply Forall_app. split; [apply IH, Z.div_pos; lia|]. repeat constructor. unfold is_digit.
    pose proof (Z.mod_pos_bound n 10). lia.
Qed.

Lemma decimal_val fuel n : 0 <= n < 10 ^ Z.of_nat fuel → digits_val (decimal fuel n) = n.
Proof.
  revert n. induction fuel as [|fuel IH]; intros n Hn; simpl.
  { simpl in Hn. unfold digits_val. simpl. lia. }
  destruct (Z.ltb_spec n 10); [unfold digits_val; simpl; lia|].
  unfold digits_val. rewrite foldl_app. fold (digits_val (decimal fuel (n / 10))).
  rewrite IH; simpl.
  - pose proof (Z.div_mod n 10). lia.
  - rewrite Nat2Z.inj_succ, Z.pow_succ_r in Hn by lia.
    split; [apply Z.div_pos; lia|]. apply Z.div_lt_upper_bound; lia.
Qed.

Lemma decimal_head fuel n : 0 <= n → ∃ c l, decimal (S fuel) n = c :: l ∧ is_digit c = true.
Proof.
  intros Hn. pose proof (decimal_digits (S fuel) n Hn) as Hd.
  destruct (decimal (S fuel) n) as [|c l] eqn:E.
  - simpl in E. destruct (n <? 10); [done|]. by destruct (decimal fuel (n / 10)).
  - apply Forall_cons in Hd as [Hc _]. eauto.
Qed.

Lemma digit_not_space c : is_digit c = true → is_space c = false ∧ c ≠ 45 ∧ c ≠ 43.
Proof. unfold is_digit, is_space. lia. Qed.

Lemma decimal_pos_bound n : is_i32 n → 0 <= Z.abs n < 10 ^ Z.of_nat 10.
Proof. unfold is_i32. change (10 ^ Z.of_nat 10) with 10000000000. lia. Qed.

(** [stoi] inverts [to_string]. *)
Lemma stoi_to_string n : is_i32 n → stoi (to_string n) = Some n.
Proof.
  intros Hn. pose proof (decimal_pos_bound n Hn) as Hb. unfold stoi, to_string.
  destruct (Z.ltb_spec n 0) as [Hneg|Hpos].
  - rewrite skip_ws_id by done. cbn [Z.eqb Pos.eqb].
    rewrite span_all by (apply decimal_digits; lia). cbn [fst].
    destruct (decimal_head 9 (- n)) as (c & l & E & Hc); [lia|].
    rewrite E at 1. rewrite decimal_val by lia.
    rewrite bool_decide_true by (unfold is_i32 in *; lia). f_equal. lia.
  - destruct (decimal_head 9 n) as (c & l & E & Hc); [lia|].
    destruct (digit_not_space c Hc) as (H1 & H2 & H3). rewrite E.
    rewrite skip_ws_id by done. rewrite !(proj2 (Z.eqb_neq _ _)) by done. rewrite <-E.
    rewrite span_all by (apply decimal_digits; lia). cbn [fst].
    rewrite E at 1. rewrite decimal_val by lia. by rewrite bool_decide_true.
Qed.

Lemma to_string_word n : is_i32 n → is_word (to_string n).
Proof.
  intros Hn. pose proof (decimal_pos_bound n Hn) as Hb. unfold to_string.
  assert (Hd : ∀ m, 0 <= m → is_word (decimal 10 m)).
  { intros m Hm. destruct (decimal_head 9 m Hm) as (c & l & E & _). split; [by rewrite E|].
    eapply Forall_impl; [by apply decimal_digits|]. intros x Hx. by apply digit_not_space. }
  destruct (Z.ltb_spec n 0); [|apply Hd; lia].
  destruct (Hd (- n)) as [_ Hw]; [lia|]. split; [done|]. by constructor.
Qed.

(** A number that is not negative starts with a digit. *)
Lemma to_string_digit n :
  0 <= n → match to_string n with c :: _ => is_digit c | [] => false end = true.
Proof.
  intros Hn. unfold to_string. rewrite (proj2 (Z.ltb_ge _ _)) by lia.
  destruct (decimal_head 9 n Hn) as (c & l & -> & Hc). done.
Qed.
