(* ===== verification/QwenMain.v ===== *)
(** * QwenMain: the program of qwen/server.cpp

    [main] checks its arguments, constructs the server over an I/O context,
    starts four threads on it and prints the statistics every ten seconds, for
    ever. Nobody calls the server but its sessions. Times are in seconds, as in
    QwenReactor. *)

From S2P Require Import Prelude Bytes Tables Asio Text QwenSession QwenServer QwenServerProps QwenReactor.
From Stdlib Require Import QArith.
#[local] Open Scope Z_scope.

#[local] Arguments lit : simpl never.

(** [std::atoi]: 0 when there is no number, and undefined ([None]) when it does
    not fit an [int]. *)
Definition atoi (s : bytes) : option Z :=
  let s := skip_ws s in
  let '(neg, s) := match s with
                   | c :: s' => if c =? 45 then (true, s') else if c =? 43 then (false, s') else (false, s)
                   | [] => (false, s)
                   end in
  let v := digits_val (span is_digit s).1 in
  let v := if neg : bool then - v else v in
  if bool_decide (is_i32 v) then Some v else None.

(** The parameter [short port] of the constructor, and the [unsigned short] of
    [tcp::endpoint]. *)
Definition endpoint_port (port : Z) : Z := port mod 2 ^ 16.

Inductive qm_pc := QmArguments | QmConstruct | QmLoop.

Record qmain := QMain {
  qm_main : qm_pc;
  qm_world : world server v_op Empty_set v_timer v_eff;
  qm_port : option Z;                (* the port the acceptor got *)
  qm_wake : Z;                       (* when the sleep of the loop ends *)
  qm_stats : list SessionStats;      (* printed by the loop *)
  qm_errors : list bytes;            (* lines on [std::cerr] *)
  qm_end : option Z }.               (* the status [main] returned *)

#[export] Instance eta_qmain : Eta qmain := λ g,
  QMain (qm_main g) (qm_world g) (qm_port g) (qm_wake g) (qm_stats g) (qm_errors g) (qm_end g).

Ltac qmain_simpl :=
  cbn [field_upd qm_main qm_world qm_port qm_wake qm_stats qm_errors qm_end] in *.

(** What sessions call. *)
Inductive sess_api :=
| SessPacket (type status sequence : Z) (payload : bytes)
| SessRemove (id : Z)
| SessGone (id : Z).

Definition of_session (a : sess_api) : v_api :=
  match a with
  | SessPacket t st q p => VPacket t st q p
  | SessRemove id => VRemove id
  | SessGone id => VGone id
  end.

Section QwenMain.
Context (remote_endpoint : Z → option bytes).
(** The arguments after the program's name. *)
Context (argv : list bytes).
Implicit Types (g : qmain) (w : world server v_op Empty_set v_timer v_eff).

(** The server when only its sessions call its interface. *)
Definition reactor_alone : handlers server v_op Empty_set v_timer v_eff sess_api :=
  Handlers (h_kind (reactor remote_endpoint)) (h_io (reactor remote_endpoint)) (h_post (reactor remote_endpoint))
    (h_timer (reactor remote_endpoint)) (λ now a, h_api (reactor remote_endpoint) now (of_session a)).

(** One statement of [main] before its loop; [what] is the exception of the
    constructor, if it throws. *)
Definition qm_turn (what : option bytes) g : qmain :=
  match qm_main g with
  | QmArguments =>
      match argv with
      | [_] => g <| qm_main := QmConstruct |>
      | _ => g <| qm_errors := qm_errors g ++ [lit "Usage: server <port>"] |> <| qm_end := Some 1 |>
      end
  | QmConstruct =>
      match what with
      | Some what =>
          g <| qm_errors := qm_errors g ++ [lit "Exception: " ++ what] |> <| qm_end := Some 0 |>
      | None =>
          let now := w_now (qm_world g) in
          g <| qm_world := started_server 300 now |>
            <| qm_port := endpoint_port <$> (argv !! 0%nat ≫= atoi) |>
            <| qm_wake := now + 10 |> <| qm_main := QmLoop |>
      end
  | QmLoop => g
  end.

(** One turn of the loop, after its sleep. *)
Definition stats_turn g : qmain :=
  let w := qm_world g in
  g <| qm_stats := qm_stats g ++ [val_of (get_statistics (w_st w))] |> <| qm_wake := w_now w + 10 |>.

Inductive qm_step : qmain → qmain → Prop :=
| qm_statement g what :
    qm_end g = None → qm_main g ≠ QmLoop → qm_step g (qm_turn what g)
| qm_loop g :
    qm_end g = None → qm_main g = QmLoop → qm_wake g <= w_now (qm_world g) → qm_step g (stats_turn g)
| qm_io g w' :
    qm_end g = None → qm_main g = QmLoop → step reactor_alone (qm_world g) w' →
    qm_step g (g <| qm_world := w' |>)
| qm_tick g now :
    qm_end g = None → w_now (qm_world g) <= now →
    qm_step g (g <| qm_world := (qm_world g) <| w_now := now |> |>).

Definition qm_start (now : Z) : qmain :=
  QMain QmArguments (init_world (new_server 300) now) None now [] [] None.

Definition qm_reachable (now : Z) g : Prop := rtc qm_step (qm_start now) g.

(** ** The program never asks anything *)

(** No operation a session or the reactor causes registers a request. *)
Definition asks_nothing (s s' : server) : Prop := pending_requests_ s = ∅ → pending_requests_ s' = ∅.
#[local] Instance asks_nothing_preorder : PreOrder asks_nothing.
Proof. split; [intros s H; exact H|]. intros s1 s2 s3. unfold asks_nothing. auto. Qed.

Lemma asks_refl s : asks_nothing s s.
Proof. intros H. exact H. Qed.

Abbreviation no_request := (keeps asks_nothing (λ _ : v_eff, True)).

Lemma same_asks {A} (m : M A) :
  keeps same_requests other_business A m → no_request A m.
Proof.
  intros Hm s. destruct (Hm s) as [Hs _]. split; [|by apply Forall_true].
  intros He. unfold same_requests in Hs. congruence.
Qed.

Lemma lift_asks {A} (m : M A) s : no_request A m → asks_nothing s (state_of (lift m s)).
Proof. intros Hm. destruct (Hm s) as [Hs _]. unfold lift. by destruct (m s) as [[s' es] x]. Qed.

Lemma asks_response t st q p : no_request _ (handle_response t st q p).
Proof.
  unfold handle_response. repeat (progress keeps_tac || case_match).
  all: apply keeps_modify; intros s Hs; simpl; rewrite Hs; apply delete_empty.
Qed.

Lemma asks_timer q ab : no_request _ (on_request_timer q ab).
Proof.
  unfold on_request_timer. repeat (progress keeps_tac || case_match).
  all: apply keeps_modify; intros s Hs; simpl; rewrite Hs; apply delete_empty.
Qed.

Lemma bind_asks {A B} (m : R A) (k : A → R B) s :
  asks_nothing s (state_of (m s)) → (∀ x s', asks_nothing s' (state_of (k x s'))) →
  asks_nothing s (state_of ((x ← m; k x) s)).
Proof.
  intros Hm Hk. cbv [mbind act_bind]. destruct (m s) as [[s1 e1] x]. specialize (Hk x s1).
  destruct (k x s1) as [[s2 e2] y]. simpl in *. unfold asks_nothing in *. auto.
Qed.

Lemma step_asks w w' : step reactor_alone w w' → asks_nothing (w_st w) (w_st w').
Proof.
  intros Hs. destruct Hs as [w q ps Hp|w o l1 l2 r Ho Ha|w t d l1 l2 Ha Hd|w t ab l1 l2 Hf|w now Hn|w a].
  - destruct q.
  - destruct (complete_fields reactor_alone o r (l1 ++ l2) w) as (-> & _). simpl. unfold accept_handler.
    apply bind_asks; [|intros _ s'; apply asks_refl].
    destruct r; [|apply asks_refl]. apply bind_asks; [apply asks_refl|]. intros id s'.
    apply lift_asks, same_asks, quiet_on_accept.
  - apply asks_refl.
  - destruct (run_fields (h_timer reactor_alone (w_now w) t ab) (w <| w_fired := l1 ++ l2 |>)) as (-> & _).
    destruct t as [|q]; simpl.
    + unfold expiration_handler. apply bind_asks; [|intros _ s'; apply asks_refl]. apply lift_asks, same_asks, quiet_expiry.
    + apply lift_asks, asks_timer.
  - apply asks_refl.
  - destruct (run_fields (h_api reactor_alone (w_now w) a) w) as (-> & _).
    destruct a as [t st q p|id|id]; simpl.
    + apply lift_asks, asks_response.
    + apply lift_asks, same_asks, quiet_remove.
    + intros H. exact H.
Qed.

Lemma reactor_alone_step w w' : step reactor_alone w w' → step (reactor remote_endpoint) w w'.
Proof.
  intros Hs. destruct Hs as [w q ps Hp|w o l1 l2 r Ho Ha|w t d l1 l2 Ha Hd|w t ab l1 l2 Hf|w now Hn|w a].
  - destruct q.
  - by apply (step_io (reactor remote_endpoint) w o l1 l2 r).
  - by eapply (step_expire (reactor remote_endpoint)).
  - by apply (step_timer (reactor remote_endpoint)).
  - by apply step_tick.
  - apply (step_api (reactor remote_endpoint) w (of_session a)).
Qed.

Record qm_inv (now : Z) g : Prop := {
  qi_asks : pending_requests_ (w_st (qm_world g)) = ∅;
  qi_world : qm_main g = QmLoop → ∃ t, reachable (reactor remote_endpoint) (started_server 300 t) (qm_world g);
  qi_end : match qm_end g with
           | None => True
           | Some c => c = 1 ∧ length argv ≠ 1%nat ∧ qm_main g = QmArguments ∨ c = 0 ∧ qm_main g = QmConstruct
           end;
  qi_time : qm_main g = QmLoop → now + 10 * (Z.of_nat (length (qm_stats g)) + 1) <= qm_wake g;
  qi_stats : qm_main g ≠ QmLoop → qm_stats g = [];
  qi_now : now <= w_now (qm_world g) }.

Lemma step_now w w' : step reactor_alone w w' → w_now w <= w_now w'.
Proof.
  intros Hs. destruct Hs as [w q ps Hp|w o l1 l2 r Ho Ha|w t d l1 l2 Ha Hd|w t ab l1 l2 Hf|w now Hn|w a].
  - destruct q.
  - destruct (complete_fields reactor_alone o r (l1 ++ l2) w) as (_ & _ & _ & _ & _ & ->). lia.
  - done.
  - by destruct (run_fields (h_timer reactor_alone (w_now w) t ab) (w <| w_fired := l1 ++ l2 |>)) as (_ & _ & _ & _ & _ & ->).
  - done.
  - by destruct (run_fields (h_api reactor_alone (w_now w) a) w) as (_ & _ & _ & _ & _ & ->).
Qed.

Lemma qm_inv_step now g g' : qm_inv now g → qm_step g g' → qm_inv now g'.
Proof.
  intros [Ha Hw He Ht Hst Hn] Hs. destruct Hs as [g what Hnone Hm|g Hnone Hm Hwk|g w' Hnone Hm Hs|g t Hnone Hle].
  - unfold qm_turn. destruct (qm_main g) eqn:E; [|destruct what|done].
    + destruct argv as [|a [|b l]] eqn:Ev; split; qmain_simpl; rewrite ?Hnone, ?E; try done; auto.
      all: left; by rewrite Ev.
    + split; qmain_simpl; rewrite ?Hnone, ?E; try done; auto.
    + split; qmain_simpl; rewrite ?Hnone; try done.
      * intros _. eexists. apply rtc_refl.
      * intros _. rewrite Hst by done. simpl. lia.
  - unfold stats_turn. split; qmain_simpl; rewrite ?Hnone; try done.
    + rewrite length_app. simpl. specialize (Ht Hm). lia.
  - split; qmain_simpl; rewrite ?Hnone; try done.
    + by apply (step_asks _ _ Hs).
    + intros _. destruct (Hw Hm) as [t Hr]. exists t. eapply rtc_r; [exact Hr|by apply reactor_alone_step].
    + pose proof (step_now _ _ Hs). lia.
  - split; qmain_simpl; rewrite ?Hnone; try done.
    + intros Hm. destruct (Hw Hm) as [t0 Hr]. exists t0. eapply rtc_r; [exact Hr|by apply step_tick].
    + cbn [w_now]; lia.
Qed.

Lemma qm_reachable_inv now g : qm_reachable now g → qm_inv now g.
Proof. apply (rtc_invariant qm_step (qm_inv now)); [by split|apply qm_inv_step]. Qed.

(** ** The program *)

(** Once its loop is entered, every run of the program is a run of the server's
    reactor; nobody ever sends a request, so none is pending; and the statistics
    are printed at most once in ten seconds. *)
Theorem qwen_program_refines_reactor now g :
  qm_reachable now g → qm_main g = QmLoop →
  (∃ t, reachable (reactor remote_endpoint) (started_server 300 t) (qm_world g)) ∧
  pending_requests_ (w_st (qm_world g)) = ∅ ∧
  now + 10 * (Z.of_nat (length (qm_stats g)) + 1) <= qm_wake g.
Proof. intros [Ha Hw _ Ht _ _]%qm_reachable_inv Hm. auto. Qed.

(** The program ends only before its loop: with status 1 when it is not given
    one argument, and with status 0, as if nothing were wrong, when the server
    cannot be constructed. *)
Theorem qwen_program_ends now g c :
  qm_reachable now g → qm_end g = Some c →
  c = 1 ∧ length argv ≠ 1%nat ∧ qm_main g = QmArguments ∨ c = 0 ∧ qm_main g = QmConstruct.
Proof. intros [_ _ He _ _ _]%qm_reachable_inv Hc. by rewrite Hc in He. Qed.

End QwenMain.

(** ** What the loop prints *)

Lemma get_statistics_val s :
  val_of (get_statistics s) =
  mkStats (active_sessions_count_ s)
    (if active_sessions_count_ s =? 0 then 0%Q
     else (inject_Z (total_session_time_ s) / inject_Z (active_sessions_count_ s))%Q).
Proof. done. Qed.

(** The line "Avg Session Time" is not an average of session times: it divides
    the time of the sessions that ended by the number of those that did not. Of
    three sessions opened at 0, one that ends at 100 is printed as 50 while two
    are open, as 200 when a second one has ended too, and as 0 when all have. *)
Theorem average_is_not_of_sessions :
  let s0 := state_of (handle_all [(0, EvAccept None); (0, EvAccept None); (0, EvAccept None)] (new_server 300)) in
  let s1 := state_of (handle 100 (EvRemove 1) s0) in
  let s2 := state_of (handle 100 (EvRemove 2) s1) in
  let s3 := state_of (handle 100 (EvRemove 3) s2) in
  (avg_session_time (val_of (get_statistics s1)) == 50)%Q ∧
  (avg_session_time (val_of (get_statistics s2)) == 200)%Q ∧
  (avg_session_time (val_of (get_statistics s3)) == 0)%Q.
Proof. split; [|split]; vm_compute; reflexivity. Qed.

(** [atoi] accepts everything: what is not a number is port 0, for which the
    system picks one, and a number too large for a port is cut to 16 bits. *)
Theorem port_is_not_checked :
  (endpoint_port <$> atoi (lit "http")) = Some 0 ∧ (endpoint_port <$> atoi (lit "70000")) = Some 4464.
Proof. split; vm_compute; reflexivity. Qed.

(** ** Witnesses

    The program started with port 8080, its first line of statistics printed
    after ten seconds; and the program whose port is taken. *)

Definition peer_unknown (id : Z) : option bytes := None.
Definition qm0 : qmain := qm_start 0.
Definition qm1 : qmain := qm_turn [lit "8080"] None qm0.
Definition qm2 : qmain := qm_turn [lit "8080"] None qm1.
Definition qm3 : qmain := qm2 <| qm_world := (qm_world qm2) <| w_now := 10 |> |>.
Definition qm4 : qmain := stats_turn qm3.
Definition qm_taken : qmain := qm_turn [lit "8080"] (Some (lit "bind: Address already in use")) qm1.

Lemma qm1_reachable : qm_reachable peer_unknown [lit "8080"] 0 qm1.
Proof. by eapply rtc_once, qm_statement. Qed.

Lemma qm4_reachable : qm_reachable peer_unknown [lit "8080"] 0 qm4.
Proof.
  eapply rtc_r; [eapply rtc_r; [eapply rtc_r; [apply qm1_reachable|by apply qm_statement]|]|by apply qm_loop].
  by apply (qm_tick _ _ qm2 10).
Qed.

Lemma qm_taken_reachable : qm_reachable peer_unknown [lit "8080"] 0 qm_taken.
Proof. eapply rtc_r; [apply qm1_reachable|by apply qm_statement]. Qed.

Lemma qwen_program_refines_reactor_witness :
  qm_port qm4 = Some 8080 ∧ qm_stats qm4 = [mkStats 0 0%Q] ∧
  pending_requests_ (w_st (qm_world qm4)) = ∅ ∧
  0 + 10 * (Z.of_nat (length (qm_stats qm4)) + 1) <= qm_wake qm4.
Proof.
  split; [reflexivity|split; [reflexivity|]].
  refine (proj2 (qwen_program_refines_reactor peer_unknown [lit "8080"] 0 qm4 _ _)).
  - apply qm4_reachable.
  - reflexivity.
Defined.

Lemma qwen_program_ends_witness :
  qm_end qm_taken = Some 0 ∧
  (0 = 1 ∧ length [lit "8080"] ≠ 1%nat ∧ qm_main qm_taken = QmArguments ∨ 0 = 0 ∧ qm_main qm_taken = QmConstruct).
Proof.
  split; [reflexivity|].
  refine (qwen_program_ends peer_unknown [lit "8080"] 0 qm_taken 0 _ _).
  - apply qm_taken_reachable.
  - reflexivity.
Defined.
