(* ===== verification/ServerConsole.v ===== *)
(** * ServerConsole: the command loop of claude/asio_server.cpp

    The loop of [main] that reads commands and calls the server. A command line
    is parsed into a [command]; executing it calls the operations of TcpServer.v
    and yields the lines printed. The input is the list of its lines, the last
    one being what follows the last newline; [std::getline] on an exhausted input
    leaves the command as it was. *)

From S2P Require Import Prelude Bytes Asio TcpPacket TcpServer Text.

#[local] Arguments lit : simpl never.

Inductive command :=
| DoQuit
| DoCount
| DoHelp
| DoClients
| DoSend (id packetId : Z) (message : bytes)
| DoBroadcast (packetId : Z) (message : bytes)
| DoClose (id : Z)
| DoComplain (line : bytes).           (* only prints *)

(** The packet types the console knows. *)
Definition typeOf (typeStr : bytes) : option Z :=
  if bool_decide (typeStr = lit "bind") then Some BIND
  else if bool_decide (typeStr = lit "bind_resp") then Some BIND_RESP
  else if bool_decide (typeStr = lit "req") then Some REQUEST
  else if bool_decide (typeStr = lit "resp") then Some RESPONSE
  else None.

Definition invalidType : command :=
  DoComplain (lit "Invalid packet type. Use: bind, bind_resp, req, resp").
Definition emptyMessage : command := DoComplain (lit "Message cannot be empty").
Definition invalidSend : command :=
  DoComplain (lit "Invalid command format. Use: send <id> <type> <message>").
Definition invalidBroadcast : command :=
  DoComplain (lit "Invalid command format. Use: broadcast <type> <message>").
Definition invalidClose : command := DoComplain (lit "Invalid command format. Use: close <id>").
Definition unknownCommand : command :=
  DoComplain (lit "Unknown command. Type 'help' for available commands.").

(** [send <id> <type> <message>], after [cmd.substr(5)]. *)
Definition parseSend (args : bytes) : command :=
  match extract args with
  | None => invalidSend
  | Some (idStr, r1) =>
      match extract r1 with
      | None => invalidSend
      | Some (typeStr, r2) =>
          let message := rest_of_line r2 in
          if bool_decide (message = []) then emptyMessage
          else
            match stoi idStr with
            | None => invalidSend
            | Some id =>
                match typeOf typeStr with
                | Some packetId => DoSend id packetId message
                | None => invalidType
                end
            end
      end
  end.

(** [broadcast <type> <message>], after [cmd.substr(10)]. *)
Definition parseBroadcast (args : bytes) : command :=
  match extract args with
  | None => invalidBroadcast
  | Some (typeStr, r1) =>
      let message := rest_of_line r1 in
      if bool_decide (message = []) then emptyMessage
      else
        match typeOf typeStr with
        | Some packetId => DoBroadcast packetId message
        | None => invalidType
        end
  end.

(** The chain of tests on [cmd]. *)
Definition parseCommand (cmd : bytes) : command :=
  if bool_decide (cmd = lit "quit") || bool_decide (cmd = lit "exit") then DoQuit
  else if bool_decide (cmd = lit "count") then DoCount
  else if bool_decide (cmd = lit "help") then DoHelp
  else if bool_decide (cmd = lit "clients") then DoClients
  else if bool_decide (take 4 cmd = lit "send") && (4 <? length cmd)%nat then parseSend (drop 5 cmd)
  else if bool_decide (take 9 cmd = lit "broadcast") && (9 <? length cmd)%nat
  then parseBroadcast (drop 10 cmd)
  else if bool_decide (take 5 cmd = lit "close") && (6 <? length cmd)%nat then
    match stoi (drop 6 cmd) with Some id => DoClose id | None => invalidClose end
  else unknownCommand.

Definition helpText : list bytes :=
  [lit "Available commands:";
   lit "  clients               - List all connected clients";
   lit "  send <id> <type> <msg> - Send message to specific client";
   lit "                           Type: bind, bind_resp, req, resp";
   lit "  broadcast <type> <msg> - Send message to all clients";
   lit "  close <id>            - Close a specific connection";
   lit "  count                 - Show number of active connections";
   lit "  quit                  - Stop server and exit"].

Definition typeName (packetId : Z) : bytes := lit (packetTypeToString packetId).

Section Console.
Context (getClientId : nat → bytes).

(** The loop of [clients] over [i]. *)
Fixpoint listClients (ids : list Z) : M (list bytes) :=
  match ids with
  | [] => mret []
  | i :: ids' =>
      clientId ← getClientInfo getClientId i;
      rest ← listClients ids';
      mret (if bool_decide (clientId = lit "Not found") then rest
            else (lit "  Connection " ++ to_string i ++ lit ": Client ID = " ++ clientId) :: rest)
  end.

(** [for (int i = 1; i < server.connectionCount() + 100; i++)] *)
Definition clientRange (count : Z) : list Z := seqZ 1 (count + 99).

Definition notFound (id : Z) : bytes := lit "Connection " ++ to_string id ++ lit " not found".

(** One command: what is printed. *)
Definition execute (c : command) : M (list bytes) :=
  match c with
  | DoQuit => mret []
  | DoCount =>
      n ← connectionCount;
      mret [lit "Active connections: " ++ to_string n]
  | DoHelp => mret helpText
  | DoClients =>
      n ← connectionCount;
      lines ← listClients (clientRange n);
      mret (lit "Connected clients:" :: lines)
  | DoSend id packetId message =>
      sent ← sendTo id packetId 0 message;
      mret [if sent : bool
            then lit "Sent " ++ typeName packetId ++ lit " packet to connection " ++ to_string id
            else notFound id]
  | DoBroadcast packetId message =>
      broadcast packetId 0 message;;
      mret [lit "Broadcasted " ++ typeName packetId ++ lit " packet to all connections"]
  | DoClose id =>
      closed ← closeConnection id;
      mret [if closed : bool then lit "Connection " ++ to_string id ++ lit " closed" else notFound id]
  | DoComplain line => mret [line]
  end.

(** [std::getline(std::cin, cmd)] *)
Definition getline (cmd : bytes) (input : list bytes) : bytes * list bytes :=
  match input with [] => (cmd, []) | line :: rest => (line, rest) end.

(** The loop, for at most [fuel] commands: the lines printed, and whether it
    was left. *)
Fixpoint console (fuel : nat) (cmd : bytes) (input : list bytes) : M (list bytes * bool) :=
  match fuel with
  | O => mret ([], false)
  | S fuel' =>
      let '(cmd, rest) := getline cmd input in
      match parseCommand cmd with
      | DoQuit => stop;; mret ([lit "Stopping server..."], true)
      | c =>
          out ← execute c;
          more ← console fuel' cmd rest;
          mret (out ++ more.1, more.2)
      end
  end.

End Console.

(** The message of the heartbeat thread. *)
Definition heartbeat (counter : Z) : M unit :=
  broadcast RESPONSE 0 (lit "Server heartbeat: " ++ to_string counter).

(** ** [main] before the loop *)

(** The callbacks, which only print, and [start]. *)
Definition main_setup : M unit :=
  setTimeoutCallback (Some 0%nat);;
  setCallbacks (Some (UserCb 1)) (Some 2%nat);;
  start.

(** The example request, sent and then cancelled; the client and the data come
    from variables the file does not declare. The lines printed. *)
Definition main_request (now clientId : Z) (requestData : bytes) : M (list bytes) :=
  sequence ← sendRequest now clientId requestData 5000 (Some 3%nat) None;
  cancelled ← cancelRequest sequence;
  mret ((if 0 <? sequence then lit "Request sent with sequence " ++ to_string sequence
         else lit "Failed to send request - client not found") ::
        (if cancelled : bool then [lit "Cancelled request with sequence " ++ to_string sequence] else [])).

(** The line that asks for a packet to be sent. *)
Definition sendLine (id : Z) (typeStr message : bytes) : bytes :=
  lit "send " ++ to_string id ++ [32] ++ typeStr ++ [32] ++ message.

(** ** Parsing *)

(** A message that can be typed: not empty, no leading blank, one line. *)
Definition typeable (message : bytes) : Prop :=
  match message with c :: _ => is_space c = false | [] => False end ∧ Forall (λ c, c ≠ 10) message.

#[export] Instance typeable_dec message : Decision (typeable message).
Proof. unfold typeable. destruct message; apply _. Defined.

Lemma rest_of_line_typeable message : typeable message → rest_of_line (32 :: message) = message.
Proof.
  intros [Hs Hn]. unfold rest_of_line. change (skip_ws (32 :: message)) with (skip_ws message).
  rewrite skip_ws_id by by destruct message. rewrite span_all; [done|].
  apply (Forall_impl _ _ _ Hn). intros c Hc. by rewrite (proj2 (Z.eqb_neq _ _)).
Qed.

Lemma typeOf_word typeStr packetId : typeOf typeStr = Some packetId → is_word typeStr.
Proof.
  unfold typeOf. repeat case_bool_decide; try done; intros _; subst;
    apply (bool_decide_unpack _); vm_compute; exact I.
Qed.

Lemma parse_sendLine id typeStr packetId message :
  is_i32 id → typeOf typeStr = Some packetId → typeable message →
  parseCommand (sendLine id typeStr message) = DoSend id packetId message.
Proof.
  intros Hid Hty Hmsg. unfold sendLine.
  set (rest := to_string id ++ [32] ++ typeStr ++ [32] ++ message).
  change (lit "send " ++ rest) with (115 :: 101 :: 110 :: 100 :: 32 :: rest).
  unfold parseCommand.
  rewrite !(bool_decide_false (_ :: _ :: _ :: _ :: _ :: _ = lit _))
    by (intros E; change (lit "clients") with [99; 108; 105; 101; 110; 116; 115] in E;
        repeat (discriminate E || (injection E as E))).
  cbn [orb]. rewrite bool_decide_true by reflexivity.
  cbn [length Nat.ltb Nat.leb andb].
  change (drop 5 _) with rest. unfold parseSend, rest.
  rewrite extract_word by (done || by apply to_string_word). cbn [app]. rewrite extract_blank.
  rewrite extract_word by (done || by eapply typeOf_word).
  rewrite rest_of_line_typeable by done. rewrite stoi_to_string, Hty by done.
  rewrite bool_decide_false; [done|]. intros ->. by destruct Hmsg.
Qed.

(** Whatever is typed, the commands that reach a connection's [send] are those
    with a packet type of the protocol. *)
Lemma parse_types cmd id packetId message :
  parseCommand cmd = DoSend id packetId message →
  is_i32 id ∧ message ≠ [] ∧ packetId ∈ [BIND; BIND_RESP; REQUEST; RESPONSE].
Proof.
  assert (Hstoi : ∀ s v, stoi s = Some v → is_i32 v).
  { intros s v. unfold stoi. destruct (match skip_ws s with [] => _ | _ => _ end) as [neg s'].
    destruct (span is_digit s').1; [done|]. cbv zeta. case_bool_decide; [|done]. by intros [= <-]. }
  assert (Hty : ∀ t v, typeOf t = Some v → v ∈ [BIND; BIND_RESP; REQUEST; RESPONSE]).
  { intros t v. unfold typeOf. repeat case_bool_decide; intros [= <-];
      apply (bool_decide_unpack _); vm_compute; exact I. }
  assert (Hb : ∀ args, parseBroadcast args ≠ DoSend id packetId message).
  { intros args. unfold parseBroadcast. repeat case_match; done. }
  assert (Hs : ∀ args, parseSend args = DoSend id packetId message →
    is_i32 id ∧ message ≠ [] ∧ packetId ∈ [BIND; BIND_RESP; REQUEST; RESPONSE]).
  { intros args. unfold parseSend. destruct (extract args) as [[idStr r1]|]; [|done].
    destruct (extract r1) as [[typeStr r2]|]; [|done]. cbv zeta. case_bool_decide; [done|].
    destruct (stoi idStr) eqn:E1; [|done]. destruct (typeOf typeStr) eqn:E2; [|done].
    intros [= <- <- <-]. split_and!; [by eapply Hstoi|done|by eapply Hty]. }
  unfold parseCommand. repeat case_match; try done; [apply Hs|intros E; by apply Hb in E].
Qed.

(** ** Executing *)

(** Typing [send <id> <type> <message>]: the connection of that id is handed one
    packet with the type, the message and the next sequence number; without such
    a connection nothing is sent. The number is used up either way. *)
Theorem console_sends getClientId id typeStr packetId message s :
  is_i32 id → typeOf typeStr = Some packetId → typeable message →
  let r := execute getClientId (parseCommand (sendLine id typeStr message)) s in
  effs_of r = match connections_ s !! id with
              | Some p => [ECall (ToConn p (CmdSend (createPacket packetId 0 (nextSequence_ s) message)))]
              | None => []
              end ∧
  val_of r = [if bool_decide (is_Some (connections_ s !! id))
              then lit "Sent " ++ typeName packetId ++ lit " packet to connection " ++ to_string id
              else notFound id] ∧
  state_of r = s <| nextSequence_ := u32 (nextSequence_ s + 1) |>.
Proof.
  intros Hid Hty Hmsg. rewrite (parse_sendLine _ _ packetId) by done. simpl.
  unfold sendTo, getNextSequence, sendPacketTo, call. unact.
  by destruct (connections_ s !! id).
Qed.

(** The line printed for a connection. *)
Definition clientLine (getClientId : nat → bytes) (cs : gmap Z nat) (i : Z) : option bytes :=
  p ← cs !! i;
  if bool_decide (getClientId p = lit "Not found") then None
  else Some (lit "  Connection " ++ to_string i ++ lit ": Client ID = " ++ getClientId p).

Lemma listClients_run getClientId ids s :
  listClients getClientId ids s = (s, [], omap (clientLine getClientId (connections_ s)) ids).
Proof.
  induction ids as [|i ids IH]; [done|].
  cbn [listClients]. unfold getClientInfo. cbv [mbind act_bind gets mret act_ret].
  csimpl. unfold clientLine at 1. cbv [mbind option_bind].
  destruct (connections_ s !! i) as [p|]; rewrite IH; [|by rewrite bool_decide_true].
  by case_bool_decide.
Qed.

(** [clients] lists, in ascending order, the connections with an id from 1 to 99
    more than the number of connections, and sends nothing. A connection whose
    id is beyond that is not listed. *)
Theorem console_lists_clients getClientId s :
  let r := execute getClientId DoClients s in
  let n := Z.of_nat (size (connections_ s)) in
  val_of r = lit "Connected clients:" ::
    omap (clientLine getClientId (connections_ s)) (seqZ 1 (n + 99)) ∧
  effs_of r = [] ∧ state_of r = s.
Proof.
  cbv zeta. unfold execute, connectionCount. cbv [mbind act_bind gets mret act_ret].
  rewrite listClients_run. done.
Qed.

(** The request [main] sends for show is cancelled at once: it leaves no trace in
    the table, so no response to it ever reaches its callback. *)
Theorem main_request_is_cancelled now clientId data s :
  pendingRequests_ s !! nextSequence_ s = None → pendingRequests_ s !! 0 = None →
  let r := main_request now clientId data s in
  pendingRequests_ (state_of r) = pendingRequests_ s ∧
  (is_Some (connections_ s !! clientId) → 0 < nextSequence_ s →
   val_of r = [lit "Request sent with sequence " ++ to_string (nextSequence_ s);
               lit "Cancelled request with sequence " ++ to_string (nextSequence_ s)]).
Proof.
  intros Hn H0. unfold main_request, sendRequest, getNextSequence, sendPacketTo, call,
    sendRequest_register, sendRequest_schedule, cancelRequest, arm_timer. unact.
  destruct (connections_ s !! clientId) as [p|]; simpl.
  - destruct (timeoutTimerRunning_ s); simpl; rewrite lookup_insert_eq, delete_insert_id by done;
      (split; [done|]); intros _ Hq; by rewrite (proj2 (Z.ltb_lt _ _)) by done.
  - rewrite delete_id by done. split; [done|]. by intros [? ?].
Qed.

(** ** The loop *)

Lemma console_flag getClientId fuel cmd input s :
  let '(line, rest) := getline cmd input in
  parseCommand line ≠ DoQuit →
  ∃ s', (val_of (console getClientId (S fuel) cmd input s)).2 =
        (val_of (console getClientId fuel line rest s')).2.
Proof.
  destruct (getline cmd input) as [line rest] eqn:E. intros Hq. cbn [console]. rewrite E.
  assert (Hstep : match parseCommand line with
    | DoQuit => stop;; mret ([lit "Stopping server..."], true)
    | c => out ← execute getClientId c; more ← console getClientId fuel line rest;
           mret (out ++ more.1, more.2)
    end = (out ← execute getClientId (parseCommand line);
           more ← console getClientId fuel line rest; mret (out ++ more.1, more.2)))
    by by destruct (parseCommand line).
  rewrite Hstep. cbv [mbind act_bind mret act_ret].
  destruct (execute getClientId (parseCommand line) s) as [[s1 e1] out]. exists s1.
  by destruct (console getClientId fuel line rest s1) as [[s2 e2] [more b]].
Qed.

(** After the end of the input the last command is run again and again. *)
Lemma console_eof getClientId fuel cmd s :
  parseCommand cmd ≠ DoQuit → (val_of (console getClientId fuel cmd [] s)).2 = false.
Proof.
  intros Hq. revert s. induction fuel as [|fuel IH]; intros s; [done|].
  destruct (console_flag getClientId fuel cmd [] s Hq) as [s' ->]. apply IH.
Qed.

(** The loop, entered with an empty command, is left exactly when one of the
    lines read is [quit] or [exit]. When the input ends without one, no number of
    turns is enough: the loop goes on with the last command for ever. *)
Theorem console_left_on_quit getClientId fuel input s :
  (val_of (console getClientId fuel [] input s)).2 = true ↔
  ∃ i cmd, (i < fuel)%nat ∧ input !! i = Some cmd ∧ parseCommand cmd = DoQuit.
Proof.
  assert (Hgen : ∀ cmd0, parseCommand cmd0 ≠ DoQuit →
    (val_of (console getClientId fuel cmd0 input s)).2 = true ↔
    ∃ i cmd, (i < fuel)%nat ∧ input !! i = Some cmd ∧ parseCommand cmd = DoQuit); [|by apply Hgen].
  revert fuel s. induction input as [|cmd input IH]; intros fuel s cmd0 Hq0.
  { rewrite console_eof by done. split; [done|]. intros (i & cmd & _ & Hi & _). by rewrite lookup_nil in Hi. }
  destruct fuel as [|fuel]; [split; [done|]; intros (i & ? & ? & _); lia|].
  assert (Hdec : parseCommand cmd = DoQuit ∨ parseCommand cmd ≠ DoQuit)
    by (destruct (parseCommand cmd); auto; right; discriminate).
  destruct Hdec as [Hq|Hq].
  - split; [intros _; exists 0%nat, cmd; split; [lia|done]|].
    intros _. cbn [console getline]. rewrite Hq. cbv [mbind act_bind mret act_ret].
    by destruct (stop s) as [[? ?] ?].
  - destruct (console_flag getClientId fuel cmd0 (cmd :: input) s Hq) as [s' ->].
    rewrite IH by done. split.
    + intros (i & c & Hi & Hl & Hc). exists (S i), c. split; [lia|done].
    + intros ([|i] & c & Hi & Hl & Hc); simplify_eq/=. exists i, c. split; [lia|done].
Qed.

(** ** Concrete runs *)

Definition sample_server : tcpserver :=
  (new_server (lit "S")) <| connections_ := {[3 := 7%nat]} |> <| nextSequence_ := 5 |>.

Lemma console_sends_witness :
  effs_of (execute (λ _, []) (parseCommand (lit "send 3 req hello world")) sample_server) =
    [ECall (ToConn 7 (CmdSend (createPacket REQUEST 0 5 (lit "hello world"))))].
Proof.
  apply (console_sends (λ _, []) 3 (lit "req") REQUEST (lit "hello world") sample_server).
  - apply (bool_decide_unpack _). vm_compute. exact I.
  - reflexivity.
  - apply (bool_decide_unpack _). vm_compute. exact I.
Defined.

(** A hundred clients came and went: the only one left is not listed. *)
Example client_101_not_listed :
  val_of (execute (λ _, lit "CLIENT") DoClients
    (sample_server <| connections_ := {[101 := 7%nat]} |>)) = [lit "Connected clients:"].
Proof. vm_compute. reflexivity. Qed.
