(* ===== verification/TcpServerMain.v ===== *)
(** * TcpServerMain: the program of claude/asio_server.cpp

    [main] with its command loop, the heartbeat thread and the threads of the
    server's context, interleaved. The member functions are those of TcpServer,
    the commands those of ServerConsole; a connection is an object of its own
    (TcpConnection), of which the program sees that it was started, what it calls
    ([sp_conn]) and that its operations have ended ([tm_ended]). *)

From S2P Require Import Prelude Bytes Tables Asio Schedule Drain TcpPacket TcpServer TcpServerProps Text ServerConsole TurboLife.

(** The positions of [main]. *)
Inductive tm_pc :=
| TmSetup | TmHeartbeat | TmRequest | TmLoop | TmJoining | TmDetach | TmDestroy | TmReturn.
#[export] Instance tm_pc_eq_dec : EqDecision tm_pc.
Proof. solve_decision. Defined.

Record tmain := TMain {
  tm_world : world tcpserver s_op Empty_set s_timer s_call;
  tm_main : tm_pc;
  tm_cmd : bytes;                    (* the variable [cmd] *)
  tm_output : list bytes;
  tm_beat : option (Z * Z);          (* the heartbeat thread: [counter], and when it wakes *)
  tm_alive : bool;                   (* [server] is not destroyed *)
  tm_ended : gset nat;               (* connections that have nothing outstanding any more *)
  tm_end : option ending }.

#[export] Instance eta_tmain : Eta tmain := λ g,
  TMain (tm_world g) (tm_main g) (tm_cmd g) (tm_output g) (tm_beat g) (tm_alive g) (tm_ended g) (tm_end g).

Ltac tmain_simpl :=
  cbn [field_upd tm_world tm_main tm_cmd tm_output tm_beat tm_alive tm_ended tm_end] in *.

(** What connections call. *)
Inductive conn_api :=
| ConnPacket (cb : packet_cb) (connectionId : Z) (packet : Packet)
| ConnGone (connectionId : Z).

Definition sp_conn (a : conn_api) : s_api :=
  match a with
  | ConnPacket cb c p => APacket cb c p
  | ConnGone c => AUnregister c
  end.

(** The connections that were started. *)
Definition opened (log : list s_call) : list nat :=
  omap (λ c, match c with ToConn p (CmdStart _ _) => Some p | _ => None end) log.

Section ServerMain.
Context (getClientId : nat → bytes) (depth : nat).
(** Two variables the file does not declare, see [main_request]. *)
Context (clientId : Z) (requestData : bytes).
Abbreviation twld := (world tcpserver s_op Empty_set s_timer s_call).
Implicit Types (g : tmain) (w : twld).

(** The server when only its connections call its interface. *)
Definition server_context : handlers tcpserver s_op Empty_set s_timer s_call conn_api :=
  Handlers (λ _, KAccept)
    (λ _ o res, let '(OpAccept p i) := o in on_accept p i res)
    (λ _ (q : Empty_set), match q return M unit with end)
    (λ now _ aborted, checkTimeouts now aborted)
    (λ now a, server_api depth now (sp_conn a)).

(** The threads are in [io_context_.run()]: from [start] to the [join]s. *)
Definition threads_run (pc : tm_pc) : bool :=
  match pc with TmHeartbeat | TmRequest | TmLoop | TmJoining => true | _ => false end.

(** They return from it when nothing is outstanding, neither of the server nor
    of a connection. *)
Definition drained g : Prop :=
  let w := tm_world g in
  w_ops w = [] ∧ w_armed w = [] ∧ w_fired w = [] ∧ ∀ p, p ∈ opened (w_calls w) → p ∈ tm_ended g.

(** [std::this_thread::sleep_for(std::chrono::seconds(5))] *)
Definition wake_after (now : Z) : Z := now + seconds 5.

(** One turn of the heartbeat thread, after its sleep. *)
Definition beat_turn (i : Z) g : tmain :=
  if tm_alive g
  then g <| tm_world := run (heartbeat i) (tm_world g) |>
         <| tm_beat := Some (i32 (i + 1), wake_after (w_now (tm_world g))) |>
  else g <| tm_end := Some Undefined |>.

(** One turn of the command loop; [line] is [None] when the input is exhausted
    and leaves [cmd] as it was. *)
Definition loop_turn (line : option bytes) g : tmain :=
  let cmd := default (tm_cmd g) line in
  let w := tm_world g in
  match parseCommand cmd with
  | DoQuit =>
      g <| tm_cmd := cmd |> <| tm_world := run stop w |> <| tm_main := TmJoining |>
        <| tm_output := tm_output g ++ [lit "Stopping server..."] |>
  | c =>
      let m := execute getClientId c in
      g <| tm_cmd := cmd |> <| tm_world := run m w |>
        <| tm_output := tm_output g ++ val_of (m (w_st w)) |>
  end.

(** One statement of [main]. *)
Definition tm_turn (line : option bytes) g : tmain :=
  let w := tm_world g in
  match tm_main g with
  | TmSetup => g <| tm_world := run main_setup w |> <| tm_main := TmHeartbeat |>
  | TmHeartbeat => g <| tm_beat := Some (0, wake_after (w_now w)) |> <| tm_main := TmRequest |>
  | TmRequest =>
      let m := main_request (w_now w) clientId requestData in
      g <| tm_world := run m w |> <| tm_main := TmLoop |>
        <| tm_output := tm_output g ++ val_of (m (w_st w)) |>
  | TmLoop => loop_turn line g
  | TmJoining => g <| tm_main := TmDetach |>        (* [thread.join()] returned *)
  | TmDetach => g <| tm_main := TmDestroy |>        (* [heartbeatThread.detach()] *)
  | TmDestroy => g <| tm_alive := false |> <| tm_main := TmReturn |>
  | TmReturn => g <| tm_end := Some (Exited 0) |>
  end.

(** The [catch] of [main], for what the constructor of the server throws when
    the port is taken. *)
Definition caught g : tmain := g <| tm_end := Some (Exited 1) |>.

Inductive tm_step : tmain → tmain → Prop :=
| tm_io g w' :
    tm_end g = None → threads_run (tm_main g) = true → step server_context (tm_world g) w' →
    tm_step g (g <| tm_world := w' |>)
| tm_tick g now :
    tm_end g = None → w_now (tm_world g) <= now →
    tm_step g (g <| tm_world := (tm_world g) <| w_now := now |> |>)
| tm_conn_end g p :
    tm_end g = None → threads_run (tm_main g) = true → p ∈ opened (w_calls (tm_world g)) →
    tm_step g (g <| tm_ended := {[p]} ∪ tm_ended g |>)
| tm_heart g i wake :
    tm_end g = None → tm_beat g = Some (i, wake) → wake <= w_now (tm_world g) →
    tm_step g (beat_turn i g)
| tm_statement g line :
    tm_end g = None → (tm_main g = TmJoining → drained g) → tm_step g (tm_turn line g)
| tm_refused g :
    tm_end g = None → tm_main g = TmSetup → tm_step g (caught g).

Definition tm_start (now : Z) : tmain :=
  TMain (init_world (new_server (lit "SERVER_MAIN_001")) now) TmSetup [] [] None true ∅ None.

Definition tm_reachable (now : Z) g : Prop := rtc tm_step (tm_start now) g.

(** ** The program uses the server within its interface *)

Lemma server_context_step w w' : step server_context w w' → step (server_handlers depth) w w'.
Proof.
  intros Hs. destruct Hs as [w q ps Hp|w o l1 l2 r Ho Ha|w t d l1 l2 Ha Hd|w t ab l1 l2 Hf|w now Hn|w a].
  - destruct q.
  - by apply (step_io (server_handlers depth) w o l1 l2 r).
  - by eapply (step_expire (server_handlers depth)).
  - by apply (step_timer (server_handlers depth)).
  - by apply step_tick.
  - apply (step_api (server_handlers depth) w (sp_conn a)).
Qed.

(** Code made of calls of the interface, at the time [now]. *)
Definition uses_api (now : Z) {A} (m : M A) : Prop :=
  ∀ w, w_now w = now → reachable (server_handlers depth) w (run m w).

Lemma uses_bind now {A B} (m : M A) (k : A → M B) :
  uses_api now m → (∀ x, uses_api now (k x)) → uses_api now (x ← m; k x).
Proof.
  intros Hm Hk w Hw. rewrite run_bind. eapply reachable_trans; [by apply Hm|]. apply Hk.
  destruct (run_fields m w) as (_ & _ & _ & _ & _ & ->). done.
Qed.

Lemma uses_pure now {A} (m : M A) (f : tcpserver → A) :
  (∀ s, m s = (s, [], f s)) → uses_api now m.
Proof. intros Hm w _. unfold run. rewrite Hm. destruct w. apply rtc_refl. Qed.

Lemma uses_ret now {A} (x : A) : uses_api now (mret x).
Proof. by apply (uses_pure now _ (λ _, x)). Qed.

Lemma uses_call now (a : s_api) : uses_api now (server_api depth now a).
Proof. intros w <-. apply rtc_once, (step_api (server_handlers depth) w a). Qed.

Lemma uses_ignored now {A} (m : M A) a : server_api depth now a = ignore m → uses_api now m.
Proof.
  intros Ha w Hw. rewrite <-(server_run_ignore m), <-Ha. by apply (uses_call now a).
Qed.

Lemma uses_execute now c : uses_api now (execute getClientId c).
Proof.
  destruct c as [| | | |id i msg|i msg|id|line]; simpl; try apply uses_ret.
  - by eapply uses_pure.
  - eapply uses_bind; [by eapply uses_pure|]. intros n. eapply uses_bind; [|intros; apply uses_ret].
    eapply uses_pure. intros s. apply listClients_run.
  - apply uses_bind; [|intros; apply uses_ret]. by apply (uses_ignored now _ (ASendTo id i 0 msg)).
  - apply uses_bind; [|intros; apply uses_ret]. apply (uses_call now (ABroadcast i 0 msg)).
  - apply uses_bind; [|intros; apply uses_ret]. by apply (uses_ignored now _ (ACloseConnection id)).
Qed.

Lemma uses_setup now : uses_api now main_setup.
Proof.
  unfold main_setup. apply uses_bind; [apply (uses_call now (ASetTimeoutCallback (Some 0%nat)))|]. intros _.
  apply uses_bind; [apply (uses_call now (ASetCallbacks (Some 1%nat) (Some 2%nat)))|]. intros _.
  apply (uses_call now AStart).
Qed.

Lemma uses_request now : uses_api now (main_request now clientId requestData).
Proof.
  unfold main_request. apply uses_bind.
  - by apply (uses_ignored now _ (ASendRequest clientId requestData 5000 (Some 3%nat) None)).
  - intros q. apply uses_bind; [|intros; apply uses_ret]. by apply (uses_ignored now _ (ACancelRequest q)).
Qed.

Lemma tm_turn_world line g :
  reachable (server_handlers depth) (tm_world g) (tm_world (tm_turn line g)).
Proof.
  unfold tm_turn. destruct (tm_main g); try apply rtc_refl.
  - by apply (uses_setup (w_now (tm_world g))).
  - by apply (uses_request (w_now (tm_world g))).
  - unfold loop_turn. set (c := parseCommand _). clearbody c.
    assert (Hc : reachable (server_handlers depth) (tm_world g) (run (execute getClientId c) (tm_world g)))
      by by apply (uses_execute (w_now (tm_world g))).
    destruct c; try exact Hc. by apply (uses_call (w_now (tm_world g)) AStop).
Qed.

Lemma tm_step_world g g' :
  tm_step g g' → reachable (server_handlers depth) (tm_world g) (tm_world g').
Proof.
  intros Hs. destruct Hs as [g w' _ _ Hs|g now _ Hn|g p _ _ _|g i wake _ _ _|g line _ _|g _ _].
  - by apply rtc_once, server_context_step.
  - by apply rtc_once, step_tick.
  - apply rtc_refl.
  - unfold beat_turn. destruct (tm_alive g); [|apply rtc_refl].
    by apply (uses_call (w_now (tm_world g)) (ABroadcast RESPONSE 0 (lit "Server heartbeat: " ++ to_string i))).
  - apply tm_turn_world.
  - apply rtc_refl.
Qed.

Lemma tm_world_reachable now g :
  tm_reachable now g →
  reachable (server_handlers depth) (init_world (new_server (lit "SERVER_MAIN_001")) now) (tm_world g).
Proof.
  apply (rtc_invariant tm_step (λ g, reachable (server_handlers depth)
    (init_world (new_server (lit "SERVER_MAIN_001")) now) (tm_world g))); [apply rtc_refl|].
  intros a b Ha Hs. eapply reachable_trans; [exact Ha|by apply tm_step_world].
Qed.

(** Every run of the program, its command loop, its heartbeats and its I/O
    threads in any order, is a run of the server's machine from its
    construction: what is proved of that machine holds of the program. *)
Theorem tcp_program_refines_server now g :
  tm_reachable now g →
  reachable (server_handlers depth) (init_world (new_server (lit "SERVER_MAIN_001")) now) (tm_world g).
Proof. apply tm_world_reachable. Qed.

(** ** The heartbeat counter *)

Definition beat_inv (now : Z) g : Prop :=
  now <= w_now (tm_world g) ∧
  ∀ i wake, tm_beat g = Some (i, wake) →
    0 <= i ∧ seconds 5 * (i + 1) <= wake - now ∧ wake <= w_now (tm_world g) + seconds 5 ∨
    seconds 5 * 2 ^ 31 <= w_now (tm_world g) - now.

Lemma run_now {A} (m : M A) w : w_now (run m w) = w_now w.
Proof. by destruct (run_fields m w) as (_ & _ & _ & _ & _ & ->). Qed.

Lemma step_later w w' : step server_context w w' → w_now w <= w_now w'.
Proof.
  intros Hs. destruct Hs as [w q ps Hp|w o l1 l2 r Ho Ha|w t d l1 l2 Ha Hd|w t ab l1 l2 Hf|w now Hn|w a].
  - destruct q.
  - destruct (complete_fields server_context o r (l1 ++ l2) w) as (_ & _ & _ & _ & _ & ->). lia.
  - done.
  - rewrite run_now. done.
  - done.
  - rewrite run_now. done.
Qed.

Lemma beat_inv_later now g g' :
  w_now (tm_world g) <= w_now (tm_world g') → tm_beat g' = tm_beat g → beat_inv now g → beat_inv now g'.
Proof.
  intros Hle Hb [Hn Hi]. split; [lia|]. intros i wake E. rewrite Hb in E.
  destruct (Hi i wake E) as [?|?]; [left|right]; lia.
Qed.

Lemma tm_turn_later line g : w_now (tm_world (tm_turn line g)) = w_now (tm_world g).
Proof.
  unfold tm_turn. destruct (tm_main g); tmain_simpl; rewrite ?run_now; try done.
  unfold loop_turn. destruct (parseCommand _); tmain_simpl; by rewrite ?run_now.
Qed.

Lemma tm_turn_beat line g :
  tm_beat (tm_turn line g) = tm_beat g ∨ tm_beat (tm_turn line g) = Some (0, wake_after (w_now (tm_world g))).
Proof.
  unfold tm_turn. destruct (tm_main g); auto. unfold loop_turn. destruct (parseCommand _); auto.
Qed.

Lemma beat_inv_step now g g' : beat_inv now g → tm_step g g' → beat_inv now g'.
Proof.
  intros Hi Hs. destruct Hs as [g w' _ _ Hs|g now' _ Hn|g p _ _ _|g i wake _ Hb Hw|g line _ _|g _ _].
  - apply (beat_inv_later now g); [by apply step_later|done|done].
  - by apply (beat_inv_later now g).
  - by apply (beat_inv_later now g).
  - unfold beat_turn. destruct (tm_alive g); [|by apply (beat_inv_later now g)].
    destruct Hi as [Hn Hi]. split; tmain_simpl; rewrite run_now; [done|]. intros j wake' [= <- <-].
    destruct (Hi i wake Hb) as [(H0 & H1 & _)|H1]; [|by right]. unfold wake_after, seconds, milliseconds in *.
    destruct (decide (i + 1 < 2 ^ 31)); [left|right; lia].
    assert (Hi32 : i32 (i + 1) = i + 1) by (unfold i32; rewrite Z.mod_small; lia). rewrite Hi32. lia.
  - destruct (tm_turn_beat line g) as [Hb|Hb].
    + apply (beat_inv_later now g); [by rewrite tm_turn_later|done|done].
    + destruct Hi as [Hn Hi]. split; rewrite tm_turn_later; [done|].
      rewrite Hb. intros i wake [= <- <-]. left. unfold wake_after, seconds, milliseconds. lia.
  - by apply (beat_inv_later now g).
Qed.

(** C35: The counter of the heartbeat thread does not overflow in the first
    5 * 2^31 seconds of the program (340 years): there is at most one heartbeat
    in five seconds, whatever else runs. *)
Theorem heartbeat_counter_in_range now g i wake :
  tm_reachable now g → tm_beat g = Some (i, wake) →
  w_now (tm_world g) - now < seconds 5 * 2 ^ 31 →
  0 <= i < 2 ^ 31 ∧ seconds 5 * (i + 1) <= wake - now.
Proof.
  intros Hr Hb Ht. assert (Hi : beat_inv now g).
  { refine (rtc_invariant tm_step (beat_inv now) _ g _ (beat_inv_step now) Hr). by split. }
  destruct Hi as [_ Hi]. destruct (Hi i wake Hb) as [(H0 & H1 & H2)|?]; [|lia].
  unfold seconds, milliseconds in *. lia.
Qed.

(** ** Stopping *)

Definition stopped_accepting g : Prop := tm_main g = TmJoining → acceptor_open (w_st (tm_world g)) = false.

(** Nothing but [stop] changes whether the acceptor is open. *)
Definition same_acceptor (s s' : tcpserver) : Prop := acceptor_open s' = acceptor_open s.
#[local] Instance same_acceptor_preorder : PreOrder same_acceptor.
Proof. split; [done|]. intros s1 s2 s3. unfold same_acceptor. congruence. Qed.

(** ... and nothing but [stop] and [closeConnection] closes a connection. *)
Definition closes_nothing (e : s_eff) : Prop :=
  match e with ECall (ToConn _ CmdClose) => False | _ => True end.

Abbreviation background := (keeps same_acceptor closes_nothing).

Ltac background_tac :=
  repeat first
    [ solve [auto with tn_background nocore]
    | progress keeps_tac
    | progress case_match ].

Create HintDb tn_background.

Lemma background_each cmd (l : list (Z * nat)) :
  cmd ≠ CmdClose → background _ (foldr (λ e k, call (ToConn e.2 cmd);; k) skip l).
Proof.
  intros Hc. induction l as [|e l IH]; simpl; [keeps_tac|]. apply compose; [|intros _; exact IH].
  unfold call. apply keeps_emit; [apply _|]. by destruct cmd.
Qed.

Lemma background_route i p : background _ (route_response i p).
Proof. unfold route_response, call. background_tac. Qed.
Lemma background_call_packet cb i p d : background _ (call_packet d cb i p).
Proof.
  revert cb. induction d as [|d IH]; intros cb; simpl; [keeps_tac|].
  destruct cb as [f|]; [unfold call; keeps_tac|]. apply compose; [apply background_route|]. intros _.
  apply compose; [keeps_tac|]. intros [cb'|]; [apply IH|keeps_tac].
Qed.
Lemma background_conn now a : background _ (server_api depth now (sp_conn a)).
Proof.
  destruct a as [cb c p|c]; simpl.
  - unfold ignore. apply compose; [apply background_call_packet|]. intros _. keeps_tac.
  - unfold unregisterConnection, call. background_tac.
Qed.
Lemma background_accept p i r : background _ (on_accept p i r).
Proof.
  unfold on_accept, registerConnection, call, startAccept. background_tac.
Qed.
Lemma background_expire l : background _ (expire_all l).
Proof.
  induction l as [|q l IH]; simpl; [keeps_tac|]. apply compose; [|intros _; exact IH].
  unfold expire_one, call. background_tac.
Qed.
Lemma background_timer now ab : background _ (checkTimeouts now ab).
Proof.
  unfold checkTimeouts, checkTimeouts_sweep, checkTimeouts_finish, arm_timer.
  destruct ab; [keeps_tac|]. repeat (apply compose; [|intros ?]).
  all: try apply background_expire. all: background_tac.
Qed.
Lemma background_heartbeat i : background _ (heartbeat i).
Proof.
  unfold heartbeat, broadcast, broadcastPacket, getNextSequence, to_all. keeps_tac.
  by apply background_each.
Qed.

(** What the threads of the context do in one step. *)
Lemma background_step w w' :
  step server_context w w' →
  acceptor_open (w_st w') = acceptor_open (w_st w) ∧
  ∃ cs, w_calls w' = w_calls w ++ cs ∧ Forall (λ c, closes_nothing (ECall c)) cs.
Proof.
  intros Hs.
  assert (Hcalled : ∀ es : list s_eff, Forall closes_nothing es →
    Forall (λ c, closes_nothing (ECall c)) (called es)).
  { intros es Hes. apply Forall_forall. intros c Hc. apply list_elem_of_omap in Hc as (e & He & Hce).
    rewrite Forall_forall in Hes. specialize (Hes e He). by destruct e; simplify_eq. }
  destruct Hs as [w q ps Hp|w o l1 l2 r Ho Ha|w t d l1 l2 Ha Hd|w t ab l1 l2 Hf|w now Hn|w a].
  - destruct q.
  - destruct o as [p i]. destruct (complete_fields server_context (OpAccept p i) r (l1 ++ l2) w) as (-> & _ & _ & -> & _).
    destruct (background_accept p i r (w_st w)) as [Hk He]. split; [exact Hk|]. eauto.
  - split; [done|]. exists []. by rewrite app_nil_r.
  - destruct (run_fields (checkTimeouts (w_now w) ab) (w <| w_fired := l1 ++ l2 |>)) as (E1 & _ & _ & E2 & _).
    destruct (background_timer (w_now w) ab (w_st w)) as [Hk He]. simpl in *. rewrite E1, E2. eauto.
  - split; [done|]. exists []. by rewrite app_nil_r.
  - destruct (run_fields (server_api depth (w_now w) (sp_conn a)) w) as (E1 & _ & _ & E2 & _).
    destruct (background_conn (w_now w) a (w_st w)) as [Hk He]. simpl. rewrite E1, E2. eauto.
Qed.

Lemma stop_closes (s : tcpserver) : acceptor_open (state_of (stop s)) = false.
Proof.
  unfold stop. cbv [mbind act_bind modify emit].
  assert (Hb : ∀ s, acceptor_open (state_of (to_all CmdClose s)) = acceptor_open s).
  { intros s'. assert (Hk : keeps same_acceptor (λ _ : s_eff, True) _ (to_all CmdClose)); [|apply Hk].
    unfold to_all. keeps_tac. induction (map_to_list x) as [|e l IH]; simpl; [keeps_tac|].
    apply compose; [unfold call; keeps_tac|done]. }
  specialize (Hb (s <| acceptor_open := false |>)).
  destruct (to_all CmdClose (s <| acceptor_open := false |>)) as [[s1 e1] u]. exact Hb.
Qed.

Lemma stopped_accepting_step g g' : stopped_accepting g → tm_step g g' → stopped_accepting g'.
Proof.
  unfold stopped_accepting. intros Hi Hs.
  destruct Hs as [g w' _ _ Hs|g now _ Hn|g p _ _ _|g i wake _ _ _|g line _ _|g _ _].
  - intros Hm. destruct (background_step _ _ Hs) as [E _]. tmain_simpl. rewrite E. by apply Hi.
  - exact Hi.
  - exact Hi.
  - unfold beat_turn. destruct (tm_alive g); [|exact Hi]. intros Hm. tmain_simpl.
    destruct (run_fields (heartbeat i) (tm_world g)) as (-> & _).
    destruct (background_heartbeat i (w_st (tm_world g))) as [Hk _]. rewrite Hk. by apply Hi.
  - unfold tm_turn. destruct (tm_main g) eqn:Hm; tmain_simpl; try done; [|by rewrite Hm].
    unfold loop_turn. destruct (parseCommand _); tmain_simpl; rewrite ?Hm; try done. intros _.
    destruct (run_fields stop (tm_world g)) as (-> & _). apply stop_closes.
  - exact Hi.
Qed.

Lemma still_pending_empty now (m : gmap Z PendingRequest) :
  still_pending now m = ∅ ↔ ∀ q r, m !! q = Some r → expiryTime r <= now.
Proof.
  split.
  - intros He q r Hq. destruct (Z.leb_spec (expiryTime r) now) as [|Hlt]; [done|exfalso].
    assert (Hs : still_pending now m !! q = Some r); [|by rewrite He in Hs].
    apply map_lookup_filter_Some. split; [done|]. simpl. unfold is_expired.
    by rewrite (proj2 (Z.leb_gt _ _)).
  - intros Hm. apply map_eq. intros q. rewrite lookup_empty. apply map_lookup_filter_None. right.
    intros r Hq. simpl. unfold is_expired. rewrite (proj2 (Z.leb_le _ _)) by by eapply Hm. done.
Qed.

Lemma still_pending_later (t t' : Z) (m : gmap Z PendingRequest) :
  t <= t' → still_pending t m = ∅ → still_pending t' m = ∅.
Proof.
  intros Hle He. apply still_pending_empty. intros q r Hr.
  apply (proj1 (still_pending_empty _ _) He) in Hr. lia.
Qed.

Lemma latest_expiry (m : gmap Z PendingRequest) (t0 : Z) :
  ∃ t, t0 <= t ∧ still_pending t m = ∅.
Proof.
  assert (H : ∃ t, t0 <= t ∧ ∀ q r, m !! q = Some r → expiryTime r <= t).
  { induction m as [|q r m Hq IH] using map_ind; [by exists t0; split; [lia|]|].
    destruct IH as (t & Hle & Ht). exists (Z.max t (expiryTime r)). split; [lia|].
    intros q' r' [[<- <-]|[_ Hr']]%lookup_insert_Some; [lia|]. specialize (Ht q' r' Hr'). lia. }
  destruct H as (t & Hle & Ht). exists t. split; [done|]. by apply still_pending_empty.
Qed.

(** With the acceptor closed, accepts fail for good, and once every request has
    expired, the timer's handler does not arm it again. *)
#[local] Instance stopped_server_drains :
  Drains server_context (λ s, acceptor_open s = false)
    (λ t s, still_pending t (pendingRequests_ s) = ∅).
Proof.
  split.
  - intros now [p i] s Hs. simpl. unfold on_accept. unact. by rewrite Hs.
  - intros now [].
  - intros s t _. destruct (latest_expiry (pendingRequests_ s) t) as (t' & Hle & He).
    exists t'. split; [done|]. intros t'' Ht. by eapply still_pending_later.
  - intros now t [] s Hq; [done|].
    change (h_timer server_context now t false s) with (checkTimeouts now false s).
    destruct (server_checkTimeouts_run now s) as [-> ->]. rewrite Hq, !decide_True by done. split.
    + apply (map_filter_empty (M:=gmap Z)).
    + rewrite app_nil_r. apply Forall_fmap. by apply Forall_true.
Qed.

Lemma tm_run_world g w' :
  tm_end g = None → threads_run (tm_main g) = true → reachable server_context (tm_world g) w' →
  rtc tm_step g (g <| tm_world := w' |>).
Proof.
  intros He Ht Hr. remember (tm_world g) as w eqn:Ew. revert g He Ht Ew.
  induction Hr as [w|w v w' Hs _ IH]; intros g He Ht Ew.
  - subst w. destruct g. apply rtc_refl.
  - eapply rtc_l; [apply (tm_io g v); [done..|by rewrite <-Ew]|].
    refine (IH (g <| tm_world := v |>) _ _ _); done.
Qed.

Lemma tm_run_ends g (ps : list nat) :
  tm_end g = None → threads_run (tm_main g) = true →
  Forall (λ p, p ∈ opened (w_calls (tm_world g))) ps →
  ∃ E, rtc tm_step g (g <| tm_ended := E |>) ∧ ∀ p, p ∈ ps → p ∈ E.
Proof.
  intros He Ht Hps. induction Hps as [|p ps Hp _ (E & Hr & HE)].
  - exists (tm_ended g). split; [destruct g; apply rtc_refl|set_solver].
  - exists ({[p]} ∪ E). split; [|set_solver]. eapply rtc_r; [exact Hr|].
    pose proof (tm_conn_end (g <| tm_ended := E |>) p) as Hx. tmain_simpl. by apply Hx.
Qed.

(** The last statements of [main]. *)
Lemma tm_exit_path g :
  drained g → tm_main g = TmJoining → tm_end g = None →
  ∃ g', rtc tm_step g g' ∧ tm_end g' = Some (Exited 0).
Proof.
  intros Hd Hm He.
  assert (Hnext : ∀ h pc pc', tm_main h = pc → tm_end h = None → (pc = TmJoining → drained h) →
    (tm_main (tm_turn None h) = pc' ∧ tm_end (tm_turn None h) = None) →
    ∃ h', tm_step h h' ∧ tm_main h' = pc' ∧ tm_end h' = None).
  { intros h pc pc' Hh Hn Hdr Hx. exists (tm_turn None h). split; [|done].
    apply tm_statement; [done|]. rewrite Hh. done. }
  destruct (Hnext g TmJoining TmDetach) as (g1 & S1 & M1 & E1); [done..|unfold tm_turn; by rewrite Hm|].
  destruct (Hnext g1 TmDetach TmDestroy) as (g2 & S2 & M2 & E2); [done..|unfold tm_turn; by rewrite M1|].
  destruct (Hnext g2 TmDestroy TmReturn) as (g3 & S3 & M3 & E3); [done..|unfold tm_turn; by rewrite M2|].
  exists (tm_turn None g3). split.
  - eapply rtc_l; [exact S1|]. eapply rtc_l; [exact S2|]. eapply rtc_l; [exact S3|].
    apply rtc_once, tm_statement; [done|]. by rewrite M3.
  - unfold tm_turn. by rewrite M3.
Qed.


(** ** A client that comes while the server stops *)

Definition closed_conns (log : list s_call) : list nat :=
  omap (λ c, match c with ToConn p CmdClose => Some p | _ => None end) log.

(** The program waits for connection [p], which nobody closes. *)
Definition waits_for (p : nat) g : Prop :=
  tm_main g = TmJoining ∧ p ∈ opened (w_calls (tm_world g)) ∧ (p ∉ tm_ended g) ∧
  p ∉ closed_conns (w_calls (tm_world g)).

Lemma closes_nothing_log cs : Forall (λ c, closes_nothing (ECall c)) cs → closed_conns cs = [].
Proof. induction 1 as [|c cs Hc _ IH]; [done|]. unfold closed_conns in *. csimpl. by destruct c as [p []| | | |]. Qed.

Lemma waits_for_more p g cs w' :
  w_calls w' = w_calls (tm_world g) ++ cs → Forall (λ c, closes_nothing (ECall c)) cs →
  waits_for p g → waits_for p (g <| tm_world := w' |>).
Proof.
  intros Hw Hcs (Hm & Ho & He & Hc). split_and!; [done| |done|]; tmain_simpl; rewrite Hw.
  - unfold opened in *. rewrite omap_app. set_solver.
  - assert (E : closed_conns (w_calls (tm_world g) ++ cs) = closed_conns (w_calls (tm_world g)) ++ closed_conns cs)
      by apply omap_app.
    by rewrite E, (closes_nothing_log cs Hcs), app_nil_r.
Qed.

Lemma waits_for_step p g g' :
  waits_for p g → tm_step g g' → p ∉ tm_ended g' → waits_for p g'.
Proof.
  intros Hi Hs Hne. destruct Hs as [g w' _ _ Hs|g now _ Hn|g q _ _ _|g i wake _ _ _|g line _ Hd|g _ _].
  - destruct (background_step _ _ Hs) as (_ & cs & Hcs & Hnc). by eapply waits_for_more.
  - apply (waits_for_more p g []); [by rewrite app_nil_r|done|done].
  - by destruct Hi as (? & ? & ? & ?).
  - unfold beat_turn. destruct (tm_alive g); [|exact Hi].
    destruct (run_fields (heartbeat i) (tm_world g)) as (_ & _ & _ & Hc & _).
    destruct (background_heartbeat i (w_st (tm_world g))) as [_ Hb].
    assert (Hcs : Forall (λ c, closes_nothing (ECall c)) (called (effs_of (heartbeat i (w_st (tm_world g)))))).
    { apply Forall_forall. intros c Hx. apply list_elem_of_omap in Hx as (e & He & Hce).
      rewrite Forall_forall in Hb. specialize (Hb e He). by destruct e; simplify_eq. }
    destruct (waits_for_more p g _ _ Hc Hcs Hi) as (? & ? & ? & ?). by split_and!.
  - destruct Hi as (Hm & Ho & He & _). destruct (Hd Hm) as (_ & _ & _ & Hall). by apply Hall in Ho.
  - by destruct Hi as (? & ? & ? & ?).
Qed.

(** ** Running the program by hand *)

Inductive tm_choice :=
| TurnStatement (line : option bytes)
| TurnContext (c : choice)
| TurnClock (now : Z)
| TurnBeat
| TurnEnd (p : nat).

#[local] Instance drained_dec g : Decision (drained g).
Proof.
  unfold drained.
  refine (cast_if (decide (w_ops (tm_world g) = [] ∧ w_armed (tm_world g) = [] ∧ w_fired (tm_world g) = [] ∧
    Forall (λ p, p ∈ tm_ended g) (opened (w_calls (tm_world g)))))); abstract (rewrite ?Forall_forall in *; naive_solver).
Defined.

Definition tm_exec (c : tm_choice) g : option tmain :=
  match tm_end g with
  | Some _ => None
  | None =>
      match c with
      | TurnStatement line =>
          if bool_decide (tm_main g = TmJoining) && negb (bool_decide (drained g)) then None
          else Some (tm_turn line g)
      | TurnContext c =>
          if threads_run (tm_main g)
          then w' ← exec server_context c (tm_world g); Some (g <| tm_world := w' |>) else None
      | TurnClock now =>
          if bool_decide (w_now (tm_world g) <= now)
          then Some (g <| tm_world := (tm_world g) <| w_now := now |> |>) else None
      | TurnBeat =>
          '(i, wake) ← tm_beat g;
          if bool_decide (wake <= w_now (tm_world g)) then Some (beat_turn i g) else None
      | TurnEnd p =>
          if threads_run (tm_main g) && bool_decide (p ∈ opened (w_calls (tm_world g)))
          then Some (g <| tm_ended := {[p]} ∪ tm_ended g |>) else None
      end
  end.

Fixpoint tm_execs (cs : list tm_choice) g : option tmain :=
  match cs with
  | [] => Some g
  | c :: cs' => tm_exec c g ≫= tm_execs cs'
  end.

Lemma tm_exec_step c g g' : tm_exec c g = Some g' → tm_step g g'.
Proof.
  unfold tm_exec. destruct (tm_end g) eqn:He; [done|]. destruct c as [line|c|now| |p].
  - intros Hx. destruct (bool_decide _ && _) eqn:E; [done|]. injection Hx as <-. apply tm_statement; [done|].
    intros Hm. rewrite bool_decide_true in E by done. simpl in E. by apply negb_false_iff, bool_decide_eq_true in E.
  - destruct (threads_run _) eqn:Ht; [|done].
    destruct (exec server_context c _) as [w'|] eqn:Hx; [|done]. intros [= <-].
    apply tm_io; [done..|by eapply exec_step].
  - case_bool_decide; [|done]. intros [= <-]. by apply tm_tick.
  - destruct (tm_beat g) as [[i wake]|] eqn:Hb; [|done]. simpl. case_bool_decide; [|done].
    intros [= <-]. by apply (tm_heart g i wake).
  - destruct (threads_run _ && _) eqn:E; [|done]. apply andb_true_iff in E as [Ht Hp%bool_decide_eq_true].
    intros [= <-]. by apply tm_conn_end.
Qed.

Lemma tm_execs_run cs g g' : tm_execs cs g = Some g' → rtc tm_step g g'.
Proof.
  revert g. induction cs as [|c cs IH]; intros g; simpl; [by intros [= <-]|].
  destruct (tm_exec c g) as [h|] eqn:E; simpl; [|done]. intros Hh.
  eapply rtc_l; [by eapply tm_exec_step|by apply IH].
Qed.

End ServerMain.

(** ** What can go wrong at the end *)

Abbreviation tm_run cs := (tm_execs (λ _, []) 8 1 (lit "data") cs (tm_start 0)).
Abbreviation main_line s := (TurnStatement (Some (lit s))).

(** [quit] is typed while a client is being accepted: the connection is
    registered and started after [stop] closed all connections. *)
Definition late_client : list tm_choice :=
  [main_line ""; main_line ""; main_line ""; main_line "quit"; TurnContext (DoIo 0 (IoOk []))].

(** Nobody closes that connection: however the program goes on, unless the
    client itself goes away, it waits in [stop] for ever. *)
Theorem late_client_blocks_stop :
  ∃ g, tm_run late_client = Some g ∧
    ∀ g', rtc (tm_step (λ _, []) 8 1 (lit "data")) g g' → 0%nat ∉ tm_ended g' → tm_main g' = TmJoining.
Proof.
  eexists. split; [vm_compute; reflexivity|]. intros g' Hr.
  assert (Hi : 0%nat ∉ tm_ended g' → waits_for 0 g'); [|intros Hne; by apply Hi].
  refine (rtc_invariant _ (λ h, 0%nat ∉ tm_ended h → waits_for 0 h) _ g' _ _ Hr).
  - intros _. split_and!; [reflexivity| | |]; by apply (bool_decide_unpack _); vm_compute.
  - intros a b Ha Hs Hb. eapply waits_for_step; [apply Ha|exact Hs|exact Hb].
    intros Hin. apply Hb. destruct Hs; try exact Hin; tmain_simpl.
    + set_solver.
    + unfold beat_turn. by destruct (tm_alive g).
    + unfold tm_turn. destruct (tm_main g); try exact Hin. unfold loop_turn. by destruct (parseCommand _).
Qed.

(** The heartbeat thread is detached, not ended: after [quit] it wakes once more
    when [server] is already destroyed. *)
Definition beat_after_quit : list tm_choice :=
  [main_line ""; main_line ""; main_line ""; main_line "quit"; TurnContext (DoIo 0 (IoErr true));
   main_line ""; main_line ""; main_line ""; TurnClock (seconds 5); TurnBeat].

Theorem heartbeat_uses_dead_server :
  ∃ g, tm_run beat_after_quit = Some g ∧ tm_end g = Some Undefined ∧ tm_main g = TmReturn.
Proof. eexists. split; [vm_compute; reflexivity|]. by split. Qed.

(** ** The theorems at concrete runs *)

Definition beating : list tm_choice :=
  [main_line ""; main_line ""; main_line ""; TurnContext (DoIo 0 (IoOk [])); TurnClock (seconds 5); TurnBeat;
   main_line "broadcast req hello"; TurnClock (seconds 12); TurnBeat].

Lemma tcp_program_refines_server_witness :
  ∃ g, tm_run beating = Some g ∧
    reachable (server_handlers 8) (init_world (new_server (lit "SERVER_MAIN_001")) 0) (tm_world g).
Proof.
  eexists. split; [vm_compute; reflexivity|].
  apply (tcp_program_refines_server (λ _, []) 8 1 (lit "data")).
  apply (tm_execs_run _ _ _ _ beating). vm_compute. reflexivity.
Defined.

Lemma heartbeat_counter_in_range_witness :
  ∃ g, tm_run beating = Some g ∧ tm_beat g = Some (2, seconds 17) ∧
    0 <= 2 < 2 ^ 31 ∧ seconds 5 * (2 + 1) <= seconds 17 - 0.
Proof.
  eexists. split; [vm_compute; reflexivity|]. split; [vm_compute; reflexivity|].
  eapply (heartbeat_counter_in_range (λ _, []) 8 1 (lit "data") 0).
  - apply (tm_execs_run _ _ _ _ beating). vm_compute. reflexivity.
  - vm_compute. reflexivity.
  - vm_compute. reflexivity.
Defined.

