(* ===== verification/ClientConsole.v ===== *)
(** * ClientConsole: the program of claude/asio_client.cpp

    [main]: a command loop on one thread, the client of TcpClient.v on its I/O
    thread. A line is parsed into a [k_command]; executing it calls the client.
    [prog] is the state of the whole program and [prog_step] interleaves the two
    threads: while the loop waits for a reply or for the I/O thread to end, it
    reads no command. [io_context::run] does nothing once the context has run
    out of work, and nobody restarts it. *)

From S2P Require Import Prelude Bytes Tables Asio TcpPacket TcpReader TcpClient Text.

#[local] Arguments lit : simpl never.

Inductive k_command :=
| KQuit
| KHelp
| KStatus
| KConnectCmd
| KDisconnect
| KSend (packetId : Z) (message : bytes)
| KRequest (message : bytes) (timeout : Z)
| KThrow                          (* [std::stoi] throws, outside the inner [try] *)
| KComplain (line : bytes).        (* only prints *)

Definition k_typeOf (typeStr : bytes) : option Z :=
  if bool_decide (typeStr = lit "bind") then Some BIND
  else if bool_decide (typeStr = lit "req") then Some REQUEST
  else None.

Definition k_emptyMessage : k_command := KComplain (lit "Message cannot be empty").

(** [send <type> <message>], after [cmd.substr(5)]. *)
Definition k_parseSend (args : bytes) : k_command :=
  match extract args with
  | None => KComplain (lit "Invalid command format. Use: send <type> <message>")
  | Some (typeStr, r1) =>
      let message := rest_of_line r1 in
      if bool_decide (message = []) then k_emptyMessage
      else
        match k_typeOf typeStr with
        | Some packetId => KSend packetId message
        | None => KComplain (lit "Invalid packet type. Use: bind, req")
        end
  end.

(** [std::isdigit(word[0])] *)
Definition starts_with_digit (word : bytes) : bool :=
  match word with c :: _ => is_digit c | [] => false end.

(** [if (!message.empty()) message += " "; message += word;] *)
Definition addWord (message word : bytes) : bytes :=
  match message with [] => word | _ :: _ => message ++ [32] ++ word end.

(** [while (iss >> word)]: every turn takes a character at least, so the length
    of the line is enough fuel. [None] when [std::stoi] throws. *)
Fixpoint requestWords (fuel : nat) (iss message : bytes) (timeout : Z) : option (bytes * Z) :=
  match fuel with
  | O => Some (message, timeout)
  | S fuel' =>
      match extract iss with
      | None => Some (message, timeout)
      | Some (word, iss') =>
          if starts_with_digit word then
            match stoi word with Some t => Some (message, t) | None => None end
          else requestWords fuel' iss' (addWord message word) timeout
      end
  end.

(** [request <message> <timeout>], after [cmd.substr(8)]. *)
Definition k_parseRequest (args : bytes) : k_command :=
  match requestWords (length args) args [] 5000 with
  | None => KThrow
  | Some (message, timeout) =>
      if bool_decide (message = []) then k_emptyMessage else KRequest message timeout
  end.

Definition k_parseCommand (cmd : bytes) : k_command :=
  if bool_decide (cmd = lit "quit") || bool_decide (cmd = lit "exit") then KQuit
  else if bool_decide (cmd = lit "help") then KHelp
  else if bool_decide (cmd = lit "status") then KStatus
  else if bool_decide (cmd = lit "connect") then KConnectCmd
  else if bool_decide (cmd = lit "disconnect") then KDisconnect
  else if bool_decide (take 4 cmd = lit "send") && (4 <? length cmd)%nat
  then k_parseSend (drop 5 cmd)
  else if bool_decide (take 7 cmd = lit "request") && (7 <? length cmd)%nat
  then k_parseRequest (drop 8 cmd)
  else KComplain (lit "Unknown command. Type 'help' for available commands.").

Definition k_helpText : list bytes :=
  [lit "Available commands:";
   lit "  status                     - Show connection status";
   lit "  connect                    - Connect to server";
   lit "  disconnect                 - Disconnect from server";
   lit "  send <type> <message>      - Send a message (types: bind, req)";
   lit "  request <message> <timeout>- Send request and wait for response";
   lit "  quit                       - Exit the client"].

(** ** The program *)

(** What the thread of [main] does. [Waiting k q d]: it is in the wait of
    [sendRequestSync] for request [k], with sequence [q], until [d]: the future
    of [std::async] waits for its thread when it goes out of scope.
    [Draining quitting]: it joins the I/O thread. *)
Inductive phase :=
| Reading
| Waiting (k : nat) (sequence : Z) (deadline : Z)
| Draining (quitting : bool)
| Ended
| Escaped                         (* an exception left the loop *)
| Terminated.                     (* [std::terminate] *)

Section Console.
Context `{Host} `{Storage}.

(** One command; [k] numbers the promise of a request. The lines printed and
    what the thread does next. *)
Definition k_execute (now : Z) (k : nat) (c : k_command) : M (list bytes * phase) :=
  match c with
  | KQuit => stop;; mret ([lit "Stopping client..."], Draining true)
  | KHelp => mret (k_helpText, Reading)
  | KStatus =>
      i ← gets client_id_;
      conn ← gets connected_;
      mret ([lit "Client ID: " ++ i;
             lit "Connected: " ++ (if conn : bool then lit "Yes" else lit "No")], Reading)
  | KConnectCmd =>
      setAutoReconnect true;;
      running ← start;
      mret ([lit "Connecting to server..."], if running : bool then Reading else Terminated)
  | KDisconnect =>
      setAutoReconnect false;;
      stop;;
      mret ([lit "Disconnected from server"], Draining false)
  | KSend packetId message =>
      sequence ← getNextSequence;
      sent ← sendPacket (createPacket packetId 0 sequence message);
      mret ([if sent : bool
             then lit "Sent " ++ lit (packetTypeToString packetId) ++ lit " packet with sequence "
                    ++ to_string sequence
             else lit "Failed to send packet: not connected"], Reading)
  | KRequest message timeout =>
      sent ← sendRequestSync_send now message timeout k;
      let sending := lit "Sending request with timeout " ++ to_string timeout ++ lit "ms: " ++ message in
      mret (match sent with
            | Some q => ([sending], Waiting k q (now + milliseconds timeout))
            | None => ([sending; lit "Request error: Failed to send request: not connected"], Reading)
            end)
  | KThrow => mret ([], Escaped)
  | KComplain line => mret ([line], Reading)
  end.

(** The object's machine when only the loop calls its interface. *)
Definition client_program : handlers tcpclient k_op k_post k_timer k_call Empty_set :=
  Handlers client_kind client_io client_post client_timer (λ _ (a : Empty_set), match a return M unit with end).

Record prog := mkProg {
  p_world : world tcpclient k_op k_post k_timer k_call;
  p_phase : phase;
  io_running : bool;              (* the I/O thread is in [io_context_.run()] *)
  p_requests : list Z;            (* the sequence numbers of the requests made *)
  p_output : list bytes }.

#[export] Instance eta_prog : Eta prog := λ g,
  mkProg (p_world g) (p_phase g) (io_running g) (p_requests g) (p_output g).

(** What [main] does before the loop. *)
Definition main_setup : M bool :=
  setAutoReconnect true;;
  setPacketCallback (Some 0%nat);;
  setConnectionStatusCallback (Some 1%nat);;
  setTimeoutCallback (Some 2%nat);;
  start.

Definition main_prog (clientId : bytes) (hdr : PacketHeader) (buf : bytes) (now : Z) : prog :=
  mkProg (run main_setup (init_world (new_client clientId hdr buf) now)) Reading true [] [].

(** One turn of the loop. *)
Definition turn (line : bytes) (g : prog) : prog :=
  let c := k_parseCommand line in
  let w := p_world g in
  let m := k_execute (w_now w) (length (p_requests g)) c in
  let '(out, ph) := val_of (m (w_st w)) in
  g <| p_world := run m w |> <| p_phase := ph |> <| p_output := p_output g ++ out |>
    <| p_requests := p_requests g ++
         match c with KRequest _ _ => [next_sequence_ (w_st w)] | _ => [] end |>.

Definition finished (ph : phase) : bool :=
  match ph with Ended | Escaped | Terminated => true | _ => false end.

(** The end of the wait, with what the promise was given. *)
Definition answered (q : Z) (outcome : option Packet) (g : prog) : prog :=
  g <| p_world := run (sendRequestSync_wait q outcome) (p_world g) |> <| p_phase := Reading |>
    <| p_output := p_output g ++
         [match outcome with
          | Some p => lit "Received response for sequence " ++ to_string (hd_sequence (header p)) ++
              lit ", status " ++ to_string (hd_status (header p)) ++ lit ": " ++ payload p
          | None => lit "Request error: Request timed out"
          end] |>.

(** The I/O thread has nothing left to run, or has ended before. *)
Definition drained (g : prog) : Prop :=
  io_running g = false ∨
  w_ops (p_world g) = [] ∧ w_posts (p_world g) = [] ∧ w_armed (p_world g) = [] ∧
  w_fired (p_world g) = [].

Inductive prog_step : prog → prog → Prop :=
| prog_io g w' :
    io_running g = true → finished (p_phase g) = false →
    step client_program (p_world g) w' → prog_step g (g <| p_world := w' |>)
| prog_tick g now :
    w_now (p_world g) <= now → prog_step g (g <| p_world := (p_world g) <| w_now := now |> |>)
| prog_turn g line :
    p_phase g = Reading → prog_step g (turn line g)
| prog_reply g k q d p :
    p_phase g = Waiting k q d → CResponse (SetPromise k) p ∈ w_calls (p_world g) →
    prog_step g (answered q (Some p) g)
| prog_timeout g k q d :
    p_phase g = Waiting k q d → d <= w_now (p_world g) →
    prog_step g (answered q None g)
| prog_joined g quitting :
    p_phase g = Draining quitting → drained g →
    prog_step g (g <| io_running := false |>
                   <| p_phase := if quitting : bool then Ended else Reading |>).

Definition prog_reachable (g0 g : prog) : Prop := rtc prog_step g0 g.

End Console.

(** ** Parsing a request *)

(** Reading a word takes it off the stream. *)
Lemma extract_shorter s w r : extract s = Some (w, r) → (length r < length s)%nat.
Proof.
  unfold extract. assert (Hs : (length (skip_ws s) <= length s)%nat).
  { induction s as [|c s IH]; [done|]. simpl. destruct (is_space c); simpl; lia. }
  destruct (skip_ws s) as [|c l] eqn:E; [done|].
  assert (Hc : is_space c = false).
  { clear Hs. revert E. induction s as [|d s IH]; [done|]. simpl.
    destruct (is_space d) eqn:Ed; [done|]. by intros [= <- <-]. }
  assert (Hspan : ∀ l, (length (span (λ c, negb (is_space c)) l).2 <= length l)%nat).
  { clear. induction l as [|c l IH]; [done|]. simpl. destruct (negb (is_space c)); [|done].
    destruct (span _ l). simpl in *. lia. }
  simpl. rewrite Hc. simpl. specialize (Hspan l). destruct (span _ l) as [a b].
  intros [= <- <-]. simpl in *. lia.
Qed.

(** The fuel of [k_parseRequest] is enough: more changes nothing. *)
Lemma requestWords_fuel f1 f2 iss message timeout :
  (length iss <= f1)%nat → (length iss <= f2)%nat →
  requestWords f1 iss message timeout = requestWords f2 iss message timeout.
Proof.
  revert f2 iss message. induction f1 as [|f1 IH]; intros f2 iss message H1 H2.
  - destruct iss; [|simpl in H1; lia]. by destruct f2.
  - destruct f2 as [|f2]; [destruct iss; [done|simpl in H2; lia]|]. simpl.
    destruct (extract iss) as [[w r]|] eqn:E; [|done]. destruct (starts_with_digit w); [done|].
    apply extract_shorter in E. apply IH; lia.
Qed.

(** A word of the message: it does not start with a digit. *)
Definition message_word (w : bytes) : Prop := is_word w ∧ starts_with_digit w = false.

#[export] Instance message_word_dec w : Decision (message_word w).
Proof. unfold message_word. apply _. Defined.

(** The words with a blank between each two. *)
Definition joinWords (ws : list bytes) : bytes :=
  match ws with
  | [] => []
  | w :: ws' => w ++ mjoin ((λ v, 32 :: v) <$> ws')
  end.

Lemma addWord_all message ws :
  message ≠ [] → foldl addWord message ws = message ++ mjoin ((λ v, 32 :: v) <$> ws).
Proof.
  revert message. induction ws as [|w ws IH]; intros message Hm; simpl; [by rewrite app_nil_r|].
  rewrite IH by by destruct message. destruct message; [done|]. simpl. by rewrite <-!app_assoc.
Qed.

Lemma addWord_joinWords ws : Forall message_word ws → foldl addWord [] ws = joinWords ws.
Proof. intros Hws. destruct Hws as [|w ws [[Hw _] _] _]; [done|]. simpl. by rewrite addWord_all. Qed.

(** The words as they are typed, each followed by a blank. *)
Definition typed (ws : list bytes) : bytes := mjoin ((λ w, w ++ [32]) <$> ws).

Lemma requestWords_typed ws tail fuel message timeout :
  Forall message_word ws → (length (typed ws ++ tail) <= fuel)%nat →
  requestWords fuel (typed ws ++ tail) message timeout =
  requestWords (length tail) tail (foldl addWord message ws) timeout.
Proof.
  intros Hws. revert fuel message. induction Hws as [|w ws [Hw Hd] _ IH]; intros fuel message Hf.
  { by apply requestWords_fuel. }
  change (typed (w :: ws)) with ((w ++ [32]) ++ typed ws) in *.
  rewrite <-!app_assoc in *. rewrite !length_app in Hf. simpl in Hf.
  assert (0 < length w)%nat by (destruct Hw as [Hn _]; destruct w; [done|simpl; lia]).
  destruct fuel as [|fuel]; [lia|]. cbn [requestWords].
  rewrite extract_word by done. rewrite Hd. simpl.
  destruct fuel as [|fuel]; [lia|].
  change (requestWords (S fuel) (32 :: typed ws ++ tail)) with (requestWords (S fuel) (typed ws ++ tail)).
  apply IH. rewrite length_app. lia.
Qed.

(** The line that asks for a request. *)
Definition requestLine (ws : list bytes) (tail : bytes) : bytes := lit "request " ++ typed ws ++ tail.

Lemma parse_requestLine ws tail :
  Forall message_word ws →
  k_parseCommand (requestLine ws tail) =
    match requestWords (length tail) tail (joinWords ws) 5000 with
    | None => KThrow
    | Some (message, timeout) =>
        if bool_decide (message = []) then k_emptyMessage else KRequest message timeout
    end.
Proof.
  intros Hws. unfold requestLine. set (rest := typed ws ++ tail).
  change (lit "request " ++ rest)
    with (114 :: 101 :: 113 :: 117 :: 101 :: 115 :: 116 :: 32 :: rest).
  unfold k_parseCommand.
  rewrite !(bool_decide_false (_ :: _ :: _ :: _ :: _ :: _ = lit _))
    by (intros E; repeat (discriminate E || (injection E as E))).
  cbn [orb]. rewrite bool_decide_false by done. cbn [andb].
  rewrite bool_decide_true by reflexivity. cbn [length Nat.ltb Nat.leb andb].
  change (drop 8 _) with rest. unfold k_parseRequest, rest. rewrite requestWords_typed by done.
  by rewrite addWord_joinWords.
Qed.

Lemma requestWords_number word message timeout :
  is_word word → starts_with_digit word = true →
  requestWords (length word) word message timeout =
    match stoi word with Some t => Some (message, t) | None => None end.
Proof.
  intros Hw Hd. assert (0 < length word)%nat by (destruct word; [done|simpl; lia]).
  rewrite (requestWords_fuel _ (S (length word))) by lia. cbn [requestWords].
  rewrite <-(app_nil_r word) at 1. rewrite extract_word by done. by rewrite Hd.
Qed.

Lemma joinWords_nonempty ws : Forall message_word ws → ws ≠ [] → joinWords ws ≠ [].
Proof. intros Hws Hne. destruct Hws as [|[|] ws [[Hw _] _] _]; done. Qed.
