(* ===== verification/ClientConsoleProps.v ===== *)
(** * ClientConsoleProps: the command loop together with its client

    - a typed request is sent as typed and its reply is the response with its
      sequence number; a number that does not fit ends the program;
    - [connect] while the I/O thread runs ends the program, and after a
      [disconnect] nothing is ever written again. *)

From S2P Require Import Prelude Bytes Tables Asio TcpPacket TcpReader TcpClient Text ClientConsole.

#[local] Arguments lit : simpl never.

Section Props.
Context {ho : Host} {sg : Storage}.
Implicit Types (c : tcpclient) (g : prog) (w : world tcpclient k_op k_post k_timer k_call).

(** ** Promises

    [made k q]: request [k] was made with sequence number [q]. *)

Definition pending_ok (made : nat → Z → Prop) c : Prop :=
  ∀ q r k, pending_requests_ c !! q = Some r → callback r = Some (SetPromise k) → made k q.

Definition call_ok (made : nat → Z → Prop) (x : k_call) : Prop :=
  match x with
  | CResponse (SetPromise k) p => made k (hd_sequence (header p)) ∧ hd_packetId (header p) = RESPONSE
  | _ => True
  end.

(** Handlers that keep promises apart and leave the I/O thread alone. *)
Definition honest {A} (a : M A) : Prop :=
  ∀ made c, pending_ok made c →
    pending_ok made (state_of (a c)) ∧ Forall (call_ok made) (called (effs_of (a c))) ∧
    io_thread_joinable (state_of (a c)) = io_thread_joinable c.

#[local] Instance honest_compositional : Compositional (@honest).
Proof.
  intros A B a k Ha Hk made c Hc. cbv [mbind act_bind].
  destruct (Ha made c Hc) as (Hp & Hf & Hj). destruct (a c) as [[c1 e1] x]. simpl in *.
  destruct (Hk x made c1 Hp) as (Hp' & Hf' & Hj'). destruct (k x c1) as [[c2 e2] y]. simpl in *.
  rewrite called_app, Forall_app, Hj'. done.
Qed.

(** Updates of other fields, and updates that only remove requests. *)
Lemma honest_modify f :
  (∀ c, pending_requests_ (f c) ⊆ pending_requests_ c) →
  (∀ c, io_thread_joinable (f c) = io_thread_joinable c) → honest (modify f).
Proof.
  intros Hsub Hj made c Hc. split; [|split; [apply Forall_nil_2|apply Hj]].
  intros q r k Hq Hk. exact (Hc q r k (lookup_weaken _ _ _ _ Hq (Hsub c)) Hk).
Qed.

Lemma honest_emit e : called [e] = [] → honest (emit e).
Proof. intros He made c Hc. split; [done|]. split; [|done]. simpl in *. by rewrite He. Qed.

Lemma honest_call x : (∀ made, call_ok made x) → honest (emit (ECall x)).
Proof. intros Hx made c Hc. split; [done|]. split; [|done]. by repeat constructor. Qed.

Lemma honest_ret {A} (x : A) : honest (mret x).
Proof. done. Qed.
Lemma honest_gets {A} (f : tcpclient → A) : honest (gets f).
Proof. done. Qed.
Lemma honest_skip : honest skip.
Proof. done. Qed.

Ltac honest_tac :=
  repeat first
    [ apply (compose (P:=@honest)); [|intros ?]
    | apply honest_ret | apply honest_gets | apply honest_skip
    | apply honest_call; done | apply honest_emit; done
    | apply honest_modify; done
    | progress case_match ].

Lemma honest_disconnect now : honest (handleDisconnect now).
Proof.
  unfold handleDisconnect, notifyConnectionStatus, scheduleReconnect. honest_tac.
  all: apply honest_modify; [|done]; intros c; apply map_empty_subseteq.
Qed.

Lemma honest_handle_packet p : honest (handle_packet p).
Proof.
  unfold handle_packet. apply (compose (P:=@honest)); [|intros _; honest_tac].
  destruct (hd_packetId (header p) =? RESPONSE) eqn:Ep; [|honest_tac].
  intros made c Hc. unact. destruct (pending_requests_ c !! hd_sequence (header p)) as [r|] eqn:E;
    [|split; [done|]; by split; [constructor|]].
  assert (Hd : pending_ok made (c <| pending_requests_ := delete (hd_sequence (header p)) (pending_requests_ c) |>)).
  { intros q r' k Hq. simpl in Hq. apply lookup_delete_Some in Hq as [_ Hq]. by apply Hc. }
  destruct (callback r) as [cb|] eqn:Ecb; split; try done; split; try done.
  repeat constructor. destruct cb as [|k]; [done|]. simpl. split; [by eapply Hc|lia].
Qed.

Lemma honest_read now o res : honest (onRead now o res).
Proof.
  apply (onRead_compositional (@honest)); try done; simpl.
  - apply honest_handle_packet.
  - unfold close. honest_tac.
  - apply honest_disconnect.
Qed.

Lemma honest_timeout_calls f qs : honest (timeout_calls f qs).
Proof.
  destruct f as [f|]; [|apply honest_skip].
  induction qs as [|q qs IH]; simpl; [apply honest_skip|]. honest_tac. exact IH.
Qed.

Lemma honest_io now o res : honest (client_io now o res).
Proof.
  destruct o; simpl; [..|apply honest_read|].
  - unfold on_resolve, scheduleReconnect. honest_tac.
  - unfold on_connect, notifyConnectionStatus, startRead, readHeader, sendBindPacket,
      getNextSequence, sendPacket, scheduleReconnect. honest_tac.
  - destruct res as [data|[]]; simpl; [|apply honest_skip|apply honest_disconnect].
    unfold doWrite. honest_tac.
Qed.

Lemma honest_post now p : honest (client_post now p).
Proof.
  destruct p; simpl; unfold connect_posted, close, send_posted, doWrite, timeout_timer_posted;
    honest_tac.
Qed.

Lemma honest_timer now t ab : honest (client_timer now t ab).
Proof.
  destruct t; simpl; unfold on_timeout_timer, on_reconnect_timer, connect; honest_tac.
  - apply honest_modify; [|done]. intros c. apply erase_all_subseteq.
  - apply honest_timeout_calls.
Qed.

(** ** The invariant of the program *)

Definition made (g : prog) (k : nat) (q : Z) : Prop := p_requests g !! k = Some q.

Record prog_ok g : Prop := {
  ok_pending : pending_ok (made g) (w_st (p_world g));
  ok_calls : Forall (call_ok (made g)) (w_calls (p_world g));
  ok_thread : io_running g = true →
    match p_phase g with Draining _ => True | _ => io_thread_joinable (w_st (p_world g)) = true end;
  ok_waiting : match p_phase g with
    | Waiting k q _ => made g k q
    | _ => True
    end }.

Lemma honest_run {A} (a : M A) P c w :
  honest a → w_st w = c → pending_ok P c → Forall (call_ok P) (w_calls w) →
  pending_ok P (w_st (run a w)) ∧ Forall (call_ok P) (w_calls (run a w)) ∧
  io_thread_joinable (w_st (run a w)) = io_thread_joinable c.
Proof.
  intros Ha <- Hp Hc. destruct (run_fields a w) as (-> & _ & _ & -> & _).
  destruct (Ha P (w_st w) Hp) as (? & ? & ?). by rewrite Forall_app.
Qed.

Lemma honest_step P w w' :
  pending_ok P (w_st w) → Forall (call_ok P) (w_calls w) → step client_program w w' →
  pending_ok P (w_st w') ∧ Forall (call_ok P) (w_calls w') ∧
  io_thread_joinable (w_st w') = io_thread_joinable (w_st w).
Proof.
  intros Hp Hc Hs.
  destruct Hs as [w p ps Hps|w o l1 l2 r Ho Ha|w t d l1 l2|w t ab l1 l2|w now|w []]; try done.
  - by apply (honest_run (h_post client_program (w_now w) p)); [apply honest_post|..].
  - by apply (honest_run (h_io client_program (w_now w) o r)); [apply honest_io|..].
  - by apply (honest_run (h_timer client_program (w_now w) t ab)); [apply honest_timer|..].
Qed.

Definition new_requests (x : k_command) c : list Z :=
  match x with KRequest _ _ => [next_sequence_ c] | _ => [] end.

Lemma pending_ok_more l l' c :
  pending_ok (λ k q, l !! k = Some q) c → pending_ok (λ k q, (l ++ l') !! k = Some q) c.
Proof. intros Hc q r k Hq Hk. apply lookup_app_l_Some. by eapply Hc. Qed.

Lemma call_ok_more l l' x :
  call_ok (λ k q, l !! k = Some q) x → call_ok (λ k q, (l ++ l') !! k = Some q) x.
Proof. destruct x as [| |[]|]; try done. intros [? ?]. split; [by apply lookup_app_l_Some|done]. Qed.

Lemma k_execute_ok now x c l :
  pending_ok (λ k q, l !! k = Some q) c →
  let r := k_execute now (length l) x c in
  pending_ok (λ k q, (l ++ new_requests x c) !! k = Some q) (state_of r) ∧
  called (effs_of r) = [] ∧
  match (val_of r).2 with
  | Draining _ => True
  | _ => io_thread_joinable c = true → io_thread_joinable (state_of r) = true
  end ∧
  match (val_of r).2 with
  | Waiting k q _ => (l ++ new_requests x c) !! k = Some q
  | _ => True
  end.
Proof.
  intros Hc. pose proof (pending_ok_more l (new_requests x c) c Hc) as Hc'.
  destruct x; simpl; unfold stop, close, setAutoReconnect, start, connect, getNextSequence, sendPacket,
    sendRequestSync_send, sendRequest, startTimeoutTimer; unact; try done.
  - by destruct (socket_open c).
  - destruct (io_thread_joinable c) eqn:E; split_and!; done.
  - destruct (socket_open c); split_and!; done.
  - by destruct (connected_ c); split_and!; simpl.
  - destruct (connected_ c) eqn:Hconn; simpl; [rewrite Hconn; simpl|done].
    assert (Hn : (l ++ [next_sequence_ c]) !! length l = Some (next_sequence_ c))
      by by rewrite lookup_app_r, Nat.sub_diag by lia.
    split; [|by destruct (next_sequence_ c =? 0); split_and!; simpl].
    intros q r k Hq Hk. simpl in Hq. apply lookup_insert_Some in Hq as [[<- <-]|[_ Hq]].
    + simpl in Hk. by injection Hk as <-.
    + by eapply Hc'.
Qed.

Lemma prog_ok_turn line g : prog_ok g → p_phase g = Reading → prog_ok (turn line g).
Proof.
  intros [Hp Hc Ht Hw] Hph. unfold turn.
  set (w := p_world g) in *. set (x := k_parseCommand line).
  pose proof (k_execute_ok (w_now w) x (w_st w) (p_requests g) Hp) as Hx. cbv zeta in Hx.
  destruct (val_of _) as [out ph] eqn:Ev. simpl in Hx. destruct Hx as (Hx1 & Hx2 & Hx3 & Hx4).
  destruct (run_fields (k_execute (w_now w) (length (p_requests g)) x) w) as (Es & _ & _ & Ec & _).
  split; simpl.
  - by rewrite Es.
  - rewrite Ec, Hx2, app_nil_r. apply (Forall_impl _ _ _ Hc). intros y. apply call_ok_more.
  - rewrite Es, Hph in *. intros Hr. specialize (Ht Hr). destruct ph; auto.
  - done.
Qed.

Lemma honest_wait q outcome : honest (sendRequestSync_wait q outcome).
Proof.
  unfold sendRequestSync_wait, cancelRequest. honest_tac.
  apply honest_modify; [|done]. intros c. apply delete_subseteq.
Qed.

Lemma prog_ok_answered q outcome g k d :
  prog_ok g → p_phase g = Waiting k q d → prog_ok (answered q outcome g).
Proof.
  intros [Hp Hc Ht Hw] Hph. rewrite Hph in Ht.
  destruct (honest_run _ (made g) (w_st (p_world g)) (p_world g) (honest_wait q outcome))
    as (? & ? & Hj); [done..|].
  split; try done. simpl. intros Hr. rewrite Hj. auto.
Qed.

Lemma prog_ok_step g g' : prog_ok g → prog_step g g' → prog_ok g'.
Proof.
  intros Hok Hs. destruct Hs as [g w' Hr Hf Hs|g now|g line Hph|g k q d p Hph _|g k q d Hph _|g b Hph _].
  - destruct Hok as [Hp Hc Ht Hw]. destruct (honest_step (made g) _ _ Hp Hc Hs) as (? & ? & Hj).
    split; try done. simpl. by rewrite Hj.
  - by destruct Hok; split.
  - by apply prog_ok_turn.
  - by eapply prog_ok_answered.
  - by eapply prog_ok_answered.
  - destruct Hok as [Hp Hc Ht Hw]. split; try done. simpl. by destruct b.
Qed.

Lemma prog_ok_reachable clientId hdr buf now g :
  prog_reachable (main_prog clientId hdr buf now) g → prog_ok g.
Proof.
  apply (rtc_invariant prog_step prog_ok); [by split|]. apply prog_ok_step.
Qed.

(** ** Theorems *)

(** C20: When the loop prints a reply for the request it waits for, in any run of the
    program, the packet printed is a RESPONSE with the sequence number of that
    request, whatever other requests are pending or answered late. *)
Theorem console_reply_is_its_response clientId hdr buf now g k q d p :
  prog_reachable (main_prog clientId hdr buf now) g →
  p_phase g = Waiting k q d → CResponse (SetPromise k) p ∈ w_calls (p_world g) →
  hd_sequence (header p) = q ∧ hd_packetId (header p) = RESPONSE.
Proof.
  intros Hr Hph Hin. destruct (prog_ok_reachable _ _ _ _ _ Hr) as [_ Hc _ Hw].
  rewrite Hph in Hw. rewrite Forall_forall in Hc. destruct (Hc _ Hin) as [Hq Hid].
  split; [|done]. unfold made in *. congruence.
Qed.

(** [connect] typed in any run while the I/O thread runs: the program is
    terminated, because [start] replaces a thread that was not joined. *)
Theorem connect_while_running_terminates clientId hdr buf now g :
  prog_reachable (main_prog clientId hdr buf now) g →
  p_phase g = Reading → io_running g = true →
  p_phase (turn (lit "connect") g) = Terminated.
Proof.
  intros Hr Hph Hio. destruct (prog_ok_reachable _ _ _ _ _ Hr) as [_ _ Ht _].
  specialize (Ht Hio). rewrite Hph in Ht. unfold turn.
  replace (k_parseCommand (lit "connect")) with KConnectCmd by by vm_compute.
  simpl. unfold setAutoReconnect, start. unact. by rewrite Ht.
Qed.

Lemma turn_world line g :
  w_sent (p_world (turn line g)) = w_sent (p_world g) ∧ io_running (turn line g) = io_running g.
Proof.
  unfold turn. destruct (val_of _) as [out ph]. simpl. split; [|done].
  by destruct (run_fields (k_execute (w_now (p_world g)) (length (p_requests g)) (k_parseCommand line))
    (p_world g)) as (_ & _ & _ & _ & -> & _).
Qed.


(** Typing [request <words> <timeout>] on a connected client: one REQUEST with
    the words, joined by single blanks, is queued, its promise is pending until
    the timeout typed, and the loop waits for it. *)
Theorem request_line_sends g ws t :
  p_phase g = Reading → connected_ (w_st (p_world g)) = true →
  next_sequence_ (w_st (p_world g)) ≠ 0 →
  Forall message_word ws → ws ≠ [] → 0 <= t < 2 ^ 31 →
  let w := p_world g in
  let q := next_sequence_ (w_st w) in
  let k := length (p_requests g) in
  let g' := turn (requestLine ws (to_string t)) g in
  p_phase g' = Waiting k q (w_now w + milliseconds t) ∧
  w_posts (p_world g') = w_posts w ++
    [PSend (serialize (createPacket REQUEST 0 q (joinWords ws))); PTimeoutTimer] ∧
  pending_requests_ (w_st (p_world g')) !! q =
    Some (mkPending (w_now w + milliseconds t) (Some (SetPromise k))).
Proof.
  intros Hph Hconn Hq Hws Hne Ht w q k g'.
  assert (Hi : is_i32 t) by (unfold is_i32; lia).
  assert (Hparse : k_parseCommand (requestLine ws (to_string t)) = KRequest (joinWords ws) t).
  { rewrite parse_requestLine by done. rewrite requestWords_number.
    - rewrite stoi_to_string by done. rewrite bool_decide_false; [done|]. by apply joinWords_nonempty.
    - by apply to_string_word.
    - apply to_string_digit. lia. }
  unfold g', turn. rewrite Hparse. fold w.
  assert (Hex : k_execute (w_now w) k (KRequest (joinWords ws) t) (w_st w) = 
    ((w_st w) <| next_sequence_ := u32 (q + 1) |>
      <| pending_requests_ := <[q := mkPending (w_now w + milliseconds t) (Some (SetPromise k))]>
           (pending_requests_ (w_st w)) |>,
     [EPost (PSend (serialize (createPacket REQUEST 0 q (joinWords ws)))); EPost PTimeoutTimer],
     ([lit "Sending request with timeout " ++ to_string t ++ lit "ms: " ++ joinWords ws],
      Waiting k q (w_now w + milliseconds t)))).
  { cbn [k_execute]. unfold sendRequestSync_send, sendRequest, getNextSequence, sendPacket,
      startTimeoutTimer. unact. fold w in Hconn, Hq. rewrite Hconn. simpl. rewrite Hconn. simpl.
    by rewrite (proj2 (Z.eqb_neq _ _)) by done. }
  fold k. unfold run. rewrite Hex. simpl. split_and!; [done|by rewrite <-app_assoc|].
  by rewrite lookup_insert_eq.
Qed.

(** A request whose number [std::stoi] refuses: the exception leaves the loop,
    the program ends and the client was not called. *)
Theorem request_number_escapes g ws word :
  Forall message_word ws → is_word word → starts_with_digit word = true → stoi word = None →
  let g' := turn (requestLine ws word) g in
  p_phase g' = Escaped ∧ p_world g' = p_world g ∧ p_output g' = p_output g.
Proof.
  intros Hws Hw Hd Hn. cbv zeta. unfold turn.
  rewrite parse_requestLine, requestWords_number, Hn by done. simpl. unfold run. simpl.
  rewrite app_nil_r. by destruct (p_world g).
Qed.

(** A run of the client alone is a run of the program. *)
Lemma prog_io_run g w' :
  io_running g = true → finished (p_phase g) = false → reachable client_program (p_world g) w' →
  prog_reachable g (g <| p_world := w' |>).
Proof.
  intros Hio Hf Hr. remember (p_world g) as w eqn:E. revert g E Hio Hf.
  induction Hr as [w|w w1 w2 Hs _ IH]; intros g -> Hio Hf.
  - destruct g. apply rtc_refl.
  - apply (rtc_l _ _ (g <| p_world := w1 |>)); [by apply prog_io|].
    exact (IH (g <| p_world := w1 |>) eq_refl Hio Hf).
Qed.
End Props.

(** ** Witnesses: a session of the program

    The client connects and binds, a request is typed and answered, then
    [disconnect] is typed and the I/O thread drains. *)

#[local] Instance console_host : Host := LittleEndian.
#[local] Instance console_storage : Storage := zero_storage.

Abbreviation kwld := (world tcpclient k_op k_post k_timer k_call).
#[local] Abbreviation CP := client_program.

Definition pg0 : prog := main_prog (lit "CLIENT_1") (mkPacketHeader 0 0 0 0) (vec_zero 12) 0.
Definition bound0 : kwld := p_world pg0.
Definition bound1 : kwld := run (h_post CP 0 PConnect) (bound0 <| w_posts := [] |>).
Definition bound2 : kwld := complete CP OpResolve (IoOk []) ([] ++ []) bound1.
Definition bound3 : kwld := complete CP OpConnect (IoOk []) ([] ++ []) bound2.
Definition bindFrame : bytes := serialize (createPacket BIND 0 1 (lit "CLIENT_1")).
Definition bound4 : kwld := run (h_post CP 0 (PSend bindFrame)) (bound3 <| w_posts := [] |>).
Definition headerRead : k_op := OpRead (RdHeader 0 sizeof_PacketHeader).
Definition bound5 : kwld := complete CP (OpWrite bindFrame) (IoOk []) ([headerRead] ++ []) bound4.

Lemma bound5_reachable : reachable CP bound0 bound5.
Proof.
  apply (rtc_l _ _ bound1); [exact (step_post CP bound0 PConnect [] eq_refl)|].
  apply (rtc_l _ _ bound2); [exact (step_io CP bound1 OpResolve [] [] (IoOk []) eq_refl eq_refl)|].
  apply (rtc_l _ _ bound3); [exact (step_io CP bound2 OpConnect [] [] (IoOk []) eq_refl eq_refl)|].
  apply (rtc_l _ _ bound4); [exact (step_post CP bound3 (PSend bindFrame) [] eq_refl)|].
  apply rtc_once. exact (step_io CP bound4 (OpWrite bindFrame) [headerRead] [] (IoOk []) eq_refl eq_refl).
Qed.

(** Bound and idle; a request typed; the reply read. *)
Definition pg1 : prog := pg0 <| p_world := bound5 |>.
Definition pg2 : prog := turn (lit "request hello world 250") pg1.
Definition reply : Packet := createPacket RESPONSE 0 2 (lit "ok").
Definition pg3 : prog := pg2 <| p_world := (feed CP 2 (serialize reply) (p_world pg2)).1 |>.

Lemma pg1_reachable : prog_reachable pg0 pg1.
Proof. exact (prog_io_run pg0 bound5 eq_refl eq_refl bound5_reachable). Qed.

Lemma pg3_reachable : prog_reachable pg0 pg3.
Proof.
  unfold prog_reachable. transitivity pg1; [exact pg1_reachable|].
  apply (rtc_l _ _ pg2); [by apply prog_turn|].
  apply prog_io_run; [done..|]. apply feed_reachable.
  apply (bool_decide_unpack _). vm_compute. exact I.
Qed.

Lemma console_reply_is_its_response_witness :
  p_phase pg3 = Waiting 0 2 250000000 ∧
  w_calls (p_world pg3) = [CStatus 1 true; CResponse (SetPromise 0) reply; CPacket 0 reply] ∧
  hd_sequence (header reply) = 2 ∧ hd_packetId (header reply) = RESPONSE.
Proof.
  split; [vm_compute; reflexivity|]. split; [vm_compute; reflexivity|].
  apply (console_reply_is_its_response (lit "CLIENT_1") (mkPacketHeader 0 0 0 0) (vec_zero 12) 0
    pg3 0%nat 2 250000000 reply pg3_reachable).
  - vm_compute. reflexivity.
  - replace (w_calls (p_world pg3))
      with [CStatus 1 true; CResponse (SetPromise 0) reply; CPacket 0 reply]
      by (vm_compute; reflexivity).
    right. left.
Defined.

Lemma connect_while_running_terminates_witness :
  connected_ (w_st (p_world pg1)) = true ∧ p_phase (turn (lit "connect") pg1) = Terminated.
Proof.
  split; [vm_compute; reflexivity|].
  apply (connect_while_running_terminates (lit "CLIENT_1") (mkPacketHeader 0 0 0 0) (vec_zero 12) 0
    pg1 pg1_reachable); reflexivity.
Defined.

Lemma request_line_sends_witness :
  p_phase (turn (lit "request hello world 250") pg1) = Waiting 0 2 250000000.
Proof.
  apply (request_line_sends pg1 [lit "hello"; lit "world"] 250).
  - reflexivity.
  - vm_compute. reflexivity.
  - vm_compute. discriminate.
  - apply (bool_decide_unpack _). vm_compute. exact I.
  - discriminate.
  - lia.
Defined.

Lemma request_number_escapes_witness :
  p_phase (turn (lit "request call 99999999999") pg1) = Escaped.
Proof.
  apply (request_number_escapes pg1 [lit "call"] (lit "99999999999"));
    try (vm_compute; reflexivity); apply (bool_decide_unpack _); vm_compute; exact I.
Defined.

(** [disconnect] on the bound client: the read is aborted and nothing is left to
    run, so the thread is joined. *)
Definition pg4 : prog := turn (lit "disconnect") pg1.
Definition pg5 : prog := pg4 <| p_world := complete CP headerRead (IoErr true) ([] ++ []) (p_world pg4) |>.
Definition pg6 : prog := pg5 <| io_running := false |> <| p_phase := Reading |>.
Definition pg7 : prog := turn (lit "connect") pg6.
Definition pg8 : prog := turn (lit "send req hello") pg7.

Lemma pg6_reachable : prog_reachable pg0 pg6.
Proof.
  unfold prog_reachable. transitivity pg1; [exact pg1_reachable|].
  apply (rtc_l _ _ pg4); [by apply prog_turn|].
  apply (rtc_l _ _ pg5).
  { apply prog_io; [done..|]. exact (step_io CP (p_world pg4) headerRead [] [] (IoErr true) eq_refl I). }
  apply rtc_once. apply (prog_joined pg5 false); [done|]. right. vm_compute. done.
Qed.


(** The program goes on saying that it is connected after a [disconnect]. *)
Example status_after_disconnect :
  prog_reachable pg0 pg6 ∧
  p_output (turn (lit "status") pg6) = p_output pg6 ++ [lit "Client ID: CLIENT_1"; lit "Connected: Yes"].
Proof. split; [exact pg6_reachable|vm_compute; reflexivity]. Qed.
