(* ===== verification/EpollMain.v ===== *)
(** * EpollMain: the program of claude/server.cpp

    [main] reads its port, constructs the server, starts the heartbeat thread and
    enters [start], which is the event loop of EpollServer; nothing else calls
    the server. A [send] on a connection that is no longer connected raises
    SIGPIPE, which the program neither blocks nor ignores. *)

From S2P Require Import Prelude Bytes Text EpollServer EpollServerProps.

#[local] Arguments lit : simpl never.

Definition DEFAULT_PORT : Z := 8080.
Definition DEFAULT_THREAD_POOL_SIZE : nat := 4.

(** How the process ends: [return] from [main], or a signal. *)
Inductive process_end := Returned (code : Z) | Killed.

Inductive em_pc := EmArgs | EmConstruct (port : Z) | EmHeartbeat | EmStart | EmLoop | EmJoin.

Record emain := EMain {
  em_main : em_pc;
  em_server : server;
  em_fds : gset Z;                 (* open descriptors that are not clients *)
  em_bound : option Z;             (* the port the socket is bound to *)
  em_beat : option (Z * Z);        (* the heartbeat thread: [counter], and when it wakes *)
  em_now : Z;
  em_errors : list bytes;          (* lines on [std::cerr] *)
  em_end : option process_end }.

#[export] Instance eta_emain : Eta emain := λ g,
  EMain (em_main g) (em_server g) (em_fds g) (em_bound g) (em_beat g) (em_now g) (em_errors g) (em_end g).

Ltac emain_simpl :=
  cbn [field_upd em_main em_server em_fds em_bound em_beat em_now em_errors em_end] in *.

(** [htons(port)]: the argument is converted to [uint16_t]. *)
Definition bind_port (port : Z) : Z := port mod 2 ^ 16.

(** [std::stoi(argv[1])]; [None] when it throws. *)
Definition port_argument (argv : list bytes) : option Z :=
  match argv with
  | [] => Some DEFAULT_PORT
  | a :: _ => stoi a
  end.

Definition wake_after (now : Z) : Z := now + 5.

Definition heartbeat_text (counter : Z) : bytes := lit "Server heartbeat: " ++ to_string counter.

Section EpollMain.
(** The arguments after the program's name, the system calls of the
    constructor, the descriptors they return, those open at the start. *)
Context (argv : list bytes) (ok : ctor_call → bool) (epollFd serverFd : Z) (fds0 : gset Z).
Implicit Types (g : emain) (s : server).

(** The [catch] of [main]. *)
Definition caught (what : bytes) g : emain :=
  g <| em_errors := em_errors g ++ [lit "Error: " ++ what] |> <| em_end := Some (Returned 1) |>.

(** One statement of [main] outside the event loop. *)
Definition em_turn g : emain :=
  match em_main g with
  | EmArgs =>
      match port_argument argv with
      | Some port => g <| em_main := EmConstruct port |>
      | None => caught (lit "stoi") g
      end
  | EmConstruct port =>
      let '(err, fds) := TcpServer ok epollFd serverFd (em_fds g) in
      match err with
      | Some what => caught (lit what) (g <| em_fds := fds |>)
      | None => g <| em_fds := fds |> <| em_bound := Some (bind_port port) |> <| em_main := EmHeartbeat |>
      end
  | EmHeartbeat => g <| em_beat := Some (0, wake_after (em_now g)) |> <| em_main := EmStart |>
  | EmStart => g <| em_server := new_server DEFAULT_THREAD_POOL_SIZE |> <| em_main := EmLoop |>
  | EmLoop | EmJoin => g
  end.

(** [~TcpServer] before [start]: [stop] finds no connections. *)
Definition destroy_server g : emain := g <| em_fds := em_fds g ∖ {[epollFd; serverFd]} |>.

(** The heartbeat thread; the kernel takes [n fd] bytes on each descriptor. *)
Definition beat_turn (n : Z → nat) (i : Z) g : emain :=
  g <| em_server := collect (broadcast n (heartbeat_text i) (em_server g)) |>
    <| em_beat := Some (i + 1, wake_after (em_now g)) |>.

(** What clients do. *)
Inductive peer_step : server → server → Prop :=
| peer_connect s k : outbox k = [] → peer_step s (s <| backlog := backlog s ++ [k] |>)
| peer_data s fd bs :
    is_Some (socks s !! fd) → peer_step s (arrival fd (λ k, k <| inbox := inbox k ++ bs |>) s)
| peer_closes s fd :
    is_Some (socks s !! fd) → peer_step s (arrival fd (λ k, k <| peer_closed := true |>) s)
| peer_resets s fd :
    is_Some (socks s !! fd) → peer_step s (arrival fd (λ k, k <| broken := true |>) s).

(** The server without callers. *)
Definition loop_step s s' : Prop :=
  ∃ t, (main_step s t ∨ (∃ i, worker_step i s t) ∨ peer_step s t) ∧ s' = collect t.

(** A send that raises SIGPIPE. *)
Definition cut_off (fd : Z) s : Prop := ∃ k, socks s !! fd = Some k ∧ broken k = true.

Inductive em_step : emain → emain → Prop :=
| em_statement g :
    em_end g = None → em_main g ≠ EmLoop → em_main g ≠ EmJoin → em_step g (em_turn g)
| em_loop g s' :
    em_end g = None → em_main g = EmLoop → loop_step (em_server g) s' →
    em_step g (g <| em_server := s' |>)
| em_leave g :
    em_end g = None → em_main g = EmLoop → main (em_server g) = MReturned →
    em_step g (g <| em_main := EmJoin |>)
| em_heart g n i wake :
    em_end g = None → em_main g = EmLoop → em_beat g = Some (i, wake) → wake <= em_now g →
    em_step g (beat_turn n i g)
| em_heart_early g i wake :
    em_end g = None → em_main g = EmStart → em_beat g = Some (i, wake) → wake <= em_now g →
    em_step g (g <| em_beat := Some (i + 1, wake_after (em_now g)) |>)
| em_heart_cut g i wake fd :
    em_end g = None → em_main g = EmLoop → em_beat g = Some (i, wake) → wake <= em_now g →
    is_Some (connections (em_server g) !! fd) → cut_off fd (em_server g) →
    em_step g (g <| em_end := Some Killed |>)
| em_welcome_cut g c evs :
    em_end g = None → em_main g = EmLoop → main (em_server g) = MWelcome c evs →
    cut_off (object_fd (em_server g) c) (em_server g) →
    em_step g (g <| em_end := Some Killed |>)
| em_no_thread g :                    (* [std::thread] throws *)
    em_end g = None → em_main g = EmHeartbeat →
    em_step g (caught (lit "Resource temporarily unavailable") (destroy_server g))
| em_tick g now :
    em_end g = None → em_now g <= now → em_step g (g <| em_now := now |>).

Definition em_start (now : Z) : emain :=
  EMain EmArgs (new_server DEFAULT_THREAD_POOL_SIZE) fds0 None None now [] None.

Definition em_reachable (now : Z) g : Prop := rtc em_step (em_start now) g.

(** ** The loop is never left *)

Lemma collect_running s : running (collect s) = running s.
Proof. done. Qed.
Lemma collect_main s : main (collect s) = main s.
Proof. done. Qed.

Definition serving s : Prop := running s = true ∧ main s ≠ MReturned.

Lemma task_read_serving i c s : serving s → serving (task_read i c s).
Proof.
  unfold task_read. destruct (objects s !! c) as [o|]; [|done]. destruct (socks s !! sockfd o); [|done].
  by destruct (readData o s0) as [[r o'] k'].
Qed.

Lemma serving_step s s' : serving s → loop_step s s' → serving s'.
Proof.
  intros Hs (t & Ht & ->). assert (serving t); [|done]. destruct Hs as [Hr Hm].
  destruct Ht as [Ht|[[i Ht]|Ht]].
  - destruct Ht as [| | | | | | | | | | | |s c fd [] [] evs Hf| |]; split; try done; try congruence.
  - destruct Ht as [s c rest H1 H2|s c H1|s c H1|s c H1|s c H1]; try done; [by apply task_read_serving|].
    unfold task_process. destruct (objects s !! c) as [o|]; [|done]. by destruct (processData o).
  - by destruct Ht.
Qed.

Lemma loop_epoll s s' : loop_step s s' → epoll_step s s'.
Proof.
  intros (t & [Ht|[[i Ht]|Ht]] & ->); [by apply epoll_main|by eapply epoll_worker|].
  apply epoll_env. destruct Ht; by constructor.
Qed.

Record emain_inv g : Prop := {
  ei_reach : rtc epoll_step (new_server DEFAULT_THREAD_POOL_SIZE) (em_server g);
  ei_serving : serving (em_server g);
  ei_main : em_main g ≠ EmJoin;
  ei_start : em_beat g = None ↔ match em_main g with EmArgs | EmConstruct _ | EmHeartbeat => True | _ => False end;
  ei_fds : em_end g = None → match em_main g with
           | EmArgs | EmConstruct _ => em_fds g = fds0
           | _ => em_fds g = fds0 ∪ {[epollFd]} ∪ {[serverFd]}
           end;
  ei_bound : ∀ port, em_bound g = Some port → 0 <= port < 2 ^ 16 }.

Lemma em_turn_inv g :
  epollFd ∉ fds0 → serverFd ∉ fds0 → epollFd ≠ serverFd →
  em_main g ≠ EmLoop → em_end g = None → emain_inv g → emain_inv (em_turn g).
Proof.
  intros H1 H2 H3 Hm He [Hr Hs Hj Hb Hf Hp]. unfold em_turn, caught. destruct (em_main g) as [|port| | | |] eqn:E; try done.
  - destruct (port_argument argv); split; emain_simpl; rewrite ?E; done.
  - rewrite (Hf He). pose proof (ctor_closes_on_error ok epollFd serverFd fds0 H1 H2 H3) as Hc.
    destruct (TcpServer ok epollFd serverFd fds0) as [[what|] fds].
    + destruct Hc as [-> _]. split; emain_simpl; rewrite ?E; done.
    + destruct Hc as [-> _]. split; emain_simpl; rewrite ?E; try done; [intros _; set_solver|].
      intros q [= <-]. unfold bind_port. by apply Z.mod_pos_bound.
Qed.

Lemma em_inv_step g g' :
  epollFd ∉ fds0 → serverFd ∉ fds0 → epollFd ≠ serverFd →
  emain_inv g → em_step g g' → emain_inv g'.
Proof.
  intros H1 H2 H3 Hi Hs.
  destruct Hs as [g He Hl Hj|g s' He Hl Hs|g He Hl Hm|g n i wake He Hl Hb Hw|g i wake He Hl Hb Hw|
    g i wake fd He Hl Hb Hw Hc Hx|g c evs He Hl Hm Hx|g He Hm|g now He Hn].
  - by apply em_turn_inv.
  - destruct Hi as [Hr Hsv Hj Hb Hf Hp]. split; emain_simpl; try done.
    + eapply rtc_r; [exact Hr|by apply loop_epoll].
    + by eapply serving_step.
  - by destruct Hi as [_ [_ Hx] _ _ _].
  - destruct Hi as [Hr Hsv Hj Hbt Hf Hp]. unfold beat_turn. split; emain_simpl; try done.
    + eapply rtc_r; [exact Hr|]. apply epoll_env, env_broadcast.
    + rewrite Hl. by split.
  - destruct Hi as [Hr Hsv Hj Hbt Hf Hp]. split; emain_simpl; try done. rewrite Hl. by split.
  - destruct Hi as [Hr Hsv Hj Hbt Hf Hp]. by split.
  - destruct Hi as [Hr Hsv Hj Hbt Hf Hp]. by split.
  - destruct Hi as [Hr Hsv Hj Hbt Hf Hp]. unfold caught, destroy_server. by split.
  - destruct Hi as [Hr Hsv Hj Hbt Hf Hp]. by split.
Qed.

Lemma em_reachable_inv now g :
  epollFd ∉ fds0 → serverFd ∉ fds0 → epollFd ≠ serverFd → em_reachable now g → emain_inv g.
Proof.
  intros H1 H2 H3. apply (rtc_invariant em_step emain_inv); [|by intros a b; apply em_inv_step].
  split; try done; apply rtc_refl.
Qed.

(** ** The program *)

(** Every run of the program once the loop is entered, its heartbeats included,
    is a run of the server of EpollServer: what is proved of it (ownership of
    the descriptors, removals) holds of the program. *)
Theorem epoll_program_refines_server now g :
  epollFd ∉ fds0 → serverFd ∉ fds0 → epollFd ≠ serverFd → em_reachable now g →
  rtc epoll_step (new_server DEFAULT_THREAD_POOL_SIZE) (em_server g) ∧
  main (em_server g) ≠ MReturned.
Proof. intros H1 H2 H3 Hr. destruct (em_reachable_inv now g H1 H2 H3 Hr) as [Hs [_ Hm] _ _ _ _]. done. Qed.

Lemma em_end_step g g' e :
  epollFd ∉ fds0 → serverFd ∉ fds0 → epollFd ≠ serverFd →
  emain_inv g → em_end g = None → em_step g g' → em_end g' = Some e →
  match e with
  | Returned c => c = 1 ∧ em_fds g' = fds0 ∧ em_beat g' = None ∧
      (port_argument argv = None ∨ (∃ call, ok call = false) ∨ em_main g' = EmHeartbeat)
  | Killed => em_main g' = EmLoop ∧ ∃ fd, cut_off fd (em_server g')
  end.
Proof.
  intros H1 H2 H3 Hi Hn Hs He.
  destruct Hs as [g _ Hl Hj|g s' _ Hl Hs|g _ Hl Hm|g n i wake _ Hl Hb Hw|g i wake _ Hl Hb Hw|
    g i wake fd _ Hl Hb Hw Hc Hx|g c evs _ Hl Hm Hx|g _ Hm|g now _ Hn']; emain_simpl; try congruence.
  - destruct Hi as [Hr Hs Hj' Hb Hf Hp]. unfold em_turn, caught in *. destruct (em_main g) as [|port| | | |] eqn:E; try done.
    + destruct (port_argument argv) eqn:Hpa; emain_simpl; [congruence|]. injection He as <-.
      split_and!; [done|by apply Hf|by apply Hb|by left].
    + rewrite (Hf Hn) in *. pose proof (ctor_closes_on_error ok epollFd serverFd fds0 H1 H2 H3) as Hc.
      destruct (TcpServer ok epollFd serverFd fds0) as [[what|] fds]; emain_simpl; [|congruence].
      injection He as <-. destruct Hc as [-> Hcall]. split_and!; [done..|by apply Hb|by right; left].
    + emain_simpl. congruence.
    + emain_simpl. congruence.
  - unfold beat_turn in He. emain_simpl. congruence.
  - injection He as <-. split; [done|by exists fd].
  - injection He as <-. split; [done|by eexists].
  - destruct Hi as [_ _ _ Hb Hf _]. unfold caught, destroy_server in *. emain_simpl. injection He as <-.
    rewrite Hm in *. rewrite (Hf Hn). split_and!; [done|set_solver|by apply Hb|by right; right].
Qed.


End EpollMain.

(** A port above 65535 is not refused: the server listens on another one. *)
Theorem large_port_wraps now :
  ∃ g, em_reachable [lit "70000"] (λ _, true) 4 5 ∅ now g ∧ em_main g = EmHeartbeat ∧ em_bound g = Some 4464.
Proof.
  set (turn := em_turn [lit "70000"] (λ _, true) 4 5).
  exists (turn (turn (em_start ∅ now))). split; [|split; vm_compute; reflexivity].
  eapply rtc_l; [by apply em_statement|]. apply rtc_once. apply em_statement; by vm_compute.
Qed.

(** ** A client that resets its connection *)

Definition b0 : server := collect ((new_server DEFAULT_THREAD_POOL_SIZE) <| backlog := [fresh_sock] |>).
Definition b1 : server := collect (b0 <| main := MPoll |>).
Definition b2 : server := collect (b1 <| ready := ready b1 ∖ reported [OnServer] |> <| main := MEvents [OnServer] |>).
Definition b3 : server := collect (accepted 5 fresh_sock [] [] b2).
Definition b4 : server := collect (epoll_add (object_fd b3 0) b3 <| main := MInsert 0 [] |>).
Definition b5 : server :=
  collect (b4 <| connections := <[object_fd b4 0 := 0%nat]> (connections b4) |> <| main := MWelcome 0 [] |>).
Definition b6 : server := collect (send_to (object_fd b5 0) 44 welcomeMsg b5 <| main := MEvents [] |>).
Definition b7 : server := collect (arrival 5 (λ k, k <| broken := true |>) b6).

Lemma by_main s t : main_step s t → loop_step s (collect t).
Proof. intros Ht. exists t. auto. Qed.
Lemma by_peer s t : peer_step s t → loop_step s (collect t).
Proof. intros Ht. exists t. auto. Qed.

Lemma b7_reached : rtc loop_step (new_server DEFAULT_THREAD_POOL_SIZE) b7.
Proof.
  apply (rtc_l _ _ b0); [exact (by_peer _ _ (peer_connect (new_server _) fresh_sock eq_refl))|].
  apply (rtc_l _ _ b1); [apply by_main, main_enter; go|].
  apply (rtc_l _ _ b2); [apply by_main, main_wait; [go|can_wait]|].
  apply (rtc_l _ _ b3); [apply by_main, main_accept; go|].
  apply (rtc_l _ _ b4); [apply by_main, main_add; go|].
  apply (rtc_l _ _ b5); [apply by_main, main_insert; go|].
  apply (rtc_l _ _ b6); [apply by_main, main_welcome; go|].
  apply rtc_once, (by_peer _ _ (peer_resets b6 5 ltac:(apply (bool_decide_unpack _); vm_compute; exact I))).
Qed.

Section Reset.
Abbreviation step8080 := (em_step [] (λ _, true) 3 4).

Lemma em_loop_run g s' :
  em_end g = None → em_main g = EmLoop → rtc loop_step (em_server g) s' →
  rtc step8080 g (g <| em_server := s' |>).
Proof.
  intros He Hl Hr. remember (em_server g) as s eqn:E. revert g He Hl E.
  induction Hr as [s|s t s' Hs _ IH]; intros g He Hl E.
  - subst s. destruct g. apply rtc_refl.
  - eapply rtc_l; [apply (em_loop _ _ _ _ g t); [done..|by rewrite <-E]|].
    refine (IH (g <| em_server := t |>) _ _ _); done.
Qed.

Definition looping : emain :=
  EMain EmLoop (new_server DEFAULT_THREAD_POOL_SIZE) (∅ ∪ {[3]} ∪ {[4]}) (Some 8080) (Some (0, 5)) 0 [] None.

Lemma looping_reached : em_reachable [] (λ _, true) 3 4 ∅ 0 looping.
Proof.
  set (turn := em_turn [] (λ _, true) 3 4).
  assert (H : looping = turn (turn (turn (turn (em_start ∅ 0))))) by (vm_compute; reflexivity).
  rewrite H. eapply rtc_l; [by apply em_statement|]. eapply rtc_l; [by apply em_statement|].
  eapply rtc_l; [by apply em_statement|]. apply rtc_once. by apply em_statement.
Qed.
End Reset.

(** The client is registered, so the next heartbeat writes to it: the process is
    killed. *)
Theorem reset_client_kills_server :
  ∃ g, em_reachable [] (λ _, true) 3 4 ∅ 0 g ∧ em_end g = Some Killed ∧ em_server g = b7.
Proof.
  exists (looping <| em_server := b7 |> <| em_now := 5 |> <| em_end := Some Killed |>). split; [|done].
  unfold em_reachable. etrans; [apply looping_reached|].
  etrans; [by apply (em_loop_run looping b7), b7_reached|].
  eapply rtc_l; [by apply (em_tick _ _ _ _ (looping <| em_server := b7 |>) 5)|].
  apply rtc_once. apply (em_heart_cut _ _ _ _ (looping <| em_server := b7 |> <| em_now := 5 |>) 0 5 5); try done.
  eexists. split; [vm_compute; reflexivity|reflexivity].
Qed.

(** ** The theorems at concrete runs *)

Lemma epoll_program_refines_server_witness :
  rtc epoll_step (new_server DEFAULT_THREAD_POOL_SIZE) b7 ∧ main b7 ≠ MReturned.
Proof.
  apply (epoll_program_refines_server [] (λ _, true) 3 4 ∅ 0 (looping <| em_server := b7 |>)
    ltac:(set_solver) ltac:(set_solver) ltac:(lia)).
  unfold em_reachable. etrans; [apply looping_reached|].
  by apply (em_loop_run looping b7), b7_reached.
Defined.

