(* ===== verification/TcpClientMain.v ===== *)
(** * TcpClientMain: the program of claude/asio_client.cpp

    [main] from its arguments to its return, around the command loop of
    ClientConsole. The client is held by [std::shared_ptr]: by the local variable
    of [main], which ends with the [try] block, and by every closure, operation
    and timer wait of the client ([holders]). *)

From S2P Require Import Prelude Bytes Tables Asio Schedule Drain TcpPacket TcpReader TcpClient TcpClientProps Text ClientConsole ClientConsoleProps TurboLife.

#[local] Arguments lit : simpl never.

(** The positions of [main]: before the client exists, in the command loop,
    after the [try] block. *)
Inductive km_pc := KmArguments | KmRun | KmReturn.

Record kmain := KMain {
  km_main : km_pc;
  km_query : option (bytes * bytes);   (* host and service, once they are known *)
  km_prog : prog;
  km_alive : bool;                     (* the client object exists *)
  km_errors : list bytes;              (* lines on [std::cerr] *)
  km_end : option ending }.

#[export] Instance eta_kmain : Eta kmain := λ g,
  KMain (km_main g) (km_query g) (km_prog g) (km_alive g) (km_errors g) (km_end g).

Ltac kmain_simpl := cbn [field_upd km_main km_query km_prog km_alive km_errors km_end] in *.

(** The host, the port and the client's id; [rand] is what [std::rand()]
    returned; [None] when [std::stoi] throws. *)
Definition client_arguments (rand : Z) (argv : list bytes) : option (bytes * Z * bytes) :=
  let host := default (lit "localhost") (argv !! 0%nat) in
  let clientId := default (lit "CLIENT_" ++ to_string (rand mod 10000)) (argv !! 2%nat) in
  match argv !! 1%nat with
  | None => Some (host, 8080, clientId)
  | Some p => match stoi p with Some port => Some (host, port, clientId) | None => None end
  end.

Section ClientMain.
Context `{Host} `{Storage}.
(** The arguments after the program's name; [std::rand()], which nobody seeds;
    the indeterminate members of the client. *)
Context (argv : list bytes) (rand : Z) (hdr : PacketHeader) (buf : bytes).
Abbreviation kworld := (world tcpclient k_op k_post k_timer k_call).
Implicit Types (g : kmain) (p : prog) (w : kworld).

Definition km_start (now : Z) : kmain :=
  KMain KmArguments None (mkProg (init_world (new_client [] hdr buf) now) Reading false [] []) false [] None.

(** [~TcpClient], in the thread [main] or in the I/O thread. It calls [stop],
    which joins the I/O thread: [std::thread::join] throws when a thread joins
    itself, and a destructor does not let an exception out. *)
Definition destroy_client (on_io_thread : bool) g : kmain :=
  let w := p_world (km_prog g) in
  let aborts := on_io_thread && io_thread_joinable (w_st w) in
  g <| km_prog := (km_prog g) <| p_world := run stop w |> <| io_running := false |> |>
    <| km_alive := false |>
    <| km_end := if aborts then Some Aborted else km_end g |>.

(** A reference was dropped, [local]: whether the variable of [main] still
    exists. *)
Definition release_client (local on_io_thread : bool) g : kmain :=
  if km_alive g && negb local && (holders (p_world (km_prog g)) =? 0)%nat
  then destroy_client on_io_thread g else g.

Definition said (what : bytes) g : kmain := g <| km_errors := km_errors g ++ [lit "Exception: " ++ what] |>.

(** The statements before the command loop. *)
Definition km_begin g : kmain :=
  match client_arguments rand argv with
  | Some (host, port, clientId) =>
      g <| km_query := Some (host, to_string port) |> <| km_alive := true |>
        <| km_prog := main_prog clientId hdr buf (w_now (p_world (km_prog g))) |>
        <| km_main := KmRun |>
  | None => said (lit "stoi") g <| km_main := KmReturn |>
  end.

(** The end of the [try] block, normally or by an exception. *)
Definition km_leave g : kmain :=
  let g' := release_client false false (g <| km_main := KmReturn |>) in
  match p_phase (km_prog g) with Escaped => said (lit "stoi") g' | _ => g' end.

Inductive km_step : kmain → kmain → Prop :=
| km_begins g :
    km_end g = None → km_main g = KmArguments → km_step g (km_begin g)
| km_runs g p' :
    km_end g = None → km_main g = KmRun → prog_step (km_prog g) p' →
    km_step g (g <| km_prog := p' |>)
| km_terminates g :
    km_end g = None → km_main g = KmRun → p_phase (km_prog g) = Terminated →
    km_step g (g <| km_end := Some Aborted |>)
| km_leaves g :
    km_end g = None → km_main g = KmRun → p_phase (km_prog g) ∈ [Ended; Escaped] →
    km_step g (km_leave g)
(* the I/O thread of a client that is still held *)
| km_io g w' :
    km_end g = None → km_main g = KmReturn → km_alive g = true → io_running (km_prog g) = true →
    step client_program (p_world (km_prog g)) w' →
    km_step g (release_client false true (g <| km_prog := (km_prog g) <| p_world := w' |> |>))
| km_returns g :
    km_end g = None → km_main g = KmReturn → km_step g (g <| km_end := Some (Exited 0) |>).

Definition km_reachable (now : Z) g : Prop := rtc km_step (km_start now) g.

(** ** What the program is while it runs *)

(** Stopping turns reconnection off, and nothing but the user's command turns it
    on again; a thread that was told to end runs nothing more. *)
Definition stopping (p : prog) : Prop :=
  match p_phase p with
  | Draining _ => reconnect_enabled_ (w_st (p_world p)) = false
  | Ended => io_running p = false
  | _ => True
  end.

Definition same_reconnect (c c' : tcpclient) : Prop := reconnect_enabled_ c' = reconnect_enabled_ c.
#[local] Instance same_reconnect_preorder : PreOrder same_reconnect.
Proof. split; [done|]. intros c1 c2 c3. unfold same_reconnect. congruence. Qed.

Abbreviation hands_off := (keeps same_reconnect (λ _ : k_eff, True) _).

Ltac hands_tac :=
  repeat first [ done | progress keeps_tac | progress case_match ].

Lemma hands_off_disconnect now : hands_off (handleDisconnect now).
Proof. unfold handleDisconnect, notifyConnectionStatus, scheduleReconnect. hands_tac. Qed.

Lemma hands_off_packet pkt : hands_off (handle_packet pkt).
Proof. unfold handle_packet. hands_tac. Qed.

Lemma hands_off_send pkt : hands_off (sendPacket pkt).
Proof. unfold sendPacket. hands_tac. Qed.

Lemma hands_off_read now o res : hands_off (onRead now o res).
Proof.
  apply (onRead_compositional (λ A m, keeps same_reconnect (λ _, True) A m)); intros.
  1-4: hands_tac.
  - apply hands_off_packet.
  - simpl. unfold close. hands_tac.
  - apply hands_off_disconnect.
Qed.

Lemma hands_off_io now o res : hands_off (client_io now o res).
Proof.
  destruct o as [| |o|bs]; simpl.
  - unfold on_resolve, scheduleReconnect. hands_tac.
  - unfold on_connect, notifyConnectionStatus, startRead, readHeader, sendBindPacket, getNextSequence, scheduleReconnect.
    hands_tac; try apply hands_off_send; hands_tac.
  - apply hands_off_read.
  - unfold onWrite, doWrite, handleDisconnect, notifyConnectionStatus, scheduleReconnect. hands_tac.
Qed.

Lemma hands_off_post now q : hands_off (client_post now q).
Proof. destruct q; simpl; unfold connect_posted, send_posted, timeout_timer_posted, close, doWrite; hands_tac. Qed.

Lemma hands_off_timer now t ab : hands_off (client_timer now t ab).
Proof.
  destruct t; simpl; [|unfold on_reconnect_timer, connect; hands_tac].
  unfold on_timeout_timer. destruct ab; [hands_tac|]. intros c. rewrite tcp_client_checkTimeouts_run.
  split; [done|by apply Forall_true].
Qed.

Lemma hands_off_step w w' : step client_program w w' → same_reconnect (w_st w) (w_st w').
Proof.
  intros Hs. destruct Hs as [w q ps Hp|w o l1 l2 r Ho Ha|w t d l1 l2 Ha Hd|w t ab l1 l2 Hf|w now Hn|w a].
  - destruct (run_fields (h_post client_program (w_now w) q) (w <| w_posts := ps |>)) as (-> & _).
    apply (hands_off_post (w_now w) q).
  - destruct (complete_fields client_program o r (l1 ++ l2) w) as (-> & _). apply (hands_off_io (w_now w) o r).
  - done.
  - destruct (run_fields (h_timer client_program (w_now w) t ab) (w <| w_fired := l1 ++ l2 |>)) as (-> & _).
    apply (hands_off_timer (w_now w) t ab).
  - done.
  - destruct a.
Qed.

Lemma stop_run (c : tcpclient) :
  stop c =
    (c <| reconnect_enabled_ := false |> <| socket_open := false |> <| io_thread_joinable := false |>,
     [ECancel TTimeout; ECancel TReconnect] ++ (if socket_open c then [EClose] else []), ()).
Proof. destruct c as [[] j i cn re n pc sc tc rd q m]; reflexivity. Qed.

Lemma turn_stopping line p : p_phase p = Reading → stopping (turn line p).
Proof.
  intros Hp. unfold stopping, turn. set (c := k_parseCommand line). clearbody c. cbv zeta.
  set (m := k_execute _ _ c). destruct (val_of (m (w_st (p_world p)))) as [out ph] eqn:E.
  cbn [field_upd p_phase p_world io_running].
  destruct (run_fields m (p_world p)) as (-> & _). unfold m in *. clear m.
  destruct c; cbn [k_execute] in *.
  1, 5: cbv [mbind act_bind setAutoReconnect modify] in *; rewrite ?stop_run in *; simpl in *; by simplify_eq.
  all: unfold setAutoReconnect, start in *; unact.
  all: try (injection E as <- <-; done).
  - by destruct (io_thread_joinable _); simplify_eq/=.
  - destruct (sendPacket _ _) as [[? ?] ?]. by simplify_eq/=.
  - destruct (sendRequestSync_send _ _ _ _ _) as [[? ?] []]; by simplify_eq/=.
Qed.

Lemma prog_step_stopping p p' : stopping p → prog_step p p' → stopping p'.
Proof.
  intros Hi Hs. destruct Hs as [p w' Hio Hf Hs|p now|p line Hp|p k q d pkt Hp|p k q d Hp|p b Hp Hd].
  - unfold stopping in *. cbn [field_upd p_phase p_world io_running]. destruct (p_phase p); try done.
    pose proof (hands_off_step _ _ Hs) as Hh. unfold same_reconnect in Hh. congruence.
  - exact Hi.
  - by apply turn_stopping.
  - done.
  - done.
  - by destruct b.
Qed.

(** ** The I/O thread can be joined *)

Definition all_due_by (t : Z) (c : tcpclient) : Prop :=
  ∀ q r, pending_requests_ c !! q = Some r → expiryTime r <= t.

Lemma due_in_time (c : tcpclient) (t0 : Z) : ∃ t, t0 <= t ∧ ∀ t', t <= t' → all_due_by t' c.
Proof.
  assert (Hx : ∃ t, t0 <= t ∧ all_due_by t c).
  { unfold all_due_by. induction (pending_requests_ c) as [|q r m Hq IH] using map_ind;
      [by exists t0; split; [lia|]|].
    destruct IH as (t & Hle & Ht). exists (Z.max t (expiryTime r)). split; [lia|].
    intros q' r' [[<- <-]|[_ Hr']]%lookup_insert_Some; [lia|]. specialize (Ht q' r' Hr'). lia. }
  destruct Hx as (t & Hle & Ht). exists t. split; [done|]. intros t' Hle' q r Hq. specialize (Ht q r Hq). lia.
Qed.

Lemma all_expired (t : Z) (c : tcpclient) :
  all_due_by t c → erase_all (expiredSequences t (pending_requests_ c)) (pending_requests_ c) = ∅.
Proof.
  intros Hd. apply map_eq. intros q. rewrite lookup_empty, erase_all_lookup.
  destruct (pending_requests_ c !! q) as [r|] eqn:Hq; [|by case_decide].
  rewrite decide_True; [done|]. apply elem_keys_where. exists r. split; [done|].
  apply Z.leb_le. by eapply Hd.
Qed.

(** With reconnection off, nothing is started again by what fails or expires. *)
#[local] Instance stopped_client_drains :
  Drains client_program (λ c, reconnect_enabled_ c = false)
    (λ t c, reconnect_enabled_ c = false ∧ all_due_by t c).
Proof.
  split.
  - intros now o c Hc. destruct o as [| |[off n|off n]|bs]; simpl; try done;
      unfold scheduleReconnect; unact; by rewrite Hc.
  - intros now q c Hc. split.
    + destruct (hands_off_post now q c) as [Hh _]. unfold same_reconnect in Hh. simpl. congruence.
    + destruct q; simpl; unfold connect_posted, send_posted, timeout_timer_posted, close, doWrite; unact;
        repeat case_match; simplify_eq/=; try done.
  - intros c t Hc. destruct (due_in_time c t) as (t' & Hle & Ht). exists t'. split; [done|]. auto.
  - intros now t ab c [Hc Hd]. destruct t; simpl.
    + unfold on_timeout_timer. destruct ab; [by split|]. rewrite tcp_client_checkTimeouts_run. cbv zeta.
      rewrite all_expired by done. simpl. rewrite app_nil_r. split.
      * split; [done|]. intros q r Hq. cbn [state_of fst field_upd pending_requests_] in Hq.
        by rewrite lookup_empty in Hq.
      * destruct (timeout_callback_ c); [|constructor]. apply Forall_fmap. by apply Forall_true.
    + unfold on_reconnect_timer, connect. unact. rewrite Hc, andb_false_r. by split.
Qed.

(** ** The program *)

Record km_inv (now : Z) g : Prop := {
  ki_start : km_main g = KmArguments → w_now (p_world (km_prog g)) = now ∧ km_alive g = false;
  ki_prog : km_main g = KmRun → ∃ host port clientId,
    client_arguments rand argv = Some (host, port, clientId) ∧ km_query g = Some (host, to_string port) ∧
    prog_reachable (main_prog clientId hdr buf now) (km_prog g);
  ki_stop : km_main g = KmRun → km_alive g = true ∧ stopping (km_prog g);
  ki_return : km_main g = KmReturn → km_alive g = true →
    p_phase (km_prog g) = Escaped ∨ io_running (km_prog g) = false;
  ki_end : match km_end g with
           | None => True
           | Some (Exited c) => c = 0 ∧ km_main g = KmReturn
           | Some Aborted => km_main g = KmRun ∧ p_phase (km_prog g) = Terminated ∨
                             km_main g = KmReturn ∧ p_phase (km_prog g) = Escaped ∧ km_alive g = false
           | Some Undefined => False
           end }.

Lemma release_cases local io g :
  release_client local io g = g ∨
  km_alive g = true ∧ release_client local io g = destroy_client io g.
Proof. unfold release_client. destruct (km_alive g), local, (_ =? _)%nat; simpl; auto. Qed.

Lemma km_leave_inv now g :
  km_inv now g → km_end g = None → km_main g = KmRun → p_phase (km_prog g) ∈ [Ended; Escaped] →
  km_inv now (km_leave g) ∧ km_end (km_leave g) = None ∧ km_main (km_leave g) = KmReturn.
Proof.
  intros [_ _ Hs _ _] He Hm Hp. destruct (Hs Hm) as [Ha Hst]. unfold km_leave.
  assert (Hret : p_phase (km_prog g) = Escaped ∨ io_running (km_prog g) = false).
  { unfold stopping in Hst. destruct (p_phase (km_prog g)); auto; set_solver. }
  assert (Hg : km_inv now (release_client false false (g <| km_main := KmReturn |>)) ∧
    km_end (release_client false false (g <| km_main := KmReturn |>)) = None ∧
    km_main (release_client false false (g <| km_main := KmReturn |>)) = KmReturn).
  { destruct (release_cases false false (g <| km_main := KmReturn |>)) as [->|[_ ->]].
    - split; [|done]. split; kmain_simpl; try done. by rewrite He.
    - unfold destroy_client. split; [|done]. split; kmain_simpl; try done. simpl. by rewrite He. }
  destruct Hg as ([H1 H2 H3 H4 H5] & Hn & Hr).
  destruct (p_phase (km_prog g)); split_and!; try done; split; unfold said; kmain_simpl; auto.
Qed.

Lemma km_inv_step now g g' : km_inv now g → km_step g g' → km_inv now g'.
Proof.
  intros Hi Hs. pose proof Hi as [H1 H2 H3 H4 H5].
  destruct Hs as [g He Hm|g p' He Hm Hs|g He Hm Hp|g He Hm Hp|g w' He Hm Ha Hio Hs|g He Hm].
  - unfold km_begin. destruct (client_arguments rand argv) as [[[host port] clientId]|] eqn:E.
    + destruct (H1 Hm) as [Hnow _]. split; kmain_simpl; rewrite ?He, ?Hnow; try done.
      intros _. exists host, port, clientId. split_and!; [done..|apply rtc_refl].
    + destruct (H1 Hm) as [_ Hal]. unfold said. split; kmain_simpl; rewrite ?He, ?Hal; done.
  - split; kmain_simpl; rewrite ?He; try congruence; try done.
    + intros _. destruct (H2 Hm) as (host & port & clientId & Ea & Eq & Hr). exists host, port, clientId.
      split_and!; [done..|]. by eapply rtc_r.
    + intros _. destruct (H3 Hm) as [Hal Hst]. split; [done|]. by eapply prog_step_stopping.
  - split; kmain_simpl; try done. by left.
  - by apply km_leave_inv.
  - assert (Hp : p_phase (km_prog g) = Escaped) by (destruct (H4 Hm Ha); congruence).
    destruct (release_cases false true (g <| km_prog := (km_prog g) <| p_world := w' |> |>)) as [->|[_ ->]].
    + split; kmain_simpl; rewrite ?He; try congruence; try done; auto.
    + unfold destroy_client. split; kmain_simpl; rewrite ?He; try congruence; try done.
      destruct (_ && _); [|done]. right. done.
  - split; kmain_simpl; try done. 
Qed.

Lemma km_reachable_inv now g : km_reachable now g → km_inv now g.
Proof. apply (rtc_invariant km_step (km_inv now)); [by split|apply km_inv_step]. Qed.

(** While its command loop runs, the program is the command loop of
    ClientConsole interleaved with the I/O thread, with the client id that the
    arguments give: what is proved there holds of the program. *)
Theorem tcp_client_program_refines_console now g :
  km_reachable now g → km_main g = KmRun →
  ∃ host port clientId, client_arguments rand argv = Some (host, port, clientId) ∧
    km_query g = Some (host, to_string port) ∧
    prog_reachable (main_prog clientId hdr buf now) (km_prog g).
Proof. intros [_ H2 _ _ _]%km_reachable_inv Hm. by apply H2. Qed.

(** How the program can end: with status 0, also after an exception, since
    [main] has no [return]; or by [std::terminate], because [connect] was typed
    while the client runs, or because an exception left the loop and the client
    was then destroyed by its own I/O thread. *)
Theorem tcp_client_program_ends now g e :
  km_reachable now g → km_end g = Some e →
  match e with
  | Exited c => c = 0 ∧ km_main g = KmReturn
  | Aborted => km_main g = KmRun ∧ p_phase (km_prog g) = Terminated ∨
               km_main g = KmReturn ∧ p_phase (km_prog g) = Escaped ∧ km_alive g = false
  | Undefined => False
  end.
Proof. intros [_ _ _ _ H5]%km_reachable_inv He. by rewrite He in H5. Qed.

Lemma km_run_prog g p' :
  km_end g = None → km_main g = KmRun → prog_reachable (km_prog g) p' →
  rtc km_step g (g <| km_prog := p' |>).
Proof.
  intros He Hm Hr. remember (km_prog g) as p eqn:E. revert g E He Hm.
  induction Hr as [p|p p1 p2 Hs _ IH]; intros g -> He Hm.
  - destruct g. apply rtc_refl.
  - apply (rtc_l _ _ (g <| km_prog := p1 |>)); [by apply km_runs|].
    exact (IH (g <| km_prog := p1 |>) eq_refl He Hm).
Qed.


End ClientMain.

(** ** Runs of the program

    The client with its id on the command line, the runs of ClientConsoleProps. *)

#[local] Instance client_main_host : Host := LittleEndian.
#[local] Instance client_main_storage : Storage := zero_storage.

Definition example_argv : list bytes := [lit "example.org"; lit "9000"; lit "CLIENT_1"].
Abbreviation km_example_step := (km_step example_argv 0 (mkPacketHeader 0 0 0 0) (vec_zero 12)).
Abbreviation km_example := (km_reachable example_argv 0 (mkPacketHeader 0 0 0 0) (vec_zero 12) 0).

Definition km1 : kmain :=
  km_begin example_argv 0 (mkPacketHeader 0 0 0 0) (vec_zero 12)
    (km_start (mkPacketHeader 0 0 0 0) (vec_zero 12) 0).

Lemma km1_reachable : km_example km1.
Proof. apply rtc_once. by apply km_begins. Qed.

Lemma km1_prog : km1 = KMain KmRun (Some (lit "example.org", lit "9000")) pg0 true [] None.
Proof. vm_compute. reflexivity. Qed.

Lemma km_example_prog p' : prog_reachable pg0 p' → km_example (km1 <| km_prog := p' |>).
Proof.
  intros Hr. unfold km_reachable. etrans; [apply km1_reachable|].
  apply km_run_prog; rewrite km1_prog; done.
Qed.

(** A request line with a number out of range ends [main] while the client is
    connected: its read still holds the client, whose destructor is then run by
    the I/O thread, which joins itself. *)
Definition escaped : prog := turn (lit "request call 99999999999") pg1.

Theorem number_aborts_client :
  ∃ g, km_example g ∧ km_end g = Some Aborted ∧ km_errors g = [lit "Exception: stoi"].
Proof.
  set (g3 := km1 <| km_prog := escaped |>). set (g4 := km_leave g3).
  set (w5 := complete client_program headerRead (IoErr true) ([] ++ []) (p_world (km_prog g4))).
  set (g5 := release_client false true (g4 <| km_prog := (km_prog g4) <| p_world := w5 |> |>)).
  assert (H3 : km_example g3).
  { apply km_example_prog. unfold prog_reachable. etrans; [exact pg1_reachable|].
    apply rtc_once. by apply prog_turn. }
  assert (H4 : km_example g4).
  { eapply rtc_r; [exact H3|]. apply km_leaves; [done..|].
    replace (p_phase (km_prog g3)) with Escaped by (vm_compute; reflexivity). right. left. }
  exists g5. split; [|split; vm_compute; reflexivity].
  assert (Hs : step client_program (p_world (km_prog g4)) w5).
  { exact (step_io client_program (p_world (km_prog g4)) headerRead [] [] (IoErr true) eq_refl I). }
  eapply rtc_r; [exact H4|]. refine (km_io _ _ _ _ g4 w5 _ _ _ _ Hs); vm_compute; reflexivity.
Qed.

(** [quit] is typed while the attempt to connect is under way: nothing cancels
    it, the closure that [connect] posted opens the socket again. *)
Definition quitting0 : prog := turn (lit "quit") pg0.
Definition quitting1 : kwld := run (h_post client_program 0 PConnect) ((p_world quitting0) <| w_posts := [] |>).
Definition quitting2 : kwld := complete client_program OpResolve (IoOk []) ([] ++ []) quitting1.
Definition quitting3 : kwld := complete client_program OpConnect (IoOk []) ([] ++ []) quitting2.
Definition quitting : prog := quitting0 <| p_world := quitting3 |>.

Lemma quitting_reachable : prog_reachable pg0 quitting.
Proof.
  assert (Hp : w_posts (p_world quitting0) = [PConnect]) by (vm_compute; reflexivity).
  assert (H1 : w_ops quitting1 = [OpResolve]) by (vm_compute; reflexivity).
  assert (H2 : w_ops quitting2 = [OpConnect]) by (vm_compute; reflexivity).
  assert (Hph : p_phase quitting0 = Draining true) by (vm_compute; reflexivity).
  apply (rtc_l _ _ quitting0); [by apply (prog_turn pg0 (lit "quit"))|].
  refine (prog_io_run quitting0 quitting3 _ _ _); [vm_compute; reflexivity|by rewrite Hph|].
  apply (rtc_l _ _ quitting1); [exact (step_post client_program _ PConnect [] Hp)|].
  apply (rtc_l _ _ quitting2); [exact (step_io client_program quitting1 OpResolve [] [] (IoOk []) H1 eq_refl)|].
  apply rtc_once. exact (step_io client_program quitting2 OpConnect [] [] (IoOk []) H2 eq_refl).
Qed.

Definition held_up (p : prog) : Prop :=
  (p_phase p = Draining true ∧ io_running p = true) ∨ (p_phase p = Ended ∧ w_ops (p_world p) = []).

Lemma held_up_step p p' : held_up p → prog_step p p' → held_up p'.
Proof.
  intros Hi Hs. destruct Hs as [p w' Hio Hf Hs|p now|p line Hp|p k q d pkt Hp|p k q d Hp|p b Hp Hd].
  - destruct Hi as [Hi|[Hi _]]; [by left|by rewrite Hi in Hf].
  - destruct Hi as [Hi|Hi]; [by left|by right].
  - destruct Hi as [[Hi _]|[Hi _]]; congruence.
  - destruct Hi as [[Hi _]|[Hi _]]; congruence.
  - destruct Hi as [[Hi _]|[Hi _]]; congruence.
  - destruct Hi as [[Hi Hio]|[Hi _]]; [|congruence]. rewrite Hp in Hi. injection Hi as ->.
    right. split; [done|]. destruct Hd as [Hd|[Hd _]]; [congruence|done].
Qed.

(** The connection is established and read from: however the program goes on,
    [main] waits for the I/O thread as long as the server neither sends nor
    closes. *)
Theorem quit_while_connecting_waits :
  km_example (km1 <| km_prog := quitting |>) ∧
  connected_ (w_st (p_world quitting)) = true ∧ p_phase quitting = Draining true ∧
  headerRead ∈ w_ops (p_world quitting) ∧
  ∀ p', prog_reachable quitting p' → headerRead ∈ w_ops (p_world p') → p_phase p' = Draining true.
Proof.
  assert (Hph : p_phase quitting = Draining true) by (vm_compute; reflexivity).
  assert (Hio : io_running quitting = true) by (vm_compute; reflexivity).
  assert (Hops : w_ops (p_world quitting) = [headerRead]) by (vm_compute; reflexivity).
  assert (Hcon : connected_ (w_st (p_world quitting)) = true) by (vm_compute; reflexivity).
  split; [apply km_example_prog, quitting_reachable|]. split; [exact Hcon|]. split; [exact Hph|].
  split; [rewrite Hops; left|]. intros p' Hr Hin.
  assert (Hp : held_up p') by (exact (rtc_invariant prog_step held_up quitting p' (or_introl (conj Hph Hio)) held_up_step Hr)).
  destruct Hp as [[Hp _]|[_ Hp]]; [done|]. rewrite Hp in Hin. by apply not_elem_of_nil in Hin.
Qed.

(** ** The theorems at concrete runs *)

Lemma tcp_client_program_refines_console_witness :
  km_query km1 = Some (lit "example.org", lit "9000") ∧
  ∃ host port clientId, client_arguments 0 example_argv = Some (host, port, clientId) ∧
    km_query km1 = Some (host, to_string port) ∧
    prog_reachable (main_prog clientId (mkPacketHeader 0 0 0 0) (vec_zero 12) 0) (km_prog km1).
Proof.
  split; [vm_compute; reflexivity|].
  refine (tcp_client_program_refines_console example_argv 0 _ _ 0 km1 _ _); [exact km1_reachable|].
  vm_compute. reflexivity.
Defined.

(** The port is not a number: the program says so and ends with status 0. *)
Definition wrong_argv : list bytes := [lit "example.org"; lit "http"].
Definition km_wrong : kmain :=
  km_begin wrong_argv 0 (mkPacketHeader 0 0 0 0) (vec_zero 12)
    (km_start (mkPacketHeader 0 0 0 0) (vec_zero 12) 0).

Lemma tcp_client_program_ends_witness :
  km_errors km_wrong = [lit "Exception: stoi"] ∧ 0 = 0 ∧ km_main km_wrong = KmReturn.
Proof.
  split; [vm_compute; reflexivity|].
  refine (tcp_client_program_ends wrong_argv 0 (mkPacketHeader 0 0 0 0) (vec_zero 12) 0
    (km_wrong <| km_end := Some (Exited 0) |>) (Exited 0) _ eq_refl).
  eapply rtc_l; [by apply km_begins|]. apply rtc_once. by apply km_returns.
Defined.

